(** * NFT generator: a shallow embedding of the image/metadata pipeline

    The development follows the TypeScript sources
      - [src/utils/contract-override.ts]  (the generator: layer scan, random
        combination, canvas compositing, metadata sidecar),
      - [src/utils/minioClient.ts]        (object-store upload, last token scan),
      - [src/utils/config.ts]             (object-store configuration),
      - [src/app/actions.ts]              (the server actions that drive them).

    Strings are byte strings holding well-formed UTF-8 text; JavaScript numbers
    that the program uses as counters are integers ([Z]) with [NaN] added where
    [parseInt] can produce it.  Effects (file system, console, random source,
    clock, object store) are threaded through an explicit [world]; an exception
    is an [outcome] of the computation, and the world reached when it was thrown
    is kept, as in the running program. *)

From Stdlib Require Import ZArith String Ascii List Lia DecimalString QArith Qround.
From Stdlib Require DecimalPos.
From stdpp Require Import gmap strings list.

Open Scope string_scope.
Open Scope Z_scope.
Open Scope list_scope.

(** ** Characters and strings *)

Definition DQ : string := String "034"%char EmptyString.
Definition LF : string := String "010"%char EmptyString.

Definition ascii_code (c : ascii) : N := N_of_ascii c.

Definition is_upper (c : ascii) : bool :=
  (65 <=? ascii_code c)%N && (ascii_code c <=? 90)%N.

(** [String.prototype.toLowerCase] on the ASCII letters.  No character outside
    ASCII lower-cases to [.], [p], [n] or [g], so the suffix test the program
    makes on the result is not affected by the other mappings; the lower case
    of the letters outside ASCII is not modelled. *)
Definition lower_char (c : ascii) : ascii :=
  if is_upper c then ascii_of_N (ascii_code c + 32) else c.

Fixpoint toLowerCase (s : string) : string :=
  match s with
  | EmptyString => EmptyString
  | String c s' => String (lower_char c) (toLowerCase s')
  end.

Definition startsWith (s pre : string) : bool := String.prefix pre s.

(** [s.endsWith(suf)]: some tail of [s] is [suf]. *)
Fixpoint endsWith (s suf : string) : bool :=
  String.eqb s suf ||
  match s with
  | EmptyString => false
  | String _ s' => endsWith s' suf
  end.

(** [s.includes(t)] *)
Fixpoint includes (s t : string) : bool :=
  String.prefix t s ||
  match s with
  | EmptyString => false
  | String _ s' => includes s' t
  end.

(** [s.replace(t, r)] with a string pattern: the first occurrence only. *)
Fixpoint replace_first (t r s : string) : string :=
  if String.prefix t s then r +:+ substring (String.length t) (String.length s) s
  else match s with
       | EmptyString => EmptyString
       | String c s' => String c (replace_first t r s')
       end.

Fixpoint all_chars (p : ascii -> bool) (s : string) : bool :=
  match s with
  | EmptyString => true
  | String c s' => p c && all_chars p s'
  end.

Definition not_dot_or_slash (c : ascii) : bool :=
  negb (Ascii.eqb c "."%char) && negb (Ascii.eqb c "/"%char).

(** [s.replace(/\.[^/.]+$/, "")]: the leftmost position holding a dot that is
    followed, up to the end of the string, by one or more characters that are
    neither a dot nor a slash; the string is cut there. *)
Fixpoint strip_extension (s : string) : string :=
  match s with
  | EmptyString => EmptyString
  | String c s' =>
      if Ascii.eqb c "."%char && negb (String.eqb s' "") && all_chars not_dot_or_slash s'
      then EmptyString
      else String c (strip_extension s')
  end.

Fixpoint split_on (sep : ascii) (s : string) : list string :=
  match s with
  | EmptyString => [EmptyString]
  | String c s' =>
      if Ascii.eqb c sep then EmptyString :: split_on sep s'
      else match split_on sep s' with
           | [] => [String c EmptyString]
           | h :: t => String c h :: t
           end
  end.

Fixpoint join_with (sep : string) (l : list string) : string :=
  match l with
  | [] => EmptyString
  | [x] => x
  | x :: rest => x +:+ sep +:+ join_with sep rest
  end.

(** ** Numbers *)

(** A JavaScript number as the program uses it: an integer counter, or the
    [NaN] that [parseInt] gives.  Integers are taken in the range where double
    arithmetic and decimal printing are exact. *)
Inductive number :=
| Num (z : Z)
| NaN.

Definition number_to_string (n : number) : string :=
  match n with
  | Num z => NilZero.string_of_int (Z.to_int z)
  | NaN => "NaN"
  end.

Definition number_succ (n : number) : number :=
  match n with
  | Num z => Num (z + 1)
  | NaN => NaN
  end.

Definition isNaN (n : number) : bool :=
  match n with NaN => true | Num _ => false end.

Definition is_digit (c : ascii) : bool :=
  (48 <=? ascii_code c)%N && (ascii_code c <=? 57)%N.

Definition digit_value (c : ascii) : Z := Z.of_N (ascii_code c) - 48.

(** White space of the language (also what [\s] matches): the ASCII blanks
    and line terminators, and the UTF-8 forms of U+00A0, U+1680,
    U+2000..U+200A, U+2028, U+2029, U+202F, U+205F, U+3000 and U+FEFF. *)
Definition is_ws1 (c : ascii) : bool :=
  let n := ascii_code c in
  (((9 <=? n) && (n <=? 13)) || (n =? 32))%N.

Definition is_ws2 (c c2 : ascii) : bool :=
  ((ascii_code c =? 194) && (ascii_code c2 =? 160))%N.

Definition is_ws3 (c c2 c3 : ascii) : bool :=
  let n := ascii_code c in
  let n2 := ascii_code c2 in
  let n3 := ascii_code c3 in
  (((n =? 225) && (n2 =? 154) && (n3 =? 128))
   || ((n =? 226) && (n2 =? 128)
       && (((128 <=? n3) && (n3 <=? 138)) || (n3 =? 168) || (n3 =? 169) || (n3 =? 175)))
   || ((n =? 226) && (n2 =? 129) && (n3 =? 159))
   || ((n =? 227) && (n2 =? 128) && (n3 =? 128))
   || ((n =? 239) && (n2 =? 187) && (n3 =? 191)))%N.

(** [s.trimStart()], which is also how [parseInt] skips leading white space. *)
Fixpoint trim_start (s : string) : string :=
  match s with
  | String c s1 =>
      if is_ws1 c then trim_start s1
      else match s1 with
           | String c2 s2 =>
               if is_ws2 c c2 then trim_start s2
               else match s2 with
                    | String c3 s3 => if is_ws3 c c2 c3 then trim_start s3 else s
                    | EmptyString => s
                    end
           | EmptyString => s
           end
  | EmptyString => s
  end.

Fixpoint trim_end (s : string) : string :=
  match s with
  | EmptyString => EmptyString
  | String c s' => if String.eqb (trim_start s) "" then EmptyString else String c (trim_end s')
  end.

(** [s.trim()] *)
Definition trim (s : string) : string := trim_end (trim_start s).

(** [s.replace(/\s+/g, '-')]; [in_run] tells that the run of white space
    being read has already given its dash. *)
Fixpoint dash_white_space (in_run : bool) (s : string) : string :=
  let dash := if in_run then "" else "-" in
  match s with
  | String c s1 =>
      if is_ws1 c then dash +:+ dash_white_space true s1
      else match s1 with
           | String c2 s2 =>
               if is_ws2 c c2 then dash +:+ dash_white_space true s2
               else match s2 with
                    | String c3 s3 =>
                        if is_ws3 c c2 c3 then dash +:+ dash_white_space true s3
                        else String c (dash_white_space false s1)
                    | EmptyString => String c (dash_white_space false s1)
                    end
           | EmptyString => String c (dash_white_space false s1)
           end
  | EmptyString => EmptyString
  end.

Definition is_lower (c : ascii) : bool :=
  (97 <=? ascii_code c)%N && (ascii_code c <=? 122)%N.

Fixpoint keep_chars (p : ascii -> bool) (s : string) : string :=
  match s with
  | EmptyString => EmptyString
  | String c s' => if p c then String c (keep_chars p s') else keep_chars p s'
  end.

Fixpoint digits_prefix (acc : option Z) (s : string) : option Z :=
  match s with
  | String c s' =>
      if is_digit c
      then digits_prefix (Some (10 * default 0 acc + digit_value c)) s'
      else acc
  | EmptyString => acc
  end.

(** [parseInt(s, 10)] *)
Definition parseInt (s : string) : number :=
  let t := trim_start s in
  let '(neg, body) :=
    match t with
    | String "-"%char r => (true, r)
    | String "+"%char r => (false, r)
    | _ => (false, t)
    end in
  match digits_prefix None body with
  | Some z => Num (if neg then - z else z)
  | None => NaN
  end.

(** ** Paths ([path.join] of Node, POSIX flavour) *)

Definition is_noop_segment (seg : string) : bool :=
  String.eqb seg "" || String.eqb seg ".".

(** [normalizeString]: the segments kept so far are held most recent first. *)
Fixpoint normalize_segments (allowAboveRoot : bool) (kept : list string)
    (segs : list string) : list string :=
  match segs with
  | [] => rev kept
  | seg :: rest =>
      if is_noop_segment seg then normalize_segments allowAboveRoot kept rest
      else if String.eqb seg ".." then
        match kept with
        | top :: below =>
            if String.eqb top ".."
            then normalize_segments allowAboveRoot
                   (if allowAboveRoot then ".." :: kept else kept) rest
            else normalize_segments allowAboveRoot below rest
        | [] =>
            normalize_segments allowAboveRoot
              (if allowAboveRoot then [".."] else []) rest
        end
      else normalize_segments allowAboveRoot (seg :: kept) rest
  end.

Definition isAbsolute (p : string) : bool := startsWith p "/".

Definition path_normalize (p : string) : string :=
  if String.eqb p "" then "."
  else
    let trailing := endsWith p "/" in
    let body := join_with "/" (normalize_segments (negb (isAbsolute p)) [] (split_on "/" p)) in
    if String.eqb body "" then
      (if isAbsolute p then "/" else if trailing then "./" else ".")
    else
      let body' := if trailing then body +:+ "/" else body in
      if isAbsolute p then "/" +:+ body' else body'.

Definition path_join (parts : list string) : string :=
  match filter (fun a => negb (String.eqb a "")) parts with
  | [] => "."
  | used => path_normalize (join_with "/" used)
  end.

(** [path.basename(p)], for the paths without a trailing slash that the
    program hands to it. *)
Definition path_basename (p : string) : string :=
  List.last (split_on "/" p) "".


(** ** The world the program runs in *)

(** What a thrown value is: [new Error(message)] of the program itself, or
    the error of a failed system call. *)
Inductive exn :=
| Error (message : string)
| SystemError (code : string) (syscall : string) (path : string).

Definition errno_text (code : string) : string :=
  if String.eqb code "ENOENT" then "no such file or directory"
  else if String.eqb code "ENOTDIR" then "not a directory"
  else if String.eqb code "EISDIR" then "illegal operation on a directory"
  else if String.eqb code "EEXIST" then "file already exists"
  else "unknown error".

Definition exn_message (e : exn) : string :=
  match e with
  | Error m => m
  | SystemError code syscall path =>
      code +:+ ": " +:+ errno_text code +:+ ", " +:+ syscall +:+ " '" +:+ path +:+ "'"
  end.

Inductive outcome (A : Type) :=
| Return (a : A)
| Throw (e : exn).
Arguments Return {A} a.
Arguments Throw {A} e.

(** A file-system entry.  The disk is keyed by resolved absolute paths, given
    as their list of segments; the root is the empty list and always exists. *)
Inductive node :=
| File (data : string)
| Dir.

Inductive level := LOG | WARN | ERROR.

(** One value of [Math.random()]: a rational in the half-open unit interval
    (the rounding of the double product in [Math.random() * n] never reaches
    [n], so the exact product stands for it). *)
Definition in_unit (q : Q) : bool := Qle_bool 0 q && negb (Qle_bool 1 q).

Record draw := mkDraw {
  draw_value : Q;
  draw_range : in_unit draw_value = true
}.

(** The S3-compatible object store behind the MinIO client. *)
Record remote := mkRemote {
  accepts_client : string -> number -> bool;  (* the client accepts end point and port *)
  reachable : bool;                        (* [listBuckets] answers *)
  valid_bucket : string -> bool;           (* the client accepts the bucket name *)
  accepts_put : string -> string -> bool;  (* the server accepts the object *)
  buckets : gset string;
  objects : gmap (string * string) (string * string)  (* content type and bytes, by bucket and key *)
}.

(** The reply of the chain API to the total-supply request, after the HTTP
    exchange: the request fails with a message (network failure, error status,
    undecodable body), or a body arrives that is a bare number or an object
    whose fields hold numbers or strings. *)
Inductive supply_value :=
| SupplyNumber (z : Z)
| SupplyString (s : string).

Inductive api_reply :=
| ReplyFailed (message : string)
| ReplyNumber (z : Z)
| ReplyObject (fields : list (string * supply_value)).

Record world := mkWorld {
  disk : gmap (list string) node;
  cwd : string;
  console : list (level * string);
  randoms : nat -> draw;     (* the values [Math.random()] will return *)
  drawn : nat;               (* how many were taken *)
  clock : string;            (* what [new Date().toISOString()] returns *)
  environ : gmap string string;   (* [process.env] *)
  chain : api_reply;
  store : remote
}.

Definition with_disk (d : gmap (list string) node) (w : world) : world :=
  mkWorld d (cwd w) (console w) (randoms w) (drawn w) (clock w) (environ w) (chain w) (store w).

Definition with_console (c : list (level * string)) (w : world) : world :=
  mkWorld (disk w) (cwd w) c (randoms w) (drawn w) (clock w) (environ w) (chain w) (store w).

Definition with_drawn (n : nat) (w : world) : world :=
  mkWorld (disk w) (cwd w) (console w) (randoms w) n (clock w) (environ w) (chain w) (store w).

Definition with_store (r : remote) (w : world) : world :=
  mkWorld (disk w) (cwd w) (console w) (randoms w) (drawn w) (clock w) (environ w) (chain w) r.

(** ** Computations: state and exceptions *)

Definition M (A : Type) : Type := world -> outcome A * world.

Definition ret {A} (a : A) : M A := fun w => (Return a, w).

Definition throw {A} (e : exn) : M A := fun w => (Throw e, w).

Definition bind {A B} (m : M A) (k : A -> M B) : M B :=
  fun w =>
    match m w with
    | (Return a, w') => k a w'
    | (Throw e, w') => (Throw e, w')
    end.

(** [try { m } catch (e) { h e }] *)
Definition try_catch {A} (m : M A) (h : exn -> M A) : M A :=
  fun w =>
    match m w with
    | (Return a, w') => (Return a, w')
    | (Throw e, w') => h e w'
    end.

Notation "'let*' x ':=' m 'in' k" := (bind m (fun x => k))
  (at level 10, x name, m at level 100, k at level 200).
Notation "m ';;' k" := (bind m (fun _ => k))
  (at level 100, k at level 200, right associativity).

Definition get_world : M world := fun w => (Return w, w).

Definition console_write (l : level) (text : string) : M unit :=
  fun w => (Return tt, with_console (console w ++ [(l, text)]) w).

Definition console_log := console_write LOG.
Definition console_warn := console_write WARN.
Definition console_error := console_write ERROR.

(** [Math.floor(Math.random() * n)] *)
Definition random_index (n : nat) : M nat :=
  fun w =>
    let r := draw_value (randoms w (drawn w)) in
    (Return (Z.to_nat (Qfloor (r * inject_Z (Z.of_nat n)))), with_drawn (S (drawn w)) w).

(** [new Date().toISOString()] *)
Definition now_iso : M string := fun w => (Return (clock w), w).

(** ** The file system *)

(** A path is resolved against the working directory by its text: empty and
    [.] segments vanish, [..] steps to the parent and stays at the root. *)
Definition resolve (wd p : string) : list string :=
  if isAbsolute p then normalize_segments false [] (split_on "/" p)
  else normalize_segments false [] (split_on "/" wd ++ split_on "/" p).

Definition lookup_node (d : gmap (list string) node) (k : list string) : option node :=
  match k with
  | [] => Some Dir
  | _ => d !! k
  end.

Definition parent (k : list string) : list string := removelast k.

(** The names directly under [k], in the order the disk enumerates them. *)
Definition children (d : gmap (list string) node) (k : list string) : list string :=
  omap (fun '(k', _) =>
          match k' with
          | [] => None
          | _ => if decide (parent k' = k) then Some (List.last k' "") else None
          end)
       (map_to_list d).

Definition existsSync (p : string) : M bool :=
  fun w => (Return (bool_decide (is_Some (lookup_node (disk w) (resolve (cwd w) p)))), w).

Definition readdirSync (p : string) : M (list string) :=
  fun w =>
    let k := resolve (cwd w) p in
    match lookup_node (disk w) k with
    | Some Dir => (Return (children (disk w) k), w)
    | Some (File _) => (Throw (SystemError "ENOTDIR" "scandir" p), w)
    | None => (Throw (SystemError "ENOENT" "scandir" p), w)
    end.

(** [mkdir -p] along the prefixes of [k], shortest first. *)
Fixpoint make_dirs (done todo : list string) (d : gmap (list string) node)
    : option (gmap (list string) node) :=
  match todo with
  | [] => Some d
  | seg :: rest =>
      let k := done ++ [seg] in
      match d !! k with
      | Some (File _) => None
      | Some Dir => make_dirs k rest d
      | None => make_dirs k rest (<[k := Dir]> d)
      end
  end.

(** [fs.ensureDirSync(p)] (and [fs.ensureDir]): a file in the way of the
    directory itself gives [EEXIST], a file in the way of one of its
    ancestors [ENOTDIR]. *)
Definition ensureDirSync (p : string) : M unit :=
  fun w =>
    match make_dirs [] (resolve (cwd w) p) (disk w) with
    | Some d => (Return tt, with_disk d w)
    | None =>
        match disk w !! resolve (cwd w) p with
        | Some (File _) => (Throw (SystemError "EEXIST" "mkdir" p), w)
        | _ => (Throw (SystemError "ENOTDIR" "mkdir" p), w)
        end
    end.

Definition writeFileSync (p : string) (data : string) : M unit :=
  fun w =>
    let k := resolve (cwd w) p in
    match k with
    | [] => (Throw (SystemError "EISDIR" "open" p), w)
    | _ =>
        match lookup_node (disk w) (parent k), lookup_node (disk w) k with
        | Some Dir, Some Dir => (Throw (SystemError "EISDIR" "open" p), w)
        | Some Dir, _ => (Return tt, with_disk (<[k := File data]> (disk w)) w)
        | Some (File _), _ => (Throw (SystemError "ENOTDIR" "open" p), w)
        | None, _ => (Throw (SystemError "ENOENT" "open" p), w)
        end
    end.

Definition readFileSync (p : string) : M string :=
  fun w =>
    match lookup_node (disk w) (resolve (cwd w) p) with
    | Some (File data) => (Return data, w)
    | Some Dir => (Throw (SystemError "EISDIR" "read" p), w)
    | None => (Throw (SystemError "ENOENT" "open" p), w)
    end.

(** ** JSON text ([JSON.stringify(v, null, 2)] and [JSON.parse]) *)

(** A JSON value.  An object keeps its members in insertion order, which is
    the order [JSON.stringify] follows for the property names of this program
    (none of them is an array index); a number is kept as its literal. *)
#[local] Set Warnings "-register-all".

Inductive json :=
| JNull
| JBool (b : bool)
| JNumber (literal : string)
| JString (s : string)
| JArray (items : list json)
| JObject (members : list (string * json)).

Definition hex_digit (n : N) : ascii :=
  if (n <? 10)%N then ascii_of_N (48 + n) else ascii_of_N (87 + n).

(** [QuoteJSONString], one character: the quote, the backslash and the
    control characters are escaped, everything else is copied. *)
Definition escape_char (c : ascii) : string :=
  let n := ascii_code c in
  if (n =? 8)%N then "\b"
  else if (n =? 9)%N then "\t"
  else if (n =? 10)%N then "\n"
  else if (n =? 12)%N then "\f"
  else if (n =? 13)%N then "\r"
  else if (n =? 34)%N then "\" +:+ DQ
  else if (n =? 92)%N then "\\"
  else if (n <? 32)%N then
    "\u00" +:+ String (hex_digit (n / 16)) (String (hex_digit (n mod 16)) EmptyString)
  else String c EmptyString.

Fixpoint escape (s : string) : string :=
  match s with
  | EmptyString => EmptyString
  | String c s' => escape_char c +:+ escape s'
  end.

Definition quote (s : string) : string := DQ +:+ escape s +:+ DQ.

Definition gap : string := "  ".

(** [SerializeJSONProperty] with a gap of two blanks; [indent] is the
    indentation in force where the value starts. *)
Fixpoint serialize (indent : string) (v : json) {struct v} : string :=
  match v with
  | JNull => "null"
  | JBool true => "true"
  | JBool false => "false"
  | JNumber literal => literal
  | JString s => quote s
  | JArray [] => "[]"
  | JArray items =>
      let inner := indent +:+ gap in
      "[" +:+ LF +:+ inner
      +:+ join_with ("," +:+ LF +:+ inner) (map (serialize inner) items)
      +:+ LF +:+ indent +:+ "]"
  | JObject [] => "{}"
  | JObject members =>
      let inner := indent +:+ gap in
      "{" +:+ LF +:+ inner
      +:+ join_with ("," +:+ LF +:+ inner)
            (map (fun m => quote (fst m) +:+ ": " +:+ serialize inner (snd m)) members)
      +:+ LF +:+ indent +:+ "}"
  end.

Definition JSON_stringify (v : json) : string := serialize "" v.

Definition is_json_ws (c : ascii) : bool :=
  let n := ascii_code c in
  (n =? 32)%N || (n =? 9)%N || (n =? 10)%N || (n =? 13)%N.

Fixpoint skip_ws (s : string) : string :=
  match s with
  | String c s' => if is_json_ws c then skip_ws s' else s
  | EmptyString => EmptyString
  end.

Definition hex_value (c : ascii) : option N :=
  let n := ascii_code c in
  if ((48 <=? n) && (n <=? 57))%N then Some (n - 48)%N
  else if ((97 <=? n) && (n <=? 102))%N then Some (n - 87)%N
  else if ((65 <=? n) && (n <=? 70))%N then Some (n - 55)%N
  else None.

Definition hex4 (a b c d : ascii) : option N :=
  match hex_value a, hex_value b, hex_value c, hex_value d with
  | Some x, Some y, Some z, Some t => Some (((x * 16 + y) * 16 + z) * 16 + t)%N
  | _, _, _, _ => None
  end.

Definition byte_string (n : N) : string := String (ascii_of_N n) EmptyString.

(** The UTF-8 bytes of a code point (a lone surrogate is written in the same
    three-byte pattern). *)
Definition utf8 (cp : N) : string :=
  if (cp <? 128)%N then byte_string cp
  else if (cp <? 2048)%N then
    byte_string (192 + cp / 64) +:+ byte_string (128 + cp mod 64)
  else if (cp <? 65536)%N then
    byte_string (224 + cp / 4096) +:+ byte_string (128 + (cp / 64) mod 64)
    +:+ byte_string (128 + cp mod 64)
  else
    byte_string (240 + cp / 262144) +:+ byte_string (128 + (cp / 4096) mod 64)
    +:+ byte_string (128 + (cp / 64) mod 64) +:+ byte_string (128 + cp mod 64).

Definition is_high_surrogate (u : N) : bool := ((55296 <=? u) && (u <=? 56319))%N.
Definition is_low_surrogate (u : N) : bool := ((56320 <=? u) && (u <=? 57343))%N.

Definition simple_escape (c : ascii) : option ascii :=
  let n := ascii_code c in
  if (n =? 34)%N then Some "034"%char
  else if (n =? 92)%N then Some "\"%char
  else if (n =? 47)%N then Some "/"%char
  else if (n =? 98)%N then Some "008"%char
  else if (n =? 102)%N then Some "012"%char
  else if (n =? 110)%N then Some "010"%char
  else if (n =? 114)%N then Some "013"%char
  else if (n =? 116)%N then Some "009"%char
  else None.

Definition prepend (pre : string) (r : option (string * string)) : option (string * string) :=
  match r with
  | Some (s, rest) => Some (pre +:+ s, rest)
  | None => None
  end.

(** The body of a string literal, after its opening quote: the decoded
    content and the text that follows the closing quote.  A high surrogate
    escape directly followed by a low surrogate escape stands for one code
    point. *)
Fixpoint lex_string (s : string) : option (string * string) :=
  match s with
  | EmptyString => None
  | String c r =>
      if (ascii_code c =? 34)%N then Some (EmptyString, r)
      else if (ascii_code c =? 92)%N then
        match r with
        | String e r1 =>
            match simple_escape e with
            | Some ch => prepend (String ch EmptyString) (lex_string r1)
            | None =>
                if (ascii_code e =? 117)%N then
                  match r1 with
                  | String h1 (String h2 (String h3 (String h4 r2))) =>
                      match hex4 h1 h2 h3 h4 with
                      | Some u =>
                          if is_high_surrogate u then
                            match r2 with
                            | String b (String e' (String l1 (String l2 (String l3 (String l4 r3))))) =>
                                match hex4 l1 l2 l3 l4 with
                                | Some u' =>
                                    if (ascii_code b =? 92)%N && (ascii_code e' =? 117)%N
                                       && is_low_surrogate u'
                                    then prepend
                                           (utf8 (65536 + (u - 55296) * 1024 + (u' - 56320))%N)
                                           (lex_string r3)
                                    else prepend (utf8 u) (lex_string r2)
                                | None => prepend (utf8 u) (lex_string r2)
                                end
                            | _ => prepend (utf8 u) (lex_string r2)
                            end
                          else prepend (utf8 u) (lex_string r2)
                      | None => None
                      end
                  | _ => None
                  end
                else None
            end
        | EmptyString => None
        end
      else if (ascii_code c <? 32)%N then None
      else prepend (String c EmptyString) (lex_string r)
  end.

Fixpoint span_digits (s : string) : string * string :=
  match s with
  | String c r =>
      if is_digit c then let '(d, rest) := span_digits r in (String c d, rest) else (EmptyString, s)
  | EmptyString => (EmptyString, EmptyString)
  end.

(** A number literal: an optional minus sign; a zero, or a non-zero digit and
    further digits; an optional fraction (a dot and digits); an optional
    exponent ([e] or [E], an optional sign, digits). *)
Definition lex_number (s : string) : option (string * string) :=
  let '(sign, s1) :=
    match s with
    | String "-"%char r => ("-", r)
    | _ => ("", s)
    end in
  let '(int, s2) :=
    match s1 with
    | String "0"%char r => ("0", r)
    | _ => span_digits s1
    end in
  if String.eqb int "" then None
  else
    let '(frac, s3) :=
      match s2 with
      | String "."%char r => let '(d, rest) := span_digits r in ("." +:+ d, rest)
      | _ => ("", s2)
      end in
    if String.eqb frac "." then None
    else
      let '(mark, s4) :=
        match s3 with
        | String "e"%char r => ("e", r)
        | String "E"%char r => ("E", r)
        | _ => ("", s3)
        end in
      if String.eqb mark "" then Some (sign +:+ int +:+ frac, s3)
      else
        let '(esign, s5) :=
          match s4 with
          | String "+"%char r => ("+", r)
          | String "-"%char r => ("-", r)
          | _ => ("", s4)
          end in
        let '(ed, s6) := span_digits s5 in
        if String.eqb ed "" then None
        else Some (sign +:+ int +:+ frac +:+ mark +:+ esign +:+ ed, s6).

Fixpoint drop_prefix (pre s : string) : option string :=
  match pre with
  | EmptyString => Some s
  | String a pre' =>
      match s with
      | String b s' => if Ascii.eqb a b then drop_prefix pre' s' else None
      | EmptyString => None
      end
  end.

(** Setting a property: an existing name keeps its place, a new one goes last. *)
Fixpoint obj_set (k : string) (v : json) (m : list (string * json)) : list (string * json) :=
  match m with
  | [] => [(k, v)]
  | (k', v') :: rest =>
      if String.eqb k' k then (k', v) :: rest else (k', v') :: obj_set k v rest
  end.

Fixpoint obj_get (k : string) (m : list (string * json)) : option json :=
  match m with
  | [] => None
  | (k', v') :: rest => if String.eqb k' k then Some v' else obj_get k rest
  end.

(** The recursive-descent reader.  [fuel] bounds the nesting and the number
    of items read at one level; the length of the text is always enough. *)
Fixpoint parse_value (fuel : nat) (s : string) {struct fuel} : option (json * string) :=
  match fuel with
  | O => None
  | S fuel' =>
      match skip_ws s with
      | EmptyString => None
      | String c r =>
          let n := ascii_code c in
          if (n =? 123)%N then
            match skip_ws r with
            | String c' r' =>
                if (ascii_code c' =? 125)%N then Some (JObject [], r')
                else parse_members fuel' [] r
            | EmptyString => None
            end
          else if (n =? 91)%N then
            match skip_ws r with
            | String c' r' =>
                if (ascii_code c' =? 93)%N then Some (JArray [], r')
                else parse_items fuel' [] r
            | EmptyString => None
            end
          else if (n =? 34)%N then
            match lex_string r with
            | Some (str, rest) => Some (JString str, rest)
            | None => None
            end
          else if (n =? 116)%N then
            match drop_prefix "true" (String c r) with
            | Some rest => Some (JBool true, rest)
            | None => None
            end
          else if (n =? 102)%N then
            match drop_prefix "false" (String c r) with
            | Some rest => Some (JBool false, rest)
            | None => None
            end
          else if (n =? 110)%N then
            match drop_prefix "null" (String c r) with
            | Some rest => Some (JNull, rest)
            | None => None
            end
          else
            match lex_number (String c r) with
            | Some (lit, rest) => Some (JNumber lit, rest)
            | None => None
            end
      end
  end
with parse_items (fuel : nat) (acc : list json) (s : string) {struct fuel}
    : option (json * string) :=
  match fuel with
  | O => None
  | S fuel' =>
      match parse_value fuel' s with
      | Some (v, r) =>
          match skip_ws r with
          | String c r' =>
              if (ascii_code c =? 44)%N then parse_items fuel' (acc ++ [v]) r'
              else if (ascii_code c =? 93)%N then Some (JArray (acc ++ [v]), r')
              else None
          | EmptyString => None
          end
      | None => None
      end
  end
with parse_members (fuel : nat) (acc : list (string * json)) (s : string) {struct fuel}
    : option (json * string) :=
  match fuel with
  | O => None
  | S fuel' =>
      match skip_ws s with
      | String q r =>
          if (ascii_code q =? 34)%N then
            match lex_string r with
            | Some (key, r1) =>
                match skip_ws r1 with
                | String c r2 =>
                    if (ascii_code c =? 58)%N then
                      match parse_value fuel' r2 with
                      | Some (v, r3) =>
                          match skip_ws r3 with
                          | String c' r4 =>
                              if (ascii_code c' =? 44)%N
                              then parse_members fuel' (obj_set key v acc) r4
                              else if (ascii_code c' =? 125)%N
                              then Some (JObject (obj_set key v acc), r4)
                              else None
                          | EmptyString => None
                          end
                      | None => None
                      end
                    else None
                | EmptyString => None
                end
            | None => None
            end
          else None
      | EmptyString => None
      end
  end.

(** [JSON.parse(text)]: one value, then nothing but white space. *)
Definition JSON_parse (text : string) : option json :=
  match parse_value (S (String.length text)) text with
  | Some (v, rest) => if String.eqb (skip_ws rest) "" then Some v else None
  | None => None
  end.

(** ** The generator ([src/utils/contract-override.ts]) *)

Module LayerConfig.
Record t := mk {
  name : string;
  folder : string;
  required : bool
}.
End LayerConfig.

Module NFTConfig.
Record t := mk {
  collectionName : string;
  description : string;
  width : Z;
  height : Z;
  outputDir : string;
  layers : list LayerConfig.t;
  s3Endpoint : option string;
  s3BucketName : option string
}.
End NFTConfig.

Module LayerAttribute.
Record t := mk {
  name : string;
  trait : string;
  path : string
}.
End LayerAttribute.

Module Attribute.
Record t := mk {
  trait_type : string;
  value : string
}.
End Attribute.

Module NFTMetadata.
Record t := mk {
  name : string;
  description : string;
  image : string;
  attributes : list Attribute.t;
  timestamp : string
}.
End NFTMetadata.

Module Generated.
Record t := mk {
  imagePath : string;
  metadataPath : string;
  metadata : NFTMetadata.t
}.
End Generated.

Definition DEFAULT_CONFIG : NFTConfig.t :=
  NFTConfig.mk "Dog NFT Collection" "A collection of unique dog NFTs with timestamps"
    1000 1000 "./public/output"
    [ LayerConfig.mk "Background" "./public/assets/layers/backgrounds" true;
      LayerConfig.mk "Subject" "./public/assets/layers/subjects" true ]
    None None.

(** The value [JSON.stringify] walks for a metadata object. *)
Definition attribute_json (a : Attribute.t) : json :=
  JObject [("trait_type", JString (Attribute.trait_type a));
           ("value", JString (Attribute.value a))].

Definition metadata_json (m : NFTMetadata.t) : json :=
  JObject [("name", JString (NFTMetadata.name m));
           ("description", JString (NFTMetadata.description m));
           ("image", JString (NFTMetadata.image m));
           ("attributes", JArray (map attribute_json (NFTMetadata.attributes m)));
           ("timestamp", JString (NFTMetadata.timestamp m))].

(** The drawing surface of the [canvas] package, as the list of what was
    drawn on it, with the context properties the program sets. *)
Inductive draw_op :=
| FillRect (style : string) (x y w h : Z)
| DrawImage (bitmap : string) (x y w h : Z)
| StrokeText (style : string) (lineWidth : Z) (font align text : string) (x y : Q)
| FillText (style : string) (font align text : string) (x y : Q).

Record context2d := mkContext {
  fillStyle : string;
  strokeStyle : string;
  lineWidth : Z;
  font : string;
  textAlign : string;
  drawn_ops : list draw_op
}.

Definition createCanvas : context2d :=
  mkContext "#000000" "#000000" 1 "10px sans-serif" "start" [].

Definition set_fillStyle (s : string) (ctx : context2d) : context2d :=
  mkContext s (strokeStyle ctx) (lineWidth ctx) (font ctx) (textAlign ctx) (drawn_ops ctx).
Definition set_strokeStyle (s : string) (ctx : context2d) : context2d :=
  mkContext (fillStyle ctx) s (lineWidth ctx) (font ctx) (textAlign ctx) (drawn_ops ctx).
Definition set_lineWidth (n : Z) (ctx : context2d) : context2d :=
  mkContext (fillStyle ctx) (strokeStyle ctx) n (font ctx) (textAlign ctx) (drawn_ops ctx).
Definition set_font (s : string) (ctx : context2d) : context2d :=
  mkContext (fillStyle ctx) (strokeStyle ctx) (lineWidth ctx) s (textAlign ctx) (drawn_ops ctx).
Definition set_textAlign (s : string) (ctx : context2d) : context2d :=
  mkContext (fillStyle ctx) (strokeStyle ctx) (lineWidth ctx) (font ctx) s (drawn_ops ctx).
Definition put_op (op : draw_op) (ctx : context2d) : context2d :=
  mkContext (fillStyle ctx) (strokeStyle ctx) (lineWidth ctx) (font ctx) (textAlign ctx)
    (drawn_ops ctx ++ [op]).

Definition fillRect (x y w h : Z) (ctx : context2d) : context2d :=
  put_op (FillRect (fillStyle ctx) x y w h) ctx.
Definition drawImage (bitmap : string) (x y w h : Z) (ctx : context2d) : context2d :=
  put_op (DrawImage bitmap x y w h) ctx.
Definition strokeText (text : string) (x y : Q) (ctx : context2d) : context2d :=
  put_op (StrokeText (strokeStyle ctx) (lineWidth ctx) (font ctx) (textAlign ctx) text x y) ctx.
Definition fillText (text : string) (x y : Q) (ctx : context2d) : context2d :=
  put_op (FillText (fillStyle ctx) (font ctx) (textAlign ctx) text x y) ctx.

(** The image codec of the [canvas] package: what a file's bytes decode to,
    if they decode, and the PNG bytes of a surface. *)
Record codec := mkCodec {
  decode_image : string -> option string;
  encode_png : Z -> Z -> list draw_op -> string
}.

Section Generator.

Variable png : codec.

(** [getImagesForLayer] *)
Definition getImagesForLayer (layerConfig : LayerConfig.t) : M (list LayerAttribute.t) :=
  let* present := existsSync (LayerConfig.folder layerConfig) in
  if negb present then
    console_log ("Warning: Folder does not exist: " +:+ LayerConfig.folder layerConfig) ;;
    ret []
  else
    let* entries := readdirSync (LayerConfig.folder layerConfig) in
    let files := filter (fun file => endsWith (toLowerCase file) ".png" = true) entries in
    ret (map (fun file =>
                LayerAttribute.mk (LayerConfig.name layerConfig) (strip_extension file)
                  (path_join [LayerConfig.folder layerConfig; file]))
             files).

(** The loop of [createRandomCombination] over the layers still to visit.
    [images[i]] is read with the first image as the value outside the array;
    the index drawn is always inside it (lemma [random_index_lt]). *)
Fixpoint combine_layers (todo : list LayerConfig.t) (combination : list LayerAttribute.t)
    : M (list LayerAttribute.t) :=
  match todo with
  | [] => ret combination
  | layer :: rest =>
      let* images := getImagesForLayer layer in
      match images with
      | [] =>
          if LayerConfig.required layer
          then throw (Error ("Layer " +:+ DQ +:+ LayerConfig.name layer +:+ DQ
                             +:+ " is required but has no images"))
          else combine_layers rest combination
      | first :: _ =>
          let* i := random_index (length images) in
          let selectedImage := nth i images first in
          combine_layers rest (combination ++ [selectedImage])
      end
  end.

(** [createRandomCombination] *)
Definition createRandomCombination (config : NFTConfig.t) : M (list LayerAttribute.t) :=
  combine_layers (NFTConfig.layers config) [].

(** [addTimestampToCanvas]; the surface is returned with the text. *)
Definition addTimestampToCanvas (ctx : context2d) (width height : Z) : M (string * context2d) :=
  let* timestamp := now_iso in
  let ctx := set_fillStyle "white" ctx in
  let ctx := set_strokeStyle "black" ctx in
  let ctx := set_lineWidth 3 ctx in
  let ctx := set_font "30px Arial" ctx in
  let ctx := set_textAlign "center" ctx in
  let ctx := strokeText timestamp (inject_Z width / 2)%Q 50%Q ctx in
  let ctx := fillText timestamp (inject_Z width / 2)%Q 50%Q ctx in
  ret (timestamp, ctx).

(** [loadImage(path)] *)
Definition loadImage (p : string) : M string :=
  let* data := readFileSync p in
  match decode_image png data with
  | Some bitmap => ret bitmap
  | None => throw (Error "Unsupported image type")
  end.

(** The drawing loop of [generateNFT]: a layer whose image does not load is
    reported on the console and left out. *)
Fixpoint draw_layers (attributes : list LayerAttribute.t) (width height : Z)
    (ctx : context2d) : M context2d :=
  match attributes with
  | [] => ret ctx
  | layer :: rest =>
      let* ctx' :=
        try_catch
          (let* image := loadImage (LayerAttribute.path layer) in
           ret (drawImage image 0 0 width height ctx))
          (fun error =>
             console_error ("Error loading image " +:+ LayerAttribute.path layer +:+ ": "
                            +:+ exn_message error) ;;
             ret ctx) in
      draw_layers rest width height ctx'
  end.

Definition truthy (s : option string) : bool :=
  match s with
  | Some v => negb (String.eqb v "")
  | None => false
  end.

(** The image reference of the metadata: relative, or absolute when the
    object store is configured. *)
Definition image_reference (tokenId : number) (config : NFTConfig.t) : string :=
  if truthy (NFTConfig.s3Endpoint config) && truthy (NFTConfig.s3BucketName config)
  then "https://" +:+ default "" (NFTConfig.s3Endpoint config) +:+ "/"
       +:+ default "" (NFTConfig.s3BucketName config) +:+ "/images/"
       +:+ number_to_string tokenId +:+ ".png"
  else number_to_string tokenId +:+ ".png".

(** [generateNFT] *)
Definition generateNFT (tokenId : number) (config : NFTConfig.t) : M Generated.t :=
  console_log ("Generating NFT #" +:+ number_to_string tokenId +:+ "...") ;;
  ensureDirSync (path_join [NFTConfig.outputDir config; "images"]) ;;
  ensureDirSync (path_join [NFTConfig.outputDir config; "metadata"]) ;;
  let ctx := createCanvas in
  let ctx := set_fillStyle "white" ctx in
  let ctx := fillRect 0 0 (NFTConfig.width config) (NFTConfig.height config) ctx in
  let* attributes := createRandomCombination config in
  let* ctx := draw_layers attributes (NFTConfig.width config) (NFTConfig.height config) ctx in
  let* stamped := addTimestampToCanvas ctx (NFTConfig.width config) (NFTConfig.height config) in
  let timestamp := fst stamped in
  let ctx := snd stamped in
  let outputImagePath :=
    path_join [NFTConfig.outputDir config; "images"; number_to_string tokenId +:+ ".png"] in
  let buffer := encode_png png (NFTConfig.width config) (NFTConfig.height config) (drawn_ops ctx) in
  writeFileSync outputImagePath buffer ;;
  let imageUrl := image_reference tokenId config in
  let metadata :=
    NFTMetadata.mk
      (NFTConfig.collectionName config +:+ " #" +:+ number_to_string tokenId)
      (NFTConfig.description config)
      imageUrl
      (map (fun attr => Attribute.mk (LayerAttribute.name attr) (LayerAttribute.trait attr))
           attributes)
      timestamp in
  let outputMetadataPath :=
    path_join [NFTConfig.outputDir config; "metadata"; number_to_string tokenId +:+ ".json"] in
  writeFileSync outputMetadataPath (JSON_stringify (metadata_json metadata)) ;;
  console_log ("Completed NFT #" +:+ number_to_string tokenId) ;;
  ret (Generated.mk outputImagePath outputMetadataPath metadata).

End Generator.

(** ** Object-store configuration ([src/utils/config.ts]) *)

Module MinioConfig.
Record t := mk {
  enabled : bool;
  endPoint : string;
  port : number;
  useSSL : bool;
  accessKey : string;
  secretKey : string;
  bucketName : string
}.
End MinioConfig.

(** [process.env.NAME || fallback] *)
Definition env_or (name fallback : string) : M string :=
  fun w =>
    (Return (match environ w !! name with
             | Some v => if String.eqb v "" then fallback else v
             | None => fallback
             end), w).

Definition number_eqb (a b : number) : bool :=
  match a, b with
  | Num x, Num y => Z.eqb x y
  | _, _ => false
  end.

(** [n <= 0] *)
Definition number_le_zero (n : number) : bool :=
  match n with
  | Num z => Z.leb z 0
  | NaN => false
  end.

(** [getMinioConfig] *)
Definition getMinioConfig : M MinioConfig.t :=
  let* portStr := env_or "S3_API_PORT" "" in
  let port := if String.eqb portStr "" then Num 9000 else parseInt portStr in
  let useSSL := number_eqb port (Num 443) in
  let* endPoint := env_or "S3_ENDPOINT" "" in
  let* accessKey := env_or "S3_ACCESS_KEY" "" in
  let* secretKey := env_or "S3_SECRET_KEY" "" in
  let* bucketName := env_or "S3_BUCKET_NAME" "nft-collection" in
  ret (MinioConfig.mk true endPoint port useSSL accessKey secretKey bucketName).

(** [validateMinioConfig] *)
Definition validateMinioConfig (config : MinioConfig.t) : M bool :=
  if String.eqb (MinioConfig.endPoint config) "" then
    console_error "Missing S3_ENDPOINT environment variable" ;; ret false
  else if String.eqb (MinioConfig.accessKey config) "" then
    console_error "Missing S3_ACCESS_KEY environment variable" ;; ret false
  else if String.eqb (MinioConfig.secretKey config) "" then
    console_error "Missing S3_SECRET_KEY environment variable" ;; ret false
  else if isNaN (MinioConfig.port config) || number_le_zero (MinioConfig.port config) then
    console_error "Invalid S3_API_PORT - must be a positive number" ;; ret false
  else ret true.

(** ** The object-store client ([src/utils/minioClient.ts]) *)

Module Client.
Record t := mk {
  endPoint : string;
  port : number;
  useSSL : bool;
  accessKey : string;
  secretKey : string
}.
End Client.

(** [s.replace(/\/+$/, '')] *)
Fixpoint strip_trailing_slashes (s : string) : string :=
  match s with
  | EmptyString => EmptyString
  | String c s' =>
      if all_chars (fun x => Ascii.eqb x "/"%char) s then EmptyString
      else String c (strip_trailing_slashes s')
  end.

(** [new Minio.Client(options)] *)
Definition new_Client (endPoint : string) (port : number) (useSSL : bool)
    (accessKey secretKey : string) : M Client.t :=
  fun w =>
    if accepts_client (store w) endPoint port
    then (Return (Client.mk endPoint port useSSL accessKey secretKey), w)
    else (Throw (Error ("Invalid endPoint : " +:+ endPoint)), w).

(** [initializeMinioClient] *)
Definition initializeMinioClient (config : MinioConfig.t) : M (option Client.t) :=
  if negb (MinioConfig.enabled config) then ret None
  else if String.eqb (MinioConfig.endPoint config) ""
          || String.eqb (MinioConfig.accessKey config) ""
          || String.eqb (MinioConfig.secretKey config) "" then
    console_warn "Missing MinIO credentials. Upload will be skipped." ;; ret None
  else
    try_catch
      (let cleanEndpoint := strip_trailing_slashes (MinioConfig.endPoint config) in
       let* minioClient :=
         new_Client cleanEndpoint (MinioConfig.port config) (MinioConfig.useSSL config)
           (MinioConfig.accessKey config) (MinioConfig.secretKey config) in
       ret (Some minioClient))
      (fun error =>
         console_error ("Error initializing MinIO client: " +:+ exn_message error) ;;
         ret None).

Definition listBuckets (client : Client.t) : M unit :=
  fun w =>
    if reachable (store w) then (Return tt, w)
    else (Throw (Error "connect ECONNREFUSED"), w).

Definition bucketExists (client : Client.t) (bucketName : string) : M bool :=
  fun w =>
    if negb (valid_bucket (store w) bucketName)
    then (Throw (Error ("Invalid bucket name: " +:+ bucketName)), w)
    else if negb (reachable (store w)) then (Throw (Error "connect ECONNREFUSED"), w)
    else (Return (bool_decide (bucketName ∈ buckets (store w))), w).

Definition with_buckets (b : gset string) (r : remote) : remote :=
  mkRemote (accepts_client r) (reachable r) (valid_bucket r) (accepts_put r) b (objects r).

Definition with_objects (o : gmap (string * string) (string * string)) (r : remote) : remote :=
  mkRemote (accepts_client r) (reachable r) (valid_bucket r) (accepts_put r) (buckets r) o.

Definition makeBucket (client : Client.t) (bucketName : string) : M unit :=
  fun w =>
    if negb (valid_bucket (store w) bucketName)
    then (Throw (Error ("Invalid bucket name: " +:+ bucketName)), w)
    else if negb (reachable (store w)) then (Throw (Error "connect ECONNREFUSED"), w)
    else (Return tt, with_store (with_buckets ({[bucketName]} ∪ buckets (store w)) (store w)) w).

Definition store_put (bucketName objectName contentType data : string) : M unit :=
  fun w =>
    if reachable (store w) && accepts_put (store w) bucketName objectName
    then (Return tt,
          with_store (with_objects
                        (<[(bucketName, objectName) := (contentType, data)]> (objects (store w)))
                        (store w)) w)
    else (Throw (Error "S3 error: the object was not stored"), w).

(** [minioClient.fPutObject(bucket, key, filePath, { 'Content-Type': contentType })] *)
Definition fPutObject (client : Client.t) (bucketName objectName filePath contentType : string)
    : M unit :=
  let* data := readFileSync filePath in
  store_put bucketName objectName contentType data.

(** [uploadToMinio] *)
Definition uploadToMinio (minioClient : Client.t) (filePath targetKey bucketName endpoint : string)
    : M (option string) :=
  try_catch
    (let contentType :=
       if endsWith filePath ".png" then "image/png"
       else if endsWith filePath ".json" then "application/json"
       else "application/octet-stream" in
     let* exists_ := bucketExists minioClient bucketName in
     (if negb exists_ then
        makeBucket minioClient bucketName ;;
        console_log ("Created bucket: " +:+ bucketName)
      else ret tt) ;;
     fPutObject minioClient bucketName targetKey filePath contentType ;;
     console_log ("Uploaded " +:+ filePath +:+ " to " +:+ bucketName +:+ "/" +:+ targetKey) ;;
     ret (Some ("https://" +:+ endpoint +:+ "/" +:+ bucketName +:+ "/" +:+ targetKey)))
    (fun error =>
       console_error ("Error uploading " +:+ filePath +:+ ": " +:+ exn_message error) ;;
       ret None).

(** [testMinioConnection] *)
Definition testMinioConnection (minioClient : Client.t) : M bool :=
  try_catch
    (listBuckets minioClient ;;
     console_log "✅ Successfully connected to MinIO server" ;;
     ret true)
    (fun error =>
       console_error ("Error connecting to MinIO server: " +:+ exn_message error) ;;
       ret false).

(** The byte order mark that [fs.readJson] removes before parsing. *)
Definition BOM : string :=
  String "239"%char (String "187"%char (String "191"%char EmptyString)).

Definition stripBom (s : string) : string :=
  match drop_prefix BOM s with
  | Some rest => rest
  | None => s
  end.

(** [fs.readJson(file)] *)
Definition readJson (file : string) : M json :=
  let* data := readFileSync file in
  match JSON_parse (stripBom data) with
  | Some v => ret v
  | None => throw (Error (file +:+ ": Unexpected token in JSON"))
  end.

(** [fs.writeJson(file, object, { spaces: 2 })] *)
Definition writeJson (file : string) (object : json) : M unit :=
  writeFileSync file (JSON_stringify object +:+ LF).

(** Whether a number literal denotes zero. *)
Fixpoint mantissa_is_zero (s : string) : bool :=
  match s with
  | EmptyString => true
  | String c s' =>
      if Ascii.eqb c "e"%char || Ascii.eqb c "E"%char then true
      else (Ascii.eqb c "0"%char || Ascii.eqb c "-"%char || Ascii.eqb c "."%char)
           && mantissa_is_zero s'
  end.

(** ToBoolean *)
Definition js_truthy (v : json) : bool :=
  match v with
  | JNull => false
  | JBool b => b
  | JNumber literal => negb (mantissa_is_zero literal)
  | JString s => negb (String.eqb s "")
  | JArray _ => true
  | JObject _ => true
  end.

(** The block of [uploadNFTToMinio] that makes a relative image reference of
    the metadata file absolute. *)
Definition absolutize_image (config : MinioConfig.t) (metadataPath imageFilename : string)
    : M unit :=
  try_catch
    (let* metadataContent := readJson metadataPath in
     match metadataContent with
     | JNull => throw (Error "Cannot read properties of null (reading 'image')")
     | JObject members =>
         match obj_get "image" members with
         | Some (JString image) =>
             if negb (String.eqb image "") && negb (startsWith image "http") then
               let updated :=
                 JObject (obj_set "image"
                            (JString ("https://" +:+ MinioConfig.endPoint config +:+ "/"
                                      +:+ MinioConfig.bucketName config +:+ "/images/"
                                      +:+ imageFilename))
                            members) in
               writeJson metadataPath updated ;;
               console_log "Updated metadata with absolute image URL"
             else ret tt
         | Some other =>
             if js_truthy other
             then throw (Error "metadataContent.image.startsWith is not a function")
             else ret tt
         | None => ret tt
         end
     | _ => ret tt
     end)
    (fun err =>
       console_warn ("Could not update metadata with absolute URL: " +:+ exn_message err)).

(** [uploadNFTToMinio] *)
Definition uploadNFTToMinio (config : MinioConfig.t) (imagePath metadataPath : string) : M bool :=
  console_log (LF +:+ "Attempting to connect to MinIO at: " +:+ MinioConfig.endPoint config
               +:+ " (Port: " +:+ number_to_string (MinioConfig.port config) +:+ ")") ;;
  let* client := initializeMinioClient config in
  match client with
  | None =>
      console_log "MinIO client not initialized or uploads disabled. Skipping upload." ;;
      ret false
  | Some minioClient =>
      let* connectionSuccess := testMinioConnection minioClient in
      if negb connectionSuccess then
        console_error "❌ Error connecting to MinIO server" ;;
        console_error "Please check your MinIO configuration, especially endpoint and port." ;;
        console_error "Common issues:" ;;
        console_error "1. Make sure you're using the API endpoint, not the user interface endpoint" ;;
        console_error ("2. Check if port " +:+ number_to_string (MinioConfig.port config)
                       +:+ " is correct for your API endpoint") ;;
        console_error "3. Verify your access key and secret key" ;;
        console_log "⚠️ MinIO upload skipped. NFT was saved locally only." ;;
        ret false
      else
        try_catch
          (console_log (LF +:+ "Uploading files to MinIO bucket: " +:+ MinioConfig.bucketName config) ;;
           let imageFilename := path_basename imagePath in
           let* imageUrl :=
             uploadToMinio minioClient imagePath ("images/" +:+ imageFilename)
               (MinioConfig.bucketName config) (MinioConfig.endPoint config) in
           absolutize_image config metadataPath imageFilename ;;
           let metadataFilename := path_basename metadataPath in
           let* metadataUrl :=
             uploadToMinio minioClient metadataPath ("metadata/" +:+ metadataFilename)
               (MinioConfig.bucketName config) (MinioConfig.endPoint config) in
           console_log "Upload complete!" ;;
           console_log ("Your NFT image should be available at: " +:+ default "null" imageUrl) ;;
           console_log ("Your NFT metadata should be available at: " +:+ default "null" metadataUrl) ;;
           ret true)
          (fun error =>
             console_error ("Error uploading files to MinIO: " +:+ exn_message error) ;;
             console_log "⚠️ MinIO upload failed. NFT was saved locally only." ;;
             ret false)
  end.

(** [Math.max] of a non-empty list of numbers. *)
Definition number_max (a b : number) : number :=
  match a, b with
  | Num x, Num y => Num (Z.max x y)
  | _, _ => NaN
  end.

Definition Math_max (first : number) (rest : list number) : number :=
  fold_left number_max rest first.

(** The numbers [getLastNFTNumber] reads off a directory listing. *)
Definition nft_numbers (files : list string) : list number :=
  filter (fun num => isNaN num = false)
    (map (fun file => parseInt (replace_first ".png" "" file))
       (filter (fun file => endsWith file ".png" = true) files)).

(** [getLastNFTNumber] *)
Definition getLastNFTNumber (outputDir : string) : M number :=
  let imagesDir := path_join [outputDir; "images"] in
  try_catch
    (ensureDirSync imagesDir ;;
     let* files := readdirSync imagesDir in
     match nft_numbers files with
     | [] => ret (Num 0)
     | first :: rest => ret (Math_max first rest)
     end)
    (fun error =>
       console_error ("Error getting last NFT number: " +:+ exn_message error) ;;
       ret (Num 0)).

(** ** The server actions ([src/app/actions.ts]) *)

Inductive minio_status := success_status | failed_status | skipped_status.

Definition minio_status_text (s : minio_status) : string :=
  match s with
  | success_status => "success"
  | failed_status => "failed"
  | skipped_status => "skipped"
  end.

Module GenerationResult.
Record t := mk {
  success : bool;
  message : string;
  tokenId : option number;
  imageUrl : option string;
  minioStatus : option minio_status;
  errorDetails : option string;
  folderName : option string;
  minioImageUrl : option string;
  minioMetadataUrl : option string;
  fromBlockchain : option bool
}.
End GenerationResult.

(** [error.stack]: its first line; the frames below it are not modelled. *)
Definition exn_stack (e : exn) : string := "Error: " +:+ exn_message e.

(** [getMinioUrls] with its default (empty) folder path. *)
Definition getMinioUrls (config : MinioConfig.t) (tokenId : number) : string * string :=
  let basePath := MinioConfig.bucketName config in
  ("https://" +:+ MinioConfig.endPoint config +:+ "/" +:+ basePath +:+ "/images/"
   +:+ number_to_string tokenId +:+ ".png",
   "https://" +:+ MinioConfig.endPoint config +:+ "/" +:+ basePath +:+ "/metadata/"
   +:+ number_to_string tokenId +:+ ".json").

Fixpoint first_defined (names : list string) (fields : list (string * supply_value))
    : option supply_value :=
  match names with
  | [] => None
  | n :: rest =>
      match List.find (fun kv => String.eqb (fst kv) n) fields with
      | Some kv => Some (snd kv)
      | None => first_defined rest fields
      end
  end.

(** The total-supply request of [generateAndUploadNFT], up to the next token
    identifier. *)
Definition next_token_from_chain : M number :=
  console_log "Fetching total supply from blockchain..." ;;
  let* w := get_world in
  let* totalSupply :=
    match chain w with
    | ReplyFailed message => throw (Error message)
    | ReplyNumber z => console_log "Total supply result:" ;; ret (Some (SupplyNumber z))
    | ReplyObject fields =>
        console_log "Total supply result:" ;;
        ret (first_defined ["totalSupply"; "total"; "supply"; "count"; "value"] fields)
    end in
  match totalSupply with
  | Some v =>
      let numericTotalSupply :=
        match v with
        | SupplyString s => parseInt s
        | SupplyNumber z => Num z
        end in
      let nextTokenId := number_succ numericTotalSupply in
      console_log ("Using next token ID from blockchain API: " +:+ number_to_string nextTokenId) ;;
      ret nextTokenId
  | None =>
      console_error "Response does not contain totalSupply. Full response:" ;;
      throw (Error "Unexpected API response format: missing totalSupply field")
  end.

Definition process_cwd : M string := fun w => (Return (cwd w), w).

(** The read-back of the metadata file for the console. *)
Definition log_metadata (banner closing metadataPath : string) : M unit :=
  try_catch
    (let* metadataContent := readFileSync metadataPath in
     console_log banner ;;
     console_log metadataContent ;;
     console_log closing)
    (fun readError =>
       console_error ("Error reading NFT metadata for logging: " +:+ exn_message readError)).

(** The upload step shared by the actions: the status and the error details
    it leaves. *)
Definition upload_step (configValid : bool) (announce : string) (minioConfig : MinioConfig.t)
    (imagePath metadataPath : string) : M (minio_status * string) :=
  let minioStatus := if configValid then failed_status else skipped_status in
  let errorDetails := "" in
  if configValid then
    try_catch
      (console_log announce ;;
       let* uploaded := uploadNFTToMinio minioConfig imagePath metadataPath in
       if uploaded then ret (success_status, errorDetails)
       else
         console_error "MinIO upload failed" ;;
         ret (failed_status, "MinIO upload failed. Check server logs for details."))
      (fun uploadError =>
         console_error ("Error during MinIO upload: " +:+ exn_message uploadError) ;;
         ret (failed_status, exn_message uploadError))
  else ret (minioStatus, errorDetails).

Definition local_message (minioStatus : minio_status) : string :=
  match minioStatus with
  | success_status => "and uploaded to MinIO"
  | failed_status => "(MinIO upload failed, but saved locally)"
  | skipped_status => "(MinIO upload skipped, saved locally only)"
  end.

Definition with_s3 (configValid : bool) (minioConfig : MinioConfig.t) (c : NFTConfig.t)
    : NFTConfig.t :=
  if configValid
  then NFTConfig.mk (NFTConfig.collectionName c) (NFTConfig.description c) (NFTConfig.width c)
         (NFTConfig.height c) (NFTConfig.outputDir c) (NFTConfig.layers c)
         (Some (MinioConfig.endPoint minioConfig)) (Some (MinioConfig.bucketName minioConfig))
  else c.

Definition with_outputDir (dir : string) (c : NFTConfig.t) : NFTConfig.t :=
  NFTConfig.mk (NFTConfig.collectionName c) (NFTConfig.description c) (NFTConfig.width c)
    (NFTConfig.height c) dir (NFTConfig.layers c) (NFTConfig.s3Endpoint c)
    (NFTConfig.s3BucketName c).

Definition with_collection (name description : string) (c : NFTConfig.t) : NFTConfig.t :=
  NFTConfig.mk name description (NFTConfig.width c) (NFTConfig.height c)
    (NFTConfig.outputDir c) (NFTConfig.layers c) (NFTConfig.s3Endpoint c)
    (NFTConfig.s3BucketName c).

Section Actions.

Variable png : codec.

(** The part of [generateAndUploadNFT] that follows the token identifier:
    generation, read-back, upload, and the result it reports. *)
Definition generate_and_upload_from (configValid : bool) (minioConfig : MinioConfig.t)
    (nextTokenId : number) (fromBlockchain : bool) : M GenerationResult.t :=
  let* wd := process_cwd in
  let customConfig :=
    with_s3 configValid minioConfig
      (with_outputDir (path_join [wd; "public/output"]) DEFAULT_CONFIG) in
  let* generated := generateNFT png nextTokenId customConfig in
  let imagePath := Generated.imagePath generated in
  let metadataPath := Generated.metadataPath generated in
  log_metadata "=== NEW NFT METADATA ===" "========================" metadataPath ;;
  let* upload :=
    upload_step configValid "Attempting to upload to MinIO..." minioConfig imagePath
      metadataPath in
  let minioStatus := fst upload in
  let errorDetails := snd upload in
  let localMessage := local_message minioStatus in
  let urls :=
    match minioStatus with
    | success_status => Some (getMinioUrls minioConfig nextTokenId)
    | _ => None
    end in
  ret (GenerationResult.mk true
         ("NFT #" +:+ number_to_string nextTokenId +:+ " generated " +:+ localMessage +:+ "!")
         (Some nextTokenId)
         (Some ("/output/images/" +:+ number_to_string nextTokenId +:+ ".png"))
         (Some minioStatus)
         (Some errorDetails)
         None
         (option_map fst urls)
         (option_map snd urls)
         (Some fromBlockchain)).

(** [generateAndUploadNFT] *)
Definition generateAndUploadNFT : M GenerationResult.t :=
  try_catch
    (let* minioConfig := getMinioConfig in
     let* configValid := validateMinioConfig minioConfig in
     console_log ("MinIO configuration valid: " +:+ (if configValid then "true" else "false")) ;;
     (if configValid then
        console_log ("Using MinIO endpoint: " +:+ MinioConfig.endPoint minioConfig +:+ ":"
                     +:+ number_to_string (MinioConfig.port minioConfig) +:+ ", SSL: "
                     +:+ (if MinioConfig.useSSL minioConfig then "true" else "false"))
      else ret tt) ;;
     let* token :=
       try_catch
         (let* nextTokenId := next_token_from_chain in ret (inl nextTokenId))
         (fun error =>
            console_error ("Failed to fetch total supply: " +:+ exn_message error) ;;
            ret (inr (GenerationResult.mk false "Failed to get token ID from blockchain"
                        None None None (Some (exn_message error)) None None None
                        (Some false)))) in
     match token with
     | inr early => ret early
     | inl nextTokenId =>
         generate_and_upload_from configValid minioConfig nextTokenId true
     end)
    (fun error =>
       console_error ("Error generating NFT: " +:+ exn_message error) ;;
       ret (GenerationResult.mk false ("Error generating NFT: " +:+ exn_message error)
              None None None (Some (exn_stack error)) None None None None)).

(** The folder name [createNewCollection] derives from a collection name:
    [trim().toLowerCase().replace(/\s+/g, '-').replace(/[^a-z0-9-]/g, '')] *)
Definition folder_name_of (collectionName : string) : string :=
  keep_chars (fun c => is_lower c || is_digit c || Ascii.eqb c "-"%char)
    (dash_white_space false (toLowerCase (trim collectionName))).

Definition with_bucketName (b : string) (c : MinioConfig.t) : MinioConfig.t :=
  MinioConfig.mk (MinioConfig.enabled c) (MinioConfig.endPoint c) (MinioConfig.port c)
    (MinioConfig.useSSL c) (MinioConfig.accessKey c) (MinioConfig.secretKey c) b.

(** [createNewCollection] *)
Definition createNewCollection (collectionName : string) : M GenerationResult.t :=
  try_catch
    (let folderName := folder_name_of collectionName in
     if String.eqb folderName "" then
       ret (GenerationResult.mk false "Invalid collection name. Please provide a valid name."
              None None None
              (Some "Collection name resulted in an empty folder name after sanitization.")
              None None None None)
     else
       let* wd := process_cwd in
       let baseOutputDir := path_join [wd; "public/collections"; folderName] in
       let outputImagesDir := path_join [baseOutputDir; "images"] in
       let outputMetadataDir := path_join [baseOutputDir; "metadata"] in
       ensureDirSync outputImagesDir ;;
       ensureDirSync outputMetadataDir ;;
       console_log ("Created new collection directory: " +:+ baseOutputDir) ;;
       let collectionConfig :=
         with_outputDir baseOutputDir
           (with_collection collectionName (collectionName +:+ " - A unique NFT collection")
              DEFAULT_CONFIG) in
       let tokenId := Num 1 in
       let* generated := generateNFT png tokenId collectionConfig in
       let imagePath := Generated.imagePath generated in
       let metadataPath := Generated.metadataPath generated in
       log_metadata "=== NEW COLLECTION NFT METADATA ===" "=================================="
         metadataPath ;;
       let* minioConfig := getMinioConfig in
       let* configValid := validateMinioConfig minioConfig in
       let customMinioConfig :=
         with_bucketName (MinioConfig.bucketName minioConfig +:+ "/collections/" +:+ folderName)
           minioConfig in
       let* upload :=
         upload_step configValid
           ("Attempting to upload to MinIO in collection: " +:+ folderName +:+ "...")
           customMinioConfig imagePath metadataPath in
       let minioStatus := fst upload in
       let errorDetails := snd upload in
       let localMessage := local_message minioStatus in
       ret (GenerationResult.mk true
              ("New collection " +:+ DQ +:+ collectionName +:+ DQ +:+ " created with NFT #"
               +:+ number_to_string tokenId +:+ " " +:+ localMessage +:+ "!")
              (Some tokenId)
              (Some ("/collections/" +:+ folderName +:+ "/images/"
                     +:+ number_to_string tokenId +:+ ".png"))
              (Some minioStatus)
              (Some errorDetails)
              (Some folderName)
              None None None))
    (fun error =>
       console_error ("Error creating new collection: " +:+ exn_message error) ;;
       ret (GenerationResult.mk false
              ("Error creating new collection: " +:+ exn_message error)
              None None None (Some (exn_stack error)) None None None None)).

(** [s.replace(/-/g, ' ')] *)
Fixpoint dashes_to_spaces (s : string) : string :=
  match s with
  | EmptyString => EmptyString
  | String c s' =>
      String (if Ascii.eqb c "-"%char then " "%char else c) (dashes_to_spaces s')
  end.

(** What [\w] matches. *)
Definition is_word_char (c : ascii) : bool :=
  is_upper c || is_lower c || is_digit c || Ascii.eqb c "_"%char.

Definition upper_char (c : ascii) : ascii :=
  if is_lower c then ascii_of_N (ascii_code c - 32) else c.

(** [s.replace(/\b\w/g, c => c.toUpperCase())]: a word character that does
    not follow a word character is put in upper case; [after_word] tells
    that the character before was a word character. *)
Fixpoint capitalize_words (after_word : bool) (s : string) : string :=
  match s with
  | EmptyString => EmptyString
  | String c s' =>
      if is_word_char c
      then String (if after_word then c else upper_char c) (capitalize_words true s')
      else String c (capitalize_words false s')
  end.

(** [generateNFTForCollection] *)
Definition generateNFTForCollection (folderName : string) : M GenerationResult.t :=
  try_catch
    (let* wd := process_cwd in
     let baseOutputDir := path_join [wd; "public/collections"; folderName] in
     let* present := existsSync baseOutputDir in
     if negb present then
       ret (GenerationResult.mk false
              ("Collection " +:+ DQ +:+ folderName +:+ DQ +:+ " does not exist.")
              None None None (Some ("Directory not found: " +:+ baseOutputDir))
              None None None None)
     else
       let* lastTokenId := getLastNFTNumber baseOutputDir in
       let nextTokenId := number_succ lastTokenId in
       let* minioConfig := getMinioConfig in
       let* configValid := validateMinioConfig minioConfig in
       let collectionConfig :=
         with_s3 configValid minioConfig
           (with_outputDir baseOutputDir
              (with_collection (capitalize_words false (dashes_to_spaces folderName))
                 ("Part of the " +:+ dashes_to_spaces folderName +:+ " collection")
                 DEFAULT_CONFIG)) in
       let* generated := generateNFT png nextTokenId collectionConfig in
       let imagePath := Generated.imagePath generated in
       let metadataPath := Generated.metadataPath generated in
       log_metadata "=== NEW COLLECTION NFT METADATA ===" "=================================="
         metadataPath ;;
       let customMinioConfig :=
         with_bucketName (MinioConfig.bucketName minioConfig +:+ "/collections/" +:+ folderName)
           minioConfig in
       let* upload :=
         upload_step configValid
           ("Attempting to upload to MinIO in collection: " +:+ folderName +:+ "...")
           customMinioConfig imagePath metadataPath in
       let minioStatus := fst upload in
       let errorDetails := snd upload in
       let localMessage := local_message minioStatus in
       ret (GenerationResult.mk true
              ("NFT #" +:+ number_to_string nextTokenId +:+ " for collection " +:+ DQ
               +:+ folderName +:+ DQ +:+ " generated " +:+ localMessage +:+ "!")
              (Some nextTokenId)
              (Some ("/collections/" +:+ folderName +:+ "/images/"
                     +:+ number_to_string nextTokenId +:+ ".png"))
              (Some minioStatus)
              (Some errorDetails)
              (Some folderName)
              None None None))
    (fun error =>
       console_error ("Error generating NFT for collection: " +:+ exn_message error) ;;
       ret (GenerationResult.mk false ("Error generating NFT: " +:+ exn_message error)
              None None None (Some (exn_stack error)) None None None None)).

End Actions.

(** ** Vocabulary of the statements *)

(** The file held at a resolved path, if a file is there. *)
Definition file_at (d : gmap (list string) node) (k : list string) : option string :=
  match d !! k with
  | Some (File data) => Some data
  | _ => None
  end.

(** The content of the file a path names in a world. *)
Definition read_back (w : world) (p : string) : option string :=
  file_at (disk w) (resolve (cwd w) p).

Definition is_png_name (file : string) : bool := endsWith (toLowerCase file) ".png".

(** What the scan of a layer folder finds on a disk: nothing when the folder
    is absent, its PNG entries when it is a directory, no answer when the
    path names a file. *)
Definition scan (d : gmap (list string) node) (wd : string) (layer : LayerConfig.t)
    : option (list string) :=
  match lookup_node d (resolve wd (LayerConfig.folder layer)) with
  | None => Some []
  | Some Dir => Some (filter (fun file => is_png_name file = true)
                        (children d (resolve wd (LayerConfig.folder layer))))
  | Some (File _) => None
  end.

(** The images a layer offers, built from the names its scan found. *)
Definition images_of (layer : LayerConfig.t) (files : list string) : list LayerAttribute.t :=
  map (fun file =>
         LayerAttribute.mk (LayerConfig.name layer) (strip_extension file)
           (path_join [LayerConfig.folder layer; file]))
      files.

(** The disk once the two output directories of a configuration are there,
    if they can be made. *)
Definition output_dirs (config : NFTConfig.t) (w : world) : option (gmap (list string) node) :=
  match make_dirs [] (resolve (cwd w) (path_join [NFTConfig.outputDir config; "images"])) (disk w) with
  | Some d =>
      make_dirs [] (resolve (cwd w) (path_join [NFTConfig.outputDir config; "metadata"])) d
  | None => None
  end.

(** Whether a layer takes part in a combination made on a disk: its folder
    is a directory holding at least one PNG. *)
Definition contributes (d : gmap (list string) node) (wd : string) (layer : LayerConfig.t) : bool :=
  match scan d wd layer with
  | Some (_ :: _) => true
  | _ => false
  end.

(** Two worlds that differ at most by what was printed and how many random
    values were taken. *)
Definition quiet (w w' : world) : Prop :=
  disk w' = disk w /\ cwd w' = cwd w /\ randoms w' = randoms w /\ clock w' = clock w
  /\ environ w' = environ w /\ chain w' = chain w /\ store w' = store w.

(** The world in which [generateNFT] makes its combination: the opening line
    is printed and the output directories are on the disk. *)
Definition prepared (tokenId : number) (w : world) (d : gmap (list string) node) : world :=
  with_disk d
    (with_console (console w ++ [(LOG, "Generating NFT #" +:+ number_to_string tokenId +:+ "...")])
       w).

(** What [loadImage] answers for a path in a world. *)
Definition load (png : codec) (w : world) (p : string) : outcome string :=
  fst (loadImage png p w).

(** The draws a list of selected layers leaves on the surface, and the lines
    it leaves on the console. *)
Definition layer_draws (png : codec) (w : world) (width height : Z)
    (attributes : list LayerAttribute.t) : list draw_op :=
  omap (fun layer =>
          match load png w (LayerAttribute.path layer) with
          | Return bitmap => Some (DrawImage bitmap 0 0 width height)
          | Throw _ => None
          end)
       attributes.

Definition layer_errors (png : codec) (w : world) (attributes : list LayerAttribute.t)
    : list (level * string) :=
  omap (fun layer =>
          match load png w (LayerAttribute.path layer) with
          | Return _ => None
          | Throw e =>
              Some (ERROR, "Error loading image " +:+ LayerAttribute.path layer +:+ ": "
                           +:+ exn_message e)
          end)
       attributes.

(** A path the file system accepts a file at: its parent is a directory and
    it does not name a directory itself. *)
Definition writable (d : gmap (list string) node) (k : list string) : bool :=
  match k with
  | [] => false
  | _ =>
      match lookup_node d (parent k), lookup_node d k with
      | Some Dir, Some Dir => false
      | Some Dir, _ => true
      | _, _ => false
      end
  end.

(** What is on the surface when the image is encoded: the white ground, the
    layers that loaded, the time stamp stroked and filled. *)
Definition composed (png : codec) (w : world) (config : NFTConfig.t)
    (attributes : list LayerAttribute.t) (timestamp : string) : list draw_op :=
  [FillRect "white" 0 0 (NFTConfig.width config) (NFTConfig.height config)]
  ++ layer_draws png w (NFTConfig.width config) (NFTConfig.height config) attributes
  ++ [StrokeText "black" 3 "30px Arial" "center" timestamp
        (inject_Z (NFTConfig.width config) / 2)%Q 50%Q;
      FillText "white" "30px Arial" "center" timestamp
        (inject_Z (NFTConfig.width config) / 2)%Q 50%Q].

(** The metadata [generateNFT] builds for a combination. *)
Definition metadata_of (tokenId : number) (config : NFTConfig.t)
    (attributes : list LayerAttribute.t) (timestamp : string) : NFTMetadata.t :=
  NFTMetadata.mk
    (NFTConfig.collectionName config +:+ " #" +:+ number_to_string tokenId)
    (NFTConfig.description config)
    (image_reference tokenId config)
    (map (fun attr => Attribute.mk (LayerAttribute.name attr) (LayerAttribute.trait attr))
       attributes)
    timestamp.

Definition image_path (tokenId : number) (config : NFTConfig.t) : string :=
  path_join [NFTConfig.outputDir config; "images"; number_to_string tokenId +:+ ".png"].

Definition metadata_path (tokenId : number) (config : NFTConfig.t) : string :=
  path_join [NFTConfig.outputDir config; "metadata"; number_to_string tokenId +:+ ".json"].

(** A plain file name: not empty, not [.] or [..], and without a slash. *)
Definition plain_name (f : string) : bool :=
  negb (is_noop_segment f) && negb (String.eqb f "..")
  && all_chars (fun c => negb (Ascii.eqb c "/"%char)) f.

(** The two forms of the image reference. *)
Definition bare_filename (tokenId : number) : string := number_to_string tokenId +:+ ".png".

Definition absolute_url (endpoint bucket : string) (tokenId : number) : string :=
  "https://" +:+ endpoint +:+ "/" +:+ bucket +:+ "/images/" +:+ number_to_string tokenId +:+ ".png".

(** ** Sample worlds *)

Definition demo_codec : codec :=
  mkCodec (fun data => if String.prefix "PNG" data then Some data else None)
          (fun w h ops => "PNG:" +:+ number_to_string (Num (Z.of_nat (length ops)))).

Definition demo_remote : remote :=
  mkRemote (fun _ _ => true) true (fun _ => true) (fun _ _ => true) ∅ ∅.

Definition demo_layers : list (list string * node) :=
  [ (["app"], Dir); (["app"; "public"], Dir); (["app"; "public"; "assets"], Dir);
    (["app"; "public"; "assets"; "layers"], Dir);
    (["app"; "public"; "assets"; "layers"; "backgrounds"], Dir);
    (["app"; "public"; "assets"; "layers"; "subjects"], Dir);
    (["app"; "public"; "assets"; "layers"; "backgrounds"; "blue.png"], File "PNG blue");
    (["app"; "public"; "assets"; "layers"; "subjects"; "dog.png"], File "PNG dog") ].

Definition demo_draw : draw := mkDraw (1 # 2) eq_refl.

Definition demo_world_on (d : gmap (list string) node) : world :=
  mkWorld d "/app" [] (fun _ => demo_draw) 0 "2024-01-01T00:00:00.000Z" ∅ (ReplyNumber 6)
    demo_remote.

(** The two layers of the default configuration, one image each. *)
Definition demo_world : world := demo_world_on (list_to_map demo_layers).

(** The file system takes the image file and then the metadata file. *)
Definition can_save (d : gmap (list string) node) (k_img k_meta : list string) : bool :=
  writable d k_img && writable (<[k_img := File ""]> d) k_meta.

(** A generation of token 7 with the default configuration in the sample world. *)
Definition demo_generated : Generated.t :=
  match fst (generateNFT demo_codec (Num 7) DEFAULT_CONFIG demo_world) with
  | Return g => g
  | Throw _ => Generated.mk "" "" (NFTMetadata.mk "" "" "" [] "")
  end.


(** The sample world with the subject image damaged, and with no assets at all. *)
Definition demo_world_corrupt : world :=
  demo_world_on
    (<[["app"; "public"; "assets"; "layers"; "subjects"; "dog.png"] := File "not an image"]>
       (list_to_map demo_layers)).

Definition demo_world_bare : world := demo_world_on (<[["app"] := Dir]> ∅).

(** The error [createRandomCombination] throws for a layer. *)
Definition missing_layer_error (layer : LayerConfig.t) : exn :=
  Error ("Layer " +:+ DQ +:+ LayerConfig.name layer +:+ DQ +:+ " is required but has no images").

Definition background_layer : LayerConfig.t :=
  LayerConfig.mk "Background" "./public/assets/layers/backgrounds" true.

Definition subject_layer : LayerConfig.t :=
  LayerConfig.mk "Subject" "./public/assets/layers/subjects" true.

(** The integers [getLastNFTNumber] reads off a listing: for each name that
    ends in [.png], what [parseInt] makes of the name with its first [.png]
    removed, when that is a number. *)
Definition token_numbers (files : list string) : list Z :=
  omap (fun file =>
          match parseInt (replace_first ".png" "" file) with
          | Num z => Some z
          | NaN => None
          end)
       (filter (fun file => endsWith file ".png" = true) files).

(** The configuration [generateAndUploadNFT] generates with. *)
Definition upload_config (configValid : bool) (minioConfig : MinioConfig.t) (wd : string)
    : NFTConfig.t :=
  with_s3 configValid minioConfig
    (with_outputDir (path_join [wd; "public/output"]) DEFAULT_CONFIG).

(** A collection folder whose image directory holds a single file, [7abc.png]. *)
Definition demo_world_odd : world :=
  demo_world_on
    (list_to_map
       [ (["app"], Dir); (["app"; "out"], Dir); (["app"; "out"; "images"], Dir);
         (["app"; "out"; "images"; "7abc.png"], File "PNG") ]).

(** ** Vocabulary of the JSON round trip *)

(** The values the round trip is stated for: no number, and no name twice
    in an object. *)
Fixpoint textual (v : json) : bool :=
  match v with
  | JNull | JBool _ | JString _ => true
  | JNumber _ => false
  | JArray items => forallb textual items
  | JObject members =>
      bool_decide (NoDup (map fst members)) && forallb (fun kv => textual (snd kv)) members
  end.

(** How much fuel reading a value back takes at most. *)
Fixpoint weight (v : json) : nat :=
  match v with
  | JArray items => S (list_sum (map (fun x => S (weight x)) items))
  | JObject members => S (list_sum (map (fun kv => S (weight (snd kv))) members))
  | _ => 1
  end.

(** The items of an array as [serialize] lays them out after the opening
    bracket and the first indentation, up to the closing bracket. *)
Fixpoint serialize_items (inner indent : string) (items : list json) : string :=
  match items with
  | [] => LF +:+ indent +:+ "]"
  | [x] => serialize inner x +:+ LF +:+ indent +:+ "]"
  | x :: rest => serialize inner x +:+ "," +:+ LF +:+ inner +:+ serialize_items inner indent rest
  end.

Fixpoint serialize_members (inner indent : string) (members : list (string * json)) : string :=
  match members with
  | [] => LF +:+ indent +:+ "}"
  | [m] => quote (fst m) +:+ ": " +:+ serialize inner (snd m) +:+ LF +:+ indent +:+ "}"
  | m :: rest =>
      quote (fst m) +:+ ": " +:+ serialize inner (snd m) +:+ "," +:+ LF +:+ inner
      +:+ serialize_members inner indent rest
  end.

Definition blank (s : string) : bool := all_chars is_json_ws s.

(** Two worlds with the same disk and working directory. *)
Definition still (w w' : world) : Prop := disk w' = disk w /\ cwd w' = cwd w.

(** A computation that leaves the disk and the working directory alone. *)
Definition keeps_files {A} (m : M A) : Prop :=
  forall w r w', m w = (r, w') -> still w w'.

(** The image reference stored in a metadata file. *)
Definition stored_image (w : world) (p : string) : option json :=
  match read_back w p with
  | Some text =>
      match JSON_parse (stripBom text) with
      | Some (JObject members) => obj_get "image" members
      | _ => None
      end
  | None => None
  end.

Definition with_image (image : string) (m : NFTMetadata.t) : NFTMetadata.t :=
  NFTMetadata.mk (NFTMetadata.name m) (NFTMetadata.description m) image
    (NFTMetadata.attributes m) (NFTMetadata.timestamp m).

(** The sample world with the object store configured in the environment;
    the store refuses bucket names that hold a slash. *)
Definition demo_world_s3 : world :=
  mkWorld (list_to_map demo_layers) "/app" [] (fun _ => demo_draw) 0 "2024-01-01T00:00:00.000Z"
    (list_to_map [("S3_ENDPOINT", "minio.example.com"); ("S3_ACCESS_KEY", "key");
                  ("S3_SECRET_KEY", "secret")])
    (ReplyNumber 6)
    (mkRemote (fun _ _ => true) true (fun b => negb (includes b "/")) (fun _ _ => true) ∅ ∅).

(** The configuration [createNewCollection] generates with for the name "Dogs". *)
Definition demo_collection_config : NFTConfig.t :=
  with_outputDir "/app/public/collections/dogs"
    (with_collection "Dogs" "Dogs - A unique NFT collection" DEFAULT_CONFIG).

(** The characters a number prints with. *)
Definition number_char (c : ascii) : bool :=
  is_digit c || Ascii.eqb c "-"%char || Ascii.eqb c "N"%char || Ascii.eqb c "a"%char.

(** The first character of a serialized value tells its kind. *)
Definition opener (c : ascii) : bool :=
  let n := ascii_code c in
  (n =? 123)%N || (n =? 91)%N || (n =? 34)%N || (n =? 116)%N || (n =? 102)%N || (n =? 110)%N.

(** Reading back what [serialize] wrote, with any text after it. *)
Definition reads_back (v : json) : Prop :=
  forall indent fuel rest,
    blank indent = true -> (weight v <= fuel)%nat ->
    parse_value fuel (serialize indent v +:+ rest) = Some (v, rest).

(** The URL [uploadNFTToMinio] puts in place of a relative image reference. *)
Definition upload_url (config : MinioConfig.t) (imageFilename : string) : string :=
  "https://" +:+ MinioConfig.endPoint config +:+ "/" +:+ MinioConfig.bucketName config
  +:+ "/images/" +:+ imageFilename.

(** The one change the upload may make to the disk: the metadata file that
    parses to an object with a non-empty image string not starting with
    [http] is written again with the image made absolute. *)
Definition rewritten (config : MinioConfig.t) (metadataPath imageFilename : string)
    (w w' : world) : Prop :=
  exists text members image,
    read_back w metadataPath = Some text
    /\ JSON_parse (stripBom text) = Some (JObject members)
    /\ obj_get "image" members = Some (JString image)
    /\ image <> "" /\ startsWith image "http" = false
    /\ disk w'
       = <[resolve (cwd w) metadataPath :=
             File (JSON_stringify
                     (JObject (obj_set "image" (JString (upload_url config imageFilename)) members))
                   +:+ LF)]> (disk w).

(** The generation [createNewCollection] makes for "Dogs" in the sample
    world, and the upload that follows it. *)
Definition demo_collection_run : outcome Generated.t * world :=
  generateNFT demo_codec (Num 1) demo_collection_config demo_world_s3.

Definition demo_collection_files : string * string :=
  match fst demo_collection_run with
  | Return g => (Generated.imagePath g, Generated.metadataPath g)
  | Throw _ => ("", "")
  end.

Definition demo_minio_config : MinioConfig.t :=
  MinioConfig.mk true "minio.example.com" (Num 9000) false "key" "secret"
    "nft-collection/collections/dogs".

Definition demo_collection_upload : outcome bool * world :=
  uploadNFTToMinio demo_minio_config (fst demo_collection_files) (snd demo_collection_files)
    (snd demo_collection_run).

(** ** Vocabulary of the further properties *)

(** A computation all of whose runs relate the world they start in to the
    world they end in. *)
Definition preserves {A} (R : world -> world -> Prop) (m : M A) : Prop :=
  forall w r w', m w = (r, w') -> R w w'.

(** Two worlds that differ at most by the disk, the console and the number
    of random values taken. *)
Definition same_surroundings (w w' : world) : Prop :=
  cwd w' = cwd w /\ randoms w' = randoms w /\ clock w' = clock w
  /\ environ w' = environ w /\ chain w' = chain w /\ store w' = store w.

(** What happened to an entry of the disk that was not written: it is as it
    was, or a directory is there where nothing was. *)
Definition kept_entry (d d' : gmap (list string) node) (k : list string) : Prop :=
  d' !! k = d !! k \/ (d !! k = None /\ d' !! k = Some Dir).

(** What a run started in the directory [wd] may do: away from the paths
    [keys] the entries of the disk are kept, and the surroundings are. *)
Definition only_writes (wd : string) (keys : list (list string)) (w w' : world) : Prop :=
  cwd w = wd ->
  same_surroundings w w' /\ forall k, k ∉ keys -> kept_entry (disk w) (disk w') k.

(** The index [Math.floor(Math.random() * n)] for a value of the random
    source. *)
Definition index_of (r : draw) (n : nat) : nat :=
  Z.to_nat (Qfloor (draw_value r * inject_Z (Z.of_nat n))).

(** The sample world with a regular file where the folder of the subjects
    should be. *)
Definition demo_world_blocked : world :=
  demo_world_on
    (list_to_map
       [ (["app"], Dir); (["app"; "public"], Dir); (["app"; "public"; "assets"], Dir);
         (["app"; "public"; "assets"; "layers"], Dir);
         (["app"; "public"; "assets"; "layers"; "backgrounds"], Dir);
         (["app"; "public"; "assets"; "layers"; "backgrounds"; "blue.png"], File "PNG blue");
         (["app"; "public"; "assets"; "layers"; "subjects"], File "not a folder") ]).

(** Whether [uploadNFTToMinio] gets a client and an answer from the server:
    uploads are enabled, the end point and the two keys are not empty, the
    client library accepts the end point without its trailing slashes, and
    the server answers. *)
Definition connects (config : MinioConfig.t) (r : remote) : bool :=
  MinioConfig.enabled config
  && negb (String.eqb (MinioConfig.endPoint config) "")
  && negb (String.eqb (MinioConfig.accessKey config) "")
  && negb (String.eqb (MinioConfig.secretKey config) "")
  && accepts_client r (strip_trailing_slashes (MinioConfig.endPoint config))
       (MinioConfig.port config)
  && reachable r.

(** Two states of the object store behind the same service. *)
Definition same_service (r r' : remote) : Prop :=
  accepts_client r' = accepts_client r /\ reachable r' = reachable r
  /\ valid_bucket r' = valid_bucket r /\ accepts_put r' = accepts_put r.

(** The content type [uploadToMinio] sends with a file. *)
Definition content_type_of (filePath : string) : string :=
  if endsWith filePath ".png" then "image/png"
  else if endsWith filePath ".json" then "application/json"
  else "application/octet-stream".

(** What an upload may change: the console and the object store, whose
    service stays the same. *)
Definition uploads_only (w w' : world) : Prop :=
  still w w' /\ same_service (store w) (store w') /\ drawn w' = drawn w
  /\ randoms w' = randoms w /\ clock w' = clock w /\ environ w' = environ w
  /\ chain w' = chain w.

Definition is_slash (c : ascii) : bool := Ascii.eqb c "/"%char.

(** Two worlds that differ at most by the disk and the console. *)
Definition same_but_files (w w' : world) : Prop :=
  cwd w' = cwd w /\ drawn w' = drawn w /\ randoms w' = randoms w /\ clock w' = clock w
  /\ environ w' = environ w /\ chain w' = chain w /\ store w' = store w.

(** A configuration of the object store for the sample world, and the
    upload of the pair generated there for token 7. *)
Definition demo_upload_config : MinioConfig.t :=
  MinioConfig.mk true "minio.example.com/" (Num 9000) false "key" "secret" "nft-collection".

Definition demo_upload : outcome bool * world :=
  uploadNFTToMinio demo_upload_config (Generated.imagePath demo_generated)
    (Generated.metadataPath demo_generated)
    (snd (generateNFT demo_codec (Num 7) DEFAULT_CONFIG demo_world)).

(** The total supply [generateAndUploadNFT] reads from a reply of the chain
    API: a bare number, or the first of the fields [totalSupply], [total],
    [supply], [count] and [value] that the object has, a string being read
    with [parseInt]. *)
Definition supply_of (reply : api_reply) : option number :=
  match reply with
  | ReplyFailed _ => None
  | ReplyNumber z => Some (Num z)
  | ReplyObject fields =>
      match first_defined ["totalSupply"; "total"; "supply"; "count"; "value"] fields with
      | Some (SupplyString s) => Some (parseInt s)
      | Some (SupplyNumber z) => Some (Num z)
      | None => None
      end
  end.

(** The message of the error a reply without a total supply ends in. *)
Definition fetch_error (reply : api_reply) : string :=
  match reply with
  | ReplyFailed message => message
  | _ => "Unexpected API response format: missing totalSupply field"
  end.

(** The status and the details the upload step of an action reports. *)
Definition upload_status (configValid : bool) (minioConfig : MinioConfig.t) (r : remote)
    : minio_status * string :=
  if configValid then
    if connects minioConfig r then (success_status, "")
    else (failed_status, "MinIO upload failed. Check server logs for details.")
  else (skipped_status, "").

(** The characters of a collection folder name. *)
Definition is_folder_char (c : ascii) : bool :=
  is_lower c || is_digit c || Ascii.eqb c "-"%char.

(** The sample world with the chain API out of reach. *)
Definition demo_world_offline : world :=
  mkWorld (list_to_map demo_layers) "/app" [] (fun _ => demo_draw) 0 "2024-01-01T00:00:00.000Z"
    ∅ (ReplyFailed "fetch failed") demo_remote.

(** What an action started in the directory [wd] may do to the disk: away
    from the paths [keys] the entries are kept, and the working directory
    is. *)
Definition touches_only (wd : string) (keys : list (list string)) (w w' : world) : Prop :=
  cwd w = wd ->
  cwd w' = wd /\ forall k, k ∉ keys -> kept_entry (disk w) (disk w') k.

(** A path below the folder of a collection, under [public/collections] of
    the working directory. *)
Definition collection_key (wd folder : string) (rest : list string) : list string :=
  resolve wd (path_join [wd; "public/collections"]) ++ folder :: rest.

(** The configuration [createNewCollection] generates with. *)
Definition new_collection_config (wd collectionName : string) : NFTConfig.t :=
  with_outputDir (path_join [wd; "public/collections"; folder_name_of collectionName])
    (with_collection collectionName (collectionName +:+ " - A unique NFT collection")
       DEFAULT_CONFIG).

(** The configuration [generateNFTForCollection] generates with. *)
Definition collection_config (configValid : bool) (minioConfig : MinioConfig.t)
    (wd folderName : string) : NFTConfig.t :=
  with_s3 configValid minioConfig
    (with_outputDir (path_join [wd; "public/collections"; folderName])
       (with_collection (capitalize_words false (dashes_to_spaces folderName))
          ("Part of the " +:+ dashes_to_spaces folderName +:+ " collection")
          DEFAULT_CONFIG)).

(** The object-store configuration the collection actions upload with. *)
Definition collection_minio_config (minioConfig : MinioConfig.t) (folderName : string)
    : MinioConfig.t :=
  with_bucketName (MinioConfig.bucketName minioConfig +:+ "/collections/" +:+ folderName)
    minioConfig.

(** The sample world once the collection "My Dogs!" has been created in it. *)
Definition demo_world_collection : world :=
  snd (createNewCollection demo_codec "My Dogs!" demo_world).

(** ** Vocabulary of the ranges *)

(** The integers that double arithmetic keeps apart
    ([Number.isSafeInteger]): on them adding one, printing in decimal and
    reading back with [parseInt] are exact. *)
Definition safe_integer (z : Z) : Prop := - 2 ^ 53 < z < 2 ^ 53.

(** A product [r * n] that the rounding of double arithmetic cannot carry
    up to the next integer: it stays more than [n / 2^53], a bound of the
    rounding error, below it.  The floor of the rounded product is then the
    floor of the exact one. *)
Definition clear_of_rounding (r : draw) (n : nat) : Prop :=
  (draw_value r * inject_Z (Z.of_nat n) + inject_Z (Z.of_nat n) / inject_Z (2 ^ 53)
   < inject_Z (Qfloor (draw_value r * inject_Z (Z.of_nat n)) + 1))%Q.

(** The sample world with a second subject, and a random source that gives
    3/4 every time. *)
Definition demo_world_pair : world :=
  mkWorld
    (<[["app"; "public"; "assets"; "layers"; "subjects"; "cat.png"] := File "PNG cat"]>
       (list_to_map demo_layers))
    "/app" [] (fun _ => mkDraw (3 # 4) eq_refl) 0 "2024-01-01T00:00:00.000Z" ∅ (ReplyNumber 6)
    demo_remote.



(** * Properties *)

(** ** Strings *)

Lemma append_cons (x : ascii) (a b : string) : String x a +:+ b = String x (a +:+ b).
Proof. reflexivity. Qed.

Lemma append_nil_l (a : string) : "" +:+ a = a.
Proof. reflexivity. Qed.

Lemma append_assoc (a b c : string) : (a +:+ b) +:+ c = a +:+ (b +:+ c).
Proof.
  induction a as [| x a IH]; [reflexivity |]. rewrite !append_cons. now f_equal.
Qed.

Lemma append_nil_r (a : string) : a +:+ "" = a.
Proof. induction a as [| x a IH]; [reflexivity |]. rewrite append_cons. now f_equal. Qed.

Lemma length_append (a b : string) :
  String.length (a +:+ b) = (String.length a + String.length b)%nat.
Proof.
  induction a as [| x a IH]; [reflexivity |]. rewrite append_cons. simpl. now rewrite IH.
Qed.

Lemma append_nonempty (a b : string) : b <> "" -> a +:+ b <> "".
Proof. destruct a; [auto | rewrite append_cons; discriminate]. Qed.

(** ** Computations *)

Lemma bind_Return {A B} (m : M A) (k : A -> M B) w a w1 :
  m w = (Return a, w1) -> bind m k w = k a w1.
Proof. intros H. unfold bind. now rewrite H. Qed.

Lemma bind_Throw {A B} (m : M A) (k : A -> M B) w e w1 :
  m w = (Throw e, w1) -> bind m k w = (Throw e, w1).
Proof. intros H. unfold bind. now rewrite H. Qed.

Lemma bind_inv_Return {A B} (m : M A) (k : A -> M B) w b w2 :
  bind m k w = (Return b, w2) ->
  exists a w1, m w = (Return a, w1) /\ k a w1 = (Return b, w2).
Proof.
  unfold bind. destruct (m w) as [[a | e] w1]; intros H.
  - now exists a, w1.
  - discriminate.
Qed.

Lemma bind_inv_Throw {A B} (m : M A) (k : A -> M B) w e w2 :
  bind m k w = (Throw e, w2) ->
  m w = (Throw e, w2) \/ exists a w1, m w = (Return a, w1) /\ k a w1 = (Throw e, w2).
Proof.
  unfold bind. destruct (m w) as [[a | e'] w1]; intros H.
  - right. now exists a, w1.
  - left. now inversion H.
Qed.

(** ** The parts of the world an operation leaves alone *)

Lemma make_dirs_files todo : forall done d d',
  make_dirs done todo d = Some d' -> forall k, file_at d' k = file_at d k.
Proof.
  induction todo as [| seg rest IH]; simpl; intros done d d' H k.
  - now inversion H.
  - destruct (d !! (done ++ [seg])) as [[data |] |] eqn:E; try discriminate.
    + now apply IH with (done := done ++ [seg]).
    + rewrite (IH _ _ _ H k). unfold file_at.
      destruct (decide (done ++ [seg] = k)) as [<- | Hne].
      * rewrite lookup_insert_eq, E. reflexivity.
      * now rewrite lookup_insert_ne.
Qed.

Lemma quiet_refl w : quiet w w.
Proof. repeat split. Qed.

Lemma quiet_trans w1 w2 w3 : quiet w1 w2 -> quiet w2 w3 -> quiet w1 w3.
Proof.
  unfold quiet. intros (A1 & A2 & A3 & A4 & A5 & A6 & A7) (B1 & B2 & B3 & B4 & B5 & B6 & B7).
  repeat split; congruence.
Qed.

Lemma console_write_quiet l text w r w' :
  console_write l text w = (r, w') -> r = Return tt /\ quiet w w'.
Proof. unfold console_write. intros H. inversion H; subst. split; [reflexivity | repeat split]. Qed.

#[local] Hint Resolve quiet_refl : core.

(** ** Scanning a layer folder *)

Lemma getImagesForLayer_spec (layer : LayerConfig.t) (w : world) :
  match scan (disk w) (cwd w) layer with
  | Some files =>
      exists w', getImagesForLayer layer w = (Return (images_of layer files), w') /\ quiet w w'
                 /\ drawn w' = drawn w
  | None => exists e, getImagesForLayer layer w = (Throw e, w)
  end.
Proof.
  unfold scan, getImagesForLayer, bind, existsSync, readdirSync.
  destruct (lookup_node (disk w) (resolve (cwd w) (LayerConfig.folder layer))) as [[data |] |] eqn:E.
  - rewrite bool_decide_eq_true_2 by (now eexists). simpl. rewrite E. eauto.
  - rewrite bool_decide_eq_true_2 by (now eexists). simpl. rewrite E.
    eexists. split; [reflexivity | split; auto].
  - rewrite bool_decide_eq_false_2 by (intros [x Hx]; discriminate). simpl.
    eexists. split; [reflexivity | split; [repeat split | reflexivity]].
Qed.

(** ** The random index *)

Lemma random_index_lt (n : nat) (w : world) :
  (0 < n)%nat ->
  exists i, random_index n w = (Return i, with_drawn (S (drawn w)) w) /\ (i < n)%nat.
Proof.
  intros Hn. unfold random_index. eexists. split; [reflexivity |].
  destruct (randoms w (drawn w)) as [r Hr]. cbn [draw_value].
  unfold in_unit in Hr. apply andb_prop in Hr as [H0 H1].
  apply Qle_bool_iff in H0.
  assert (H1' : (r < 1)%Q).
  { apply Qnot_le_lt. intros Hle. apply Qle_bool_iff in Hle. rewrite Hle in H1. discriminate. }
  set (q := (r * inject_Z (Z.of_nat n))%Q).
  assert (Hq0 : (0 <= q)%Q).
  { unfold q. apply Qmult_le_0_compat; [exact H0 |].
    change 0%Q with (inject_Z 0). rewrite <- Zle_Qle. lia. }
  assert (Hq1 : (q < inject_Z (Z.of_nat n))%Q).
  { unfold q. rewrite <- (Qmult_1_l (inject_Z (Z.of_nat n))) at 2.
    apply Qmult_lt_compat_r; [| exact H1'].
    change 0%Q with (inject_Z 0). rewrite <- Zlt_Qlt. lia. }
  assert (Hlo : 0 <= Qfloor q).
  { change 0 with (Qfloor (inject_Z 0)). apply Qfloor_resp_le. exact Hq0. }
  assert (Hhi : Qfloor q < Z.of_nat n).
  { rewrite Zlt_Qlt. eapply Qle_lt_trans; [apply Qfloor_le | exact Hq1]. }
  fold q. lia.
Qed.

(** ** The combination *)

Lemma images_of_name layer files a :
  a ∈ images_of layer files -> LayerAttribute.name a = LayerConfig.name layer.
Proof.
  unfold images_of. intros H. apply list_elem_of_fmap in H as (file & -> & _). reflexivity.
Qed.

Lemma nth_elem_of {A} (l : list A) i (d : A) : (i < length l)%nat -> nth i l d ∈ l.
Proof. intros H. apply list_elem_of_In. now apply nth_In. Qed.

(** A combination that is returned extends the one it started from by one
    image of each contributing layer, in the order of the layers, and every
    layer that does not contribute is optional with nothing to offer. *)
Lemma combine_layers_Return todo : forall acc w res w',
  combine_layers todo acc w = (Return res, w') ->
  quiet w w'
  /\ exists picks,
       res = acc ++ picks
       /\ Forall2 (fun layer a =>
                     exists files, scan (disk w) (cwd w) layer = Some files
                                   /\ a ∈ images_of layer files)
            (filter (fun layer => contributes (disk w) (cwd w) layer = true) todo) picks
       /\ Forall (fun layer => contributes (disk w) (cwd w) layer = false ->
                               LayerConfig.required layer = false
                               /\ scan (disk w) (cwd w) layer = Some [])
            todo.
Proof.
  induction todo as [| layer rest IH]; intros acc w res w' H.
  - simpl in H. inversion H; subst. split; [auto |].
    exists []. rewrite app_nil_r. repeat split; constructor.
  - simpl in H. unfold bind in H at 1.
    pose proof (getImagesForLayer_spec layer w) as S.
    destruct (scan (disk w) (cwd w) layer) as [files |] eqn:Escan.
    2:{ destruct S as [e He]. rewrite He in H. discriminate. }
    destruct S as (w1 & Hget & Hq1 & Hd1). rewrite Hget in H.
    assert (Hdisk : disk w1 = disk w) by apply Hq1.
    assert (Hcwd : cwd w1 = cwd w) by apply Hq1.
    destruct files as [| f files'].
    + simpl in H. destruct (LayerConfig.required layer) eqn:Ereq; [discriminate |].
      apply IH in H as (Hq & picks & -> & HF2 & HF).
      rewrite Hdisk, Hcwd in HF2, HF.
      split; [eapply quiet_trans; eauto |].
      exists picks. split; [reflexivity |]. split.
      * rewrite filter_cons_False; [exact HF2 |].
        unfold contributes. rewrite Escan. discriminate.
      * constructor; [| exact HF]. intros _. now split.
    + cbn [images_of map] in H. fold (images_of layer (f :: files')) in H.
      unfold bind in H at 1.
      destruct (random_index_lt (length (images_of layer (f :: files'))) w1) as (i & Hi & Hlt).
      { simpl. lia. }
      change (LayerAttribute.mk (LayerConfig.name layer) (strip_extension f)
                (path_join [LayerConfig.folder layer; f])
              :: map (fun file => LayerAttribute.mk (LayerConfig.name layer) (strip_extension file)
                                    (path_join [LayerConfig.folder layer; file])) files')
        with (images_of layer (f :: files')) in H.
      rewrite Hi in H.
      apply IH in H as (Hq & picks & -> & HF2 & HF).
      cbn [with_drawn disk cwd] in HF2, HF. rewrite Hdisk, Hcwd in HF2, HF.
      split.
      { eapply quiet_trans; [exact Hq1 |]. eapply quiet_trans; [| exact Hq].
        repeat split. }
      eexists (_ :: picks). split; [now rewrite <- app_assoc |]. split.
      * rewrite filter_cons_True by (unfold contributes; now rewrite Escan).
        constructor; [| exact HF2].
        exists (f :: files'). split; [exact Escan |]. now apply nth_elem_of.
      * constructor; [| exact HF]. unfold contributes. rewrite Escan. discriminate.
Qed.


Lemma quiet_scan w w1 layer :
  quiet w w1 -> scan (disk w1) (cwd w1) layer = scan (disk w) (cwd w) layer.
Proof. intros (Hd & Hc & _). now rewrite Hd, Hc. Qed.

(** A required layer with nothing to offer stops the combination, at that
    layer or before it. *)
Lemma combine_layers_aborts todo : forall acc w layer,
  layer ∈ todo ->
  LayerConfig.required layer = true ->
  scan (disk w) (cwd w) layer = Some [] ->
  exists e w', combine_layers todo acc w = (Throw e, w') /\ quiet w w'.
Proof.
  induction todo as [| head rest IH]; intros acc w layer Hin Hreq Hscan.
  - inversion Hin.
  - simpl. unfold bind at 1.
    pose proof (getImagesForLayer_spec head w) as S.
    destruct (scan (disk w) (cwd w) head) as [files |] eqn:Ehead.
    2:{ destruct S as [e He]. rewrite He. eauto. }
    destruct S as (w1 & Hget & Hq1 & Hd1). rewrite Hget.
    assert (Hrest : layer ∈ rest ->
                    forall acc' w2, quiet w1 w2 ->
                    exists e w', combine_layers rest acc' w2 = (Throw e, w') /\ quiet w w').
    { intros Hr acc' w2 Hq2.
      destruct (IH acc' w2 layer Hr Hreq) as (e & w' & He & Hq').
      { rewrite (quiet_scan w w2); [exact Hscan |]. eapply quiet_trans; eauto. }
      exists e, w'. split; [exact He |].
      eapply quiet_trans; [exact Hq1 |]. eapply quiet_trans; eauto. }
    destruct files as [| f files'].
    + simpl. destruct (LayerConfig.required head) eqn:Ehreq.
      * unfold throw. eauto.
      * apply elem_of_cons in Hin as [-> | Hr]; [congruence |]. now apply Hrest.
    + apply elem_of_cons in Hin as [-> | Hr]; [congruence |].
      cbn [images_of map]. unfold bind at 1. unfold random_index at 1.
      apply Hrest; [exact Hr |]. repeat split.
Qed.

(** The first layer to fail is the one the error names. *)
Lemma combine_layers_first_missing pre : forall acc w layer post,
  Forall (fun l => exists files, scan (disk w) (cwd w) l = Some files
                                 /\ (files = [] -> LayerConfig.required l = false)) pre ->
  LayerConfig.required layer = true ->
  scan (disk w) (cwd w) layer = Some [] ->
  exists w',
    combine_layers (pre ++ layer :: post) acc w
    = (Throw (Error ("Layer " +:+ DQ +:+ LayerConfig.name layer +:+ DQ
                     +:+ " is required but has no images")), w')
    /\ quiet w w'.
Proof.
  induction pre as [| head rest IH]; intros acc w layer post Hpre Hreq Hscan.
  - simpl. unfold bind at 1.
    pose proof (getImagesForLayer_spec layer w) as S. rewrite Hscan in S.
    destruct S as (w1 & Hget & Hq1 & _). rewrite Hget. simpl. rewrite Hreq.
    unfold throw. eauto.
  - inversion Hpre as [| ? ? (files & Ehead & Hopt) Hpre']; subst.
    simpl. unfold bind at 1.
    pose proof (getImagesForLayer_spec head w) as S. rewrite Ehead in S.
    destruct S as (w1 & Hget & Hq1 & _). rewrite Hget.
    assert (Hgo : forall acc' w2, quiet w1 w2 ->
              exists w',
                combine_layers (rest ++ layer :: post) acc' w2
                = (Throw (Error ("Layer " +:+ DQ +:+ LayerConfig.name layer +:+ DQ
                                 +:+ " is required but has no images")), w')
                /\ quiet w w').
    { intros acc' w2 Hq2.
      assert (Hq : quiet w w2) by (eapply quiet_trans; eauto).
      destruct (IH acc' w2 layer post) as (w' & He & Hq').
      - eapply Forall_impl; [exact Hpre' |]. intros l (fs & Hl & Ho).
        exists fs. now rewrite (quiet_scan w w2).
      - exact Hreq.
      - now rewrite (quiet_scan w w2).
      - exists w'. split; [exact He |]. eapply quiet_trans; eauto. }
    destruct files as [| f files'].
    + simpl. rewrite (Hopt eq_refl). now apply Hgo.
    + cbn [images_of map]. unfold bind at 1. unfold random_index at 1.
      apply Hgo. repeat split.
Qed.


(** ** Writing a file *)

Lemma writeFileSync_spec p data w :
  let k := resolve (cwd w) p in
  (writable (disk w) k = true
   /\ writeFileSync p data w = (Return tt, with_disk (<[k := File data]> (disk w)) w))
  \/ (writable (disk w) k = false
      /\ exists code, writeFileSync p data w = (Throw (SystemError code "open" p), w)).
Proof.
  intros k. unfold writeFileSync, writable. fold k.
  destruct k as [| seg k'] eqn:Ek.
  - right. eauto.
  - destruct (lookup_node (disk w) (parent (seg :: k'))) as [[? |] |];
      destruct (lookup_node (disk w) (seg :: k')) as [[? |] |]; eauto.
Qed.

(** ** Compositing *)

Section Compositing.

Variable png : codec.

Lemma loadImage_spec p w : loadImage png p w = (load png w p, w).
Proof.
  unfold load, loadImage, bind, readFileSync.
  destruct (lookup_node (disk w) (resolve (cwd w) p)) as [[data |] |]; try reflexivity.
  destruct (decode_image png data); reflexivity.
Qed.

Lemma quiet_load w w1 p : quiet w w1 -> load png w1 p = load png w p.
Proof.
  intros (Hd & Hc & _). unfold load, loadImage, bind, readFileSync. rewrite Hd, Hc.
  destruct (lookup_node (disk w) (resolve (cwd w) p)) as [[data |] |]; try reflexivity.
  destruct (decode_image png data); reflexivity.
Qed.

Lemma quiet_layer_draws w w1 width height attributes :
  quiet w w1 ->
  layer_draws png w1 width height attributes = layer_draws png w width height attributes.
Proof.
  intros Hq. unfold layer_draws. apply list_omap_ext.
  induction attributes as [| a rest IH]; constructor; [| exact IH].
  now rewrite (quiet_load w w1).
Qed.

Lemma quiet_layer_errors w w1 attributes :
  quiet w w1 -> layer_errors png w1 attributes = layer_errors png w attributes.
Proof.
  intros Hq. unfold layer_errors. apply list_omap_ext.
  induction attributes as [| a rest IH]; constructor; [| exact IH].
  now rewrite (quiet_load w w1).
Qed.

Lemma layer_draws_cons w width height layer rest :
  layer_draws png w width height (layer :: rest)
  = match load png w (LayerAttribute.path layer) with
    | Return bitmap => DrawImage bitmap 0 0 width height :: layer_draws png w width height rest
    | Throw _ => layer_draws png w width height rest
    end.
Proof.
  unfold layer_draws. cbn. destruct (load png w (LayerAttribute.path layer)); reflexivity.
Qed.

Lemma layer_errors_cons w layer rest :
  layer_errors png w (layer :: rest)
  = match load png w (LayerAttribute.path layer) with
    | Return _ => layer_errors png w rest
    | Throw e =>
        (ERROR, "Error loading image " +:+ LayerAttribute.path layer +:+ ": " +:+ exn_message e)
        :: layer_errors png w rest
    end.
Proof.
  unfold layer_errors. cbn. destruct (load png w (LayerAttribute.path layer)); reflexivity.
Qed.

(** The drawing loop always returns: it draws the layers that load, in
    order, and prints one error line for each of the others. *)
Lemma draw_layers_spec attributes width height : forall ctx w,
  exists ctx' w',
    draw_layers png attributes width height ctx w = (Return ctx', w')
    /\ drawn_ops ctx' = drawn_ops ctx ++ layer_draws png w width height attributes
    /\ console w' = console w ++ layer_errors png w attributes
    /\ quiet w w' /\ drawn w' = drawn w.
Proof.
  induction attributes as [| layer rest IH]; intros ctx w.
  - exists ctx, w. cbn. rewrite !app_nil_r. repeat split.
  - cbn [draw_layers]. unfold bind at 1. unfold try_catch, bind at 1. rewrite loadImage_spec.
    rewrite layer_draws_cons, layer_errors_cons.
    destruct (load png w (LayerAttribute.path layer)) as [bitmap | e] eqn:El.
    + cbn [ret]. destruct (IH (drawImage bitmap 0 0 width height ctx) w)
        as (ctx' & w' & Hrun & Hops & Hcon & Hq & Hd).
      exists ctx', w'. split; [exact Hrun |].
      split; [| split; [exact Hcon | split; [exact Hq | exact Hd]]].
      rewrite Hops. cbn [drawImage put_op drawn_ops]. now rewrite <- app_assoc.
    + unfold bind at 1. cbn [console_error console_write ret].
      set (w1 := with_console _ w).
      assert (Hq1 : quiet w w1) by (repeat split).
      destruct (IH ctx w1) as (ctx' & w' & Hrun & Hops & Hcon & Hq & Hd).
      exists ctx', w'. split; [exact Hrun |].
      rewrite (quiet_layer_draws w w1) in Hops by exact Hq1.
      rewrite (quiet_layer_errors w w1) in Hcon by exact Hq1.
      split; [exact Hops |]. split.
      { rewrite Hcon. unfold w1. cbn [with_console console]. now rewrite <- app_assoc. }
      split; [eapply quiet_trans; eauto | exact Hd].
Qed.

End Compositing.


(** ** The run of [generateNFT] *)

Section Run.

Variable png : codec.

Ltac norm_world :=
  unfold with_disk, with_console, with_drawn in *;
  cbn [disk cwd console randoms drawn clock environ chain store] in *.

Ltac enter_generateNFT :=
  unfold generateNFT; unfold bind at 1; cbn [console_log console_write];
  unfold bind at 1; unfold ensureDirSync at 1; cbn [cwd disk with_console].

(** The output directories cannot be made: the call fails, and the files on
    the disk are those it found. *)
Lemma generateNFT_dirs_fail tokenId config w :
  output_dirs config w = None ->
  exists e w', generateNFT png tokenId config w = (Throw e, w')
               /\ (forall k, file_at (disk w') k = file_at (disk w) k) /\ cwd w' = cwd w.
Proof.
  unfold output_dirs. intros H. enter_generateNFT.
  destruct (make_dirs [] _ (disk w)) as [d1 |] eqn:E1.
  - unfold bind at 1. unfold ensureDirSync at 1. cbn [cwd disk with_disk with_console].
    rewrite H.
    assert (Hfiles : forall k, file_at d1 k = file_at (disk w) k).
    { intros k. eapply make_dirs_files; eauto. }
    destruct (d1 !! _) as [[? |] |]; eexists _, _; (split; [reflexivity |]);
      cbn [with_disk disk cwd with_console]; (split; [exact Hfiles | reflexivity]).
  - destruct (disk w !! _) as [[? |] |]; eexists _, _; (split; [reflexivity |]);
      split; reflexivity.
Qed.

Lemma output_dirs_files config w d :
  output_dirs config w = Some d -> forall k, file_at d k = file_at (disk w) k.
Proof.
  unfold output_dirs. intros H k.
  destruct (make_dirs [] _ (disk w)) as [d1 |] eqn:E1; [| discriminate].
  rewrite (make_dirs_files _ _ _ _ H k). eapply make_dirs_files; eauto.
Qed.

(** The combination throws: so does the call, in the world the combination
    left. *)
Lemma generateNFT_combination_throws tokenId config w d e w2 :
  output_dirs config w = Some d ->
  createRandomCombination config (prepared tokenId w d) = (Throw e, w2) ->
  generateNFT png tokenId config w = (Throw e, w2).
Proof.
  unfold output_dirs. intros H Hc. enter_generateNFT.
  destruct (make_dirs [] _ (disk w)) as [d1 |] eqn:E1; [| discriminate].
  unfold bind at 1. unfold ensureDirSync at 1. cbn [cwd disk with_disk with_console].
  rewrite H. unfold bind at 1. unfold prepared in Hc. norm_world.
  rewrite Hc. reflexivity.
Qed.

(** The combination returns: the call goes on to the end unless the file
    system refuses one of the two files. *)
Lemma generateNFT_run tokenId config w d attributes w2 :
  output_dirs config w = Some d ->
  createRandomCombination config (prepared tokenId w d) = (Return attributes, w2) ->
  quiet (prepared tokenId w d) w2 ->
  let timestamp := clock w in
  let buffer :=
    encode_png png (NFTConfig.width config) (NFTConfig.height config)
      (composed png w2 config attributes timestamp) in
  let text := JSON_stringify (metadata_json (metadata_of tokenId config attributes timestamp)) in
  let k_img := resolve (cwd w) (image_path tokenId config) in
  let k_meta := resolve (cwd w) (metadata_path tokenId config) in
  exists r w',
    generateNFT png tokenId config w = (r, w') /\ cwd w' = cwd w
    /\ if writable d k_img then
         if writable (<[k_img := File buffer]> d) k_meta then
           r = Return (Generated.mk (image_path tokenId config) (metadata_path tokenId config)
                         (metadata_of tokenId config attributes timestamp))
           /\ disk w' = <[k_meta := File text]> (<[k_img := File buffer]> d)
           /\ console w' = console w2 ++ layer_errors png w2 attributes
                           ++ [(LOG, "Completed NFT #" +:+ number_to_string tokenId)]
         else (exists code, r = Throw (SystemError code "open" (metadata_path tokenId config)))
              /\ disk w' = <[k_img := File buffer]> d
       else (exists code, r = Throw (SystemError code "open" (image_path tokenId config)))
            /\ disk w' = d.
Proof.
  unfold output_dirs. intros H Hc Hq2. enter_generateNFT.
  destruct (make_dirs [] _ (disk w)) as [d1 |] eqn:E1; [| discriminate].
  unfold bind at 1. unfold ensureDirSync at 1. cbn [cwd disk with_disk with_console].
  rewrite H. unfold bind at 1. unfold prepared in Hc, Hq2. norm_world.
  rewrite Hc. unfold bind at 1.
  destruct (draw_layers_spec png attributes (NFTConfig.width config) (NFTConfig.height config)
              (fillRect 0 0 (NFTConfig.width config) (NFTConfig.height config)
                 (set_fillStyle "white" createCanvas)) w2)
    as (ctx & w3 & Hdraw & Hops & Hcon & Hq3 & _).
  rewrite Hdraw. unfold bind at 1. unfold addTimestampToCanvas, bind at 1, now_iso, ret at 1.
  cbn [fst snd].
  destruct Hq2 as (Hd2 & Hc2 & _ & Hk2 & _).
  destruct Hq3 as (Hd3 & Hc3 & _ & Hk3 & _).
  cbn [disk cwd clock] in Hd2, Hc2, Hk2.
  assert (Hclock : clock w3 = clock w) by congruence.
  assert (Hcwd : cwd w3 = cwd w) by congruence.
  assert (Hdisk : disk w3 = d) by congruence.
  rewrite Hclock.
  match goal with
  | |- context [encode_png png _ _ ?ops] =>
      replace ops with (composed png w2 config attributes (clock w))
  end.
  2:{ unfold composed. cbn [strokeText fillText put_op set_fillStyle set_strokeStyle
        set_lineWidth set_font set_textAlign drawn_ops fillStyle strokeStyle lineWidth font
        textAlign].
      rewrite Hops. cbn [fillRect put_op set_fillStyle createCanvas drawn_ops fillStyle].
      rewrite <- !app_assoc. reflexivity. }
  fold (image_path tokenId config). fold (metadata_path tokenId config).
  fold (metadata_of tokenId config attributes (clock w)).
  unfold bind at 1.
  destruct (writeFileSync_spec (image_path tokenId config)
              (encode_png png (NFTConfig.width config) (NFTConfig.height config)
                 (composed png w2 config attributes (clock w))) w3)
    as [[Hw1 Hrun1] | [Hw1 (e1 & Hrun1)]];
    rewrite Hcwd, Hdisk in Hw1; rewrite Hw1, Hrun1.
  2:{ eexists _, _. split; [reflexivity |]. split; [exact Hcwd |]. split; [eauto | exact Hdisk]. }
  unfold bind at 1.
  match goal with
  | |- context [writeFileSync (metadata_path tokenId config) ?t ?w4] =>
      destruct (writeFileSync_spec (metadata_path tokenId config) t w4)
        as [[Hw2 Hrun2] | [Hw2 (e2 & Hrun2)]]
  end;
    cbn [with_disk disk cwd] in Hw2; rewrite Hcwd, Hdisk in Hw2; rewrite Hw2, Hrun2.
  2:{ eexists _, _. split; [reflexivity |]. cbn [with_disk disk cwd].
      split; [exact Hcwd |]. split; [eauto |]. now rewrite Hcwd, Hdisk. }
  unfold bind at 1. cbn [console_log console_write ret].
  eexists _, _. split; [reflexivity |].
  cbn [with_disk with_console disk cwd console].
  split; [exact Hcwd |]. split; [reflexivity |]. split.
  - now rewrite Hcwd, Hdisk.
  - rewrite Hcon. now rewrite <- app_assoc.
Qed.

(** What a call that returns has done. *)
Lemma generateNFT_Return_inv tokenId config w g w' :
  generateNFT png tokenId config w = (Return g, w') ->
  exists d attributes w2,
    output_dirs config w = Some d
    /\ createRandomCombination config (prepared tokenId w d) = (Return attributes, w2)
    /\ quiet (prepared tokenId w d) w2
    /\ g = Generated.mk (image_path tokenId config) (metadata_path tokenId config)
              (metadata_of tokenId config attributes (clock w))
    /\ disk w'
       = <[resolve (cwd w) (metadata_path tokenId config) :=
             File (JSON_stringify (metadata_json (metadata_of tokenId config attributes (clock w))))]>
           (<[resolve (cwd w) (image_path tokenId config) :=
                File (encode_png png (NFTConfig.width config) (NFTConfig.height config)
                        (composed png w2 config attributes (clock w)))]> d)
    /\ cwd w' = cwd w.
Proof.
  intros Hrun.
  destruct (output_dirs config w) as [d |] eqn:Edirs.
  2:{ destruct (generateNFT_dirs_fail tokenId config w Edirs) as (e & w1 & He & _).
      rewrite He in Hrun. discriminate. }
  destruct (createRandomCombination config (prepared tokenId w d)) as [[attributes | e] w2] eqn:Ecomb.
  2:{ rewrite (generateNFT_combination_throws tokenId config w d e w2 Edirs Ecomb) in Hrun.
      discriminate. }
  assert (Hq : quiet (prepared tokenId w d) w2).
  { unfold createRandomCombination in Ecomb. now apply combine_layers_Return in Ecomb. }
  destruct (generateNFT_run tokenId config w d attributes w2 Edirs Ecomb Hq)
    as (r & w1 & Hrun' & Hcwd & Hcases).
  rewrite Hrun in Hrun'. inversion Hrun'; subst r w1. clear Hrun'.
  exists d, attributes, w2. repeat (split; [assumption || reflexivity |]).
  destruct (writable d _).
  - destruct (writable _ _).
    + destruct Hcases as (Hg & Hdisk & _). inversion Hg. now repeat split.
    + destruct Hcases as ((e & He) & _). discriminate.
  - destruct Hcases as ((e & He) & _). discriminate.
Qed.

End Run.


(** ** Paths *)

Lemma split_on_nonempty sep s : split_on sep s <> [].
Proof.
  destruct s as [| c s']; simpl; [discriminate |].
  destruct (Ascii.eqb c sep); [discriminate |].
  destruct (split_on sep s'); discriminate.
Qed.

Lemma split_on_app sep a b :
  split_on sep (a +:+ String sep b) = split_on sep a ++ split_on sep b.
Proof.
  induction a as [| c a' IH]; simpl.
  - now rewrite Ascii.eqb_refl.
  - destruct (Ascii.eqb c sep); [now rewrite IH |].
    rewrite IH. destruct (split_on sep a') as [| h t] eqn:E; [| reflexivity].
    now apply split_on_nonempty in E.
Qed.

Lemma split_on_plain f :
  all_chars (fun c => negb (Ascii.eqb c "/"%char)) f = true -> split_on "/" f = [f].
Proof.
  induction f as [| c f' IH]; simpl; [reflexivity |].
  intros H. apply andb_prop in H as [Hc Hf]. apply negb_true_iff in Hc. rewrite Hc.
  now rewrite (IH Hf).
Qed.

Lemma plain_name_inv f :
  plain_name f = true ->
  is_noop_segment f = false /\ String.eqb f ".." = false
  /\ all_chars (fun c => negb (Ascii.eqb c "/"%char)) f = true.
Proof.
  unfold plain_name. intros H. apply andb_prop in H as [H H3]. apply andb_prop in H as [H1 H2].
  apply negb_true_iff in H1, H2. auto.
Qed.

Lemma normalize_segments_snoc allow f segs : forall kept,
  is_noop_segment f = false -> String.eqb f ".." = false ->
  normalize_segments allow kept (segs ++ [f]) = normalize_segments allow kept segs ++ [f].
Proof.
  induction segs as [| seg rest IH]; intros kept Hn Hd.
  - simpl. now rewrite Hn, Hd.
  - simpl. destruct (is_noop_segment seg); [now apply IH |].
    destruct (String.eqb seg "..").
    + destruct kept as [| top below]; [now apply IH |].
      destruct (String.eqb top ".."); now apply IH.
    + now apply IH.
Qed.

Lemma resolve_last wd p segs f :
  split_on "/" p = segs ++ [f] -> plain_name f = true ->
  exists k, resolve wd p = k ++ [f].
Proof.
  intros Hs Hf. apply plain_name_inv in Hf as (Hn & Hd & _).
  unfold resolve. rewrite Hs. destruct (isAbsolute p).
  - rewrite normalize_segments_snoc by assumption. eauto.
  - rewrite app_assoc, normalize_segments_snoc by assumption. eauto.
Qed.

Lemma join_with_snoc sep l f :
  join_with sep (l ++ [f]) = match l with [] => f | _ => join_with sep l +:+ sep +:+ f end.
Proof.
  induction l as [| x rest IH]; [reflexivity |].
  destruct rest as [| y rest'].
  - reflexivity.
  - change (join_with sep ((x :: y :: rest') ++ [f]))
      with (x +:+ sep +:+ join_with sep ((y :: rest') ++ [f])).
    rewrite IH. cbn [join_with]. now rewrite !append_assoc.
Qed.

Lemma split_join_snoc l f :
  all_chars (fun c => negb (Ascii.eqb c "/"%char)) f = true ->
  exists segs, split_on "/" (join_with "/" (l ++ [f])) = segs ++ [f].
Proof.
  intros Hf. rewrite join_with_snoc. destruct l as [| x rest].
  - exists []. now apply split_on_plain.
  - change ("/" +:+ f) with (String "/"%char f).
    rewrite split_on_app, (split_on_plain f Hf). eauto.
Qed.

Lemma endsWith_slash_plain f : forall p,
  f <> "" -> all_chars (fun c => negb (Ascii.eqb c "/"%char)) f = true ->
  endsWith (p +:+ f) "/" = false.
Proof.
  assert (Hbase : forall g, g <> "" ->
            all_chars (fun c => negb (Ascii.eqb c "/"%char)) g = true -> endsWith g "/" = false).
  { induction g as [| c g' IH]; intros Hne Hg; [congruence |].
    simpl in Hg. apply andb_prop in Hg as [Hc Hg']. apply negb_true_iff in Hc.
    cbn [endsWith]. apply orb_false_iff. split.
    - cbn. rewrite Hc. reflexivity.
    - destruct g' as [| c' g'']; [reflexivity |]. apply IH; [discriminate | exact Hg']. }
  induction p as [| c p' IH]; intros Hne Hf; [now apply Hbase |].
  rewrite append_cons. cbn [endsWith]. apply orb_false_iff. split.
  - destruct (String.eqb_spec (String c (p' +:+ f)) "/") as [E |]; [| reflexivity].
    inversion E as [[Hc E']]. now apply append_nonempty in E'.
  - now apply IH.
Qed.

(** The last segment of a joined path is its last part, when that is a plain
    name. *)
Lemma path_join_last wd parts f :
  plain_name f = true -> exists k, resolve wd (path_join (parts ++ [f])) = k ++ [f].
Proof.
  intros Hplain. pose proof (plain_name_inv f Hplain) as (Hn & Hd & Hs).
  assert (Hne : f <> "").
  { intros ->. discriminate. }
  unfold path_join. rewrite filter_app.
  assert (Hfilter : filter (fun a : string => negb (String.eqb a "")) [f] = [f]).
  { rewrite filter_cons_True; [reflexivity |].
    destruct (String.eqb_spec f ""); [contradiction | exact I]. }
  rewrite Hfilter.
  set (used := filter (fun a : string => negb (String.eqb a "")) parts).
  destruct (used ++ [f]) as [| u0 us] eqn:Eused.
  { destruct used; discriminate. }
  rewrite <- Eused. clear Eused u0 us.
  destruct (split_join_snoc used f Hs) as (segs & Hsplit).
  set (joined := join_with "/" (used ++ [f])) in *.
  assert (Hjoined : exists p, joined = p +:+ f).
  { unfold joined. rewrite join_with_snoc. destruct used.
    - now exists "".
    - eexists. rewrite append_assoc. reflexivity. }
  destruct Hjoined as (p & Hp).
  assert (Hends : endsWith joined "/" = false).
  { rewrite Hp. now apply endsWith_slash_plain. }
  unfold path_normalize.
  destruct (String.eqb_spec joined "") as [E | _].
  { rewrite Hp in E. now apply append_nonempty in E. }
  rewrite Hends.
  rewrite Hsplit, normalize_segments_snoc by assumption.
  set (kept := normalize_segments (negb (isAbsolute joined)) [] segs).
  destruct (split_join_snoc kept f Hs) as (segs' & Hsplit').
  assert (Hbody : join_with "/" (kept ++ [f]) <> "").
  { rewrite join_with_snoc. destruct kept; [exact Hne |].
    now apply append_nonempty, append_nonempty. }
  destruct (String.eqb_spec (join_with "/" (kept ++ [f])) ""); [contradiction |].
  destruct (isAbsolute joined).
  - eapply (resolve_last wd _ ("" :: segs')); [| exact Hplain].
    change (split_on "/" (String "/"%char (join_with "/" (kept ++ [f]))) = ("" :: segs') ++ [f]).
    cbn [split_on]. change (Ascii.eqb "/" "/") with true. cbn iota. now rewrite Hsplit'.
  - eapply resolve_last; [exact Hsplit' | exact Hplain].
Qed.


(** ** Token identifiers as text *)

Lemma all_chars_app p a b : all_chars p (a +:+ b) = all_chars p a && all_chars p b.
Proof.
  induction a as [| c a IH]; [reflexivity |].
  rewrite append_cons. cbn [all_chars]. now rewrite IH, andb_assoc.
Qed.

Lemma all_chars_impl (p q : ascii -> bool) s :
  (forall c, p c = true -> q c = true) -> all_chars p s = true -> all_chars q s = true.
Proof.
  intros Hpq. induction s as [| c s IH]; [reflexivity |]. cbn [all_chars].
  intros H. apply andb_prop in H as [Hc Hs]. now rewrite (Hpq c Hc), (IH Hs).
Qed.

Lemma string_of_uint_digits d : all_chars number_char (NilEmpty.string_of_uint d) = true.
Proof. induction d; cbn [NilEmpty.string_of_uint all_chars]; try rewrite IHd; reflexivity. Qed.

Lemma number_to_string_chars n : all_chars number_char (number_to_string n) = true.
Proof.
  destruct n as [z |]; [| reflexivity].
  unfold number_to_string. destruct (Z.to_int z) as [d | d]; cbn [NilZero.string_of_int].
  - unfold NilZero.string_of_uint. destruct d; try reflexivity; apply string_of_uint_digits.
  - cbn [all_chars]. unfold NilZero.string_of_uint.
    destruct d; try reflexivity; apply string_of_uint_digits.
Qed.

Lemma number_char_not_slash c : number_char c = true -> negb (Ascii.eqb c "/"%char) = true.
Proof.
  destruct (Ascii.eqb_spec c "/"%char) as [-> |]; [discriminate | reflexivity].
Qed.

Lemma long_name_plain s :
  (3 <= String.length s)%nat ->
  all_chars (fun c => negb (Ascii.eqb c "/"%char)) s = true -> plain_name s = true.
Proof.
  intros Hlen Hs. unfold plain_name, is_noop_segment. rewrite Hs.
  destruct (String.eqb_spec s "") as [-> |]; [simpl in Hlen; lia |].
  destruct (String.eqb_spec s ".") as [-> |]; [simpl in Hlen; lia |].
  destruct (String.eqb_spec s "..") as [-> |]; [simpl in Hlen; lia |].
  reflexivity.
Qed.

Lemma token_file_plain n ext :
  (3 <= String.length ext)%nat ->
  all_chars (fun c => negb (Ascii.eqb c "/"%char)) ext = true ->
  plain_name (number_to_string n +:+ ext) = true.
Proof.
  intros Hlen Hext. apply long_name_plain.
  - rewrite length_append. lia.
  - rewrite all_chars_app, Hext, andb_true_r.
    eapply all_chars_impl; [exact number_char_not_slash | apply number_to_string_chars].
Qed.

Lemma append_inj_l (a b c : string) : a +:+ b = a +:+ c -> b = c.
Proof.
  induction a as [| x a IH]; [auto |]. rewrite !append_cons. intros H. inversion H. auto.
Qed.

(** The image file and the metadata file of a token are different files. *)
Lemma image_and_metadata_apart wd tokenId config :
  resolve wd (image_path tokenId config) <> resolve wd (metadata_path tokenId config).
Proof.
  unfold image_path, metadata_path.
  destruct (path_join_last wd [NFTConfig.outputDir config; "images"]
              (number_to_string tokenId +:+ ".png")) as (k1 & H1).
  { apply token_file_plain; [simpl; lia | reflexivity]. }
  destruct (path_join_last wd [NFTConfig.outputDir config; "metadata"]
              (number_to_string tokenId +:+ ".json")) as (k2 & H2).
  { apply token_file_plain; [simpl; lia | reflexivity]. }
  cbn [app] in H1, H2. rewrite H1, H2. intros E.
  apply app_inj_tail in E as [_ E]. apply append_inj_l in E. discriminate.
Qed.

Section Claims.

Variable png : codec.

(** C4. The image field of the metadata a call returns is the absolute URL
    [https://<s3Endpoint>/<s3BucketName>/images/<tokenId>.png] when both the
    end point and the bucket are configured (present and not empty), and the
    bare file name [<tokenId>.png] otherwise; the two forms never coincide. *)
Theorem image_field_one_of_two_forms tokenId config w g w' :
  generateNFT png tokenId config w = (Return g, w') ->
  let image := NFTMetadata.image (Generated.metadata g) in
  (forall endpoint bucket,
     NFTConfig.s3Endpoint config = Some endpoint -> NFTConfig.s3BucketName config = Some bucket ->
     endpoint <> "" -> bucket <> "" -> image = absolute_url endpoint bucket tokenId)
  /\ (truthy (NFTConfig.s3Endpoint config) && truthy (NFTConfig.s3BucketName config) = false ->
      image = bare_filename tokenId)
  /\ (image = bare_filename tokenId
      \/ exists endpoint bucket, image = absolute_url endpoint bucket tokenId)
  /\ (forall endpoint bucket, bare_filename tokenId <> absolute_url endpoint bucket tokenId).
Proof.
  intros Hrun image.
  apply generateNFT_Return_inv in Hrun as (d & attributes & w2 & _ & _ & _ & -> & _).
  subst image. cbn [Generated.metadata metadata_of NFTMetadata.image].
  unfold image_reference. split; [| split; [| split]].
  - intros endpoint bucket -> -> He Hb. cbn [truthy default].
    destruct (String.eqb_spec endpoint ""); [contradiction |].
    destruct (String.eqb_spec bucket ""); [contradiction |]. reflexivity.
  - intros ->. reflexivity.
  - destruct (truthy (NFTConfig.s3Endpoint config) && truthy (NFTConfig.s3BucketName config)).
    + right. eexists _, _. reflexivity.
    + now left.
  - intros endpoint bucket E. unfold bare_filename, absolute_url in E.
    pose proof (number_to_string_chars tokenId) as Hc.
    destruct (number_to_string tokenId) as [| c s]; [discriminate |].
    rewrite append_cons in E. change ("https://" +:+ ?x) with (String "h"%char ("ttps://" +:+ x)) in E.
    injection E as Hh _. rewrite Hh in Hc. cbn in Hc. discriminate.
Qed.

(** C6. A call that returns has written the PNG at
    [<outputDir>/images/<tokenId>.png] and the metadata JSON at
    [<outputDir>/metadata/<tokenId>.json]; the value it returns holds these
    two paths and the metadata object whose JSON text is in the second file. *)
Theorem generated_files_and_result tokenId config w g w' :
  generateNFT png tokenId config w = (Return g, w') ->
  Generated.imagePath g
  = path_join [NFTConfig.outputDir config; "images"; number_to_string tokenId +:+ ".png"]
  /\ Generated.metadataPath g
     = path_join [NFTConfig.outputDir config; "metadata"; number_to_string tokenId +:+ ".json"]
  /\ (exists surface,
        read_back w' (Generated.imagePath g)
        = Some (encode_png png (NFTConfig.width config) (NFTConfig.height config) surface))
  /\ read_back w' (Generated.metadataPath g)
     = Some (JSON_stringify (metadata_json (Generated.metadata g))).
Proof.
  intros Hrun.
  apply generateNFT_Return_inv in Hrun as (d & attributes & w2 & _ & _ & _ & -> & Hdisk & Hcwd).
  cbn [Generated.imagePath Generated.metadataPath Generated.metadata].
  split; [reflexivity |]. split; [reflexivity |].
  unfold read_back, file_at. rewrite Hdisk, Hcwd. split.
  - eexists. rewrite lookup_insert_ne by (apply not_eq_sym, image_and_metadata_apart).
    rewrite lookup_insert_eq. reflexivity.
  - now rewrite lookup_insert_eq.
Qed.

End Claims.

(** ** The claims on the sample worlds *)

Lemma run_eq {A} (m : M A) (w : world) (r : outcome A) :
  fst (m w) = r -> m w = (r, snd (m w)).
Proof. intros <-. now destruct (m w). Qed.

Lemma demo_run :
  generateNFT demo_codec (Num 7) DEFAULT_CONFIG demo_world = (Return demo_generated, (snd (generateNFT demo_codec (Num 7) DEFAULT_CONFIG demo_world))).
Proof.
  exact (run_eq (generateNFT demo_codec (Num 7) DEFAULT_CONFIG) demo_world (Return demo_generated)
           ltac:(vm_compute; reflexivity)).
Qed.

Lemma image_field_one_of_two_forms_witness :
  NFTMetadata.image (Generated.metadata demo_generated) = bare_filename (Num 7).
Proof.
  pose proof (image_field_one_of_two_forms demo_codec (Num 7) DEFAULT_CONFIG demo_world
                demo_generated (snd (generateNFT demo_codec (Num 7) DEFAULT_CONFIG demo_world)) demo_run) as H.
  cbv zeta in H. destruct H as (_ & Hbare & _). exact (Hbare eq_refl).
Defined.

Lemma generated_files_and_result_witness :
  Generated.imagePath demo_generated
  = path_join [NFTConfig.outputDir DEFAULT_CONFIG; "images"; number_to_string (Num 7) +:+ ".png"]
  /\ read_back (snd (generateNFT demo_codec (Num 7) DEFAULT_CONFIG demo_world)) (Generated.metadataPath demo_generated)
     = Some (JSON_stringify (metadata_json (Generated.metadata demo_generated))).
Proof.
  destruct (generated_files_and_result demo_codec (Num 7) DEFAULT_CONFIG demo_world
              demo_generated (snd (generateNFT demo_codec (Num 7) DEFAULT_CONFIG demo_world)) demo_run) as (H1 & _ & _ & H4).
  split; [exact H1 | exact H4].
Defined.


(** ** File names of layer images *)

Lemma lower_char_dot c : lower_char c = "."%char -> c = "."%char.
Proof.
  destruct c as [[] [] [] [] [] [] [] []]; vm_compute; intros H; try discriminate; reflexivity.
Qed.

Lemma lower_char_plain c :
  (lower_char c = "p" \/ lower_char c = "n" \/ lower_char c = "g")%char ->
  not_dot_or_slash c = true.
Proof.
  destruct c as [[] [] [] [] [] [] [] []]; vm_compute; intros [H | [H | H]];
    try discriminate; reflexivity.
Qed.

Lemma toLowerCase_app a b : toLowerCase (a +:+ b) = toLowerCase a +:+ toLowerCase b.
Proof.
  induction a as [| c a IH]; [reflexivity |].
  rewrite append_cons. cbn [toLowerCase]. now rewrite IH, append_cons.
Qed.

(** For a name that ends in [.png] in any letter case, removing the
    extension removes exactly those four characters. *)
Lemma strip_extension_png file :
  is_png_name file = true ->
  exists ext, file = strip_extension file +:+ ext /\ toLowerCase ext = ".png".
Proof.
  unfold is_png_name. induction file as [| c file IH]; [discriminate |].
  cbn [toLowerCase endsWith strip_extension]. intros H.
  destruct (endsWith (toLowerCase file) ".png") eqn:Etail.
  - destruct (IH eq_refl) as (ext & Hfile & Hext).
    assert (Hdot : all_chars not_dot_or_slash file = false).
    { rewrite Hfile, all_chars_app. destruct ext as [| e ext']; [discriminate |].
      cbn [toLowerCase] in Hext. injection Hext as He _. apply lower_char_dot in He. subst e.
      cbn [all_chars]. change (not_dot_or_slash ".") with false. cbn.
      now rewrite andb_false_r. }
    rewrite Hdot, andb_false_r. exists ext. split; [| exact Hext].
    rewrite append_cons. now f_equal.
  - rewrite orb_false_r in H. apply String.eqb_eq in H.
    injection H as Hc Hrest. apply lower_char_dot in Hc. subst c.
    destruct file as [| p [| n [| g [| x rest]]]]; try discriminate.
    cbn [toLowerCase] in Hrest. injection Hrest as Hp Hn Hg.
    change (Ascii.eqb "." ".") with true. cbn [andb negb String.eqb all_chars].
    rewrite !lower_char_plain by auto. cbn [andb].
    exists (String "." (String p (String n (String g "")))). split; [reflexivity |].
    cbn [toLowerCase]. now rewrite Hp, Hn, Hg.
Qed.

Section Selection.

Variable png : codec.

Lemma elem_of_images_of a layer files :
  a ∈ images_of layer files ->
  exists file, file ∈ files
               /\ a = LayerAttribute.mk (LayerConfig.name layer) (strip_extension file)
                        (path_join [LayerConfig.folder layer; file]).
Proof.
  unfold images_of. intros H. apply list_elem_of_fmap in H as (file & -> & Hin). eauto.
Qed.

(** C2. In the metadata of a call that returns, the attributes match, one
    for one and in the configured order, the layers whose folder held at
    least one PNG when the combination was made: each carries its layer's
    name and the base name of one of that layer's PNG files; their number
    is the number of those layers; and a layer that gave none is optional,
    with a folder that is absent or holds no PNG. *)
Theorem attributes_match_contributing_layers tokenId config w g w' :
  generateNFT png tokenId config w = (Return g, w') ->
  exists d,
    output_dirs config w = Some d
    /\ let contributing :=
         filter (fun layer => contributes d (cwd w) layer = true) (NFTConfig.layers config) in
       let attributes := NFTMetadata.attributes (Generated.metadata g) in
       Forall2 (fun layer a =>
                  Attribute.trait_type a = LayerConfig.name layer
                  /\ exists files file,
                       scan d (cwd w) layer = Some files /\ file ∈ files
                       /\ Attribute.value a = strip_extension file)
         contributing attributes
       /\ map Attribute.trait_type attributes = map LayerConfig.name contributing
       /\ length attributes = length contributing
       /\ Forall (fun layer => contributes d (cwd w) layer = false ->
                               LayerConfig.required layer = false
                               /\ scan d (cwd w) layer = Some [])
            (NFTConfig.layers config).
Proof.
  intros Hrun.
  apply generateNFT_Return_inv in Hrun as (d & picked & w2 & Hdirs & Hcomb & _ & -> & _).
  exists d. split; [exact Hdirs |].
  unfold createRandomCombination in Hcomb.
  apply combine_layers_Return in Hcomb as (_ & picks & Hpicks & HF2 & HF).
  cbn [app] in Hpicks. subst picked.
  cbn [Generated.metadata metadata_of NFTMetadata.attributes].
  unfold prepared in HF2, HF. cbn [with_disk with_console disk cwd] in HF2, HF.
  assert (Hmatch :
    Forall2 (fun layer a =>
               Attribute.trait_type a = LayerConfig.name layer
               /\ exists files file,
                    scan d (cwd w) layer = Some files /\ file ∈ files
                    /\ Attribute.value a = strip_extension file)
      (filter (fun layer => contributes d (cwd w) layer = true) (NFTConfig.layers config))
      (map (fun attr => Attribute.mk (LayerAttribute.name attr) (LayerAttribute.trait attr))
         picks)).
  { apply Forall2_fmap_r. eapply Forall2_impl; [exact HF2 |].
    intros layer a (files & Hscan & Hin).
    apply elem_of_images_of in Hin as (file & Hfile & ->). cbn.
    split; [reflexivity |]. eauto. }
  split; [exact Hmatch |]. split; [| split; [| exact HF]].
  - clear HF2 HF. induction Hmatch as [| layer a ls attrs (Hname & _) _ IH]; [reflexivity |].
    cbn [map]. now rewrite Hname, IH.
  - symmetry. eapply Forall2_length; eauto.
Qed.

Lemma scan_png_names d wd layer files file :
  scan d wd layer = Some files -> file ∈ files -> is_png_name file = true.
Proof.
  unfold scan. destruct (lookup_node d _) as [[data |] |]; intros H Hin; inversion H; subst.
  - apply list_elem_of_filter in Hin. apply Hin.
  - inversion Hin.
Qed.

Lemma single_image_pick config w before layer after file attributes w' :
  NFTConfig.layers config = before ++ layer :: after ->
  scan (disk w) (cwd w) layer = Some [file] ->
  createRandomCombination config w = (Return attributes, w') ->
  attributes !! length (filter (fun l => contributes (disk w) (cwd w) l = true) before)
  = Some (LayerAttribute.mk (LayerConfig.name layer) (strip_extension file)
            (path_join [LayerConfig.folder layer; file])).
Proof.
  intros Hlayers Hscan Hcomb.
  unfold createRandomCombination in Hcomb. rewrite Hlayers in Hcomb.
  apply combine_layers_Return in Hcomb as (_ & picks & Hpicks & HF2 & _).
  cbn [app] in Hpicks. subst attributes.
  rewrite filter_app, filter_cons_True in HF2
    by (unfold contributes; now rewrite Hscan).
  apply Forall2_app_inv_l in HF2 as (p1 & p2 & H1 & H2 & ->).
  inversion H2 as [| l a ls p2' (files & Hfiles & Hin) _]; subst.
  rewrite Hscan in Hfiles. inversion Hfiles; subst files.
  apply elem_of_images_of in Hin as (f & Hf & ->).
  apply list_elem_of_singleton in Hf. subst f.
  rewrite (Forall2_length _ _ _ H1). now rewrite list_lookup_middle.
Qed.

(** C8. A layer whose folder holds exactly one PNG file gives every
    combination the same image, whatever the random source returns: the
    attribute at that layer's place carries the layer's name and the file's
    base name (the name less its four-character extension), and any other
    call on the same disk, with any other random values, has the same
    attribute there. *)
Theorem single_image_layer_is_fixed config w before layer after file attributes w' :
  NFTConfig.layers config = before ++ layer :: after ->
  scan (disk w) (cwd w) layer = Some [file] ->
  createRandomCombination config w = (Return attributes, w') ->
  let chosen :=
    LayerAttribute.mk (LayerConfig.name layer) (strip_extension file)
      (path_join [LayerConfig.folder layer; file]) in
  let place := length (filter (fun l => contributes (disk w) (cwd w) l = true) before) in
  attributes !! place = Some chosen
  /\ (exists ext, file = LayerAttribute.trait chosen +:+ ext /\ toLowerCase ext = ".png")
  /\ (forall other attributes2 other',
        disk other = disk w -> cwd other = cwd w ->
        createRandomCombination config other = (Return attributes2, other') ->
        attributes2 !! place = attributes !! place).
Proof.
  intros Hlayers Hscan Hcomb chosen place.
  assert (Hfirst : attributes !! place = Some chosen)
    by (eapply single_image_pick; eauto).
  split; [exact Hfirst |]. split.
  - apply strip_extension_png. eapply scan_png_names; [exact Hscan |]. now left.
  - intros other attributes2 other' Hdisk Hcwd Hcomb2. rewrite Hfirst.
    subst place chosen. rewrite <- Hdisk, <- Hcwd.
    eapply single_image_pick; [exact Hlayers | now rewrite Hdisk, Hcwd | exact Hcomb2].
Qed.

(** C1, as the code has it.  When a required layer has nothing to offer at
    the time the layers are scanned, the call fails and the files on the disk
    are those it found: nothing was written.  The error names that layer when
    it is the first to fail, that is, when the output directories could be
    made and every layer configured before it could be scanned and, if
    required, offered an image. *)
Theorem required_layer_without_images_aborts tokenId config w layer :
  layer ∈ NFTConfig.layers config ->
  LayerConfig.required layer = true ->
  (forall d, output_dirs config w = Some d -> scan d (cwd w) layer = Some []) ->
  exists e w',
    generateNFT png tokenId config w = (Throw e, w')
    /\ (forall k, file_at (disk w') k = file_at (disk w) k)
    /\ (forall d before after,
          output_dirs config w = Some d ->
          NFTConfig.layers config = before ++ layer :: after ->
          Forall (fun l => exists files, scan d (cwd w) l = Some files
                                         /\ (files = [] -> LayerConfig.required l = false))
            before ->
          e = missing_layer_error layer).
Proof.
  intros Hin Hreq Hempty.
  destruct (output_dirs config w) as [d |] eqn:Edirs.
  - specialize (Hempty d eq_refl).
    destruct (combine_layers_aborts (NFTConfig.layers config) [] (prepared tokenId w d) layer
                Hin Hreq Hempty) as (e & w2 & Hthrow & Hq).
    exists e, w2. split; [| split].
    + eapply generateNFT_combination_throws; eauto.
    + intros k. destruct Hq as (Hd & _). rewrite Hd. cbn [prepared with_disk disk].
      eapply output_dirs_files; eauto.
    + intros d' before after Hd' Hlayers Hbefore. inversion Hd'; subst d'.
      destruct (combine_layers_first_missing before [] (prepared tokenId w d) layer after
                  Hbefore Hreq Hempty) as (w3 & Hfirst & _).
      rewrite <- Hlayers in Hfirst. rewrite Hfirst in Hthrow. now inversion Hthrow.
  - destruct (generateNFT_dirs_fail png tokenId config w Edirs) as (e & w1 & Hthrow & Hfiles & _).
    exists e, w1. split; [exact Hthrow |]. split; [exact Hfiles |].
    intros d before after Hd. discriminate.
Qed.

Lemma writable_insert_data d k x y k' :
  writable (<[k := File x]> d) k' = writable (<[k := File y]> d) k'.
Proof.
  unfold writable, lookup_node. destruct k' as [| seg rest]; [reflexivity |].
  assert (Hsame : forall j, match <[k := File x]> d !! j with Some Dir => true | _ => false end
                            = match <[k := File y]> d !! j with Some Dir => true | _ => false end).
  { intros j. destruct (decide (k = j)) as [-> | Hne].
    - now rewrite !lookup_insert_eq.
    - now rewrite !lookup_insert_ne. }
  pose proof (Hsame (seg :: rest)) as H1.
  destruct (parent (seg :: rest)) as [| pseg prest] eqn:Ep.
  - destruct (<[k := File x]> d !! (seg :: rest)) as [[? |] |];
      destruct (<[k := File y]> d !! (seg :: rest)) as [[? |] |]; congruence.
  - pose proof (Hsame (pseg :: prest)) as H2.
    destruct (<[k := File x]> d !! (pseg :: prest)) as [[? |] |];
      destruct (<[k := File y]> d !! (pseg :: prest)) as [[? |] |]; try congruence;
      destruct (<[k := File x]> d !! (seg :: rest)) as [[? |] |];
      destruct (<[k := File y]> d !! (seg :: rest)) as [[? |] |]; congruence.
Qed.

(** C5. Once the combination is made, a layer image that does not load
    stops nothing.  The call can then fail only because the file system
    refuses the image file or the metadata file; when it takes both, the call
    returns, the surface that is encoded holds the white ground, the images
    that did load in their order, and the time stamp; the metadata still
    lists every selected layer; the console gets one error line for each
    image that failed; and both files are on the disk. *)
Theorem unloadable_layer_is_skipped tokenId config w d attributes w2 :
  output_dirs config w = Some d ->
  createRandomCombination config (prepared tokenId w d) = (Return attributes, w2) ->
  exists r w',
    generateNFT png tokenId config w = (r, w')
    /\ (can_save d (resolve (cwd w) (image_path tokenId config))
          (resolve (cwd w) (metadata_path tokenId config)) = false ->
        exists code p,
          r = Throw (SystemError code "open" p)
          /\ (p = image_path tokenId config \/ p = metadata_path tokenId config))
    /\ (can_save d (resolve (cwd w) (image_path tokenId config))
          (resolve (cwd w) (metadata_path tokenId config)) = true ->
        exists g,
          r = Return g
          /\ read_back w' (Generated.imagePath g)
             = Some (encode_png png (NFTConfig.width config) (NFTConfig.height config)
                       ([FillRect "white" 0 0 (NFTConfig.width config) (NFTConfig.height config)]
                        ++ layer_draws png w2 (NFTConfig.width config) (NFTConfig.height config)
                             attributes
                        ++ [StrokeText "black" 3 "30px Arial" "center" (clock w)
                              (inject_Z (NFTConfig.width config) / 2)%Q 50%Q;
                            FillText "white" "30px Arial" "center" (clock w)
                              (inject_Z (NFTConfig.width config) / 2)%Q 50%Q]))
          /\ read_back w' (Generated.metadataPath g)
             = Some (JSON_stringify (metadata_json (Generated.metadata g)))
          /\ NFTMetadata.attributes (Generated.metadata g)
             = map (fun a => Attribute.mk (LayerAttribute.name a) (LayerAttribute.trait a))
                 attributes
          /\ console w' = console w2 ++ layer_errors png w2 attributes
                          ++ [(LOG, "Completed NFT #" +:+ number_to_string tokenId)]).
Proof.
  intros Hdirs Hcomb.
  assert (Hq : quiet (prepared tokenId w d) w2).
  { unfold createRandomCombination in Hcomb. now apply combine_layers_Return in Hcomb. }
  destruct (generateNFT_run png tokenId config w d attributes w2 Hdirs Hcomb Hq)
    as (r & w' & Hrun & Hcwd & Hcases).
  exists r, w'. split; [exact Hrun |]. unfold can_save.
  rewrite (writable_insert_data d _ _ "" _) in Hcases.
  destruct (writable d (resolve (cwd w) (image_path tokenId config))); cbn [andb].
  - destruct (writable (<[_ := File ""]> d) (resolve (cwd w) (metadata_path tokenId config))).
    + split; [discriminate |]. intros _. destruct Hcases as (-> & Hdisk & Hcon).
      eexists. split; [reflexivity |].
      cbn [Generated.imagePath Generated.metadataPath Generated.metadata metadata_of
           NFTMetadata.attributes].
      unfold read_back, file_at. rewrite Hdisk, Hcwd.
      split; [| split; [| split; [reflexivity | exact Hcon]]].
      * rewrite lookup_insert_ne by (apply not_eq_sym, image_and_metadata_apart).
        now rewrite lookup_insert_eq.
      * now rewrite lookup_insert_eq.
    + split; [| discriminate]. intros _. destruct Hcases as ((code & ->) & _). eauto.
  - split; [| discriminate]. intros _. destruct Hcases as ((code & ->) & _). eauto.
Qed.

End Selection.


Lemma attributes_match_contributing_layers_witness :
  map Attribute.trait_type (NFTMetadata.attributes (Generated.metadata demo_generated))
  = ["Background"; "Subject"]
  /\ length (NFTMetadata.attributes (Generated.metadata demo_generated)) = 2%nat.
Proof.
  destruct (attributes_match_contributing_layers demo_codec (Num 7) DEFAULT_CONFIG demo_world
              demo_generated (snd (generateNFT demo_codec (Num 7) DEFAULT_CONFIG demo_world)) demo_run) as (d & Hd & _ & Hnames & Hlen & _).
  assert (Ed : d = default ∅ (output_dirs DEFAULT_CONFIG demo_world)) by now rewrite Hd.
  subst d.
  split; [rewrite Hnames | rewrite Hlen]; vm_compute; reflexivity.
Defined.

Lemma single_image_layer_is_fixed_witness :
  match fst (createRandomCombination DEFAULT_CONFIG demo_world) with
  | Return attributes => attributes !! 0%nat
  | Throw _ => None
  end
  = Some (LayerAttribute.mk "Background" "blue" "public/assets/layers/backgrounds/blue.png").
Proof.
  destruct (createRandomCombination DEFAULT_CONFIG demo_world) as [[attributes | e] w'] eqn:E.
  - destruct (single_image_layer_is_fixed DEFAULT_CONFIG demo_world [] background_layer
                [subject_layer] "blue.png" attributes w') as (Hpick & _);
      [reflexivity | vm_compute; reflexivity | exact E | exact Hpick].
  - apply (f_equal fst) in E. vm_compute in E. discriminate.
Defined.

Lemma required_layer_without_images_aborts_witness :
  exists w',
    generateNFT demo_codec (Num 1) DEFAULT_CONFIG demo_world_bare
    = (Throw (missing_layer_error background_layer), w').
Proof.
  destruct (required_layer_without_images_aborts demo_codec (Num 1) DEFAULT_CONFIG
              demo_world_bare background_layer) as (e & w' & Hrun & _ & Hname).
  - now left.
  - reflexivity.
  - intros d Hd.
    assert (Ed : d = default ∅ (output_dirs DEFAULT_CONFIG demo_world_bare)) by now rewrite Hd.
    subst d. vm_compute. reflexivity.
  - exists w'. rewrite Hrun. f_equal. f_equal.
    destruct (output_dirs DEFAULT_CONFIG demo_world_bare) as [d |] eqn:Ed.
    + apply (Hname d [] [subject_layer] eq_refl eq_refl). constructor.
    + apply (f_equal is_Some) in Ed. exfalso.
      assert (Hsome : is_Some (output_dirs DEFAULT_CONFIG demo_world_bare)).
      { apply (bool_decide_unpack _). vm_compute. exact I. }
      rewrite Ed in Hsome. now destruct Hsome.
Defined.

(** C1 as it is worded fails when two required layers are missing: the
    default configuration on a disk without assets stops at "Background",
    and the error does not name "Subject", which is required and absent too. *)
Lemma error_names_first_missing_layer_only :
  subject_layer ∈ NFTConfig.layers DEFAULT_CONFIG
  /\ LayerConfig.required subject_layer = true
  /\ lookup_node (disk demo_world_bare)
       (resolve (cwd demo_world_bare) (LayerConfig.folder subject_layer)) = None
  /\ fst (generateNFT demo_codec (Num 1) DEFAULT_CONFIG demo_world_bare)
     = Throw (Error ("Layer " +:+ DQ +:+ "Background" +:+ DQ +:+ " is required but has no images"))
  /\ includes ("Layer " +:+ DQ +:+ "Background" +:+ DQ +:+ " is required but has no images")
       (LayerConfig.name subject_layer) = false.
Proof.
  split; [right; left |]. split; [reflexivity |]. split; [vm_compute; reflexivity |].
  split; vm_compute; reflexivity.
Qed.

Lemma unloadable_layer_is_skipped_witness :
  exists g w',
    generateNFT demo_codec (Num 7) DEFAULT_CONFIG demo_world_corrupt = (Return g, w')
    /\ read_back w' (Generated.imagePath g) = Some "PNG:4"
    /\ map Attribute.value (NFTMetadata.attributes (Generated.metadata g)) = ["blue"; "dog"]
    /\ (ERROR, "Error loading image public/assets/layers/subjects/dog.png: Unsupported image type")
       ∈ console w'.
Proof.
  pose (d := default ∅ (output_dirs DEFAULT_CONFIG demo_world_corrupt)).
  pose (run := createRandomCombination DEFAULT_CONFIG (prepared (Num 7) demo_world_corrupt d)).
  pose (picked :=
          [LayerAttribute.mk "Background" "blue" "public/assets/layers/backgrounds/blue.png";
           LayerAttribute.mk "Subject" "dog" "public/assets/layers/subjects/dog.png"]).
  assert (Ecomb : run = (Return picked, snd run)).
  { apply run_eq. vm_compute. reflexivity. }
  assert (Hdirs : output_dirs DEFAULT_CONFIG demo_world_corrupt = Some d).
  { unfold d. destruct (output_dirs DEFAULT_CONFIG demo_world_corrupt) eqn:E; [reflexivity |].
    exfalso. assert (Hsome : is_Some (output_dirs DEFAULT_CONFIG demo_world_corrupt)).
    { apply (bool_decide_unpack _). vm_compute. exact I. }
    rewrite E in Hsome. now destruct Hsome. }
  destruct (unloadable_layer_is_skipped demo_codec (Num 7) DEFAULT_CONFIG demo_world_corrupt
              d picked (snd run) Hdirs Ecomb)
    as (r & w' & Hrun & _ & Hsaved).
  destruct Hsaved as (g & -> & Himg & _ & Hattrs & Hcon); [vm_compute; reflexivity |].
  exists g, w'. split; [exact Hrun |]. split; [| split].
  - rewrite Himg. vm_compute. reflexivity.
  - rewrite Hattrs. reflexivity.
  - rewrite Hcon. vm_compute. right. left.
Defined.


(** ** The last token number *)

Lemma nft_numbers_values files : nft_numbers files = map Num (token_numbers files).
Proof.
  unfold nft_numbers, token_numbers.
  induction (filter (fun file => endsWith file ".png" = true) files) as [| f fs IH];
    [reflexivity |].
  cbn [map omap list_omap].
  destruct (parseInt (replace_first ".png" "" f)) as [z |] eqn:E.
  - rewrite filter_cons_True by reflexivity. cbn. now rewrite <- IH.
  - rewrite filter_cons_False by (cbn; congruence). exact IH.
Qed.

Lemma Math_max_values rest : forall first,
  exists n, Math_max (Num first) (map Num rest) = Num n
            /\ n ∈ first :: rest /\ (forall m, m ∈ first :: rest -> m <= n).
Proof.
  unfold Math_max. induction rest as [| r rest IH]; intros first.
  - exists first. split; [reflexivity |]. split; [now left |].
    intros m Hm. apply list_elem_of_singleton in Hm. lia.
  - cbn [map fold_left number_max]. destruct (IH (Z.max first r)) as (n & Hn & Hin & Hmax).
    exists n. split; [exact Hn |]. split.
    + apply elem_of_cons in Hin as [-> | Hin].
      * destruct (Z.max_spec first r) as [[_ ->] | [_ ->]]; [right; left | left].
      * right; now right.
    + intros m Hm. apply elem_of_cons in Hm as [-> | Hm].
      * specialize (Hmax (Z.max first r) ltac:(left)). lia.
      * apply elem_of_cons in Hm as [-> | Hm].
        -- specialize (Hmax (Z.max first r) ltac:(left)). lia.
        -- apply Hmax. now right.
Qed.

Lemma make_dirs_done todo : forall done d d',
  make_dirs done todo d = Some d' -> todo <> [] -> d' !! (done ++ todo) = Some Dir.
Proof.
  induction todo as [| seg rest IH]; intros done d d' H Hne; [contradiction |].
  cbn [make_dirs] in H.
  assert (Hlast : forall d0, d0 !! (done ++ [seg]) = Some Dir ->
                             make_dirs (done ++ [seg]) rest d0 = Some d' ->
                             d' !! (done ++ seg :: rest) = Some Dir).
  { intros d0 Hd0 Hrun. destruct rest as [| seg' rest'].
    - cbn in Hrun. now inversion Hrun; subst.
    - replace (done ++ seg :: seg' :: rest') with ((done ++ [seg]) ++ seg' :: rest')
        by now rewrite <- app_assoc.
      eapply IH; [exact Hrun | discriminate]. }
  destruct (d !! (done ++ [seg])) as [[data |] |] eqn:E; [discriminate | |].
  - eapply Hlast; eauto.
  - eapply Hlast; [| exact H]. now rewrite lookup_insert_eq.
Qed.

Lemma make_dirs_lookup_node k d d' :
  make_dirs [] k d = Some d' -> lookup_node d' k = Some Dir.
Proof.
  intros H. destruct k as [| seg rest]; [reflexivity |].
  cbn [lookup_node]. apply (make_dirs_done (seg :: rest) [] d d' H). discriminate.
Qed.

(** C10, as the code has it.  [getLastNFTNumber] always returns a number and
    never throws.  When the image directory cannot be made it returns 0;
    otherwise it looks at the entries whose name ends in [.png], reads each
    with [parseInt] after removing the first [.png] from the name, and
    returns the largest number so read, or 0 when there is none. *)
Theorem getLastNFTNumber_is_largest_parsed outputDir w :
  exists n w',
    getLastNFTNumber outputDir w = (Return (Num n), w')
    /\ match make_dirs [] (resolve (cwd w) (path_join [outputDir; "images"])) (disk w) with
       | None => n = 0
       | Some d =>
           let numbers :=
             token_numbers (children d (resolve (cwd w) (path_join [outputDir; "images"]))) in
           (numbers = [] -> n = 0)
           /\ (numbers <> [] -> n ∈ numbers /\ forall m, m ∈ numbers -> m <= n)
       end.
Proof.
  unfold getLastNFTNumber, try_catch. unfold bind at 1. unfold ensureDirSync.
  destruct (make_dirs [] (resolve (cwd w) (path_join [outputDir; "images"])) (disk w))
    as [d |] eqn:Edirs.
  - unfold bind at 1. unfold readdirSync. cbn [with_disk cwd disk].
    rewrite (make_dirs_lookup_node _ _ _ Edirs).
    rewrite nft_numbers_values.
    destruct (token_numbers (children d (resolve (cwd w) (path_join [outputDir; "images"]))))
      as [| first rest] eqn:Enum.
    + cbn [map ret]. eexists 0, _. split; [reflexivity |]. split; [reflexivity | congruence].
    + cbn [map ret]. destruct (Math_max_values rest first) as (n & Hn & Hin & Hmax).
      rewrite Hn. eexists n, _. split; [reflexivity |]. split; [discriminate | auto].
  - destruct (disk w !! _) as [[? |] |]; cbn; eexists 0, _; split; reflexivity.
Qed.

(** C10 as it is worded fails on a name that only starts with a number: with
    [7abc.png] as the single entry of the image directory the result is 7,
    though no file named [7.png] is there. *)
Lemma getLastNFTNumber_counts_leading_digits :
  fst (getLastNFTNumber "/app/out" demo_world_odd) = Return (Num 7)
  /\ children (disk demo_world_odd) ["app"; "out"; "images"] = ["7abc.png"]
  /\ read_back demo_world_odd "/app/out/images/7.png" = None.
Proof. repeat split; vm_compute; reflexivity. Qed.


(** ** JSON text: what is written reads back *)

Lemma json_ind' (P : json -> Prop) :
  P JNull -> (forall b, P (JBool b)) -> (forall l, P (JNumber l)) -> (forall s, P (JString s)) ->
  (forall items, Forall P items -> P (JArray items)) ->
  (forall members, Forall (fun kv => P (snd kv)) members -> P (JObject members)) ->
  forall v, P v.
Proof.
  intros Hnull Hbool Hnum Hstr Harr Hobj.
  fix IH 1. intros [| b | l | s | items | members].
  - exact Hnull.
  - apply Hbool.
  - apply Hnum.
  - apply Hstr.
  - apply Harr. induction items as [| x rest IHr]; constructor; [apply IH | exact IHr].
  - apply Hobj. induction members as [| [k x] rest IHr]; constructor; [apply IH | exact IHr].
Qed.

Lemma skip_ws_blank ws s : blank ws = true -> skip_ws (ws +:+ s) = skip_ws s.
Proof.
  unfold blank. induction ws as [| c ws IH]; [reflexivity |].
  cbn [all_chars]. intros H. apply andb_prop in H as [Hc Hws].
  rewrite append_cons. cbn [skip_ws]. rewrite Hc. now apply IH.
Qed.

Lemma skip_ws_solid c r : is_json_ws c = false -> skip_ws (String c r) = String c r.
Proof. intros H. cbn [skip_ws]. now rewrite H. Qed.

Lemma blank_app a b : blank a = true -> blank b = true -> blank (a +:+ b) = true.
Proof. unfold blank. intros Ha Hb. now rewrite all_chars_app, Ha, Hb. Qed.

Lemma lex_string_escape_char c tail :
  lex_string (escape_char c +:+ tail) = prepend (String c "") (lex_string tail).
Proof. destruct c as [[] [] [] [] [] [] [] []]; reflexivity. Qed.

Lemma lex_string_escape s rest : lex_string (escape s +:+ DQ +:+ rest) = Some (s, rest).
Proof.
  induction s as [| c s IH]; [reflexivity |].
  cbn [escape]. rewrite append_assoc, lex_string_escape_char, IH. reflexivity.
Qed.

Lemma quote_app s rest : quote s +:+ rest = String "034" (escape s +:+ DQ +:+ rest).
Proof. unfold quote. now rewrite !append_assoc. Qed.

Lemma serialize_items_join inner indent (f : json -> string) x rest :
  (forall y, f y = serialize inner y) ->
  join_with ("," +:+ LF +:+ inner) (map f (x :: rest)) +:+ LF +:+ indent +:+ "]"
  = serialize_items inner indent (x :: rest).
Proof.
  intros Hf. revert x. induction rest as [| y rest IH]; intros x.
  - cbn [map join_with serialize_items]. now rewrite Hf.
  - change (join_with ("," +:+ LF +:+ inner) (map f (x :: y :: rest)))
      with (f x +:+ ("," +:+ LF +:+ inner) +:+ join_with ("," +:+ LF +:+ inner) (map f (y :: rest))).
    change (serialize_items inner indent (x :: y :: rest))
      with (serialize inner x +:+ "," +:+ LF +:+ inner +:+ serialize_items inner indent (y :: rest)).
    rewrite <- IH, Hf, !append_assoc. reflexivity.
Qed.

Lemma serialize_members_join inner indent (f : string * json -> string) m rest :
  (forall kv, f kv = quote (fst kv) +:+ ": " +:+ serialize inner (snd kv)) ->
  join_with ("," +:+ LF +:+ inner) (map f (m :: rest)) +:+ LF +:+ indent +:+ "}"
  = serialize_members inner indent (m :: rest).
Proof.
  intros Hf. revert m. induction rest as [| y rest IH]; intros m.
  - cbn [map join_with serialize_members]. now rewrite Hf, !append_assoc.
  - change (join_with ("," +:+ LF +:+ inner) (map f (m :: y :: rest)))
      with (f m +:+ ("," +:+ LF +:+ inner) +:+ join_with ("," +:+ LF +:+ inner) (map f (y :: rest))).
    change (serialize_members inner indent (m :: y :: rest))
      with (quote (fst m) +:+ ": " +:+ serialize inner (snd m) +:+ "," +:+ LF +:+ inner
            +:+ serialize_members inner indent (y :: rest)).
    rewrite <- IH, Hf, !append_assoc. reflexivity.
Qed.

Lemma serialize_array indent x rest :
  serialize indent (JArray (x :: rest))
  = String "[" (LF +:+ (indent +:+ gap)
                +:+ serialize_items (indent +:+ gap) indent (x :: rest)).
Proof.
  rewrite <- (serialize_items_join (indent +:+ gap) indent (serialize (indent +:+ gap)))
    by reflexivity.
  reflexivity.
Qed.

Lemma serialize_object indent m rest :
  serialize indent (JObject (m :: rest))
  = String "{" (LF +:+ (indent +:+ gap)
                +:+ serialize_members (indent +:+ gap) indent (m :: rest)).
Proof.
  rewrite <- (serialize_members_join (indent +:+ gap) indent
                (fun kv => quote (fst kv) +:+ ": " +:+ serialize (indent +:+ gap) (snd kv)))
    by reflexivity.
  reflexivity.
Qed.

Lemma serialize_opener indent v :
  textual v = true -> exists c r, serialize indent v = String c r /\ opener c = true.
Proof.
  destruct v as [| [|] | l | s | [| x rest] | [| m rest]]; intros H; try discriminate;
    eexists _, _; split; reflexivity.
Qed.

Lemma opener_solid c : opener c = true -> is_json_ws c = false.
Proof. destruct c as [[] [] [] [] [] [] [] []]; vm_compute; intros H; congruence. Qed.

Lemma parse_value_blank fuel ws s :
  blank ws = true -> parse_value fuel (ws +:+ s) = parse_value fuel s.
Proof.
  intros H. destruct fuel as [| fuel]; [reflexivity |].
  cbn [parse_value]. now rewrite (skip_ws_blank ws s H).
Qed.

Lemma drop_prefix_app pre rest : drop_prefix pre (pre +:+ rest) = Some rest.
Proof.
  induction pre as [| c pre IH]; [reflexivity |].
  rewrite append_cons. cbn [drop_prefix]. now rewrite Ascii.eqb_refl.
Qed.

Lemma parse_value_array f r :
  parse_value (S f) (String "[" r)
  = match skip_ws r with
    | String c' r' => if (ascii_code c' =? 93)%N then Some (JArray [], r') else parse_items f [] r
    | EmptyString => None
    end.
Proof. reflexivity. Qed.

Lemma parse_value_object f r :
  parse_value (S f) (String "{" r)
  = match skip_ws r with
    | String c' r' => if (ascii_code c' =? 125)%N then Some (JObject [], r') else parse_members f [] r
    | EmptyString => None
    end.
Proof. reflexivity. Qed.

Lemma parse_value_string f r :
  parse_value (S f) (String "034" r)
  = match lex_string r with
    | Some (str, rest) => Some (JString str, rest)
    | None => None
    end.
Proof. reflexivity. Qed.

Lemma parse_items_S f acc s :
  parse_items (S f) acc s
  = match parse_value f s with
    | Some (v, r) =>
        match skip_ws r with
        | String c r' =>
            if (ascii_code c =? 44)%N then parse_items f (acc ++ [v]) r'
            else if (ascii_code c =? 93)%N then Some (JArray (acc ++ [v]), r')
            else None
        | EmptyString => None
        end
    | None => None
    end.
Proof. reflexivity. Qed.

Lemma parse_members_S f acc s :
  parse_members (S f) acc s
  = match skip_ws s with
    | String q r =>
        if (ascii_code q =? 34)%N then
          match lex_string r with
          | Some (key, r1) =>
              match skip_ws r1 with
              | String c r2 =>
                  if (ascii_code c =? 58)%N then
                    match parse_value f r2 with
                    | Some (v, r3) =>
                        match skip_ws r3 with
                        | String c' r4 =>
                            if (ascii_code c' =? 44)%N
                            then parse_members f (obj_set key v acc) r4
                            else if (ascii_code c' =? 125)%N
                            then Some (JObject (obj_set key v acc), r4)
                            else None
                        | EmptyString => None
                        end
                    | None => None
                    end
                  else None
              | EmptyString => None
              end
          | None => None
          end
        else None
    | EmptyString => None
    end.
Proof. reflexivity. Qed.

Lemma list_sum_cons a l : list_sum (a :: l) = (a + list_sum l)%nat.
Proof. reflexivity. Qed.

Lemma blank_LF_indent indent : blank indent = true -> blank (LF +:+ indent) = true.
Proof. intros H. apply blank_app; [reflexivity | exact H]. Qed.

Lemma parse_items_serialized inner indent :
  blank inner = true -> blank indent = true ->
  forall items, items <> [] ->
  Forall (fun x => textual x = true /\ reads_back x) items ->
  forall acc fuel ws rest,
    blank ws = true ->
    (list_sum (map (fun x => S (weight x)) items) <= fuel)%nat ->
    parse_items fuel acc (ws +:+ serialize_items inner indent items +:+ rest)
    = Some (JArray (acc ++ items), rest).
Proof.
  intros Hinner Hindent. induction items as [| x more IH]; intros Hne Hall acc fuel ws rest Hws Hfuel;
    [contradiction |].
  inversion Hall as [| ? ? [Htx Hx] Hmore]; subst.
  cbn [map] in Hfuel. rewrite list_sum_cons in Hfuel. destruct fuel as [| f]; [lia |].
  rewrite parse_items_S, parse_value_blank by exact Hws.
  destruct more as [| y more'].
  - cbn [serialize_items]. rewrite !append_assoc.
    rewrite (Hx inner f _ Hinner) by lia.
    rewrite <- append_assoc, skip_ws_blank by now apply blank_LF_indent.
    reflexivity.
  - change (serialize_items inner indent (x :: y :: more'))
      with (serialize inner x +:+ "," +:+ LF +:+ inner +:+ serialize_items inner indent (y :: more')).
    rewrite !append_assoc.
    rewrite (Hx inner f _ Hinner) by lia.
    change ("," +:+ ?t) with (String "," t).
    rewrite skip_ws_solid by reflexivity.
    change (ascii_code "," =? 44)%N with true. cbv iota.
    rewrite <- (append_assoc LF inner).
    rewrite IH; [now rewrite <- app_assoc | discriminate | exact Hmore
                | now apply blank_LF_indent | lia].
Qed.

Lemma obj_set_fresh k v acc : k ∉ map fst acc -> obj_set k v acc = acc ++ [(k, v)].
Proof.
  induction acc as [| [k' v'] acc IH]; [reflexivity |].
  cbn [map fst obj_set]. intros Hk. apply not_elem_of_cons in Hk as [Hne Hk].
  destruct (String.eqb_spec k' k) as [-> | _]; [contradiction |].
  cbn [app]. now rewrite IH.
Qed.

Lemma parse_members_serialized inner indent :
  blank inner = true -> blank indent = true ->
  forall members, members <> [] ->
  Forall (fun kv => textual (snd kv) = true /\ reads_back (snd kv)) members ->
  forall acc fuel ws rest,
    blank ws = true ->
    NoDup (map fst (acc ++ members)) ->
    (list_sum (map (fun kv => S (weight (snd kv))) members) <= fuel)%nat ->
    parse_members fuel acc (ws +:+ serialize_members inner indent members +:+ rest)
    = Some (JObject (acc ++ members), rest).
Proof.
  intros Hinner Hindent.
  induction members as [| [k v] more IH]; intros Hne Hall acc fuel ws rest Hws Hdup Hfuel;
    [contradiction |].
  inversion Hall as [| ? ? [Htx Hx] Hmore]; subst. cbn [snd] in Htx, Hx.
  cbn [map] in Hfuel. rewrite list_sum_cons in Hfuel. cbn [snd] in Hfuel.
  destruct fuel as [| f]; [lia |].
  assert (Hfresh : k ∉ map fst acc).
  { rewrite map_app in Hdup. apply NoDup_app in Hdup as (_ & Hdisj & _).
    intros Hin. apply (Hdisj k Hin). now left. }
  rewrite parse_members_S, skip_ws_blank by exact Hws.
  assert (Hstep : forall tail,
            skip_ws (quote k +:+ ": " +:+ serialize inner v +:+ tail)
            = String "034" (escape k +:+ DQ +:+ ": " +:+ serialize inner v +:+ tail)).
  { intros tail. rewrite quote_app. now apply skip_ws_solid. }
  assert (Hvalue : forall tail,
            parse_value f (" " +:+ serialize inner v +:+ tail) = Some (v, tail)).
  { intros tail. rewrite parse_value_blank by reflexivity. apply Hx; [exact Hinner | lia]. }
  destruct more as [| y more'].
  - cbn [serialize_members fst snd]. rewrite !append_assoc, Hstep.
    change (ascii_code "034" =? 34)%N with true. cbv iota.
    rewrite lex_string_escape.
    change (": " +:+ ?t) with (String ":" (" " +:+ t)).
    rewrite skip_ws_solid by reflexivity.
    change (ascii_code ":" =? 58)%N with true. cbv iota.
    rewrite Hvalue.
    rewrite <- append_assoc, skip_ws_blank by now apply blank_LF_indent.
    change (skip_ws ("}" +:+ rest)) with (String "}" rest).
    change (ascii_code "}" =? 44)%N with false. change (ascii_code "}" =? 125)%N with true.
    cbv iota. now rewrite obj_set_fresh.
  - change (serialize_members inner indent ((k, v) :: y :: more'))
      with (quote k +:+ ": " +:+ serialize inner v +:+ "," +:+ LF +:+ inner
            +:+ serialize_members inner indent (y :: more')).
    rewrite !append_assoc, Hstep.
    change (ascii_code "034" =? 34)%N with true. cbv iota.
    rewrite lex_string_escape.
    change (": " +:+ ?t) with (String ":" (" " +:+ t)).
    rewrite skip_ws_solid by reflexivity.
    change (ascii_code ":" =? 58)%N with true. cbv iota.
    rewrite Hvalue.
    change ("," +:+ ?t) with (String "," t).
    rewrite skip_ws_solid by reflexivity.
    change (ascii_code "," =? 44)%N with true. cbv iota.
    rewrite obj_set_fresh by exact Hfresh.
    rewrite <- (append_assoc LF inner).
    rewrite IH; [now rewrite <- app_assoc | discriminate | exact Hmore
                | now apply blank_LF_indent | now rewrite <- app_assoc | lia].
Qed.

Lemma textual_items items :
  textual (JArray items) = true -> Forall (fun x => textual x = true) items.
Proof. cbn [textual]. intros H. apply Forall_forall. intros x Hx.
  rewrite forallb_forall in H. apply H. now apply list_elem_of_In. Qed.

Lemma textual_members members :
  textual (JObject members) = true ->
  NoDup (map fst members) /\ Forall (fun kv => textual (snd kv) = true) members.
Proof.
  cbn [textual]. intros H. apply andb_prop in H as [Hd Hm]. split.
  - now apply bool_decide_eq_true in Hd.
  - apply Forall_forall. intros x Hx. rewrite forallb_forall in Hm. apply Hm.
    now apply list_elem_of_In.
Qed.

(** Every value without numbers and without repeated names reads back. *)
Lemma textual_reads_back v : textual v = true -> reads_back v.
Proof.
  induction v as [| b | l | s | items IH | members IH] using json_ind';
    intros Htext indent fuel rest Hindent Hfuel; cbn [weight] in Hfuel;
    (destruct fuel as [| f]; [lia |]).
  - reflexivity.
  - destruct b; reflexivity.
  - discriminate.
  - cbn [serialize]. rewrite quote_app, parse_value_string, lex_string_escape. reflexivity.
  - destruct items as [| x more]; [reflexivity |].
    rewrite serialize_array, append_cons, parse_value_array.
    assert (Hinner : blank (indent +:+ gap) = true) by now apply blank_app.
    set (inner := indent +:+ gap) in *. rewrite !append_assoc.
    assert (Hall : Forall (fun x => textual x = true /\ reads_back x) (x :: more)).
    { apply textual_items in Htext. rewrite Forall_forall in IH, Htext. apply Forall_forall.
      intros y Hy. split; [now apply Htext | apply IH; [exact Hy | now apply Htext]]. }
    rewrite <- (append_assoc LF), skip_ws_blank by now apply blank_LF_indent.
    inversion Hall as [| ? ? [Htx _] _]; subst.
    destruct (serialize_opener inner x Htx) as (c & r & Hc & Hopen).
    assert (Hhead : exists r', serialize_items inner indent (x :: more) +:+ rest
                               = String c r').
    { destruct more; cbn [serialize_items]; rewrite Hc, append_cons; eauto. }
    destruct Hhead as (r' & Hhead). rewrite Hhead.
    rewrite skip_ws_solid by now apply opener_solid.
    assert (Hclose : (ascii_code c =? 93)%N = false).
    { clear - Hopen. destruct c as [[] [] [] [] [] [] [] []]; vm_compute in *; congruence. }
    rewrite Hclose, <- Hhead.
    apply (parse_items_serialized inner indent Hinner Hindent (x :: more)
             ltac:(discriminate) Hall [] f (LF +:+ inner) rest);
      [now apply blank_LF_indent | lia].
  - destruct members as [| [k x] more]; [reflexivity |].
    rewrite serialize_object, append_cons, parse_value_object.
    assert (Hinner : blank (indent +:+ gap) = true) by now apply blank_app.
    set (inner := indent +:+ gap) in *. rewrite !append_assoc.
    apply textual_members in Htext as [Hdup Htext].
    assert (Hall : Forall (fun kv => textual (snd kv) = true /\ reads_back (snd kv))
                     ((k, x) :: more)).
    { rewrite Forall_forall in IH, Htext. apply Forall_forall.
      intros y Hy. split; [now apply Htext | apply IH; [exact Hy | now apply Htext]]. }
    rewrite <- (append_assoc LF), skip_ws_blank by now apply blank_LF_indent.
    assert (Hhead : exists r', serialize_members inner indent ((k, x) :: more) +:+ rest
                               = String "034" r').
    { destruct more; cbn [serialize_members fst]; rewrite !append_assoc, quote_app; eauto. }
    destruct Hhead as (r' & Hhead). rewrite Hhead.
    rewrite skip_ws_solid by reflexivity.
    change (ascii_code "034" =? 125)%N with false. cbv iota. rewrite <- Hhead.
    apply (parse_members_serialized inner indent Hinner Hindent ((k, x) :: more)
             ltac:(discriminate) Hall [] f (LF +:+ inner) rest);
      [now apply blank_LF_indent | exact Hdup | lia].
Qed.

Lemma length_cons c s : String.length (String c s) = S (String.length s).
Proof. reflexivity. Qed.

Lemma weight_items_length inner indent items :
  Forall (fun x => forall i, (weight x <= String.length (serialize i x))%nat) items ->
  (list_sum (map (fun x => S (weight x)) items)
   <= String.length (serialize_items inner indent items))%nat.
Proof.
  induction items as [| x more IH]; intros Hall; [cbn; lia |].
  inversion Hall as [| ? ? Hx Hmore]; subst. specialize (IH Hmore). specialize (Hx inner).
  cbn [map]. rewrite list_sum_cons. destruct more as [| y more'].
  - cbn [serialize_items map]. rewrite !length_append. cbn. lia.
  - change (serialize_items inner indent (x :: y :: more'))
      with (serialize inner x +:+ "," +:+ LF +:+ inner +:+ serialize_items inner indent (y :: more')).
    rewrite !length_append. cbn [String.length]. lia.
Qed.

Lemma weight_members_length inner indent members :
  Forall (fun kv => forall i, (weight (snd kv) <= String.length (serialize i (snd kv)))%nat)
    members ->
  (list_sum (map (fun kv => S (weight (snd kv))) members)
   <= String.length (serialize_members inner indent members))%nat.
Proof.
  induction members as [| [k x] more IH]; intros Hall; [cbn; lia |].
  inversion Hall as [| ? ? Hx Hmore]; subst. specialize (IH Hmore). specialize (Hx inner).
  cbn [snd] in Hx. cbn [map snd]. rewrite list_sum_cons. destruct more as [| y more'].
  - cbn [serialize_members map fst snd]. rewrite !length_append. cbn. lia.
  - change (serialize_members inner indent ((k, x) :: y :: more'))
      with (quote k +:+ ": " +:+ serialize inner x +:+ "," +:+ LF +:+ inner
            +:+ serialize_members inner indent (y :: more')).
    rewrite !length_append. cbn [String.length]. lia.
Qed.

(** The length of the text is fuel enough. *)
Lemma weight_le_length v :
  textual v = true -> forall indent, (weight v <= String.length (serialize indent v))%nat.
Proof.
  induction v as [| b | l | s | items IH | members IH] using json_ind'; intros Htext indent.
  - cbn. lia.
  - destruct b; cbn; lia.
  - discriminate.
  - cbn [serialize weight]. unfold quote. rewrite length_append. cbn. lia.
  - destruct items as [| x more]; [cbn; lia |].
    rewrite serialize_array, length_cons, !length_append. cbn [weight].
    pose proof (weight_items_length (indent +:+ gap) indent (x :: more)) as H.
    apply textual_items in Htext. rewrite Forall_forall in IH, Htext.
    assert (Hall : Forall (fun x => forall i, (weight x <= String.length (serialize i x))%nat)
                     (x :: more)).
    { apply Forall_forall. intros y Hy i. apply IH; [exact Hy | now apply Htext]. }
    specialize (H Hall). lia.
  - destruct members as [| [k x] more]; [cbn; lia |].
    rewrite serialize_object, length_cons, !length_append. cbn [weight].
    pose proof (weight_members_length (indent +:+ gap) indent ((k, x) :: more)) as H.
    apply textual_members in Htext as [_ Htext]. rewrite Forall_forall in IH, Htext.
    assert (Hall : Forall (fun kv => forall i,
                             (weight (snd kv) <= String.length (serialize i (snd kv)))%nat)
                     ((k, x) :: more)).
    { apply Forall_forall. intros y Hy i. apply IH; [exact Hy | now apply Htext]. }
    specialize (H Hall). lia.
Qed.

(** [JSON.parse(JSON.stringify(v, null, 2))] is [v], also with white space
    after the text. *)
Lemma JSON_parse_stringify v ws :
  textual v = true -> blank ws = true -> JSON_parse (JSON_stringify v +:+ ws) = Some v.
Proof.
  intros Htext Hws. unfold JSON_parse, JSON_stringify.
  rewrite (textual_reads_back v Htext "" _ ws eq_refl).
  - rewrite <- (append_nil_r ws), skip_ws_blank by exact Hws. reflexivity.
  - pose proof (weight_le_length v Htext "") as H. rewrite length_append. lia.
Qed.

Lemma textual_attributes attributes :
  forallb textual (map attribute_json attributes) = true.
Proof. induction attributes as [| a rest IH]; [reflexivity |]. cbn [map forallb]. now rewrite IH. Qed.

Lemma textual_metadata m : textual (metadata_json m) = true.
Proof.
  unfold metadata_json. cbn [textual map fst snd forallb].
  rewrite textual_attributes. reflexivity.
Qed.

(** The metadata text parses to the metadata value. *)
Lemma metadata_round_trip m ws :
  blank ws = true ->
  JSON_parse (stripBom (JSON_stringify (metadata_json m) +:+ ws)) = Some (metadata_json m).
Proof.
  intros Hws.
  assert (Hbom : stripBom (JSON_stringify (metadata_json m) +:+ ws)
                 = JSON_stringify (metadata_json m) +:+ ws).
  { unfold JSON_stringify, metadata_json. rewrite serialize_object. reflexivity. }
  rewrite Hbom. apply JSON_parse_stringify; [apply textual_metadata | exact Hws].
Qed.


(** ** What the upload does to the disk *)

Lemma still_refl w : still w w.
Proof. split; reflexivity. Qed.

Lemma still_trans w1 w2 w3 : still w1 w2 -> still w2 w3 -> still w1 w3.
Proof. intros [A B] [C D]. split; congruence. Qed.

Lemma keeps_ret {A} (a : A) : keeps_files (ret a).
Proof. intros w r w' H. inversion H. apply still_refl. Qed.

Lemma keeps_throw {A} e : keeps_files (@throw A e).
Proof. intros w r w' H. inversion H. apply still_refl. Qed.

Lemma keeps_bind {A B} (m : M A) (k : A -> M B) :
  keeps_files m -> (forall a, keeps_files (k a)) -> keeps_files (bind m k).
Proof.
  intros Hm Hk w r w' H. unfold bind in H. destruct (m w) as [[a | e] w1] eqn:E.
  - eapply still_trans; [eapply Hm | eapply Hk]; eauto.
  - inversion H; subst. eapply Hm; eauto.
Qed.

Lemma keeps_try {A} (m : M A) (h : exn -> M A) :
  keeps_files m -> (forall e, keeps_files (h e)) -> keeps_files (try_catch m h).
Proof.
  intros Hm Hh w r w' H. unfold try_catch in H. destruct (m w) as [[a | e] w1] eqn:E.
  - inversion H; subst. eapply Hm; eauto.
  - eapply still_trans; [eapply Hm | eapply Hh]; eauto.
Qed.

Lemma keeps_console_write l text : keeps_files (console_write l text).
Proof. intros w r w' H. inversion H. split; reflexivity. Qed.

Lemma keeps_readFileSync p : keeps_files (readFileSync p).
Proof.
  intros w r w' H. unfold readFileSync in H.
  destruct (lookup_node _ _) as [[? |] |]; inversion H; apply still_refl.
Qed.

Lemma keeps_new_Client a b c d e : keeps_files (new_Client a b c d e).
Proof. intros w r w' H. unfold new_Client in H. destruct (accepts_client _ _ _); inversion H; apply still_refl. Qed.

Lemma keeps_listBuckets c : keeps_files (listBuckets c).
Proof. intros w r w' H. unfold listBuckets in H. destruct (reachable _); inversion H; apply still_refl. Qed.

Lemma keeps_bucketExists c b : keeps_files (bucketExists c b).
Proof.
  intros w r w' H. unfold bucketExists in H.
  destruct (negb _); [| destruct (negb _)]; inversion H; apply still_refl.
Qed.

Lemma keeps_makeBucket c b : keeps_files (makeBucket c b).
Proof.
  intros w r w' H. unfold makeBucket in H.
  destruct (negb _); [| destruct (negb _)]; inversion H; split; reflexivity.
Qed.

Lemma keeps_store_put b o t data : keeps_files (store_put b o t data).
Proof.
  intros w r w' H. unfold store_put in H. destruct (_ && _); inversion H; split; reflexivity.
Qed.

Ltac keeps :=
  repeat first
    [ apply keeps_ret | apply keeps_throw | apply keeps_console_write
    | apply keeps_readFileSync | apply keeps_new_Client | apply keeps_listBuckets
    | apply keeps_bucketExists | apply keeps_makeBucket | apply keeps_store_put
    | apply keeps_bind; [| intros ?] | apply keeps_try; [| intros ?]
    | match goal with
      | |- keeps_files (if ?b then _ else _) => destruct b
      | |- keeps_files (match ?x with _ => _ end) => destruct x
      end ].

Lemma keeps_initializeMinioClient config : keeps_files (initializeMinioClient config).
Proof. unfold initializeMinioClient, console_warn, console_error. keeps. Qed.

Lemma keeps_testMinioConnection c : keeps_files (testMinioConnection c).
Proof. unfold testMinioConnection, console_log, console_error. keeps. Qed.

Lemma keeps_uploadToMinio c filePath targetKey bucketName endpoint :
  keeps_files (uploadToMinio c filePath targetKey bucketName endpoint).
Proof. unfold uploadToMinio, fPutObject, console_log, console_error. keeps. Qed.

Lemma absolutize_image_spec config metadataPath imageFilename w r w' :
  absolutize_image config metadataPath imageFilename w = (r, w') ->
  r = Return tt /\ cwd w' = cwd w
  /\ (disk w' = disk w \/ rewritten config metadataPath imageFilename w w').
Proof.
  unfold absolutize_image, try_catch, readJson. unfold bind at 1. unfold bind at 1.
  unfold readFileSync.
  assert (Hwarn : forall (e : exn) w0 r0 w0',
            console_warn ("Could not update metadata with absolute URL: " +:+ exn_message e) w0
            = (r0, w0') ->
            r0 = Return tt /\ cwd w0' = cwd w0 /\ disk w0' = disk w0).
  { intros e w0 r0 w0' H. inversion H. repeat split. }
  destruct (lookup_node (disk w) (resolve (cwd w) metadataPath)) as [[text |] |] eqn:Efile;
    try (intros H; apply Hwarn in H as (-> & Hc & Hd); auto).
  destruct (JSON_parse (stripBom text)) as [v |] eqn:Eparse;
    [| cbn [throw]; intros H; apply Hwarn in H as (-> & Hc & Hd); auto].
  cbn [ret].
  destruct v as [| b | l | s | items | members];
    try (cbn [ret throw]; intros H; first [apply Hwarn in H as (-> & Hc & Hd) | inversion H];
         now auto).
  destruct (obj_get "image" members) as [[| b | l | image | items | members'] |] eqn:Eimage;
    try (cbn [ret throw js_truthy];
         repeat match goal with |- context [if ?b then _ else _] => destruct b end;
         cbn [ret throw]; intros H; first [apply Hwarn in H as (-> & Hc & Hd) | inversion H];
         now auto).
  destruct (negb (String.eqb image "") && negb (startsWith image "http")) eqn:Econd;
    [| cbn [ret]; intros H; inversion H; now auto].
  apply andb_prop in Econd as [Hne Hhttp]. apply negb_true_iff in Hne, Hhttp.
  unfold bind at 1, writeJson.
  destruct (writeFileSync_spec metadataPath
              (JSON_stringify
                 (JObject (obj_set "image"
                             (JString ("https://" +:+ MinioConfig.endPoint config +:+ "/"
                                       +:+ MinioConfig.bucketName config +:+ "/images/"
                                       +:+ imageFilename)) members)) +:+ LF) w)
    as [[_ Hrun] | [_ (e & Hrun)]]; rewrite Hrun.
  - cbn [console_log console_write]. intros H. inversion H; subst.
    split; [reflexivity |]. split; [reflexivity |]. right.
    exists text, members, image. unfold read_back, file_at.
    assert (Hlook : disk w !! resolve (cwd w) metadataPath = Some (File text)).
    { destruct (resolve (cwd w) metadataPath); [discriminate | exact Efile]. }
    rewrite Hlook. repeat split; try assumption.
    now apply String.eqb_neq.
  - intros H. apply Hwarn in H as (-> & Hc & Hd). auto.
Qed.

Lemma uploadNFTToMinio_spec config imagePath metadataPath w r w' :
  uploadNFTToMinio config imagePath metadataPath w = (r, w') ->
  cwd w' = cwd w
  /\ (disk w' = disk w \/ rewritten config metadataPath (path_basename imagePath) w w').
Proof.
  unfold uploadNFTToMinio. unfold bind at 1. cbn [console_log console_write].
  set (w0 := with_console _ w). assert (H0 : still w w0) by (split; reflexivity).
  unfold bind at 1.
  destruct (initializeMinioClient config w0) as [[[client |] | e] w1] eqn:Einit;
    pose proof (keeps_initializeMinioClient config w0 _ _ Einit) as H1.
  3:{ intros H. inversion H; subst. destruct H0, H1. split; [congruence | left; congruence]. }
  2:{ unfold bind, console_write, ret. intros H. inversion H; subst. cbn.
      destruct H0, H1. split; [congruence | left; congruence]. }
  unfold bind at 1.
  destruct (testMinioConnection client w1) as [[ok | e] w2] eqn:Etest;
    pose proof (keeps_testMinioConnection client w1 _ _ Etest) as H2.
  2:{ intros H. inversion H; subst. destruct H0, H1, H2. split; [congruence | left; congruence]. }
  assert (Hstill : still w w2).
  { eapply still_trans; [exact H0 |]. eapply still_trans; eauto. }
  destruct ok; cbn [negb].
  2:{ unfold bind, console_error, console_log, console_write, ret. intros H. inversion H; subst.
      cbn. destruct Hstill. split; [congruence | left; congruence]. }
  unfold try_catch. unfold bind at 1. cbn [console_log console_write].
  set (w3 := with_console _ w2). assert (H3 : still w w3).
  { eapply still_trans; [exact Hstill | split; reflexivity]. }
  unfold bind at 1.
  destruct (uploadToMinio client imagePath _ _ _ w3) as [[imageUrl | e] w4] eqn:Eup1;
    pose proof (keeps_uploadToMinio _ _ _ _ _ w3 _ _ Eup1) as H4.
  2:{ unfold bind, console_error, console_log, console_write, ret. intros H. inversion H; subst.
      cbn. destruct H3, H4. split; [congruence | left; congruence]. }
  assert (Hs4 : still w w4) by (eapply still_trans; eauto).
  unfold bind at 1.
  destruct (absolutize_image config metadataPath (path_basename imagePath) w4)
    as [r5 w5] eqn:Eabs.
  apply absolutize_image_spec in Eabs as (-> & Hc5 & Hd5).
  assert (Hchange : cwd w5 = cwd w
                    /\ (disk w5 = disk w
                        \/ rewritten config metadataPath (path_basename imagePath) w w5)).
  { destruct Hs4 as [Hd4 Hc4]. split; [congruence |].
    destruct Hd5 as [Hd5 | (text & members & image & Hread & Hrest)]; [left; congruence |].
    right. exists text, members, image. unfold read_back in *. rewrite Hd4, Hc4 in *.
    split; [exact Hread | exact Hrest]. }
  assert (Hafter : forall w6, still w5 w6 ->
            cwd w6 = cwd w
            /\ (disk w6 = disk w
                \/ rewritten config metadataPath (path_basename imagePath) w w6)).
  { intros w6 [Hd6 Hc6]. destruct Hchange as [Hc Hd]. split; [congruence |].
    destruct Hd as [Hd | (text & members & image & Hread & Hp & Hi & Hn & Hh & Hdisk)].
    - left. congruence.
    - right. exists text, members, image. repeat split; try assumption. congruence. }
  unfold bind at 1.
  destruct (uploadToMinio client metadataPath _ _ _ w5) as [[metadataUrl | e] w6] eqn:Eup2;
    pose proof (keeps_uploadToMinio _ _ _ _ _ w5 _ _ Eup2) as H6.
  2:{ unfold bind, console_error, console_log, console_write, ret. intros H. inversion H; subst.
      apply Hafter. eapply still_trans; [exact H6 | split; reflexivity]. }
  unfold bind, console_log, console_write, ret. intros H. inversion H; subst.
  apply Hafter. eapply still_trans; [exact H6 | split; reflexivity].
Qed.

Section Metadata.

Variable png : codec.

(** C7. The metadata file a call wrote parses back to an object whose
    [name], [attributes] and [timestamp] are those of the metadata object
    the call returned. *)
Theorem metadata_file_round_trip tokenId config w g w' :
  generateNFT png tokenId config w = (Return g, w') ->
  exists text members,
    read_back w' (Generated.metadataPath g) = Some text
    /\ JSON_parse text = Some (JObject members)
    /\ obj_get "name" members = Some (JString (NFTMetadata.name (Generated.metadata g)))
    /\ obj_get "attributes" members
       = Some (JArray (map attribute_json (NFTMetadata.attributes (Generated.metadata g))))
    /\ obj_get "timestamp" members
       = Some (JString (NFTMetadata.timestamp (Generated.metadata g))).
Proof.
  intros Hrun.
  destruct (generated_files_and_result png tokenId config w g w' Hrun) as (_ & _ & _ & Hread).
  eexists _, _. split; [exact Hread |]. split.
  - rewrite <- (append_nil_r (JSON_stringify _)).
    apply JSON_parse_stringify; [apply textual_metadata | reflexivity].
  - repeat split.
Qed.

(** C3, as the code has it.  After [generateNFT] has written the metadata
    file, [uploadNFTToMinio] on the generated pair leaves in it a text that
    parses to the same metadata except, possibly, for the image: the name,
    description, attributes and time stamp are those written; the image is
    the one written, or, if that one did not start with [http], the URL
    [https://<endPoint>/<bucketName>/images/<image file name>].  When the
    end point and the bucket were configured at generation the file is left
    exactly as it was written. *)
Theorem upload_rewrites_only_a_relative_image tokenId config w g w1 minioConfig r w2 :
  generateNFT png tokenId config w = (Return g, w1) ->
  uploadNFTToMinio minioConfig (Generated.imagePath g) (Generated.metadataPath g) w1 = (r, w2) ->
  let m := Generated.metadata g in
  (exists text m',
     read_back w2 (Generated.metadataPath g) = Some text
     /\ JSON_parse (stripBom text) = Some (metadata_json m')
     /\ NFTMetadata.name m' = NFTMetadata.name m
     /\ NFTMetadata.description m' = NFTMetadata.description m
     /\ NFTMetadata.attributes m' = NFTMetadata.attributes m
     /\ NFTMetadata.timestamp m' = NFTMetadata.timestamp m
     /\ (NFTMetadata.image m' = NFTMetadata.image m
         \/ (startsWith (NFTMetadata.image m) "http" = false
             /\ NFTMetadata.image m'
                = "https://" +:+ MinioConfig.endPoint minioConfig +:+ "/"
                  +:+ MinioConfig.bucketName minioConfig +:+ "/images/"
                  +:+ path_basename (Generated.imagePath g))))
  /\ (truthy (NFTConfig.s3Endpoint config) && truthy (NFTConfig.s3BucketName config) = true ->
      read_back w2 (Generated.metadataPath g) = read_back w1 (Generated.metadataPath g)).
Proof.
  intros Hrun Hup m.
  destruct (generated_files_and_result png tokenId config w g w1 Hrun) as (_ & _ & _ & Hread).
  fold m in Hread.
  apply uploadNFTToMinio_spec in Hup as (Hcwd & Hdisk).
  assert (Hparse : JSON_parse (stripBom (JSON_stringify (metadata_json m)))
                   = Some (metadata_json m)).
  { rewrite <- (append_nil_r (JSON_stringify _)). now apply metadata_round_trip. }
  destruct Hdisk as [Hdisk | (text & members & image & Hread' & Hp & Hi & Hn & Hh & Hdisk)].
  - assert (Hsame : read_back w2 (Generated.metadataPath g)
                    = read_back w1 (Generated.metadataPath g)).
    { unfold read_back. now rewrite Hdisk, Hcwd. }
    split; [| intros _; exact Hsame].
    exists (JSON_stringify (metadata_json m)), m. rewrite Hsame.
    split; [exact Hread |]. split; [exact Hparse |]. repeat split. now left.
  - rewrite Hread in Hread'. inversion Hread'; subst text. clear Hread'.
    rewrite Hparse in Hp. inversion Hp; subst members. clear Hp.
    cbn in Hi. inversion Hi; subst image. clear Hi.
    set (url := upload_url minioConfig (path_basename (Generated.imagePath g))) in *.
    assert (Hnew : read_back w2 (Generated.metadataPath g)
                   = Some (JSON_stringify (metadata_json (with_image url m)) +:+ LF)).
    { unfold read_back, file_at. rewrite Hdisk, Hcwd, lookup_insert_eq. reflexivity. }
    split.
    + exists (JSON_stringify (metadata_json (with_image url m)) +:+ LF), (with_image url m).
      split; [exact Hnew |]. split; [now apply metadata_round_trip |].
      repeat split. right. split; [exact Hh | reflexivity].
    + intros Hs3. exfalso.
      apply generateNFT_Return_inv in Hrun as (d & attributes & w0 & _ & _ & _ & Hg & _).
      subst m. rewrite Hg in Hh. cbn [Generated.metadata metadata_of NFTMetadata.image] in Hh.
      unfold image_reference in Hh. rewrite Hs3 in Hh. discriminate.
Qed.

End Metadata.

Lemma metadata_file_round_trip_witness :
  exists text members,
    read_back (snd (generateNFT demo_codec (Num 7) DEFAULT_CONFIG demo_world))
      (Generated.metadataPath demo_generated) = Some text
    /\ JSON_parse text = Some (JObject members)
    /\ obj_get "name" members = Some (JString "Dog NFT Collection #7")
    /\ obj_get "timestamp" members = Some (JString "2024-01-01T00:00:00.000Z").
Proof.
  destruct (metadata_file_round_trip demo_codec (Num 7) DEFAULT_CONFIG demo_world demo_generated
              (snd (generateNFT demo_codec (Num 7) DEFAULT_CONFIG demo_world)) demo_run)
    as (text & members & Hread & Hparse & Hname & _ & Hstamp).
  exists text, members. split; [exact Hread |]. split; [exact Hparse |]. split.
  - rewrite Hname. vm_compute. reflexivity.
  - rewrite Hstamp. vm_compute. reflexivity.
Defined.

(** C3 as it is worded fails: generated without S3 settings, as
    [createNewCollection] does, the metadata file holds the image [1.png];
    the upload that the same action then makes writes the file again with an
    absolute URL in its place. *)
Lemma upload_rewrites_the_metadata_file :
  snd demo_collection_files = "/app/public/collections/dogs/metadata/1.json"
  /\ stored_image (snd demo_collection_run) "/app/public/collections/dogs/metadata/1.json"
     = Some (JString "1.png")
  /\ fst demo_collection_upload = Return true
  /\ stored_image (snd demo_collection_upload) "/app/public/collections/dogs/metadata/1.json"
     = Some (JString "https://minio.example.com/nft-collection/collections/dogs/images/1.png")
  /\ fst (createNewCollection demo_codec "Dogs" demo_world_s3)
     = Return (GenerationResult.mk true
                 ("New collection " +:+ DQ +:+ "Dogs" +:+ DQ
                  +:+ " created with NFT #1 and uploaded to MinIO!")
                 (Some (Num 1)) (Some "/collections/dogs/images/1.png") (Some success_status)
                 (Some "") (Some "dogs") None None None)
  /\ stored_image (snd (createNewCollection demo_codec "Dogs" demo_world_s3))
       "/app/public/collections/dogs/metadata/1.json"
     = Some (JString "https://minio.example.com/nft-collection/collections/dogs/images/1.png").
Proof. repeat split; vm_compute; reflexivity. Qed.

Lemma upload_rewrites_only_a_relative_image_witness :
  exists text m',
    read_back (snd demo_collection_upload) (snd demo_collection_files) = Some text
    /\ JSON_parse (stripBom text) = Some (metadata_json m')
    /\ NFTMetadata.name m' = "Dogs #1"
    /\ NFTMetadata.timestamp m' = "2024-01-01T00:00:00.000Z".
Proof.
  pose (g := match fst demo_collection_run with
             | Return g => g
             | Throw _ => Generated.mk "" "" (NFTMetadata.mk "" "" "" [] "")
             end).
  assert (Hrun : generateNFT demo_codec (Num 1) demo_collection_config demo_world_s3
                 = (Return g, snd demo_collection_run)).
  { apply (run_eq (generateNFT demo_codec (Num 1) demo_collection_config) demo_world_s3).
    vm_compute. reflexivity. }
  assert (Hfiles : demo_collection_files = (Generated.imagePath g, Generated.metadataPath g)).
  { vm_compute. reflexivity. }
  assert (Hup : uploadNFTToMinio demo_minio_config (Generated.imagePath g)
                  (Generated.metadataPath g) (snd demo_collection_run)
                = (fst demo_collection_upload, snd demo_collection_upload)).
  { unfold demo_collection_upload. rewrite Hfiles. cbn [fst snd].
    now destruct (uploadNFTToMinio _ _ _ _). }
  destruct (upload_rewrites_only_a_relative_image demo_codec (Num 1) demo_collection_config
              demo_world_s3 g (snd demo_collection_run) demo_minio_config
              (fst demo_collection_upload) (snd demo_collection_upload) Hrun Hup)
    as ((text & m' & Hread & Hparse & Hname & _ & _ & Hstamp & _) & _).
  exists text, m'. rewrite Hfiles. cbn [snd].
  split; [exact Hread |]. split; [exact Hparse |]. split.
  - rewrite Hname. vm_compute. reflexivity.
  - rewrite Hstamp. vm_compute. reflexivity.
Defined.


(** ** Resolving joined paths *)

Lemma normalize_segments_app allow a : forall kept b,
  normalize_segments allow kept (a ++ b)
  = normalize_segments allow (rev (normalize_segments allow kept a)) b.
Proof.
  induction a as [| seg a IH]; intros kept b; cbn [app normalize_segments].
  - now rewrite rev_involutive.
  - destruct (is_noop_segment seg); [apply IH |].
    destruct (String.eqb seg ".."); [| apply IH].
    destruct kept as [| top below]; [apply IH |].
    destruct (String.eqb top ".."); apply IH.
Qed.

Lemma normalize_segments_one allow kept seg :
  is_noop_segment seg = false -> String.eqb seg ".." = false ->
  normalize_segments allow kept [seg] = rev kept ++ [seg].
Proof. intros Hn Hd. cbn [normalize_segments]. now rewrite Hn, Hd. Qed.

Lemma split_on_slash_free s :
  Forall (fun seg => all_chars (fun c => negb (Ascii.eqb c "/"%char)) seg = true)
    (split_on "/" s).
Proof.
  induction s as [| c s IH]; cbn [split_on].
  - repeat constructor.
  - destruct (Ascii.eqb c "/") eqn:Ec.
    + constructor; [reflexivity | exact IH].
    + destruct (split_on "/" s) as [| h t]; [repeat constructor; cbn; now rewrite Ec |].
      inversion IH; subst. constructor; [| assumption]. cbn. now rewrite Ec.
Qed.

Lemma split_join l :
  l <> [] ->
  Forall (fun seg => all_chars (fun c => negb (Ascii.eqb c "/"%char)) seg = true) l ->
  split_on "/" (join_with "/" l) = l.
Proof.
  induction l as [| x rest IH]; intros Hne Hl; [contradiction |].
  inversion Hl as [| ? ? Hx Hrest]; subst.
  destruct rest as [| y rest'].
  - cbn [join_with]. now apply split_on_plain.
  - change (join_with "/" (x :: y :: rest'))
      with (x +:+ String "/"%char (join_with "/" (y :: rest'))).
    rewrite split_on_app, (split_on_plain x Hx), IH by (discriminate || assumption).
    reflexivity.
Qed.

(** What normalisation keeps: segments of its input (or [..]), none empty
    and none a single dot. *)
Lemma normalize_segments_kept (P : string -> Prop) allow segs : forall kept,
  P ".." -> Forall P kept -> Forall P segs ->
  Forall P (normalize_segments allow kept segs).
Proof.
  induction segs as [| seg rest IH]; intros kept Hup Hk Hs; cbn [normalize_segments].
  - now apply Forall_rev.
  - inversion Hs; subst. destruct (is_noop_segment seg); [now apply IH |].
    destruct (String.eqb seg "..").
    + destruct kept as [| top below].
      * apply IH; [assumption | destruct allow; repeat constructor; assumption | assumption].
      * inversion Hk; subst.
        destruct (String.eqb top ".."); apply IH; try assumption.
        destruct allow; [constructor |]; assumption.
    + apply IH; [assumption | now constructor | assumption].
Qed.

Lemma normalize_segments_solid allow segs : forall kept,
  Forall (fun s => is_noop_segment s = false) kept ->
  Forall (fun s => is_noop_segment s = false) (normalize_segments allow kept segs).
Proof.
  induction segs as [| seg rest IH]; intros kept Hk; cbn [normalize_segments].
  - now apply Forall_rev.
  - destruct (is_noop_segment seg) eqn:En; [now apply IH |].
    destruct (String.eqb seg "..").
    + destruct kept as [| top below].
      * apply IH. destruct allow; repeat constructor.
      * inversion Hk; subst.
        destruct (String.eqb top ".."); apply IH; try assumption.
        destruct allow; [constructor; [reflexivity |] |]; assumption.
    + apply IH. now constructor.
Qed.

Lemma normalize_segments_rooted segs : forall kept,
  Forall (fun s => String.eqb s ".." = false) kept ->
  Forall (fun s => String.eqb s ".." = false) (normalize_segments false kept segs).
Proof.
  induction segs as [| seg rest IH]; intros kept Hk; cbn [normalize_segments].
  - now apply Forall_rev.
  - destruct (is_noop_segment seg) eqn:En; [now apply IH |].
    destruct (String.eqb seg "..") eqn:Ed.
    + destruct kept as [| top below]; [apply IH; constructor |].
      inversion Hk; subst. destruct (String.eqb top ".."); apply IH; assumption.
    + apply IH. now constructor.
Qed.

(** Segments that are already normal are only pushed. *)
Lemma normalize_segments_fixed allow l : forall kept,
  Forall (fun s => is_noop_segment s = false) l ->
  Forall (fun s => String.eqb s ".." = false) l ->
  normalize_segments allow kept l = rev kept ++ l.
Proof.
  induction l as [| seg rest IH]; intros kept Hn Hd; cbn [normalize_segments].
  - now rewrite app_nil_r.
  - inversion Hn as [| ? ? Hn1 Hn2]; subst. inversion Hd as [| ? ? Hd1 Hd2]; subst.
    rewrite Hn1, Hd1, IH by assumption. cbn [rev]. now rewrite <- app_assoc.
Qed.

Lemma normalize_segments_cons allow kept seg rest :
  normalize_segments allow kept (seg :: rest)
  = if is_noop_segment seg then normalize_segments allow kept rest
    else if String.eqb seg ".." then
      match kept with
      | top :: below =>
          if String.eqb top ".."
          then normalize_segments allow (if allow then ".." :: kept else kept) rest
          else normalize_segments allow below rest
      | [] => normalize_segments allow (if allow then [".."] else []) rest
      end
    else normalize_segments allow (seg :: kept) rest.
Proof. reflexivity. Qed.

(** Normalising a relative path first, as [path.normalize] does, and then
    resolving it gives what resolving it directly gives. *)
Lemma normalize_then_resolve segs : forall kept2 kept,
  Forall (fun s => is_noop_segment s = false) kept2 ->
  normalize_segments false kept (normalize_segments true kept2 segs)
  = normalize_segments false (rev (normalize_segments false kept (rev kept2))) segs.
Proof.
  induction segs as [| seg rest IH]; intros kept2 kept Hk2.
  - cbn [normalize_segments]. now rewrite rev_involutive.
  - assert (Hpush : forall s, is_noop_segment s = false ->
              normalize_segments false kept (normalize_segments true (s :: kept2) rest)
              = normalize_segments false
                  (rev (normalize_segments false
                          (rev (normalize_segments false kept (rev kept2))) [s])) rest).
    { intros s Hs. rewrite IH by now constructor. cbn [rev].
      now rewrite normalize_segments_app. }
    change (seg :: rest) with ([seg] ++ rest) at 2.
    rewrite (normalize_segments_app false [seg] _ rest).
    rewrite (normalize_segments_cons true).
    destruct (is_noop_segment seg) eqn:En.
    { rewrite IH by assumption. rewrite (normalize_segments_cons false _ seg []), En.
      cbn [normalize_segments]. now rewrite !rev_involutive. }
    destruct (String.eqb seg "..") eqn:Ed; [| now apply Hpush].
    apply String.eqb_eq in Ed. subst seg.
    destruct kept2 as [| top below]; [now apply Hpush |].
    destruct (String.eqb top "..") eqn:Et; [now apply Hpush |].
    inversion Hk2; subst.
    rewrite IH by assumption. f_equal. f_equal.
    cbn [rev]. rewrite normalize_segments_app.
    rewrite (normalize_segments_one false _ top) by assumption.
    rewrite !rev_involutive, rev_app_distr. cbn [rev app].
    rewrite (normalize_segments_cons false _ ".." []). cbn [is_noop_segment String.eqb Ascii.eqb Bool.eqb orb].
    rewrite Et. cbn [normalize_segments]. now rewrite rev_involutive.
Qed.

Lemma normalize_relative kept segs :
  normalize_segments false kept (normalize_segments true [] segs)
  = normalize_segments false kept segs.
Proof.
  rewrite normalize_then_resolve by constructor. cbn [rev normalize_segments].
  now rewrite rev_involutive.
Qed.

Lemma isAbsolute_cons c s : isAbsolute (String c s) = Ascii.eqb c "/"%char.
Proof.
  unfold isAbsolute, startsWith.
  change (String.prefix "/" (String c s))
    with (if ascii_dec "/" c then String.prefix "" s else false).
  destruct (ascii_dec "/" c) as [<- | N].
  - now destruct s.
  - symmetry. apply Ascii.eqb_neq. congruence.
Qed.

Lemma isAbsolute_append c s t : isAbsolute (String c s +:+ t) = isAbsolute (String c s).
Proof. rewrite append_cons. now rewrite !isAbsolute_cons. Qed.

Lemma solid_head x :
  is_noop_segment x = false -> exists c x', x = String c x'.
Proof. destruct x as [| c x']; [discriminate | eauto]. Qed.

Lemma join_with_cons x rest :
  exists tail, join_with "/" (x :: rest) = x +:+ tail.
Proof.
  destruct rest as [| y rest']; cbn [join_with].
  - exists "". now rewrite append_nil_r.
  - eauto.
Qed.

Lemma trailing_noop allow kept segs :
  normalize_segments allow kept (segs ++ [""]) = normalize_segments allow kept segs.
Proof. rewrite normalize_segments_app. cbn. now rewrite rev_involutive. Qed.

Lemma split_on_trailing s : split_on "/" (s +:+ "/") = split_on "/" s ++ [""].
Proof. change (s +:+ "/") with (s +:+ String "/"%char ""). now rewrite split_on_app. Qed.

(** [path.normalize] does not change what a path resolves to. *)
Lemma resolve_normalize wd p : resolve wd (path_normalize p) = resolve wd p.
Proof.
  unfold path_normalize.
  destruct (String.eqb_spec p "") as [-> | Hp].
  { unfold resolve. cbn [isAbsolute startsWith String.prefix split_on].
    change ["."] with ([] ++ ["."]). now rewrite !normalize_segments_app. }
  set (out := normalize_segments (negb (isAbsolute p)) [] (split_on "/" p)).
  assert (Hfree : Forall (fun seg => all_chars (fun c => negb (Ascii.eqb c "/"%char)) seg = true)
                    out).
  { apply normalize_segments_kept; [reflexivity | constructor | apply split_on_slash_free]. }
  assert (Hsolid : Forall (fun s => is_noop_segment s = false) out).
  { apply normalize_segments_solid. constructor. }
  assert (Hsplit : out <> [] -> split_on "/" (join_with "/" out) = out).
  { intros Hne. now apply split_join. }
  assert (Hhead : out <> [] ->
            exists c s, join_with "/" out = String c s /\ Ascii.eqb c "/"%char = false).
  { intros Hne. destruct out as [| x rest]; [contradiction |].
    inversion Hsolid as [| ? ? Hx _]; subst. inversion Hfree as [| ? ? Hfx _]; subst.
    destruct (solid_head x) as (c & x' & ->); [assumption |].
    destruct (join_with_cons (String c x') rest) as (tail & ->).
    rewrite append_cons. eexists _, _. split; [reflexivity |].
    cbn in Hfx. apply andb_prop in Hfx as [Hc _]. now apply negb_true_iff in Hc. }
  destruct (String.eqb_spec (join_with "/" out) "") as [Ebody | Ebody].
  - assert (Hout : out = []).
    { destruct out as [| x rest]; [reflexivity |].
      destruct Hhead as (c & s & E & _); [discriminate |]. congruence. }
    unfold resolve at 2. destruct (isAbsolute p) eqn:Eabs.
    + fold out. cbn [negb] in out. fold out. rewrite Hout. reflexivity.
    + cbn [negb] in out.
      rewrite normalize_segments_app.
      rewrite <- normalize_relative.
      fold out. rewrite Hout.
      destruct (endsWith p "/"); unfold resolve;
        cbn [isAbsolute startsWith String.prefix split_on];
        cbn; rewrite normalize_segments_app; cbn; reflexivity.
  - assert (Hne : out <> []).
    { intros E. rewrite E in Ebody. now apply Ebody. }
    destruct (Hhead Hne) as (c & s & Ejoin & Hc).
    set (body' := if endsWith p "/" then join_with "/" out +:+ "/" else join_with "/" out).
    assert (Hbody' : forall allow kept,
              normalize_segments allow kept (split_on "/" body')
              = normalize_segments allow kept out).
    { intros allow kept. unfold body'. destruct (endsWith p "/").
      - now rewrite split_on_trailing, trailing_noop, Hsplit.
      - now rewrite Hsplit. }
    assert (Hrel : isAbsolute body' = false).
    { unfold body'. destruct (endsWith p "/"); rewrite Ejoin.
      - now rewrite isAbsolute_append, isAbsolute_cons.
      - now rewrite isAbsolute_cons. }
    unfold resolve at 2. destruct (isAbsolute p) eqn:Eabs; cbn [negb] in out.
    + unfold resolve. change ("/" +:+ body') with (String "/"%char body').
      rewrite isAbsolute_cons. change (Ascii.eqb "/" "/") with true. cbn iota.
      cbn [split_on]. change (Ascii.eqb "/" "/") with true. cbn iota.
      cbn [normalize_segments is_noop_segment String.eqb orb].
      rewrite Hbody'. fold out.
      rewrite normalize_segments_fixed; [reflexivity | assumption |].
      apply normalize_segments_rooted. constructor.
    + unfold resolve. rewrite Hrel.
      rewrite !normalize_segments_app, Hbody'.
      now rewrite <- (normalize_relative _ (split_on "/" p)).
Qed.

Lemma filter_nonempty_snoc parts f :
  f <> "" ->
  filter (fun a : string => negb (String.eqb a "")) (parts ++ [f])
  = filter (fun a : string => negb (String.eqb a "")) parts ++ [f].
Proof.
  intros Hne. rewrite filter_app. f_equal.
  rewrite filter_cons_True; [reflexivity |].
  destruct (String.eqb_spec f ""); [contradiction | exact I].
Qed.

Lemma resolve_path_join wd parts :
  resolve wd (path_join parts)
  = resolve wd (join_with "/" (filter (fun a : string => negb (String.eqb a "")) parts)).
Proof.
  unfold path_join.
  destruct (filter (fun a : string => negb (String.eqb a "")) parts) as [| x rest] eqn:E.
  - exact (resolve_normalize wd "").
  - apply resolve_normalize.
Qed.

Lemma plain_name_nonempty f : plain_name f = true -> f <> "".
Proof. intros H ->. discriminate. Qed.

Lemma plain_name_relative f : plain_name f = true -> isAbsolute f = false.
Proof.
  intros H. apply plain_name_inv in H as (Hn & _ & Hs).
  destruct f as [| c f']; [discriminate |].
  rewrite isAbsolute_cons. cbn in Hs. apply andb_prop in Hs as [Hc _].
  now apply negb_true_iff in Hc.
Qed.

Lemma resolve_join_snoc wd l f :
  Forall (fun a => a <> "") l -> plain_name f = true ->
  resolve wd (join_with "/" (l ++ [f])) = resolve wd (join_with "/" l) ++ [f].
Proof.
  intros Hl Hplain. pose proof (plain_name_inv f Hplain) as (Hn & Hd & Hs).
  rewrite join_with_snoc. destruct l as [| x rest].
  - unfold resolve. rewrite (plain_name_relative f Hplain).
    cbn [join_with isAbsolute startsWith String.prefix split_on].
    rewrite (split_on_plain f Hs), trailing_noop.
    now apply normalize_segments_snoc.
  - inversion Hl; subst.
    destruct (join_with_cons x rest) as (tail & Ejoin).
    destruct x as [| c x']; [congruence |].
    change ("/" +:+ f) with (String "/"%char f).
    assert (Habs : isAbsolute (join_with "/" (String c x' :: rest) +:+ String "/"%char f)
                   = isAbsolute (join_with "/" (String c x' :: rest))).
    { rewrite Ejoin, append_assoc. now rewrite !isAbsolute_append. }
    unfold resolve. rewrite Habs.
    rewrite split_on_app, (split_on_plain f Hs).
    destruct (isAbsolute (join_with "/" (String c x' :: rest))).
    + now apply normalize_segments_snoc.
    + rewrite app_assoc. now apply normalize_segments_snoc.
Qed.

(** A plain file name joined after other parts names an entry of the
    directory the other parts name. *)
Lemma resolve_path_join_snoc wd parts f :
  plain_name f = true ->
  resolve wd (path_join (parts ++ [f])) = resolve wd (path_join parts) ++ [f].
Proof.
  intros Hplain. rewrite !resolve_path_join.
  rewrite filter_nonempty_snoc by now apply plain_name_nonempty.
  apply resolve_join_snoc; [| exact Hplain].
  apply List.Forall_forall. intros a Ha.
  apply (proj2 (list_elem_of_In _ _)), list_elem_of_filter in Ha as [Ha _].
  destruct (String.eqb_spec a ""); [contradiction | assumption].
Qed.

(** The text of a joined path ends with its last part, after a slash if
    anything comes before it. *)
Lemma path_join_text parts f :
  plain_name f = true ->
  exists pre, path_join (parts ++ [f]) = pre +:+ f
              /\ (pre = "" \/ exists q, pre = q +:+ "/").
Proof.
  intros Hplain. pose proof (plain_name_inv f Hplain) as (Hn & Hd & Hs).
  pose proof (plain_name_nonempty f Hplain) as Hne.
  unfold path_join. rewrite filter_nonempty_snoc by assumption.
  set (used := filter (fun a : string => negb (String.eqb a "")) parts).
  destruct (used ++ [f]) as [| u0 us] eqn:Eused.
  { destruct used; discriminate. }
  rewrite <- Eused. clear Eused u0 us.
  destruct (split_join_snoc used f Hs) as (segs & Hsplit).
  set (joined := join_with "/" (used ++ [f])) in *.
  assert (Hjoined : exists p, joined = p +:+ f).
  { unfold joined. rewrite join_with_snoc. destruct used.
    - now exists "".
    - eexists. rewrite append_assoc. reflexivity. }
  destruct Hjoined as (p & Hp).
  assert (Hends : endsWith joined "/" = false).
  { rewrite Hp. now apply endsWith_slash_plain. }
  unfold path_normalize.
  destruct (String.eqb_spec joined "") as [E | _].
  { rewrite Hp in E. now apply append_nonempty in E. }
  rewrite Hends, Hsplit, normalize_segments_snoc by assumption.
  set (kept := normalize_segments (negb (isAbsolute joined)) [] segs).
  assert (Hbody : exists pre, join_with "/" (kept ++ [f]) = pre +:+ f
                              /\ (pre = "" \/ exists q, pre = q +:+ "/")).
  { rewrite join_with_snoc. destruct kept as [| k0 ks].
    - exists "". split; [reflexivity | now left].
    - exists (join_with "/" (k0 :: ks) +:+ "/"). split; [now rewrite append_assoc |].
      right. eauto. }
  destruct Hbody as (pre & Ebody & Hpre).
  destruct (String.eqb_spec (join_with "/" (kept ++ [f])) "") as [E | _].
  { rewrite Ebody in E. now apply append_nonempty in E. }
  rewrite Ebody. destruct (isAbsolute joined).
  - exists ("/" +:+ pre). split; [now rewrite append_assoc |].
    right. destruct Hpre as [-> | (q & ->)].
    + now exists "".
    + exists ("/" +:+ q). now rewrite append_assoc.
  - exists pre. split; [reflexivity | exact Hpre].
Qed.

Lemma path_basename_join parts f :
  plain_name f = true -> path_basename (path_join (parts ++ [f])) = f.
Proof.
  intros Hplain. pose proof (plain_name_inv f Hplain) as (_ & _ & Hs).
  destruct (path_join_text parts f Hplain) as (pre & -> & [-> | (q & ->)]).
  - unfold path_basename. now rewrite append_nil_l, (split_on_plain f Hs).
  - unfold path_basename. rewrite append_assoc. change ("/" +:+ f) with (String "/"%char f).
    rewrite split_on_app, (split_on_plain f Hs). apply last_last.
Qed.

Lemma endsWith_append pre s suf : endsWith s suf = true -> endsWith (pre +:+ s) suf = true.
Proof.
  intros H. induction pre as [| c pre IH]; [exact H |].
  rewrite append_cons. cbn [endsWith]. rewrite IH. apply orb_true_r.
Qed.


(** ** What a run leaves of the disk *)

Lemma same_surroundings_refl w : same_surroundings w w.
Proof. repeat split. Qed.

Lemma same_surroundings_trans w1 w2 w3 :
  same_surroundings w1 w2 -> same_surroundings w2 w3 -> same_surroundings w1 w3.
Proof.
  intros (A1 & A2 & A3 & A4 & A5 & A6) (B1 & B2 & B3 & B4 & B5 & B6).
  repeat split; congruence.
Qed.

Lemma quiet_same_surroundings w w' : quiet w w' -> same_surroundings w w'.
Proof. intros (_ & A1 & A2 & A3 & A4 & A5 & A6). repeat split; assumption. Qed.

Lemma kept_entry_refl d k : kept_entry d d k.
Proof. now left. Qed.

Lemma kept_entry_trans d1 d2 d3 k :
  kept_entry d1 d2 k -> kept_entry d2 d3 k -> kept_entry d1 d3 k.
Proof.
  unfold kept_entry. intros [A | [A1 A2]] [B | [B1 B2]].
  - left. congruence.
  - right. split; congruence.
  - right. split; congruence.
  - congruence.
Qed.

Lemma only_writes_refl wd keys w : only_writes wd keys w w.
Proof. intros _. split; [apply same_surroundings_refl | intros; apply kept_entry_refl]. Qed.

Lemma only_writes_trans wd keys w1 w2 w3 :
  only_writes wd keys w1 w2 -> only_writes wd keys w2 w3 -> only_writes wd keys w1 w3.
Proof.
  intros H12 H23 Hwd. destruct (H12 Hwd) as [S12 K12].
  assert (Hwd2 : cwd w2 = wd) by (destruct S12 as [E _]; congruence).
  destruct (H23 Hwd2) as [S23 K23]. split.
  - eapply same_surroundings_trans; eauto.
  - intros k Hk. eapply kept_entry_trans; eauto.
Qed.

Lemma only_writes_quiet wd keys w w' : quiet w w' -> only_writes wd keys w w'.
Proof.
  intros Hq _. split; [now apply quiet_same_surroundings |].
  intros k _. left. destruct Hq as [-> _]. reflexivity.
Qed.

Section Preserves.

Variable R : world -> world -> Prop.
Hypothesis R_refl : forall w, R w w.
Hypothesis R_trans : forall w1 w2 w3, R w1 w2 -> R w2 w3 -> R w1 w3.

Lemma preserves_ret {A} (a : A) : preserves R (ret a).
Proof. intros w r w' H. inversion H. apply R_refl. Qed.

Lemma preserves_throw {A} e : preserves R (@throw A e).
Proof. intros w r w' H. inversion H. apply R_refl. Qed.

Lemma preserves_bind {A B} (m : M A) (k : A -> M B) :
  preserves R m -> (forall a, preserves R (k a)) -> preserves R (bind m k).
Proof.
  intros Hm Hk w r w' H. unfold bind in H. destruct (m w) as [[a | e] w1] eqn:E.
  - eapply R_trans; [eapply Hm | eapply Hk]; eauto.
  - inversion H; subst. eapply Hm; eauto.
Qed.

Lemma preserves_try {A} (m : M A) (h : exn -> M A) :
  preserves R m -> (forall e, preserves R (h e)) -> preserves R (try_catch m h).
Proof.
  intros Hm Hh w r w' H. unfold try_catch in H. destruct (m w) as [[a | e] w1] eqn:E.
  - inversion H; subst. eapply Hm; eauto.
  - eapply R_trans; [eapply Hm | eapply Hh]; eauto.
Qed.

End Preserves.

(** The directories [mkdir -p] makes appear where nothing was; nothing else
    changes. *)
Lemma make_dirs_kept todo : forall done d d',
  make_dirs done todo d = Some d' -> forall k, kept_entry d d' k.
Proof.
  induction todo as [| seg rest IH]; intros done d d' H k; cbn [make_dirs] in H.
  - inversion H. apply kept_entry_refl.
  - destruct (d !! (done ++ [seg])) as [[data |] |] eqn:E; [discriminate | eapply IH; eassumption |].
    eapply kept_entry_trans; [| eapply IH; exact H].
    destruct (decide (k = done ++ [seg])) as [-> | N].
    + right. now rewrite lookup_insert_eq.
    + left. now rewrite lookup_insert_ne.
Qed.

(** They are made along the path only: a longer path is not touched. *)
Lemma make_dirs_deep todo : forall done d d',
  make_dirs done todo d = Some d' ->
  forall k, (length done + length todo < length k)%nat -> d' !! k = d !! k.
Proof.
  induction todo as [| seg rest IH]; intros done d d' H k Hlen; cbn [make_dirs] in H.
  - now inversion H.
  - cbn [length] in Hlen.
    assert (Hlen' : (length (done ++ [seg]) + length rest < length k)%nat).
    { rewrite length_app. cbn. lia. }
    destruct (d !! (done ++ [seg])) as [[data |] |] eqn:E; [discriminate | eapply IH; eassumption |].
    rewrite (IH _ _ _ H k Hlen'). apply lookup_insert_ne.
    intros <-. rewrite length_app in Hlen. cbn in Hlen. lia.
Qed.

(** Every directory along the path is there afterwards. *)
Lemma make_dirs_along todo : forall done d d',
  make_dirs done todo d = Some d' ->
  forall n, (0 < n <= length todo)%nat -> d' !! (done ++ take n todo) = Some Dir.
Proof.
  induction todo as [| seg rest IH]; intros done d d' H n Hn; cbn [length] in Hn; [lia |].
  cbn [make_dirs] in H.
  assert (Hhere : forall d0, d0 !! (done ++ [seg]) = Some Dir ->
                    make_dirs (done ++ [seg]) rest d0 = Some d' ->
                    d' !! (done ++ take n (seg :: rest)) = Some Dir).
  { intros d0 Hd0 Hrun. destruct n as [| n]; [lia |]. cbn [take]. destruct n as [| n].
    - rewrite take_0. destruct (make_dirs_kept _ _ _ _ Hrun (done ++ [seg])) as [E | [E _]];
        congruence.
    - replace (done ++ seg :: take (S n) rest) with ((done ++ [seg]) ++ take (S n) rest)
        by now rewrite <- app_assoc.
      eapply IH; [exact Hrun | lia]. }
  destruct (d !! (done ++ [seg])) as [[data |] |] eqn:E; [discriminate | |].
  - eapply Hhere; eauto.
  - eapply Hhere; [| exact H]. now rewrite lookup_insert_eq.
Qed.

(** On a disk that has them all, nothing is made. *)
Lemma make_dirs_present todo : forall done d,
  (forall n, (0 < n <= length todo)%nat -> d !! (done ++ take n todo) = Some Dir) ->
  make_dirs done todo d = Some d.
Proof.
  induction todo as [| seg rest IH]; intros done d H; [reflexivity |].
  cbn [make_dirs].
  assert (H1 : d !! (done ++ [seg]) = Some Dir).
  { apply (H 1%nat). cbn. lia. }
  rewrite H1. apply IH. intros n Hn.
  replace ((done ++ [seg]) ++ take n rest) with (done ++ take (S n) (seg :: rest))
    by (cbn [take]; now rewrite <- app_assoc).
  apply H. cbn. lia.
Qed.

(** ** Directory listings *)

Lemma parent_snoc k x : parent (k ++ [x]) = k.
Proof. apply removelast_last. Qed.

Lemma elem_of_children d k x :
  x ∈ children d k <-> is_Some (d !! (k ++ [x])).
Proof.
  unfold children. rewrite list_elem_of_omap. split.
  - intros ([k' v] & Hin & Hf). apply elem_of_map_to_list in Hin.
    destruct k' as [| s k'']; [discriminate |].
    destruct (decide (parent (s :: k'') = k)) as [Hp |]; [| discriminate].
    assert (Hx : List.last (s :: k'') "" = x) by congruence. clear Hf. exists v.
    assert (E : s :: k'' = parent (s :: k'') ++ [List.last (s :: k'') ""]).
    { apply app_removelast_last. discriminate. }
    rewrite Hp, Hx in E. now rewrite <- E.
  - intros (v & Hv). exists (k ++ [x], v). split; [now apply elem_of_map_to_list |].
    destruct (k ++ [x]) as [| s k''] eqn:E; [destruct k; discriminate |].
    rewrite <- E, parent_snoc. destruct (decide (k = k)); [| contradiction].
    now rewrite last_last.
Qed.

Lemma elem_of_token_numbers files z :
  z ∈ token_numbers files
  <-> exists file, file ∈ files /\ endsWith file ".png" = true
                   /\ parseInt (replace_first ".png" "" file) = Num z.
Proof.
  unfold token_numbers. rewrite list_elem_of_omap. split.
  - intros (file & Hin & Hf). apply list_elem_of_filter in Hin as [Hpng Hin].
    exists file. split; [exact Hin |]. split; [exact Hpng |].
    destruct (parseInt _); inversion Hf. reflexivity.
  - intros (file & Hin & Hpng & Hparse). exists file. split.
    + apply list_elem_of_filter. split; assumption.
    + now rewrite Hparse.
Qed.


(** ** Further properties of the generator *)

(** X1. What [getImagesForLayer] does is decided by what the layer's folder
    is.  A folder that is not there gives no image, one warning on the
    console and no error.  A path that names a regular file makes the call
    throw the [ENOTDIR] error of the directory scan.  A directory gives one
    image per entry whose name ends in [.png] whatever the case of the
    letters, in the order of the listing and with nothing printed: each
    carries the layer's name, the path of the entry under the folder, and as
    trait the entry's name less its extension. *)
Theorem getImagesForLayer_by_kind_of_folder layer w :
  let folder := LayerConfig.folder layer in
  match lookup_node (disk w) (resolve (cwd w) folder) with
  | None =>
      getImagesForLayer layer w
      = (Return [],
         with_console (console w ++ [(LOG, "Warning: Folder does not exist: " +:+ folder)]) w)
  | Some (File _) =>
      getImagesForLayer layer w = (Throw (SystemError "ENOTDIR" "scandir" folder), w)
  | Some Dir =>
      exists images,
        getImagesForLayer layer w = (Return images, w)
        /\ Forall2 (fun file image =>
                      LayerAttribute.name image = LayerConfig.name layer
                      /\ LayerAttribute.path image = path_join [folder; file]
                      /\ exists ext, file = LayerAttribute.trait image +:+ ext
                                     /\ toLowerCase ext = ".png")
             (filter (fun file => is_png_name file = true)
                (children (disk w) (resolve (cwd w) folder)))
             images
  end.
Proof.
  intros folder. unfold getImagesForLayer, bind, existsSync, readdirSync. fold folder.
  destruct (lookup_node (disk w) (resolve (cwd w) folder)) as [[data |] |] eqn:E.
  - rewrite bool_decide_eq_true_2 by (now eexists). cbn [negb]. now rewrite E.
  - rewrite bool_decide_eq_true_2 by (now eexists). cbn [negb]. rewrite E.
    eexists. split; [reflexivity |].
    change (fun file => endsWith (toLowerCase file) ".png" = true)
      with (fun file => is_png_name file = true).
    apply Forall2_fmap_r, Forall_Forall2_diag, Forall_forall.
    intros file Hin. apply list_elem_of_filter in Hin as [Hpng _].
    cbn [LayerAttribute.name LayerAttribute.path LayerAttribute.trait].
    split; [reflexivity |]. split; [reflexivity |]. now apply strip_extension_png.
  - rewrite bool_decide_eq_false_2 by (intros [x Hx]; discriminate). reflexivity.
Qed.

Lemma scan_unreadable d wd layer :
  scan d wd layer = None <->
  exists data, lookup_node d (resolve wd (LayerConfig.folder layer)) = Some (File data).
Proof.
  unfold scan. destruct (lookup_node d _) as [[data |] |]; split;
    try discriminate; try (intros (x & Hx); discriminate); eauto.
Qed.

Lemma getImagesForLayer_unreadable layer w :
  scan (disk w) (cwd w) layer = None ->
  getImagesForLayer layer w
  = (Throw (SystemError "ENOTDIR" "scandir" (LayerConfig.folder layer)), w).
Proof.
  intros H. apply scan_unreadable in H as (data & H).
  unfold getImagesForLayer, bind, existsSync, readdirSync. rewrite H.
  rewrite bool_decide_eq_true_2 by (now eexists). cbn [negb]. now rewrite H.
Qed.

(** Whatever its outcome, the loop over the layers changes the console and
    the count of random values only. *)
Lemma combine_layers_quiet todo : forall acc w r w',
  combine_layers todo acc w = (r, w') -> quiet w w'.
Proof.
  induction todo as [| layer rest IH]; intros acc w r w' H; cbn [combine_layers] in H.
  - inversion H. apply quiet_refl.
  - unfold bind in H at 1. pose proof (getImagesForLayer_spec layer w) as S.
    destruct (scan (disk w) (cwd w) layer) as [files |].
    2:{ destruct S as [e He]. rewrite He in H. inversion H. apply quiet_refl. }
    destruct S as (w1 & Hget & Hq1 & _). rewrite Hget in H.
    destruct (images_of layer files) as [| first others].
    + destruct (LayerConfig.required layer).
      * inversion H; subst. exact Hq1.
      * eapply quiet_trans; [exact Hq1 | eapply IH; exact H].
    + unfold bind in H at 1. unfold random_index in H.
      apply IH in H. eapply quiet_trans; [exact Hq1 |].
      eapply quiet_trans; [| exact H]. repeat split.
Qed.

Lemma combine_layers_unreadable pre : forall acc w layer post,
  scan (disk w) (cwd w) layer = None ->
  exists e w',
    combine_layers (pre ++ layer :: post) acc w = (Throw e, w') /\ quiet w w'
    /\ (Forall (fun l => exists files, scan (disk w) (cwd w) l = Some files
                                       /\ (files = [] -> LayerConfig.required l = false)) pre ->
        e = SystemError "ENOTDIR" "scandir" (LayerConfig.folder layer)).
Proof.
  induction pre as [| l pre IH]; intros acc w layer post Hscan; cbn [app combine_layers].
  - unfold bind at 1. rewrite (getImagesForLayer_unreadable layer w Hscan).
    eexists _, _. split; [reflexivity |]. split; [apply quiet_refl | reflexivity].
  - unfold bind at 1. pose proof (getImagesForLayer_spec l w) as S.
    destruct (scan (disk w) (cwd w) l) as [files |] eqn:El.
    2:{ destruct S as [e He]. rewrite He. eexists _, _. split; [reflexivity |].
        split; [apply quiet_refl |]. intros HF. inversion HF as [| ? ? (files & Hf & _) _]; subst.
        congruence. }
    destruct S as (w1 & Hget & Hq1 & _). rewrite Hget.
    assert (Hscan1 : forall x, scan (disk w1) (cwd w1) x = scan (disk w) (cwd w) x).
    { intros x. now apply quiet_scan. }
    destruct files as [| f files'].
    + cbn [images_of map]. destruct (LayerConfig.required l) eqn:Ereq.
      * eexists _, _. split; [reflexivity |]. split; [exact Hq1 |].
        intros HF. inversion HF as [| ? ? (files & Hf & Hopt) _]; subst.
        rewrite El in Hf. inversion Hf; subst files. specialize (Hopt eq_refl). congruence.
      * destruct (IH acc w1 layer post) as (e & w' & Hrun & Hq & He).
        { now rewrite Hscan1. }
        exists e, w'. split; [exact Hrun |]. split; [eapply quiet_trans; eauto |].
        intros HF. apply He. inversion HF; subst.
        eapply Forall_impl; [eassumption |]. intros x Hx. now rewrite Hscan1.
    + cbn [images_of map]. unfold bind at 1. unfold random_index at 1.
      match goal with
      | |- context [combine_layers _ ?acc' ?w2] =>
          destruct (IH acc' w2 layer post) as (e & w' & Hrun & Hq & He)
      end.
      { cbn [with_drawn disk cwd]. now rewrite Hscan1. }
      exists e, w'. split; [exact Hrun |]. split.
      { eapply quiet_trans; [exact Hq1 |]. eapply quiet_trans; [| exact Hq]. repeat split. }
      intros HF. apply He. inversion HF; subst.
      eapply Forall_impl; [eassumption |]. intros x Hx. cbn [with_drawn disk cwd].
      now rewrite Hscan1.
Qed.

(** X2. A layer whose folder path names a regular file makes
    [createRandomCombination] throw, whether the layer is required or not:
    only a folder that is absent or without images is passed over for an
    optional layer.  When no layer before it fails, the error is the
    [ENOTDIR] error of the scan of that folder.  Nothing but the console and
    the random source is touched. *)
Theorem layer_folder_held_by_a_file_aborts config w before layer after data :
  NFTConfig.layers config = before ++ layer :: after ->
  lookup_node (disk w) (resolve (cwd w) (LayerConfig.folder layer)) = Some (File data) ->
  exists e w',
    createRandomCombination config w = (Throw e, w') /\ quiet w w'
    /\ (Forall (fun l => exists files, scan (disk w) (cwd w) l = Some files
                                       /\ (files = [] -> LayerConfig.required l = false))
          before ->
        e = SystemError "ENOTDIR" "scandir" (LayerConfig.folder layer)).
Proof.
  intros Hlayers Hfile. unfold createRandomCombination. rewrite Hlayers.
  apply combine_layers_unreadable. apply scan_unreadable. eauto.
Qed.

Lemma layer_folder_held_by_a_file_aborts_witness :
  exists w',
    createRandomCombination DEFAULT_CONFIG demo_world_blocked
    = (Throw (SystemError "ENOTDIR" "scandir" "./public/assets/layers/subjects"), w').
Proof.
  destruct (layer_folder_held_by_a_file_aborts DEFAULT_CONFIG demo_world_blocked
              [background_layer] subject_layer [] "not a folder" eq_refl
              ltac:(vm_compute; reflexivity)) as (e & w' & Hrun & _ & He).
  exists w'. rewrite Hrun, He; [reflexivity |].
  constructor; [| constructor]. exists ["blue.png"].
  split; [vm_compute; reflexivity | discriminate].
Defined.

(** The index computed from a value of the random source is inside the
    array. *)
Lemma index_of_lt r n : (0 < n)%nat -> (index_of r n < n)%nat.
Proof.
  intros Hn. unfold index_of. destruct r as [r Hr]. cbn [draw_value].
  unfold in_unit in Hr. apply andb_prop in Hr as [H0 H1].
  apply Qle_bool_iff in H0.
  assert (H1' : (r < 1)%Q).
  { apply Qnot_le_lt. intros Hle. apply Qle_bool_iff in Hle. rewrite Hle in H1. discriminate. }
  set (q := (r * inject_Z (Z.of_nat n))%Q).
  assert (Hq0 : (0 <= q)%Q).
  { unfold q. apply Qmult_le_0_compat; [exact H0 |].
    change 0%Q with (inject_Z 0). rewrite <- Zle_Qle. lia. }
  assert (Hq1 : (q < inject_Z (Z.of_nat n))%Q).
  { unfold q. rewrite <- (Qmult_1_l (inject_Z (Z.of_nat n))) at 2.
    apply Qmult_lt_compat_r; [| exact H1'].
    change 0%Q with (inject_Z 0). rewrite <- Zlt_Qlt. lia. }
  assert (Hlo : 0 <= Qfloor q).
  { change 0 with (Qfloor (inject_Z 0)). apply Qfloor_resp_le. exact Hq0. }
  assert (Hhi : Qfloor q < Z.of_nat n).
  { rewrite Zlt_Qlt. eapply Qle_lt_trans; [apply Qfloor_le | exact Hq1]. }
  lia.
Qed.

(** The images picked by the loop over the layers, from the values of the
    random source. *)
Lemma combine_layers_picks todo : forall acc w res w',
  combine_layers todo acc w = (Return res, w') ->
  drawn w'
  = (drawn w + length (filter (fun l => contributes (disk w) (cwd w) l = true) todo))%nat
  /\ length res
     = (length acc + length (filter (fun l => contributes (disk w) (cwd w) l = true) todo))%nat
  /\ forall before layer after files,
       todo = before ++ layer :: after ->
       scan (disk w) (cwd w) layer = Some files -> files <> [] ->
       res !! (length acc
               + length (filter (fun l => contributes (disk w) (cwd w) l = true) before))%nat
       = images_of layer files
           !! index_of (randoms w (drawn w
                                   + length (filter (fun l => contributes (disk w) (cwd w) l = true)
                                               before))%nat)
                (length files).
Proof.
  induction todo as [| l rest IH]; intros acc w res w' H.
  - cbn in H. inversion H; subst. cbn. rewrite !Nat.add_0_r. repeat split.
    intros [| ? ?] ? ? ? E; discriminate.
  - cbn [combine_layers] in H. unfold bind in H at 1.
    pose proof (getImagesForLayer_spec l w) as S.
    destruct (scan (disk w) (cwd w) l) as [files0 |] eqn:El.
    2:{ destruct S as [e He]. rewrite He in H. discriminate. }
    destruct S as (w1 & Hget & Hq1 & Hd1). rewrite Hget in H.
    assert (Hdisk : disk w1 = disk w) by apply Hq1.
    assert (Hcwd : cwd w1 = cwd w) by apply Hq1.
    assert (Hrand : randoms w1 = randoms w) by apply Hq1.
    destruct files0 as [| f files'].
    + cbn [images_of map] in H. destruct (LayerConfig.required l); [discriminate |].
      apply IH in H as (Hdr & Hlen & Hpick).
      rewrite Hdisk, Hcwd, Hrand, Hd1 in *.
      rewrite filter_cons_False by (unfold contributes; rewrite El; discriminate).
      split; [exact Hdr |]. split; [exact Hlen |].
      intros before layer after files Htodo Hscan Hne.
      destruct before as [| b before'].
      * cbn [app] in Htodo. inversion Htodo; subst. congruence.
      * cbn [app] in Htodo. inversion Htodo; subst.
        rewrite filter_cons_False by (unfold contributes; rewrite El; discriminate).
        now apply (Hpick before' layer after files).
    + assert (Hlt : (index_of (randoms w1 (drawn w1)) (length (images_of l (f :: files')))
                     < length (images_of l (f :: files')))%nat).
      { apply index_of_lt. cbn. lia. }
      set (images := images_of l (f :: files')) in *.
      assert (Himages : exists first others, images = first :: others) by (cbn; eauto).
      destruct Himages as (first & others & Eimages). rewrite Eimages in H. rewrite <- Eimages in H.
      unfold bind in H at 1. unfold random_index in H at 1.
      fold (index_of (randoms w1 (drawn w1)) (length images)) in H.
      set (i := index_of (randoms w1 (drawn w1)) (length images)) in *.
      pose proof H as Hret. apply combine_layers_Return in Hret as (_ & picks & Hres & _).
      apply IH in H as (Hdr & Hlen & Hpick).
      cbn [with_drawn disk cwd randoms drawn] in Hdr, Hlen, Hpick.
      rewrite Hdisk, Hcwd, Hrand, Hd1 in *.
      rewrite filter_cons_True by (unfold contributes; now rewrite El).
      rewrite length_app in Hlen. cbn [length] in *.
      split; [lia |]. split; [lia |].
      intros before layer after files Htodo Hscan Hne.
      destruct before as [| b before'].
      * cbn [app] in Htodo. inversion Htodo; subst.
        rewrite El in Hscan. inversion Hscan; subst files.
        cbn [filter length]. rewrite !Nat.add_0_r.
        rewrite <- app_assoc. cbn [app]. rewrite list_lookup_middle by reflexivity.
        fold images. subst i.
        assert (Elen : length images = S (length files')).
        { unfold images, images_of. now rewrite length_map. }
        rewrite Hrand, Hd1 in *. rewrite <- Elen.
        destruct (lookup_lt_is_Some_2 images _ Hlt) as (x & Hx).
        rewrite Hx. f_equal. now apply nth_lookup_Some.
      * cbn [app] in Htodo. inversion Htodo; subst.
        rewrite filter_cons_True by (unfold contributes; now rewrite El).
        cbn [length].
        specialize (Hpick before' layer after files eq_refl Hscan Hne).
        rewrite length_app in Hpick. cbn [length] in Hpick.
        replace (length acc + S (length (filter (fun l0 => contributes (disk w) (cwd w) l0 = true)
                                           before')))%nat
          with (length acc + 1
                + length (filter (fun l0 => contributes (disk w) (cwd w) l0 = true) before'))%nat
          by lia.
        rewrite Hpick. f_equal. f_equal. f_equal. lia.
Qed.

Section Picks.

(** X3. The image [createRandomCombination] selects for a layer is the one
    at index [Math.floor(r * n)] of the layer's [n] images, in the order of
    the folder listing, where [r] is the value the random source gives for
    that layer: the layers that offer images take one value each, in
    configured order, and the others take none.  This is stated for a
    product [r * n] that lies more than [n / 2^53] below the next integer,
    where the rounding of the product in double arithmetic cannot change
    its floor.  The index is inside the list, so the selected image is
    never undefined, and a returned combination has used as many random
    values as it holds images. *)
Theorem selected_image_follows_the_random_value config w before layer after files
    attributes w' :
  NFTConfig.layers config = before ++ layer :: after ->
  scan (disk w) (cwd w) layer = Some files -> files <> [] ->
  createRandomCombination config w = (Return attributes, w') ->
  let place := length (filter (fun l => contributes (disk w) (cwd w) l = true) before) in
  clear_of_rounding (randoms w (drawn w + place)%nat) (length files) ->
  let i := index_of (randoms w (drawn w + place)%nat) (length files) in
  (i < length files)%nat
  /\ (exists file,
        files !! i = Some file
        /\ attributes !! place
           = Some (LayerAttribute.mk (LayerConfig.name layer) (strip_extension file)
                     (path_join [LayerConfig.folder layer; file])))
  /\ drawn w' = (drawn w + length attributes)%nat.
Proof.
  intros Hlayers Hscan Hne Hrun place _ i.
  unfold createRandomCombination in Hrun.
  apply combine_layers_picks in Hrun as (Hdr & Hlen & Hpick).
  assert (Hlt : (i < length files)%nat).
  { apply index_of_lt. destruct files; [contradiction | cbn; lia]. }
  split; [exact Hlt |]. split.
  - destruct (lookup_lt_is_Some_2 files i Hlt) as (file & Hfile).
    exists file. split; [exact Hfile |].
    specialize (Hpick before layer after files Hlayers Hscan Hne).
    cbn [length] in Hpick. rewrite Nat.add_0_l in Hpick. fold place i in Hpick.
    rewrite Hpick. unfold images_of. rewrite list_lookup_fmap, Hfile. reflexivity.
  - cbn [length] in Hlen. rewrite Nat.add_0_l in Hlen. now rewrite Hlen.
Qed.

End Picks.

Lemma selected_image_follows_the_random_value_witness :
  match fst (createRandomCombination DEFAULT_CONFIG demo_world_pair) with
  | Return attributes => attributes !! 1%nat
  | Throw _ => None
  end
  = Some (LayerAttribute.mk "Subject" "dog" "public/assets/layers/subjects/dog.png")
  /\ drawn (snd (createRandomCombination DEFAULT_CONFIG demo_world_pair)) = 2%nat.
Proof.
  destruct (createRandomCombination DEFAULT_CONFIG demo_world_pair)
    as [[attributes | e] w'] eqn:E.
  - destruct (selected_image_follows_the_random_value DEFAULT_CONFIG demo_world_pair
                [background_layer] subject_layer [] ["cat.png"; "dog.png"] attributes w')
      as (_ & (file & Hfile & Hpick) & Hdrawn);
      [reflexivity | vm_compute; reflexivity | discriminate | exact E
      | vm_compute; reflexivity |].
    cbn [fst snd]. split.
    + replace (length (filter (fun l => contributes (disk demo_world_pair)
                                          (cwd demo_world_pair) l = true)
                         [background_layer])) with 1%nat in Hpick by (vm_compute; reflexivity).
      rewrite Hpick. vm_compute in Hfile. inversion Hfile; subst file. reflexivity.
    + rewrite Hdrawn. apply (f_equal fst) in E. cbn [fst] in E.
      assert (Hlen : match fst (createRandomCombination DEFAULT_CONFIG demo_world_pair) with
                     | Return attributes => length attributes
                     | Throw _ => 0%nat
                     end = 2%nat) by (vm_compute; reflexivity).
      rewrite E in Hlen. rewrite Hlen. reflexivity.
  - apply (f_equal fst) in E. vm_compute in E. discriminate.
Defined.

(** ** What the generator leaves alone *)

Section Frame.

Variable wd : string.
Variable keys : list (list string).

Lemma frame_quiet {A} (m : M A) :
  (forall w r w', m w = (r, w') -> quiet w w') -> preserves (only_writes wd keys) m.
Proof. intros H w r w' Hrun. apply only_writes_quiet. eapply H; eauto. Qed.

Lemma frame_console_write l text : preserves (only_writes wd keys) (console_write l text).
Proof. apply frame_quiet. intros w r w' H. inversion H. repeat split. Qed.

Lemma frame_existsSync p : preserves (only_writes wd keys) (existsSync p).
Proof. apply frame_quiet. intros w r w' H. inversion H. apply quiet_refl. Qed.

Lemma frame_readdirSync p : preserves (only_writes wd keys) (readdirSync p).
Proof.
  apply frame_quiet. intros w r w' H. unfold readdirSync in H.
  destruct (lookup_node _ _) as [[? |] |]; inversion H; apply quiet_refl.
Qed.

Lemma frame_readFileSync p : preserves (only_writes wd keys) (readFileSync p).
Proof.
  apply frame_quiet. intros w r w' H. unfold readFileSync in H.
  destruct (lookup_node _ _) as [[? |] |]; inversion H; apply quiet_refl.
Qed.

Lemma frame_now_iso : preserves (only_writes wd keys) now_iso.
Proof. apply frame_quiet. intros w r w' H. inversion H. apply quiet_refl. Qed.

Lemma frame_process_cwd : preserves (only_writes wd keys) process_cwd.
Proof. apply frame_quiet. intros w r w' H. inversion H. apply quiet_refl. Qed.

Lemma frame_random_index n : preserves (only_writes wd keys) (random_index n).
Proof. apply frame_quiet. intros w r w' H. inversion H. repeat split. Qed.

Lemma frame_env_or name fallback : preserves (only_writes wd keys) (env_or name fallback).
Proof. apply frame_quiet. intros w r w' H. inversion H. apply quiet_refl. Qed.

Lemma frame_ensureDirSync p : preserves (only_writes wd keys) (ensureDirSync p).
Proof.
  intros w r w' H _. unfold ensureDirSync in H.
  destruct (make_dirs [] (resolve (cwd w) p) (disk w)) as [d |] eqn:E.
  - inversion H; subst. split; [repeat split |]. intros k _. cbn [with_disk disk].
    eapply make_dirs_kept; eauto.
  - destruct (disk w !! _) as [[? |] |]; inversion H; subst;
      (split; [repeat split | intros; apply kept_entry_refl]).
Qed.

Lemma frame_writeFileSync p data :
  resolve wd p ∈ keys -> preserves (only_writes wd keys) (writeFileSync p data).
Proof.
  intros Hkey w r w' H Hwd. unfold writeFileSync in H. rewrite Hwd in H.
  destruct (resolve wd p) as [| seg k'] eqn:Ek.
  - inversion H. split; [repeat split | intros; apply kept_entry_refl].
  - destruct (lookup_node (disk w) (parent (seg :: k'))) as [[? |] |];
      destruct (lookup_node (disk w) (seg :: k')) as [[? |] |]; inversion H; subst;
      (split; [repeat split |]); intros k Hk; try apply kept_entry_refl;
      left; cbn [with_disk disk]; apply lookup_insert_ne; intros <-; contradiction.
Qed.

End Frame.

Ltac frame :=
  repeat first
    [ apply preserves_ret; apply only_writes_refl
    | apply preserves_throw; apply only_writes_refl
    | apply frame_console_write | apply frame_existsSync | apply frame_readdirSync
    | apply frame_readFileSync | apply frame_now_iso | apply frame_process_cwd
    | apply frame_random_index | apply frame_env_or | apply frame_ensureDirSync
    | apply preserves_bind; [apply only_writes_trans | | intros ?]
    | apply preserves_try; [apply only_writes_trans | | intros ?]
    | match goal with
      | |- preserves _ (if ?b then _ else _) => destruct b
      | |- preserves _ (match ?x with _ => _ end) => destruct x
      end ].

Section GeneratorFrame.

Variable png : codec.
Variable wd : string.
Variable keys : list (list string).

Lemma frame_getImagesForLayer layer : preserves (only_writes wd keys) (getImagesForLayer layer).
Proof. unfold getImagesForLayer, console_log. frame. Qed.

Lemma frame_combine_layers todo : forall acc,
  preserves (only_writes wd keys) (combine_layers todo acc).
Proof.
  induction todo as [| layer rest IH]; intros acc; cbn [combine_layers]; [frame |].
  apply preserves_bind; [apply only_writes_trans | apply frame_getImagesForLayer |].
  intros images. destruct images as [| first others].
  - destruct (LayerConfig.required layer); [frame | apply IH].
  - apply preserves_bind; [apply only_writes_trans | apply frame_random_index |].
    intros i. apply IH.
Qed.

Lemma frame_draw_layers attributes width height : forall ctx,
  preserves (only_writes wd keys) (draw_layers png attributes width height ctx).
Proof.
  induction attributes as [| layer rest IH]; intros ctx; cbn [draw_layers]; [frame |].
  apply preserves_bind; [apply only_writes_trans | | intros ctx'; apply IH].
  unfold loadImage, console_error. frame.
Qed.

Lemma frame_generateNFT tokenId config :
  resolve wd (image_path tokenId config) ∈ keys ->
  resolve wd (metadata_path tokenId config) ∈ keys ->
  preserves (only_writes wd keys) (generateNFT png tokenId config).
Proof.
  intros Himg Hmeta. unfold generateNFT, createRandomCombination, addTimestampToCanvas, console_log.
  fold (image_path tokenId config). fold (metadata_path tokenId config).
  repeat first
    [ apply frame_combine_layers | apply frame_draw_layers
    | apply frame_writeFileSync; assumption
    | apply preserves_ret; apply only_writes_refl
    | apply frame_console_write | apply frame_now_iso | apply frame_ensureDirSync
    | apply preserves_bind; [apply only_writes_trans | | intros ?] ].
Qed.

End GeneratorFrame.

Section GeneratorLeaves.

Variable png : codec.

(** X4. Whatever its outcome, a call of [generateNFT] writes at two paths
    only, the image and the metadata file of its token.  Every other entry
    of the disk is as it was, a layer image or a file of another token
    included, except that a directory may have appeared where nothing was
    (the output directories).  The object store, the environment and the
    working directory are not touched. *)
Theorem generateNFT_writes_only_its_two_files tokenId config w r w' :
  generateNFT png tokenId config w = (r, w') ->
  same_surroundings w w'
  /\ forall k,
       k <> resolve (cwd w) (image_path tokenId config) ->
       k <> resolve (cwd w) (metadata_path tokenId config) ->
       kept_entry (disk w) (disk w') k.
Proof.
  intros Hrun.
  destruct (frame_generateNFT png (cwd w)
              [resolve (cwd w) (image_path tokenId config);
               resolve (cwd w) (metadata_path tokenId config)] tokenId config
              ltac:(left) ltac:(right; left) w r w' Hrun eq_refl) as [Hsame Hkept].
  split; [exact Hsame |]. intros k H1 H2. apply Hkept.
  intros Hin. apply elem_of_cons in Hin as [-> | Hin]; [contradiction |].
  apply list_elem_of_singleton in Hin. contradiction.
Qed.

End GeneratorLeaves.

Lemma generateNFT_writes_only_its_two_files_witness :
  kept_entry (disk demo_world)
    (disk (snd (generateNFT demo_codec (Num 7) DEFAULT_CONFIG demo_world)))
    ["app"; "public"; "assets"; "layers"; "subjects"; "dog.png"]
  /\ store (snd (generateNFT demo_codec (Num 7) DEFAULT_CONFIG demo_world)) = store demo_world.
Proof.
  destruct (generateNFT_writes_only_its_two_files demo_codec (Num 7) DEFAULT_CONFIG demo_world
              (Return demo_generated)
              (snd (generateNFT demo_codec (Num 7) DEFAULT_CONFIG demo_world)) demo_run)
    as [Hsame Hkept].
  split.
  - apply Hkept; vm_compute; discriminate.
  - apply Hsame.
Defined.


(** ** Numbers in file names *)

Lemma digits_prefix_positive d : forall p rest,
  digits_prefix (Some (Z.pos p)) (NilEmpty.string_of_uint d +:+ rest)
  = digits_prefix (Some (Z.pos (Pos.of_uint_acc d p))) rest.
Proof.
  induction d; intros p rest; cbn [NilEmpty.string_of_uint Pos.of_uint_acc];
    rewrite ?append_cons, ?append_nil_l; try reflexivity;
    cbn [digits_prefix]; (change (is_digit _) with true); cbn iota; rewrite <- IHd;
    do 2 f_equal; cbn [default]; unfold digit_value, ascii_code; cbn; lia.
Qed.

Lemma digits_prefix_zero d : forall rest,
  digits_prefix (Some 0) (NilEmpty.string_of_uint d +:+ rest)
  = digits_prefix (Some (Z.of_N (Pos.of_uint d))) rest.
Proof.
  induction d; intros rest; cbn [NilEmpty.string_of_uint Pos.of_uint];
    rewrite ?append_cons, ?append_nil_l; try reflexivity;
    cbn [digits_prefix]; (change (is_digit _) with true); cbn iota;
    first [ rewrite <- IHd; reflexivity
          | cbn [Z.of_N]; rewrite <- digits_prefix_positive; reflexivity ].
Qed.

Lemma string_of_uint_head d :
  d <> Decimal.Nil ->
  exists c s, NilEmpty.string_of_uint d = String c s /\ is_digit c = true.
Proof. destruct d; intros H; [contradiction | ..]; cbn; eauto. Qed.

Lemma digits_prefix_start c s :
  is_digit c = true -> digits_prefix None (String c s) = digits_prefix (Some 0) (String c s).
Proof. intros H. cbn [digits_prefix]. now rewrite H. Qed.

Lemma to_uint_not_nil p : Pos.to_uint p <> Decimal.Nil.
Proof.
  intros E. pose proof (DecimalPos.Unsigned.of_to p) as H. rewrite E in H. discriminate.
Qed.

(** The digits of a positive number read back as that number, up to the
    first character that is not a digit. *)
Lemma digits_prefix_to_uint p rest :
  digits_prefix None rest = None ->
  digits_prefix None (NilEmpty.string_of_uint (Pos.to_uint p) +:+ rest) = Some (Z.pos p).
Proof.
  intros Hrest.
  destruct (string_of_uint_head (Pos.to_uint p) (to_uint_not_nil p)) as (c & s & E & Hc).
  pose proof (digits_prefix_zero (Pos.to_uint p) rest) as H.
  rewrite E, append_cons in *. rewrite digits_prefix_start by exact Hc. rewrite H.
  rewrite DecimalPos.Unsigned.of_to. cbn [Z.of_N].
  destruct rest as [| c' rest']; [reflexivity |].
  cbn [digits_prefix] in *. destruct (is_digit c'); [| reflexivity].
  exfalso. clear - Hrest. revert Hrest.
  generalize (10 * default 0 None + digit_value c'). intros z. revert z.
  induction rest' as [| x r IH]; intros z; cbn [digits_prefix]; [discriminate |].
  destruct (is_digit x); [apply IH | discriminate].
Qed.

Lemma trim_start_printable c s :
  (33 <= ascii_code c <= 127)%N -> trim_start (String c s) = String c s.
Proof.
  intros Hc. cbn [trim_start].
  assert (H1 : is_ws1 c = false).
  { unfold is_ws1. destruct (N.leb_spec 9 (ascii_code c)), (N.leb_spec (ascii_code c) 13),
      (N.eqb_spec (ascii_code c) 32); cbn; try reflexivity; lia. }
  rewrite H1. destruct s as [| c2 s2]; [reflexivity |].
  assert (H2 : is_ws2 c c2 = false).
  { unfold is_ws2. destruct (N.eqb_spec (ascii_code c) 194); [lia | reflexivity]. }
  rewrite H2. destruct s2 as [| c3 s3]; [reflexivity |].
  assert (H3 : is_ws3 c c2 c3 = false).
  { unfold is_ws3. cbv zeta.
    destruct (N.eqb_spec (ascii_code c) 225), (N.eqb_spec (ascii_code c) 226),
      (N.eqb_spec (ascii_code c) 227), (N.eqb_spec (ascii_code c) 239);
      first [lia | reflexivity]. }
  now rewrite H3.
Qed.

Lemma digit_printable c : is_digit c = true -> (33 <= ascii_code c <= 127)%N.
Proof.
  unfold is_digit. intros H. apply andb_prop in H as [A B].
  apply N.leb_le in A, B. lia.
Qed.

(** [parseInt] reads a printed integer back, whatever follows it that is
    not a digit. *)
Lemma parseInt_number_to_string z rest :
  digits_prefix None rest = None ->
  parseInt (number_to_string (Num z) +:+ rest) = Num z.
Proof.
  intros Hrest. unfold number_to_string, parseInt.
  destruct z as [| p | p]; cbn [Z.to_int NilZero.string_of_int].
  - change (NilZero.string_of_uint Decimal.zero) with "0".
    rewrite append_cons, append_nil_l.
    rewrite trim_start_printable by (cbn; lia).
    cbn [digits_prefix]. change (is_digit "0") with true. cbn iota.
    destruct rest as [| c' rest']; [reflexivity |].
    cbn [digits_prefix] in *. destruct (is_digit c'); [| reflexivity].
    exfalso. clear - Hrest. revert Hrest.
    generalize (10 * default 0 None + digit_value c'). intros z. revert z.
    induction rest' as [| x r IH]; intros z; cbn [digits_prefix]; [discriminate |].
    destruct (is_digit x); [apply IH | discriminate].
  - assert (E : NilZero.string_of_uint (Pos.to_uint p)
                = NilEmpty.string_of_uint (Pos.to_uint p)).
    { unfold NilZero.string_of_uint. pose proof (to_uint_not_nil p).
      destruct (Pos.to_uint p); [contradiction | ..]; reflexivity. }
    rewrite E.
    destruct (string_of_uint_head (Pos.to_uint p) (to_uint_not_nil p)) as (c & s & Es & Hc).
    pose proof (digits_prefix_to_uint p rest Hrest) as Hdigits.
    rewrite Es, append_cons in *.
    rewrite trim_start_printable by now apply digit_printable.
    assert (Hsign : c <> "-"%char /\ c <> "+"%char).
    { split; intros ->; discriminate. }
    destruct Hsign as [Hm Hp].
    destruct (Ascii.eqb_spec c "-"%char) as [-> | _]; [contradiction |].
    destruct (Ascii.eqb_spec c "+"%char) as [-> | _]; [contradiction |].
    assert (Hbody : (let '(neg, body) :=
                       match String c (s +:+ rest) with
                       | String "-"%char r => (true, r)
                       | String "+"%char r => (false, r)
                       | _ => (false, String c (s +:+ rest))
                       end in
                     match digits_prefix None body with
                     | Some z => Num (if neg then - z else z)
                     | None => NaN
                     end) = Num (Z.pos p)).
    { destruct c as [[] [] [] [] [] [] [] []]; try (rewrite Hdigits; reflexivity);
        contradiction. }
    exact Hbody.
  - assert (E : NilZero.string_of_uint (Pos.to_uint p)
                = NilEmpty.string_of_uint (Pos.to_uint p)).
    { unfold NilZero.string_of_uint. pose proof (to_uint_not_nil p).
      destruct (Pos.to_uint p); [contradiction | ..]; reflexivity. }
    rewrite E. rewrite append_cons.
    rewrite trim_start_printable by (cbn; lia).
    rewrite (digits_prefix_to_uint p rest Hrest). reflexivity.
Qed.

Lemma replace_first_suffix s :
  all_chars (fun c => negb (Ascii.eqb c "."%char)) s = true ->
  replace_first ".png" "" (s +:+ ".png") = s.
Proof.
  induction s as [| c s IH]; intros H; [reflexivity |].
  cbn [all_chars] in H. apply andb_prop in H as [Hc Hs]. apply negb_true_iff in Hc.
  rewrite append_cons. cbn [replace_first].
  assert (Hpre : String.prefix ".png" (String c (s +:+ ".png")) = false).
  { change (String.prefix ".png" (String c (s +:+ ".png")))
      with (if ascii_dec "." c then String.prefix "png" (s +:+ ".png") else false).
    destruct (ascii_dec "." c) as [<- |]; [| reflexivity]. discriminate. }
  rewrite Hpre. now rewrite IH.
Qed.

Lemma number_char_not_dot c : number_char c = true -> negb (Ascii.eqb c "."%char) = true.
Proof.
  destruct (Ascii.eqb_spec c "."%char) as [-> |]; [discriminate | reflexivity].
Qed.

Lemma token_file_parses z :
  endsWith (number_to_string (Num z) +:+ ".png") ".png" = true
  /\ parseInt (replace_first ".png" "" (number_to_string (Num z) +:+ ".png")) = Num z.
Proof.
  split; [now apply endsWith_append |].
  rewrite replace_first_suffix.
  - rewrite <- (append_nil_r (number_to_string (Num z))).
    now apply parseInt_number_to_string.
  - eapply all_chars_impl; [apply number_char_not_dot | apply number_to_string_chars].
Qed.

(** X5. The name [generateNFT] gives the image file of a token, the printed
    number followed by [.png], is read back by the filter and [parseInt] of
    [getLastNFTNumber] as that token number, for every safe integer (the
    integers strictly between -2^53 and 2^53, which the program prints in
    full decimal digits), zero and the negative ones included. *)
Theorem token_file_name_reads_back_as_its_number z :
  safe_integer z ->
  nft_numbers [number_to_string (Num z) +:+ ".png"] = [Num z].
Proof.
  intros _. destruct (token_file_parses z) as [Hends Hparse].
  unfold nft_numbers. rewrite filter_cons_True by exact Hends.
  rewrite filter_nil. cbn [map]. rewrite Hparse.
  now rewrite filter_cons_True by reflexivity.
Qed.

Lemma token_file_name_reads_back_as_its_number_witness :
  nft_numbers ["-12.png"] = [Num (-12)].
Proof.
  apply (token_file_name_reads_back_as_its_number (-12)). unfold safe_integer. lia.
Defined.


(** ** The last token number after a generation *)

Lemma with_disk_same w : with_disk (disk w) w = w.
Proof. now destruct w. Qed.

(** The run of [getLastNFTNumber] when the image directory can be made. *)
Lemma getLastNFTNumber_run outputDir w d :
  make_dirs [] (resolve (cwd w) (path_join [outputDir; "images"])) (disk w) = Some d ->
  let numbers :=
    token_numbers (children d (resolve (cwd w) (path_join [outputDir; "images"]))) in
  exists n,
    getLastNFTNumber outputDir w = (Return (Num n), with_disk d w)
    /\ (numbers = [] -> n = 0)
    /\ (numbers <> [] -> n ∈ numbers /\ forall m, m ∈ numbers -> m <= n).
Proof.
  intros Edirs numbers.
  unfold getLastNFTNumber, try_catch. unfold bind at 1. unfold ensureDirSync. rewrite Edirs.
  unfold bind at 1. unfold readdirSync. cbn [with_disk cwd disk].
  rewrite (make_dirs_lookup_node _ _ _ Edirs). rewrite nft_numbers_values. fold numbers.
  destruct numbers as [| first rest] eqn:Enum.
  - cbn [map ret]. exists 0. split; [reflexivity |]. split; [reflexivity | congruence].
  - cbn [map ret]. destruct (Math_max_values rest first) as (n & Hn & Hin & Hmax).
    rewrite Hn. exists n. split; [reflexivity |]. split; [discriminate | auto].
Qed.

Lemma images_and_metadata_dirs wd config tokenId :
  let base := resolve wd (path_join [NFTConfig.outputDir config]) in
  resolve wd (path_join [NFTConfig.outputDir config; "images"]) = base ++ ["images"]
  /\ resolve wd (path_join [NFTConfig.outputDir config; "metadata"]) = base ++ ["metadata"]
  /\ resolve wd (image_path tokenId config)
     = base ++ ["images"; number_to_string tokenId +:+ ".png"]
  /\ resolve wd (metadata_path tokenId config)
     = base ++ ["metadata"; number_to_string tokenId +:+ ".json"].
Proof.
  intros base. unfold image_path, metadata_path.
  assert (Hi : resolve wd (path_join [NFTConfig.outputDir config; "images"])
               = base ++ ["images"]).
  { apply (resolve_path_join_snoc wd [NFTConfig.outputDir config] "images"). reflexivity. }
  assert (Hm : resolve wd (path_join [NFTConfig.outputDir config; "metadata"])
               = base ++ ["metadata"]).
  { apply (resolve_path_join_snoc wd [NFTConfig.outputDir config] "metadata"). reflexivity. }
  split; [exact Hi |]. split; [exact Hm |]. split.
  - change [NFTConfig.outputDir config; "images"; number_to_string tokenId +:+ ".png"]
      with ([NFTConfig.outputDir config; "images"] ++ [number_to_string tokenId +:+ ".png"]).
    rewrite (resolve_path_join_snoc wd [NFTConfig.outputDir config; "images"]
               (number_to_string tokenId +:+ ".png"))
      by (apply token_file_plain; [cbn; lia | reflexivity]).
    rewrite Hi. now rewrite <- app_assoc.
  - change [NFTConfig.outputDir config; "metadata"; number_to_string tokenId +:+ ".json"]
      with ([NFTConfig.outputDir config; "metadata"]
            ++ [number_to_string tokenId +:+ ".json"]).
    rewrite (resolve_path_join_snoc wd [NFTConfig.outputDir config; "metadata"]
               (number_to_string tokenId +:+ ".json"))
      by (apply token_file_plain; [cbn; lia | reflexivity]).
    rewrite Hm. now rewrite <- app_assoc.
Qed.

(** The image directory once the two files of a token are on the disk that
    has the output directories: nothing is left to make on the way to it,
    and its entries are those that were there and the image of the token. *)
Lemma listing_after_write tokenId config w d bytes text :
  output_dirs config w = Some d ->
  let k := resolve (cwd w) (path_join [NFTConfig.outputDir config; "images"]) in
  let d2 :=
    <[resolve (cwd w) (metadata_path tokenId config) := File text]>
      (<[resolve (cwd w) (image_path tokenId config) := File bytes]> d) in
  make_dirs [] k d2 = Some d2
  /\ forall file,
       file ∈ children d2 k
       <-> file = number_to_string tokenId +:+ ".png" \/ file ∈ children (disk w) k.
Proof.
  intros Hdirs k d2.
  destruct (images_and_metadata_dirs (cwd w) config tokenId) as (Hi & Hm & Himg & Hmeta).
  cbv zeta in Hi, Hm, Himg, Hmeta.
  set (base := resolve (cwd w) (path_join [NFTConfig.outputDir config])) in *.
  fold k in Hi. unfold d2. rewrite Himg, Hmeta. clear d2.
  unfold output_dirs in Hdirs. fold k in Hdirs. rewrite Hm in Hdirs.
  destruct (make_dirs [] k (disk w)) as [d1 |] eqn:E1; [| discriminate].
  assert (Hprefix : forall n, (0 < n <= length k)%nat ->
            <[base ++ ["metadata"; number_to_string tokenId +:+ ".json"] := File text]>
              (<[base ++ ["images"; number_to_string tokenId +:+ ".png"] := File bytes]> d)
            !! take n k = Some Dir).
  { intros n Hn.
    assert (Hlen : forall x y, base ++ [x; y] <> take n k).
    { intros x y E. apply (f_equal (@length string)) in E.
      rewrite length_take, Hi, !length_app in E. cbn in E. lia. }
    rewrite !lookup_insert_ne by apply Hlen.
    pose proof (make_dirs_along k [] (disk w) d1 E1 n Hn) as H1. cbn [app] in H1.
    destruct (make_dirs_kept _ _ _ _ Hdirs (take n k)) as [E | [E _]]; congruence. }
  split.
  - apply make_dirs_present. exact Hprefix.
  - intros file. rewrite !elem_of_children.
    assert (Hdeep : forall x, d !! (k ++ [x]) = disk w !! (k ++ [x])).
    { intros x.
      rewrite (make_dirs_deep _ _ _ _ Hdirs) by (rewrite Hi, !length_app; cbn; lia).
      apply (make_dirs_deep _ _ _ _ E1). rewrite length_app. cbn. lia. }
    rewrite Hi.
    rewrite lookup_insert_ne.
    2:{ intros E. rewrite <- !app_assoc in E. apply app_inv_head in E. discriminate. }
    destruct (decide (file = number_to_string tokenId +:+ ".png")) as [-> | Hne].
    + replace ((base ++ ["images"]) ++ [number_to_string tokenId +:+ ".png"])
        with (base ++ ["images"; number_to_string tokenId +:+ ".png"])
        by now rewrite <- app_assoc.
      rewrite lookup_insert_eq. split; [now left | eauto].
    + rewrite lookup_insert_ne.
      2:{ intros E. rewrite <- !app_assoc in E. apply app_inv_head in E.
          inversion E. congruence. }
      rewrite <- Hi, Hdeep. split; [now right | intros [? | ?]; [contradiction | assumption]].
Qed.

(** The number [getLastNFTNumber] returns once the two files of the token
    [z] are on the disk. *)
Lemma last_number_after_write z config w d bytes text w2 :
  output_dirs config w = Some d ->
  cwd w2 = cwd w ->
  disk w2
  = <[resolve (cwd w) (metadata_path (Num z) config) := File text]>
      (<[resolve (cwd w) (image_path (Num z) config) := File bytes]> d) ->
  exists n,
    getLastNFTNumber (NFTConfig.outputDir config) w2 = (Return (Num n), w2)
    /\ z <= n
    /\ ((forall m,
           m ∈ token_numbers
                 (children (disk w)
                    (resolve (cwd w) (path_join [NFTConfig.outputDir config; "images"]))) ->
           m <= z) ->
        n = z).
Proof.
  intros Hout Hcwd Hdisk.
  destruct (listing_after_write (Num z) config w d bytes text Hout) as (Hdirs & Hlist).
  cbv zeta in Hdirs, Hlist. rewrite <- Hdisk in Hdirs, Hlist. rewrite <- Hcwd in Hdirs.
  destruct (getLastNFTNumber_run (NFTConfig.outputDir config) w2 (disk w2) Hdirs)
    as (n & Hlast & _ & Hmax).
  rewrite with_disk_same in Hlast. rewrite Hcwd in Hmax.
  set (k := resolve (cwd w) (path_join [NFTConfig.outputDir config; "images"])) in *.
  destruct (token_file_parses z) as [Hends Hparse].
  assert (Hz : z ∈ token_numbers (children (disk w2) k)).
  { apply elem_of_token_numbers. exists (number_to_string (Num z) +:+ ".png").
    split; [apply Hlist; now left |]. split; assumption. }
  destruct Hmax as [Hin Hle].
  { intros E. rewrite E in Hz. now apply elem_of_nil in Hz. }
  exists n. split; [exact Hlast |]. split; [now apply Hle |].
  intros Hbefore. apply Z.le_antisymm; [| now apply Hle].
  apply elem_of_token_numbers in Hin as (file & Hfile & Hpng & Hnum).
  apply Hlist in Hfile as [-> | Hold].
  - rewrite Hparse in Hnum. inversion Hnum. lia.
  - apply Hbefore. apply elem_of_token_numbers. eauto.
Qed.

Section LastNumber.

Variable png : codec.

(** X6. After [generateNFT] has returned for the token [z] of a
    configuration, [z] a safe integer (strictly between -2^53 and 2^53),
    [getLastNFTNumber] on that configuration's output directory finds the
    image it wrote: it creates nothing, and the number it returns is at
    least [z], and is [z] itself when no number read off the image
    directory before the generation was larger. *)
Theorem last_number_counts_the_generated_token z config w g w1 :
  safe_integer z ->
  generateNFT png (Num z) config w = (Return g, w1) ->
  exists n,
    getLastNFTNumber (NFTConfig.outputDir config) w1 = (Return (Num n), w1)
    /\ z <= n
    /\ ((forall m,
           m ∈ token_numbers
                 (children (disk w)
                    (resolve (cwd w) (path_join [NFTConfig.outputDir config; "images"]))) ->
           m <= z) ->
        n = z).
Proof.
  intros _ Hrun.
  apply generateNFT_Return_inv in Hrun
    as (d & attributes & w2 & Hdirs & _ & _ & _ & Hdisk & Hcwd).
  eapply last_number_after_write; eauto.
Qed.

End LastNumber.

Lemma last_number_counts_the_generated_token_witness :
  getLastNFTNumber (NFTConfig.outputDir DEFAULT_CONFIG)
    (snd (generateNFT demo_codec (Num 7) DEFAULT_CONFIG demo_world))
  = (Return (Num 7), snd (generateNFT demo_codec (Num 7) DEFAULT_CONFIG demo_world)).
Proof.
  assert (Hsafe : safe_integer 7) by (unfold safe_integer; lia).
  destruct (last_number_counts_the_generated_token demo_codec 7 DEFAULT_CONFIG demo_world
              demo_generated (snd (generateNFT demo_codec (Num 7) DEFAULT_CONFIG demo_world))
              Hsafe demo_run) as (n & Hlast & _ & Hexact).
  rewrite Hlast. rewrite Hexact; [reflexivity |].
  intros m Hm. exfalso.
  assert (E : token_numbers
                (children (disk demo_world)
                   (resolve (cwd demo_world)
                      (path_join [NFTConfig.outputDir DEFAULT_CONFIG; "images"]))) = []).
  { vm_compute. reflexivity. }
  rewrite E in Hm. now apply elem_of_nil in Hm.
Defined.

(** X7. [getLastNFTNumber] never removes or changes anything: whatever it
    returns, every entry of the disk is as it was, except that directories
    may have appeared where nothing was (the image directory and the
    directories above it); the object store, the environment and the random
    source are not touched.  When the image directory can be made it is
    there afterwards; otherwise the disk is exactly as it was and the
    reason is printed as an error. *)
Theorem getLastNFTNumber_only_makes_directories outputDir w :
  exists n w',
    getLastNFTNumber outputDir w = (Return n, w')
    /\ same_surroundings w w' /\ drawn w' = drawn w
    /\ (forall k, kept_entry (disk w) (disk w') k)
    /\ ((lookup_node (disk w') (resolve (cwd w) (path_join [outputDir; "images"])) = Some Dir
         /\ console w' = console w)
        \/ (disk w' = disk w
            /\ exists e, console w'
                         = console w ++ [(ERROR, "Error getting last NFT number: "
                                                 +:+ exn_message e)])).
Proof.
  destruct (make_dirs [] (resolve (cwd w) (path_join [outputDir; "images"])) (disk w))
    as [d |] eqn:Edirs.
  - destruct (getLastNFTNumber_run outputDir w d Edirs) as (n & Hrun & _).
    exists (Num n), (with_disk d w). split; [exact Hrun |].
    split; [repeat split |]. split; [reflexivity |]. split.
    + intros k. cbn [with_disk disk]. eapply make_dirs_kept; eauto.
    + left. cbn [with_disk disk console]. split; [| reflexivity].
      eapply make_dirs_lookup_node; eauto.
  - unfold getLastNFTNumber, try_catch. unfold bind at 1. unfold ensureDirSync. rewrite Edirs.
    destruct (disk w !! _) as [[? |] |]; cbn [bind console_error console_write ret];
      eexists _, _; (split; [reflexivity |]); cbn [with_console disk console drawn];
      (split; [repeat split |]); (split; [reflexivity |]);
      (split; [intros; apply kept_entry_refl |]); right; (split; [reflexivity |]); eauto.
Qed.


(** ** The object-store configuration *)

(** X8. [getMinioConfig] never fails and changes nothing.  Uploads are
    always enabled and the bucket name is never empty ([nft-collection]
    stands in for an unset or empty [S3_BUCKET_NAME]).  The port is 9000
    when [S3_API_PORT] is unset or empty, and what [parseInt] reads from it
    otherwise; SSL is on exactly when the port is 443, so never with the
    default port.  The other three fields are the variables of the
    environment, an unset one being the empty string. *)
Theorem getMinioConfig_reads_the_environment w :
  exists config,
    getMinioConfig w = (Return config, w)
    /\ MinioConfig.enabled config = true
    /\ MinioConfig.bucketName config <> ""
    /\ (MinioConfig.useSSL config = true <-> MinioConfig.port config = Num 443)
    /\ match environ w !! "S3_API_PORT" with
       | Some v => if String.eqb v "" then MinioConfig.port config = Num 9000
                   else MinioConfig.port config = parseInt v
       | None => MinioConfig.port config = Num 9000
       end
    /\ MinioConfig.endPoint config = default "" (environ w !! "S3_ENDPOINT")
    /\ MinioConfig.accessKey config = default "" (environ w !! "S3_ACCESS_KEY")
    /\ MinioConfig.secretKey config = default "" (environ w !! "S3_SECRET_KEY").
Proof.
  unfold getMinioConfig, bind, env_or, ret. eexists. split; [reflexivity |].
  cbn [MinioConfig.enabled MinioConfig.bucketName MinioConfig.useSSL MinioConfig.port
       MinioConfig.endPoint MinioConfig.accessKey MinioConfig.secretKey].
  split; [reflexivity |]. split.
  { destruct (environ w !! "S3_BUCKET_NAME") as [v |]; [| discriminate].
    destruct (String.eqb_spec v ""); [discriminate | assumption]. }
  split.
  { unfold number_eqb.
    match goal with |- context [match ?p with Num _ => _ | NaN => _ end] => destruct p as [z |] end.
    - split; [intros H; apply Z.eqb_eq in H; now subst | intros H; inversion H; reflexivity].
    - split; discriminate. }
  split.
  { destruct (environ w !! "S3_API_PORT") as [v |]; [| reflexivity].
    destruct (String.eqb_spec v "") as [-> | Hv]; [reflexivity |].
    destruct (String.eqb_spec v ""); [contradiction | reflexivity]. }
  repeat split;
    match goal with
    | |- context [environ w !! ?name] =>
        destruct (environ w !! name) as [v |]; [| reflexivity];
        destruct (String.eqb_spec v "") as [-> |]; reflexivity
    end.
Qed.

(** X9. [validateMinioConfig] never throws and touches nothing but the
    console.  It returns true exactly when the end point, the access key
    and the secret key are not empty and the port is a number above zero.
    An accepted configuration prints nothing; a refused one prints exactly
    one error line. *)
Theorem validateMinioConfig_accepts_exactly config w :
  exists valid w',
    validateMinioConfig config w = (Return valid, w')
    /\ quiet w w' /\ drawn w' = drawn w
    /\ (valid = true <->
        MinioConfig.endPoint config <> "" /\ MinioConfig.accessKey config <> ""
        /\ MinioConfig.secretKey config <> ""
        /\ exists z, MinioConfig.port config = Num z /\ 0 < z)
    /\ if valid then console w' = console w
       else exists line, console w' = console w ++ [(ERROR, line)].
Proof.
  unfold validateMinioConfig.
  destruct (String.eqb_spec (MinioConfig.endPoint config) "") as [He | He].
  { eexists false, _. split; [reflexivity |]. split; [repeat split |]. split; [reflexivity |].
    split; [| cbn; eauto]. split; [discriminate | intros (H & _); contradiction]. }
  destruct (String.eqb_spec (MinioConfig.accessKey config) "") as [Ha | Ha].
  { eexists false, _. split; [reflexivity |]. split; [repeat split |]. split; [reflexivity |].
    split; [| cbn; eauto]. split; [discriminate | intros (_ & H & _); contradiction]. }
  destruct (String.eqb_spec (MinioConfig.secretKey config) "") as [Hs | Hs].
  { eexists false, _. split; [reflexivity |]. split; [repeat split |]. split; [reflexivity |].
    split; [| cbn; eauto]. split; [discriminate | intros (_ & _ & H & _); contradiction]. }
  destruct (MinioConfig.port config) as [z |] eqn:Ep; cbn [isNaN number_le_zero orb].
  - destruct (Z.leb_spec z 0) as [Hz | Hz].
    + eexists false, _. split; [reflexivity |]. split; [repeat split |]. split; [reflexivity |].
      split; [| cbn; eauto]. split; [discriminate |].
      intros (_ & _ & _ & z' & E & Hpos). inversion E. lia.
    + eexists true, _. split; [reflexivity |]. split; [apply quiet_refl |].
      split; [reflexivity |]. split; [| reflexivity].
      split; [intros _; repeat split; eauto | reflexivity].
  - eexists false, _. split; [reflexivity |]. split; [repeat split |]. split; [reflexivity |].
    split; [| cbn; eauto]. split; [discriminate |].
    intros (_ & _ & _ & z' & E & _). discriminate.
Qed.

(** ** The object-store client *)

Lemma strip_trailing_slashes_spec s :
  exists slashes,
    s = strip_trailing_slashes s +:+ slashes /\ all_chars is_slash slashes = true
    /\ endsWith (strip_trailing_slashes s) "/" = false.
Proof.
  induction s as [| c s (slashes & Hs & Hall & Hends)].
  - exists "". repeat split.
  - cbn [strip_trailing_slashes].
    change (fun x => Ascii.eqb x "/"%char) with is_slash.
    destruct (all_chars is_slash (String c s)) eqn:Eall.
    + exists (String c s). repeat split. exact Eall.
    + exists slashes. split; [rewrite append_cons; now f_equal |].
      split; [exact Hall |]. cbn [endsWith]. rewrite Hends, orb_false_r.
      destruct (String.eqb_spec (String c (strip_trailing_slashes s)) "/") as [E |];
        [| reflexivity].
      exfalso. inversion E as [[Hc Hstrip]]. rewrite Hstrip, append_nil_l in Hs.
      subst c s. cbn [all_chars] in Eall. rewrite Hall in Eall. discriminate.
Qed.

(** X10. [initializeMinioClient] never throws and touches nothing but the
    console.  It gives a client exactly when uploads are enabled, the end
    point and the two keys are not empty, and the client library accepts
    the options; the client then has the port, the SSL flag and the keys of
    the configuration, and as end point the configured one with all its
    trailing slashes removed and nothing else changed.  Without a client,
    nothing is printed when uploads are disabled, a warning when a
    credential is missing, and the library's error otherwise. *)
Theorem initializeMinioClient_cleans_the_end_point config w :
  exists client w',
    initializeMinioClient config w = (Return client, w')
    /\ quiet w w' /\ drawn w' = drawn w
    /\ match client with
       | Some c =>
           console w' = console w
           /\ MinioConfig.enabled config = true
           /\ MinioConfig.endPoint config <> "" /\ MinioConfig.accessKey config <> ""
           /\ MinioConfig.secretKey config <> ""
           /\ accepts_client (store w) (Client.endPoint c) (MinioConfig.port config) = true
           /\ Client.port c = MinioConfig.port config
           /\ Client.useSSL c = MinioConfig.useSSL config
           /\ Client.accessKey c = MinioConfig.accessKey config
           /\ Client.secretKey c = MinioConfig.secretKey config
           /\ endsWith (Client.endPoint c) "/" = false
           /\ exists slashes,
                MinioConfig.endPoint config = Client.endPoint c +:+ slashes
                /\ all_chars is_slash slashes = true
       | None =>
           (MinioConfig.enabled config = false /\ console w' = console w)
           \/ (MinioConfig.enabled config = true
               /\ (MinioConfig.endPoint config = "" \/ MinioConfig.accessKey config = ""
                   \/ MinioConfig.secretKey config = "")
               /\ console w'
                  = console w ++ [(WARN, "Missing MinIO credentials. Upload will be skipped.")])
           \/ (accepts_client (store w) (strip_trailing_slashes (MinioConfig.endPoint config))
                 (MinioConfig.port config) = false
               /\ exists e, console w'
                            = console w ++ [(ERROR, "Error initializing MinIO client: "
                                                    +:+ exn_message e)])
       end.
Proof.
  unfold initializeMinioClient.
  destruct (MinioConfig.enabled config) eqn:Een; cbn [negb].
  2:{ eexists None, _. split; [reflexivity |]. split; [apply quiet_refl |].
      split; [reflexivity |]. left. split; reflexivity. }
  destruct (String.eqb_spec (MinioConfig.endPoint config) "") as [He | He].
  { eexists None, _. split; [reflexivity |]. split; [repeat split |]. split; [reflexivity |].
    right. left. repeat split; auto. }
  destruct (String.eqb_spec (MinioConfig.accessKey config) "") as [Ha | Ha].
  { eexists None, _. split; [reflexivity |]. split; [repeat split |]. split; [reflexivity |].
    right. left. repeat split; auto. }
  destruct (String.eqb_spec (MinioConfig.secretKey config) "") as [Hs | Hs].
  { eexists None, _. split; [reflexivity |]. split; [repeat split |]. split; [reflexivity |].
    right. left. repeat split; auto. }
  cbn [orb]. unfold try_catch, bind, new_Client.
  destruct (accepts_client (store w) _ _) eqn:Eacc.
  - eexists (Some _), _. split; [reflexivity |]. split; [apply quiet_refl |].
    split; [reflexivity |]. cbn [Client.endPoint Client.port Client.useSSL Client.accessKey
                                   Client.secretKey].
    destruct (strip_trailing_slashes_spec (MinioConfig.endPoint config))
      as (slashes & Hs' & Hall & Hends).
    repeat (split; [assumption || reflexivity |]). eauto.
  - eexists None, _. split; [reflexivity |]. split; [repeat split |]. split; [reflexivity |].
    right. right. split; [reflexivity |].
    exists (Error ("Invalid endPoint : "
                   +:+ strip_trailing_slashes (MinioConfig.endPoint config))).
    reflexivity.
Qed.


(** ** Uploading *)

Lemma same_service_refl r : same_service r r.
Proof. repeat split. Qed.

Lemma same_service_trans r1 r2 r3 :
  same_service r1 r2 -> same_service r2 r3 -> same_service r1 r3.
Proof.
  intros (A1 & A2 & A3 & A4) (B1 & B2 & B3 & B4). repeat split; congruence.
Qed.

Lemma uploads_only_refl w : uploads_only w w.
Proof. repeat split. Qed.

Lemma uploads_only_trans w1 w2 w3 :
  uploads_only w1 w2 -> uploads_only w2 w3 -> uploads_only w1 w3.
Proof.
  intros (A0 & A1 & A2 & A3 & A4 & A5 & A6) (B0 & B1 & B2 & B3 & B4 & B5 & B6).
  split; [eapply still_trans; eauto |]. split; [eapply same_service_trans; eauto |].
  repeat split; congruence.
Qed.

Lemma uploads_only_quiet w w' : quiet w w' -> drawn w' = drawn w -> uploads_only w w'.
Proof.
  intros (A1 & A2 & A3 & A4 & A5 & A6 & A7) Hd.
  split; [split; assumption |]. split; [rewrite A7; apply same_service_refl |].
  repeat split; assumption.
Qed.

Lemma uploads_only_console w c : uploads_only w (with_console c w).
Proof. repeat split. Qed.

Lemma connects_same_service config r r' :
  same_service r r' -> connects config r' = connects config r.
Proof. intros (A1 & A2 & _). unfold connects. now rewrite A1, A2. Qed.

(** The run of [uploadToMinio]. *)
Lemma uploadToMinio_run client filePath targetKey bucketName endpoint w :
  exists url w',
    uploadToMinio client filePath targetKey bucketName endpoint w = (Return url, w')
    /\ uploads_only w w'
    /\ match url with
       | Some u =>
           u = "https://" +:+ endpoint +:+ "/" +:+ bucketName +:+ "/" +:+ targetKey
           /\ valid_bucket (store w) bucketName = true /\ reachable (store w) = true
           /\ accepts_put (store w) bucketName targetKey = true
           /\ buckets (store w') = {[bucketName]} ∪ buckets (store w)
           /\ exists data,
                lookup_node (disk w) (resolve (cwd w) filePath) = Some (File data)
                /\ objects (store w')
                   = <[(bucketName, targetKey) := (content_type_of filePath, data)]>
                       (objects (store w))
       | None =>
           objects (store w') = objects (store w)
           /\ (valid_bucket (store w) bucketName = false \/ reachable (store w) = false
               \/ accepts_put (store w) bucketName targetKey = false
               \/ forall data,
                    lookup_node (disk w) (resolve (cwd w) filePath) <> Some (File data))
           /\ exists e, console w'
                        = (if valid_bucket (store w) bucketName && reachable (store w)
                              && negb (bool_decide (bucketName ∈ buckets (store w)))
                           then console w ++ [(LOG, "Created bucket: " +:+ bucketName)]
                           else console w)
                          ++ [(ERROR, "Error uploading " +:+ filePath +:+ ": "
                                      +:+ exn_message e)]
       end.
Proof.
  unfold uploadToMinio, try_catch. unfold bind at 1. unfold bucketExists.
  fold (content_type_of filePath).
  destruct (valid_bucket (store w) bucketName) eqn:Evalid; cbn [negb andb].
  2:{ cbn [bind console_error console_write ret]. eexists None, _.
      split; [reflexivity |]. split; [apply uploads_only_console |].
      split; [reflexivity |]. split; [now left | eauto]. }
  destruct (reachable (store w)) eqn:Ereach; cbn [negb andb].
  2:{ cbn [bind console_error console_write ret]. eexists None, _.
      split; [reflexivity |]. split; [apply uploads_only_console |].
      split; [reflexivity |]. split; [right; now left | eauto]. }
  set (had := bool_decide (bucketName ∈ buckets (store w))).
  unfold bind at 1.
  (* the bucket is there, made if it was not *)
  assert (Hbucket : exists w1,
            (if negb had
             then makeBucket client bucketName ;; console_log ("Created bucket: " +:+ bucketName)
             else ret tt) w = (Return tt, w1)
            /\ disk w1 = disk w /\ cwd w1 = cwd w /\ drawn w1 = drawn w
            /\ randoms w1 = randoms w /\ clock w1 = clock w /\ environ w1 = environ w
            /\ chain w1 = chain w
            /\ same_service (store w) (store w1)
            /\ objects (store w1) = objects (store w)
            /\ buckets (store w1) = {[bucketName]} ∪ buckets (store w)
            /\ console w1 = if negb had
                            then console w ++ [(LOG, "Created bucket: " +:+ bucketName)]
                            else console w).
  { destruct had eqn:Ehad; cbn [negb].
    - exists w. split; [reflexivity |]. repeat split.
      apply bool_decide_eq_true_1 in Ehad. symmetry. apply subseteq_union_1_L.
      now apply singleton_subseteq_l.
    - unfold bind, makeBucket. rewrite Evalid, Ereach. cbn [negb console_log console_write].
      eexists. split; [reflexivity |]. repeat split. }
  destruct Hbucket as (w1 & Hrun1 & Hd1 & Hc1 & Hdr1 & Hr1 & Hk1 & He1 & Hch1 & Hs1 & Ho1 & Hb1
                       & Hcon1).
  rewrite Hrun1. unfold bind at 1. unfold fPutObject, bind at 1, readFileSync.
  rewrite Hd1, Hc1.
  assert (Hbase : uploads_only w w1).
  { repeat split; try assumption; apply Hs1. }
  assert (Hfail : forall e,
            exists url w',
              (console_error ("Error uploading " +:+ filePath +:+ ": " +:+ exn_message e) ;;
               ret None) w1 = (Return url, w')
              /\ uploads_only w w' /\ url = @None string
              /\ objects (store w') = objects (store w)
              /\ console w'
                 = (if negb had
                    then console w ++ [(LOG, "Created bucket: " +:+ bucketName)]
                    else console w)
                   ++ [(ERROR, "Error uploading " +:+ filePath +:+ ": " +:+ exn_message e)]).
  { intros e. cbn [bind console_error console_write ret]. eexists _, _.
    split; [reflexivity |]. split.
    - eapply uploads_only_trans; [exact Hbase | apply uploads_only_console].
    - split; [reflexivity |]. cbn [with_console store console]. now rewrite Hcon1. }
  destruct (lookup_node (disk w) (resolve (cwd w) filePath)) as [[data |] |] eqn:Efile.
  2,3: (match goal with
        | |- context [exn_message ?e] =>
            destruct (Hfail e) as (url & w' & Hrun & Hup & -> & Ho & Hcon)
        end;
        exists None, w'; split; [exact Hrun |]; split; [exact Hup |]; split; [exact Ho |];
        split; [right; right; right; intros data'; discriminate | eauto]).
  unfold store_put. destruct Hs1 as (Hs1a & Hs1b & Hs1c & Hs1d).
  rewrite Hs1b, Hs1d, Ereach. cbn [andb].
  destruct (accepts_put (store w) bucketName targetKey) eqn:Eput.
  - cbn [bind console_log console_write ret]. eexists (Some _), _.
    split; [reflexivity |]. split.
    { cbn [with_console with_store]. repeat split; cbn; try assumption. }
    split; [reflexivity |]. split; [reflexivity |]. split; [reflexivity |].
    split; [reflexivity |]. split; [cbn; exact Hb1 |].
    exists data. split; [reflexivity |]. cbn. now rewrite Ho1.
  - match goal with
    | |- context [exn_message ?e] =>
        destruct (Hfail e) as (url & w' & Hrun & Hup & -> & Ho & Hcon)
    end.
    exists None, w'. split; [exact Hrun |]. split; [exact Hup |]. split; [exact Ho |].
    split; [right; right; now left | eauto].
Qed.

Lemma same_but_files_refl w : same_but_files w w.
Proof. repeat split. Qed.

Lemma same_but_files_trans w1 w2 w3 :
  same_but_files w1 w2 -> same_but_files w2 w3 -> same_but_files w1 w3.
Proof.
  intros (A1 & A2 & A3 & A4 & A5 & A6 & A7) (B1 & B2 & B3 & B4 & B5 & B6 & B7).
  repeat split; congruence.
Qed.

Lemma absolutize_image_rest config metadataPath imageFilename :
  preserves same_but_files (absolutize_image config metadataPath imageFilename).
Proof.
  assert (Hwrite : forall l text, preserves same_but_files (console_write l text)).
  { intros l text w r w' H. inversion H. repeat split. }
  assert (Hread : forall p, preserves same_but_files (readFileSync p)).
  { intros p w r w' H. unfold readFileSync in H.
    destruct (lookup_node _ _) as [[? |] |]; inversion H; apply same_but_files_refl. }
  assert (Hput : forall p data, preserves same_but_files (writeFileSync p data)).
  { intros p data w r w' H. unfold writeFileSync in H.
    destruct (resolve (cwd w) p) as [| seg k']; [inversion H; apply same_but_files_refl |].
    destruct (lookup_node (disk w) (parent (seg :: k'))) as [[? |] |];
      destruct (lookup_node (disk w) (seg :: k')) as [[? |] |]; inversion H;
      repeat split. }
  unfold absolutize_image, readJson, writeJson, console_log, console_warn.
  repeat first
    [ apply preserves_ret; apply same_but_files_refl
    | apply preserves_throw; apply same_but_files_refl
    | apply Hwrite | apply Hread | apply Hput
    | apply preserves_bind; [apply same_but_files_trans | | intros ?]
    | apply preserves_try; [apply same_but_files_trans | | intros ?]
    | match goal with
      | |- preserves _ (if ?b then _ else _) => destruct b
      | |- preserves _ (match ?x with _ => _ end) => destruct x
      end ].
Qed.

(** The client [initializeMinioClient] gives, if it gives one. *)
Lemma initializeMinioClient_run config w :
  exists client w',
    initializeMinioClient config w = (Return client, w') /\ quiet w w' /\ drawn w' = drawn w
    /\ (is_Some client
        <-> MinioConfig.enabled config
            && negb (String.eqb (MinioConfig.endPoint config) "")
            && negb (String.eqb (MinioConfig.accessKey config) "")
            && negb (String.eqb (MinioConfig.secretKey config) "")
            && accepts_client (store w) (strip_trailing_slashes (MinioConfig.endPoint config))
                 (MinioConfig.port config) = true).
Proof.
  unfold initializeMinioClient.
  destruct (MinioConfig.enabled config); cbn [negb andb].
  2:{ eexists None, _. split; [reflexivity |]. split; [apply quiet_refl |].
      split; [reflexivity |]. split; [intros [? ?]; discriminate | discriminate]. }
  destruct (String.eqb (MinioConfig.endPoint config) ""); cbn [negb andb orb].
  { eexists None, _. split; [reflexivity |]. split; [repeat split |].
    split; [reflexivity |]. split; [intros [? ?]; discriminate | discriminate]. }
  destruct (String.eqb (MinioConfig.accessKey config) ""); cbn [negb andb orb].
  { eexists None, _. split; [reflexivity |]. split; [repeat split |].
    split; [reflexivity |]. split; [intros [? ?]; discriminate | discriminate]. }
  destruct (String.eqb (MinioConfig.secretKey config) ""); cbn [negb andb orb].
  { eexists None, _. split; [reflexivity |]. split; [repeat split |].
    split; [reflexivity |]. split; [intros [? ?]; discriminate | discriminate]. }
  unfold try_catch, bind, new_Client.
  destruct (accepts_client (store w) _ _).
  - eexists (Some _), _. split; [reflexivity |]. split; [apply quiet_refl |].
    split; [reflexivity |]. split; [reflexivity | eauto].
  - eexists None, _. split; [reflexivity |]. split; [repeat split |].
    split; [reflexivity |]. split; [intros [? ?]; discriminate | discriminate].
Qed.

Lemma testMinioConnection_run client w :
  exists w',
    testMinioConnection client w = (Return (reachable (store w)), w')
    /\ quiet w w' /\ drawn w' = drawn w.
Proof.
  unfold testMinioConnection, try_catch, bind, listBuckets.
  destruct (reachable (store w)); cbn; eexists; (split; [reflexivity |]); repeat split.
Qed.

(** The run of [uploadNFTToMinio]: without a client or an answer from the
    server it prints and returns false; otherwise it uploads the image, makes
    the image reference of the metadata file absolute, uploads the metadata,
    and returns true. *)
Lemma uploadNFTToMinio_run config imagePath metadataPath w :
  (connects config (store w) = true ->
   exists client w1 url1 w2 w3 url2 w4 w',
     quiet w w1 /\ drawn w1 = drawn w
     /\ uploadToMinio client imagePath ("images/" +:+ path_basename imagePath)
          (MinioConfig.bucketName config) (MinioConfig.endPoint config) w1
        = (Return url1, w2)
     /\ absolutize_image config metadataPath (path_basename imagePath) w2 = (Return tt, w3)
     /\ uploadToMinio client metadataPath ("metadata/" +:+ path_basename metadataPath)
          (MinioConfig.bucketName config) (MinioConfig.endPoint config) w3
        = (Return url2, w4)
     /\ uploadNFTToMinio config imagePath metadataPath w = (Return true, w')
     /\ quiet w4 w' /\ drawn w' = drawn w4)
  /\ (connects config (store w) = false ->
      exists w',
        uploadNFTToMinio config imagePath metadataPath w = (Return false, w')
        /\ quiet w w' /\ drawn w' = drawn w).
Proof.
  set (w0 := with_console
               (console w ++ [(LOG, LF +:+ "Attempting to connect to MinIO at: "
                                    +:+ MinioConfig.endPoint config +:+ " (Port: "
                                    +:+ number_to_string (MinioConfig.port config) +:+ ")")])
               w).
  assert (H0 : quiet w w0 /\ drawn w0 = drawn w) by (split; [repeat split | reflexivity]).
  destruct H0 as [Hq0 Hd0].
  destruct (initializeMinioClient_run config w0) as (client & w1 & Hinit & Hq1 & Hd1 & Hsome).
  unfold w0 in Hsome. cbn [store with_console] in Hsome.
  assert (Hstore1 : store w1 = store w).
  { destruct Hq1 as (_ & _ & _ & _ & _ & _ & E). rewrite E. reflexivity. }
  assert (Hq01 : quiet w w1).
  { eapply quiet_trans; [exact Hq0 | exact Hq1]. }
  assert (Hd01 : drawn w1 = drawn w) by congruence.
  destruct client as [client |].
  - destruct Hsome as [Hgate _]. specialize (Hgate ltac:(eauto)).
    destruct (testMinioConnection_run client w1) as (w2 & Htest & Hq2 & Hd2).
    rewrite Hstore1 in Htest.
    assert (Hq02 : quiet w w2).
    { eapply quiet_trans; [exact Hq01 | exact Hq2]. }
    assert (Hd02 : drawn w2 = drawn w) by congruence.
    unfold connects. rewrite Hgate. cbn [andb]. split; intros Hreach; rewrite Hreach in Htest.
    + unfold uploadNFTToMinio. unfold bind at 1. cbn [console_log console_write]. fold w0.
      unfold bind at 1. rewrite Hinit. unfold bind at 1. rewrite Htest. cbn [negb].
      unfold try_catch. unfold bind at 1. cbn [console_log console_write].
      set (w3 := with_console _ w2).
      destruct (uploadToMinio_run client imagePath ("images/" +:+ path_basename imagePath)
                  (MinioConfig.bucketName config) (MinioConfig.endPoint config) w3)
        as (url1 & w4 & Hup1 & _).
      unfold bind at 1. rewrite Hup1. unfold bind at 1.
      destruct (absolutize_image config metadataPath (path_basename imagePath) w4)
        as [r5 w5] eqn:Eabs.
      pose proof (absolutize_image_spec _ _ _ _ _ _ Eabs) as (-> & _).
      destruct (uploadToMinio_run client metadataPath
                  ("metadata/" +:+ path_basename metadataPath)
                  (MinioConfig.bucketName config) (MinioConfig.endPoint config) w5)
        as (url2 & w6 & Hup2 & _).
      unfold bind at 1. rewrite Hup2.
      unfold bind, console_log, console_write, ret.
      exists client, w3, url1, w4, w5, url2, w6. eexists.
      split; [eapply quiet_trans; [exact Hq02 | repeat split] |].
      split; [exact Hd02 |].
      split; [exact Hup1 |]. split; [exact Eabs |]. split; [exact Hup2 |].
      split; [reflexivity |]. split; repeat split.
    + unfold uploadNFTToMinio. unfold bind at 1. cbn [console_log console_write]. fold w0.
      unfold bind at 1. rewrite Hinit. unfold bind at 1. rewrite Htest. cbn [negb].
      unfold bind, console_error, console_log, console_write, ret. eexists.
      split; [reflexivity |]. split.
      * eapply quiet_trans; [exact Hq02 | repeat split].
      * exact Hd02.
  - assert (Hgate : MinioConfig.enabled config
                    && negb (String.eqb (MinioConfig.endPoint config) "")
                    && negb (String.eqb (MinioConfig.accessKey config) "")
                    && negb (String.eqb (MinioConfig.secretKey config) "")
                    && accepts_client (store w)
                         (strip_trailing_slashes (MinioConfig.endPoint config))
                         (MinioConfig.port config) = false).
    { destruct (_ && _) eqn:E; [| reflexivity].
      destruct Hsome as [_ Hs]. destruct (Hs eq_refl). discriminate. }
    unfold connects. rewrite Hgate. cbn [andb]. split; [discriminate |]. intros _.
    unfold uploadNFTToMinio. unfold bind at 1. cbn [console_log console_write]. fold w0.
    unfold bind at 1. rewrite Hinit.
    unfold bind, console_log, console_write, ret. eexists. split; [reflexivity |]. split.
    + eapply quiet_trans; [exact Hq01 | repeat split].
    + exact Hd01.
Qed.


(** ** Further properties of the upload *)

(** X11. [uploadToMinio] never throws and never touches the local disk.  It
    returns a URL exactly when the object was stored: the store accepts the
    bucket name, answers, and accepts the object, and the path names a
    readable file.  The URL is then
    [https://<endpoint>/<bucketName>/<targetKey>], the bucket exists, and the
    object under that bucket and key holds the bytes of the file with the
    content type of its extension ([image/png] for [.png],
    [application/json] for [.json], [application/octet-stream] otherwise).
    When it returns null no object is stored or changed.  No other object of
    the store is ever changed. *)
Theorem uploadToMinio_reports_what_was_stored client filePath targetKey bucketName endpoint w :
  exists url w',
    uploadToMinio client filePath targetKey bucketName endpoint w = (Return url, w')
    /\ still w w'
    /\ (is_Some url
        <-> valid_bucket (store w) bucketName = true /\ reachable (store w) = true
            /\ accepts_put (store w) bucketName targetKey = true
            /\ exists data, lookup_node (disk w) (resolve (cwd w) filePath) = Some (File data))
    /\ match url with
       | Some u =>
           u = "https://" +:+ endpoint +:+ "/" +:+ bucketName +:+ "/" +:+ targetKey
           /\ bucketName ∈ buckets (store w')
           /\ exists data,
                lookup_node (disk w) (resolve (cwd w) filePath) = Some (File data)
                /\ objects (store w') !! (bucketName, targetKey)
                   = Some (content_type_of filePath, data)
       | None => objects (store w') = objects (store w)
       end
    /\ forall key,
         key <> (bucketName, targetKey) -> objects (store w') !! key = objects (store w) !! key.
Proof.
  destruct (uploadToMinio_run client filePath targetKey bucketName endpoint w)
    as (url & w' & Hrun & (Hstill & _) & Hcases).
  exists url, w'. split; [exact Hrun |]. split; [exact Hstill |].
  destruct url as [u |].
  - destruct Hcases as (-> & Hv & Hr & Ha & Hb & data & Hfile & Hobj).
    split; [split; [intros _; eauto 6 | eauto] |]. split.
    + split; [reflexivity |].
      split; [rewrite Hb; apply elem_of_union_l; now apply elem_of_singleton |].
      exists data. split; [exact Hfile |]. now rewrite Hobj, lookup_insert_eq.
    + intros key Hkey. rewrite Hobj. now apply lookup_insert_ne.
  - destruct Hcases as (Hobj & Hwhy & _). split.
    + split; [intros [? ?]; discriminate |].
      intros (Hv & Hr & Ha & data & Hfile). exfalso.
      destruct Hwhy as [H | [H | [H | H]]]; first [congruence | now apply (H data)].
    + split; [exact Hobj |]. intros key _. now rewrite Hobj.
Qed.

Lemma uploadToMinio_outcome client filePath targetKey bucketName endpoint w url w' :
  uploadToMinio client filePath targetKey bucketName endpoint w = (Return url, w') ->
  uploads_only w w'
  /\ match url with
     | Some u =>
         buckets (store w') = {[bucketName]} ∪ buckets (store w)
         /\ exists data,
              lookup_node (disk w) (resolve (cwd w) filePath) = Some (File data)
              /\ objects (store w')
                 = <[(bucketName, targetKey) := (content_type_of filePath, data)]>
                     (objects (store w))
     | None =>
         objects (store w') = objects (store w)
         /\ (valid_bucket (store w) bucketName = false \/ reachable (store w) = false
             \/ accepts_put (store w) bucketName targetKey = false
             \/ forall data,
                  lookup_node (disk w) (resolve (cwd w) filePath) <> Some (File data))
     end.
Proof.
  intros Hrun.
  destruct (uploadToMinio_run client filePath targetKey bucketName endpoint w)
    as (url0 & w0 & Hrun0 & Hup & Hcases).
  rewrite Hrun in Hrun0. inversion Hrun0; subst url0 w0. split; [exact Hup |].
  destruct url as [u |].
  - destruct Hcases as (_ & _ & _ & _ & Hb & Hdata). now split.
  - destruct Hcases as (Hobj & Hwhy & _). now split.
Qed.

(** X12. [uploadNFTToMinio] never throws, and what it returns tells whether
    it got a client and an answer from the server, not whether anything was
    uploaded: it returns true exactly when uploads are enabled, the end
    point and the two keys are not empty, the client library accepts the
    end point and the server answers the bucket listing, whatever then
    becomes of the two uploads.  When it returns false neither the disk nor
    the object store has changed. *)
Theorem uploadNFTToMinio_reports_the_connection config imagePath metadataPath w :
  exists w',
    uploadNFTToMinio config imagePath metadataPath w
    = (Return (connects config (store w)), w')
    /\ cwd w' = cwd w /\ same_service (store w) (store w')
    /\ (connects config (store w) = false -> disk w' = disk w /\ store w' = store w).
Proof.
  destruct (uploadNFTToMinio_run config imagePath metadataPath w) as [Hyes Hno].
  destruct (connects config (store w)) eqn:Econ.
  - destruct (Hyes eq_refl)
      as (client & w1 & url1 & w2 & w3 & url2 & w4 & w' & Hq1 & _ & Hup1 & Habs & Hup2 & Hrun
          & Hq & _).
    exists w'. split; [exact Hrun |].
    apply uploadToMinio_outcome in Hup1 as [([_ Hc2] & Hs2 & _) _].
    apply uploadToMinio_outcome in Hup2 as [([_ Hc4] & Hs4 & _) _].
    apply absolutize_image_rest in Habs as (Hc3 & _ & _ & _ & _ & _ & Hs3).
    destruct Hq1 as (_ & Hc1 & _ & _ & _ & _ & Hs1).
    destruct Hq as (_ & Hc5 & _ & _ & _ & _ & Hs5).
    split; [congruence |]. split; [| discriminate].
    rewrite Hs5. eapply same_service_trans; [| exact Hs4]. rewrite Hs3.
    rewrite <- Hs1. exact Hs2.
  - destruct (Hno eq_refl) as (w' & Hrun & Hq & _). exists w'. split; [exact Hrun |].
    destruct Hq as (Hd & Hc & _ & _ & _ & _ & Hs).
    split; [exact Hc |]. split; [rewrite Hs; apply same_service_refl |]. now intros _.
Qed.

Lemma endsWith_inv s suf : endsWith s suf = true -> exists pre, s = pre +:+ suf.
Proof.
  induction s as [| c s IH]; cbn [endsWith]; intros H.
  - rewrite orb_false_r in H. apply String.eqb_eq in H. subst. now exists "".
  - apply orb_prop in H as [H | H].
    + apply String.eqb_eq in H. subst. now exists "".
    + destruct (IH H) as (pre & ->). exists (String c pre). reflexivity.
Qed.

Lemma append_suffix_eq a : forall b c d,
  a +:+ b = c +:+ d -> String.length b = String.length d -> b = d.
Proof.
  induction a as [| x a IH]; intros b c d E Hlen.
  - rewrite append_nil_l in E. subst b. rewrite length_append in Hlen.
    destruct c; [reflexivity | cbn in Hlen; lia].
  - destruct c as [| y c].
    + rewrite append_nil_l in E. subst d. rewrite append_cons in Hlen. cbn in Hlen.
      rewrite length_append in Hlen. lia.
    + rewrite !append_cons in E. inversion E. eapply IH; eauto.
Qed.

Lemma json_name_is_not_png s : endsWith (s +:+ ".json") ".png" = false.
Proof.
  destruct (endsWith (s +:+ ".json") ".png") eqn:E; [| reflexivity].
  apply endsWith_inv in E as (pre & E).
  change (s +:+ ".json") with (s +:+ "." +:+ "json") in E. rewrite <- append_assoc in E.
  apply append_suffix_eq in E; [discriminate | reflexivity].
Qed.

Lemma generated_paths tokenId config :
  path_basename (image_path tokenId config) = number_to_string tokenId +:+ ".png"
  /\ path_basename (metadata_path tokenId config) = number_to_string tokenId +:+ ".json"
  /\ content_type_of (image_path tokenId config) = "image/png"
  /\ content_type_of (metadata_path tokenId config) = "application/json".
Proof.
  assert (Hpng : plain_name (number_to_string tokenId +:+ ".png") = true)
    by (apply token_file_plain; [cbn; lia | reflexivity]).
  assert (Hjson : plain_name (number_to_string tokenId +:+ ".json") = true)
    by (apply token_file_plain; [cbn; lia | reflexivity]).
  unfold image_path, metadata_path.
  change [NFTConfig.outputDir config; "images"; number_to_string tokenId +:+ ".png"]
    with ([NFTConfig.outputDir config; "images"] ++ [number_to_string tokenId +:+ ".png"]).
  change [NFTConfig.outputDir config; "metadata"; number_to_string tokenId +:+ ".json"]
    with ([NFTConfig.outputDir config; "metadata"] ++ [number_to_string tokenId +:+ ".json"]).
  split; [now apply path_basename_join |]. split; [now apply path_basename_join |].
  destruct (path_join_text [NFTConfig.outputDir config; "images"] _ Hpng) as (pre1 & -> & _).
  destruct (path_join_text [NFTConfig.outputDir config; "metadata"] _ Hjson) as (pre2 & -> & _).
  unfold content_type_of. split.
  - rewrite <- append_assoc. now rewrite (endsWith_append _ ".png" ".png").
  - rewrite <- append_assoc. rewrite json_name_is_not_png.
    now rewrite (endsWith_append _ ".json" ".json").
Qed.

Lemma connects_reachable config r : connects config r = true -> reachable r = true.
Proof. unfold connects. intros H. now apply andb_prop in H as [_ H]. Qed.

Lemma lookup_node_cons d seg k : lookup_node d (seg :: k) = d !! (seg :: k).
Proof. reflexivity. Qed.

Lemma lookup_node_snoc d k x rest : lookup_node d (k ++ x :: rest) = d !! (k ++ x :: rest).
Proof. destruct k; reflexivity. Qed.

Section UploadOfAPair.

Variable png : codec.

(** X13. When [uploadNFTToMinio] is given the pair [generateNFT] returned
    for a token and the store takes the bucket and the two objects, the
    image ends up under the key [images/<tokenId>.png] of the configured
    bucket with content type [image/png] and the bytes [generateNFT] wrote,
    and the metadata under [metadata/<tokenId>.json] with content type
    [application/json] and the text that the local metadata file holds after
    the upload (the one with the absolute image reference if the upload
    rewrote it).  The bucket exists afterwards and no other object has
    changed. *)
Theorem upload_stores_the_generated_pair tokenId config w g w1 minioConfig w2 :
  generateNFT png tokenId config w = (Return g, w1) ->
  uploadNFTToMinio minioConfig (Generated.imagePath g) (Generated.metadataPath g) w1
  = (Return true, w2) ->
  let bucket := MinioConfig.bucketName minioConfig in
  let image_key := "images/" +:+ number_to_string tokenId +:+ ".png" in
  let metadata_key := "metadata/" +:+ number_to_string tokenId +:+ ".json" in
  valid_bucket (store w1) bucket = true ->
  accepts_put (store w1) bucket image_key = true ->
  accepts_put (store w1) bucket metadata_key = true ->
  bucket ∈ buckets (store w2)
  /\ (exists bytes,
        read_back w1 (Generated.imagePath g) = Some bytes
        /\ objects (store w2) !! (bucket, image_key) = Some ("image/png", bytes))
  /\ (exists text,
        read_back w2 (Generated.metadataPath g) = Some text
        /\ objects (store w2) !! (bucket, metadata_key) = Some ("application/json", text))
  /\ forall key,
       key <> (bucket, image_key) -> key <> (bucket, metadata_key) ->
       objects (store w2) !! key = objects (store w1) !! key.
Proof.
  intros Hgen Hup bucket image_key metadata_key Hvalid Hput1 Hput2.
  apply generateNFT_Return_inv in Hgen
    as (d & attributes & w0 & _ & _ & _ & -> & Hdisk & Hcwd).
  cbn [Generated.imagePath Generated.metadataPath] in *.
  destruct (generated_paths tokenId config) as (Hbase1 & Hbase2 & Htype1 & Htype2).
  destruct (images_and_metadata_dirs (cwd w) config tokenId) as (_ & _ & Himg & Hmeta).
  cbv zeta in Himg, Hmeta.
  set (base := resolve (cwd w) (path_join [NFTConfig.outputDir config])) in *.
  set (k_img := resolve (cwd w) (image_path tokenId config)) in *.
  set (k_meta := resolve (cwd w) (metadata_path tokenId config)) in *.
  assert (Hapart : k_meta <> k_img).
  { apply not_eq_sym, image_and_metadata_apart. }
  destruct (uploadNFTToMinio_run minioConfig (image_path tokenId config)
              (metadata_path tokenId config) w1) as [Hyes Hno].
  destruct (connects minioConfig (store w1)) eqn:Econ.
  2:{ destruct (Hno eq_refl) as (w' & Hrun & _). rewrite Hup in Hrun. discriminate. }
  clear Hno.
  destruct (Hyes eq_refl)
    as (client & w3 & url1 & w4 & w5 & url2 & w6 & w' & Hq3 & _ & Hup1 & Habs & Hup2 & Hrun
        & Hq & _).
  rewrite Hup in Hrun. inversion Hrun; subst w'. clear Hrun Hyes.
  rewrite Hbase1 in Hup1, Habs. rewrite Hbase2 in Hup2.
  fold bucket image_key in Hup1. fold bucket metadata_key in Hup2.
  destruct Hq3 as (Hd3 & Hc3 & _ & _ & _ & _ & Hs3).
  pose proof (connects_reachable _ _ Econ) as Hreach.
  (* the image *)
  assert (Hfile1 : lookup_node (disk w3) (resolve (cwd w3) (image_path tokenId config))
                   = Some (File (encode_png png (NFTConfig.width config)
                                   (NFTConfig.height config)
                                   (composed png w0 config attributes (clock w))))).
  { rewrite Hd3, Hc3, Hcwd. fold k_img. rewrite Himg, lookup_node_snoc, <- Himg.
    rewrite Hdisk, lookup_insert_ne by exact Hapart. apply lookup_insert_eq. }
  apply uploadToMinio_outcome in Hup1 as [Hu4 Hcase1].
  destruct url1 as [u1 |].
  2:{ exfalso. destruct Hcase1 as (_ & [H | [H | [H | H]]]).
      - rewrite Hs3 in H. congruence.
      - rewrite Hs3 in H. congruence.
      - rewrite Hs3 in H. congruence.
      - eapply H. exact Hfile1. }
  destruct Hcase1 as (Hb4 & bytes & Hbytes & Hobj4).
  rewrite Hfile1 in Hbytes. inversion Hbytes; subst bytes. clear Hbytes.
  rewrite Htype1, Hs3 in Hobj4.
  destruct Hu4 as ([Hd4 Hc4] & Hs4 & _).
  (* the metadata file, as the rewriting leaves it *)
  pose proof (absolutize_image_rest _ _ _ _ _ _ Habs) as (Hc5 & _ & _ & _ & _ & _ & Hs5).
  apply absolutize_image_spec in Habs as (_ & _ & Hd5).
  assert (Hfile2 : exists text,
            lookup_node (disk w5) (resolve (cwd w5) (metadata_path tokenId config))
            = Some (File text)).
  { rewrite Hc5, Hc4, Hc3, Hcwd. fold k_meta. rewrite Hmeta, lookup_node_snoc, <- Hmeta.
    destruct Hd5 as [Hd5 | (text & members & image & _ & _ & _ & _ & _ & Hd5)].
    - rewrite Hd5, Hd4, Hd3, Hdisk. rewrite lookup_insert_eq. eauto.
    - rewrite Hd5, Hc4, Hc3, Hcwd. fold k_meta. rewrite lookup_insert_eq. eauto. }
  destruct Hfile2 as (text & Hfile2).
  apply uploadToMinio_outcome in Hup2 as [Hu6 Hcase2].
  assert (Hsame : same_service (store w1) (store w5)).
  { rewrite Hs5, <- Hs3. exact Hs4. }
  destruct Hsame as (_ & Hr5 & Hv5 & Hp5).
  destruct url2 as [u2 |].
  2:{ exfalso. destruct Hcase2 as (_ & [H | [H | [H | H]]]).
      - rewrite Hv5 in H. congruence.
      - rewrite Hr5 in H. congruence.
      - rewrite Hp5 in H. congruence.
      - eapply H. exact Hfile2. }
  destruct Hcase2 as (Hb6 & text' & Htext & Hobj6).
  rewrite Hfile2 in Htext. inversion Htext; subst text'. clear Htext.
  rewrite Htype2, Hs5, Hobj4 in Hobj6.
  destruct Hu6 as ([Hd6 Hc6] & _).
  destruct Hq as (Hd2 & Hc2 & _ & _ & _ & _ & Hs2).
  assert (Hkeys : (bucket, image_key) <> (bucket, metadata_key)).
  { intros E. inversion E. }
  rewrite Hs2. split; [| split; [| split]].
  - rewrite Hb6. apply elem_of_union_l. now apply elem_of_singleton.
  - eexists. split.
    + unfold read_back, file_at. rewrite Hcwd. fold k_img.
      rewrite Hdisk, lookup_insert_ne by exact Hapart. rewrite lookup_insert_eq. reflexivity.
    + rewrite Hobj6, lookup_insert_ne by (apply not_eq_sym; exact Hkeys).
      apply lookup_insert_eq.
  - exists text. split.
    + unfold read_back, file_at. rewrite Hd2, Hd6, Hc2, Hc6.
      rewrite Hc5, Hc4, Hc3, Hcwd in Hfile2 |- *. fold k_meta in Hfile2 |- *.
      rewrite Hmeta, lookup_node_snoc, <- Hmeta in Hfile2. now rewrite Hfile2.
    + rewrite Hobj6. apply lookup_insert_eq.
  - intros key H1 H2. rewrite Hobj6.
    rewrite !lookup_insert_ne by (apply not_eq_sym; assumption). reflexivity.
Qed.

End UploadOfAPair.

Lemma demo_upload_run :
  uploadNFTToMinio demo_upload_config (Generated.imagePath demo_generated)
    (Generated.metadataPath demo_generated)
    (snd (generateNFT demo_codec (Num 7) DEFAULT_CONFIG demo_world))
  = (Return true, snd demo_upload).
Proof.
  exact (run_eq (uploadNFTToMinio demo_upload_config (Generated.imagePath demo_generated)
                   (Generated.metadataPath demo_generated))
           (snd (generateNFT demo_codec (Num 7) DEFAULT_CONFIG demo_world)) (Return true)
           ltac:(vm_compute; reflexivity)).
Qed.

Lemma upload_stores_the_generated_pair_witness :
  "nft-collection" ∈ buckets (store (snd demo_upload))
  /\ exists text,
       read_back (snd demo_upload) (Generated.metadataPath demo_generated) = Some text
       /\ objects (store (snd demo_upload)) !! ("nft-collection", "metadata/7.json")
          = Some ("application/json", text).
Proof.
  destruct (upload_stores_the_generated_pair demo_codec (Num 7) DEFAULT_CONFIG demo_world
              demo_generated (snd (generateNFT demo_codec (Num 7) DEFAULT_CONFIG demo_world))
              demo_upload_config (snd demo_upload) demo_run demo_upload_run)
    as (Hbucket & _ & Hmeta & _); try (vm_compute; reflexivity).
  split; [exact Hbucket | exact Hmeta].
Defined.


(** ** Further properties of the server actions *)

Lemma next_token_from_chain_run w :
  match supply_of (chain w) with
  | Some supply =>
      exists w', next_token_from_chain w = (Return (number_succ supply), w')
                 /\ quiet w w' /\ drawn w' = drawn w
  | None =>
      exists w', next_token_from_chain w = (Throw (Error (fetch_error (chain w))), w')
                 /\ quiet w w' /\ drawn w' = drawn w
  end.
Proof.
  unfold next_token_from_chain, supply_of, fetch_error, bind, get_world, console_log,
    console_error, console_write, throw, ret.
  cbn [chain with_console].
  destruct (chain w) as [message | z | fields].
  - eexists. split; [reflexivity |]. repeat split.
  - eexists. split; [reflexivity |]. repeat split.
  - destruct (first_defined _ fields) as [[z | s] |];
      eexists; (split; [reflexivity |]); repeat split.
Qed.

Lemma uploadNFTToMinio_result config imagePath metadataPath w r w' :
  uploadNFTToMinio config imagePath metadataPath w = (r, w') ->
  r = Return (connects config (store w)).
Proof.
  intros Hrun. destruct (uploadNFTToMinio_run config imagePath metadataPath w) as [Hyes Hno].
  destruct (connects config (store w)).
  - destruct (Hyes eq_refl) as (? & ? & ? & ? & ? & ? & ? & ? & _ & _ & _ & _ & _ & H & _).
    congruence.
  - destruct (Hno eq_refl) as (? & H & _). congruence.
Qed.

(** The upload step of the actions: its report, and what it leaves of the
    disk. *)
Lemma upload_step_run configValid announce minioConfig imagePath metadataPath w :
  exists w',
    upload_step configValid announce minioConfig imagePath metadataPath w
    = (Return (upload_status configValid minioConfig (store w)), w')
    /\ cwd w' = cwd w
    /\ (configValid = false -> w' = w)
    /\ (disk w' = disk w
        \/ rewritten minioConfig metadataPath (path_basename imagePath) w w').
Proof.
  unfold upload_step, upload_status. destruct configValid.
  2:{ exists w. split; [reflexivity |]. split; [reflexivity |]. split; [reflexivity | now left]. }
  unfold try_catch, bind at 1. cbn [console_log console_write].
  set (w0 := with_console _ w). unfold bind at 1.
  destruct (uploadNFTToMinio minioConfig imagePath metadataPath w0) as [r w1] eqn:Eup.
  pose proof (uploadNFTToMinio_result _ _ _ _ _ _ Eup) as ->.
  apply uploadNFTToMinio_spec in Eup as (Hcwd & Hdisk).
  assert (Hafter : forall c,
            cwd (with_console c w1) = cwd w
            /\ (disk (with_console c w1) = disk w
                \/ rewritten minioConfig metadataPath (path_basename imagePath) w
                     (with_console c w1))).
  { intros c. split; [exact Hcwd |].
    destruct Hdisk as [Hdisk | (text & members & image & Hread & Hrest)]; [now left |].
    right. exists text, members, image. split; [exact Hread | exact Hrest]. }
  change (store w0) with (store w).
  destruct (connects minioConfig (store w)).
  - exists w1. split; [reflexivity |]. split; [exact Hcwd |]. split; [discriminate |].
    destruct (Hafter (console w1)) as [_ H].
    destruct Hdisk as [Hdisk | Hre]; [now left | now right].
  - cbn [bind console_error console_write ret]. eexists. split; [reflexivity |].
    destruct (Hafter (console w1 ++ [(ERROR, "MinIO upload failed")])) as [Hc Hd].
    split; [exact Hc |]. split; [discriminate | exact Hd].
Qed.

Lemma log_metadata_run banner closing p w :
  exists w', log_metadata banner closing p w = (Return tt, w') /\ quiet w w'
             /\ drawn w' = drawn w.
Proof.
  unfold log_metadata, try_catch, bind, readFileSync, console_log, console_error, console_write.
  destruct (lookup_node (disk w) (resolve (cwd w) p)) as [[data |] |];
    cbn [disk cwd with_console]; eexists; (split; [reflexivity |]); repeat split.
Qed.

Lemma validateMinioConfig_run minioConfig w :
  exists configValid w',
    validateMinioConfig minioConfig w = (Return configValid, w') /\ quiet w w'
    /\ drawn w' = drawn w
    /\ (configValid = true -> MinioConfig.endPoint minioConfig <> "").
Proof.
  unfold validateMinioConfig.
  destruct (String.eqb_spec (MinioConfig.endPoint minioConfig) "");
    [eexists _, _; (split; [reflexivity |]); repeat split; discriminate |].
  repeat match goal with
         | |- context [if ?b then _ else _] => destruct b
         end;
    unfold bind, console_error, console_write, ret; eexists _, _; (split; [reflexivity |]);
    repeat split; try discriminate; auto.
Qed.

Lemma getMinioConfig_run w :
  exists minioConfig,
    getMinioConfig w = (Return minioConfig, w) /\ MinioConfig.bucketName minioConfig <> "".
Proof.
  unfold getMinioConfig, bind, env_or, ret. eexists. split; [reflexivity |].
  cbn [MinioConfig.bucketName].
  destruct (environ w !! "S3_BUCKET_NAME") as [v |]; [| discriminate].
  destruct (String.eqb_spec v ""); [discriminate | assumption].
Qed.

(** What is on the disk once the upload step has run on a generated pair:
    the output directories, the image as written, and the metadata file as
    written or as the upload rewrote it. *)
Lemma disk_after_upload_step png tokenId config w g w1 w2 configValid announce minioConfig r w3 :
  generateNFT png tokenId config w = (Return g, w1) ->
  quiet w1 w2 ->
  upload_step configValid announce minioConfig (Generated.imagePath g)
    (Generated.metadataPath g) w2 = (r, w3) ->
  cwd w3 = cwd w
  /\ exists d bytes text,
       output_dirs config w = Some d
       /\ read_back w1 (Generated.imagePath g) = Some bytes
       /\ disk w3
          = <[resolve (cwd w) (metadata_path tokenId config) := File text]>
              (<[resolve (cwd w) (image_path tokenId config) := File bytes]> d).
Proof.
  intros Hgen Hq Hup.
  apply generateNFT_Return_inv in Hgen
    as (d & attributes & w0 & Hout & _ & _ & -> & Hdisk & Hcwd).
  cbn [Generated.imagePath Generated.metadataPath] in *.
  destruct (upload_step_run configValid announce minioConfig (image_path tokenId config)
              (metadata_path tokenId config) w2) as (w3' & Hrun & Hc3 & _ & Hd3).
  rewrite Hup in Hrun. inversion Hrun; subst w3'. clear Hrun.
  destruct Hq as (Hd2 & Hc2 & _).
  split; [congruence |].
  exists d. eexists. 
  destruct Hd3 as [Hd3 | (text & members & image & _ & _ & _ & _ & _ & Hd3)].
  - eexists. split; [exact Hout |]. split.
    + unfold read_back, file_at. rewrite Hcwd, Hdisk.
      rewrite lookup_insert_ne by (apply not_eq_sym, image_and_metadata_apart).
      rewrite lookup_insert_eq. reflexivity.
    + rewrite Hd3, Hd2. exact Hdisk.
  - eexists. split; [exact Hout |]. split.
    + unfold read_back, file_at. rewrite Hcwd, Hdisk.
      rewrite lookup_insert_ne by (apply not_eq_sym, image_and_metadata_apart).
      rewrite lookup_insert_eq. reflexivity.
    + rewrite Hd3, Hd2, Hc2, Hcwd, Hdisk. now rewrite insert_insert_eq.
Qed.

(** [generateNFT] leaves the surroundings of the disk as they were. *)
Lemma generateNFT_surroundings png tokenId config w r w' :
  generateNFT png tokenId config w = (r, w') -> same_surroundings w w'.
Proof.
  intros Hrun.
  now destruct (frame_generateNFT png (cwd w)
                  [resolve (cwd w) (image_path tokenId config);
                   resolve (cwd w) (metadata_path tokenId config)] tokenId config
                  ltac:(left) ltac:(right; left) w r w' Hrun eq_refl).
Qed.

(** The two files of a token, on a disk that holds them. *)
Lemma generated_files_present tokenId config w w' d bytes text :
  cwd w' = cwd w ->
  disk w'
  = <[resolve (cwd w) (metadata_path tokenId config) := File text]>
      (<[resolve (cwd w) (image_path tokenId config) := File bytes]> d) ->
  read_back w' (image_path tokenId config) = Some bytes
  /\ read_back w' (metadata_path tokenId config) = Some text.
Proof.
  intros Hcwd Hdisk. unfold read_back, file_at. rewrite Hcwd, Hdisk. split.
  - rewrite lookup_insert_ne by (apply not_eq_sym, image_and_metadata_apart).
    now rewrite lookup_insert_eq.
  - now rewrite lookup_insert_eq.
Qed.

(** The metadata file of a generation made with the end point and the
    bucket of the object store: the upload step leaves it as written, and
    the image it names is the absolute URL. *)
Lemma upload_step_keeps_absolute_metadata png tokenId config w g w1 w2 configValid announce
    minioConfig r w3 endpoint bucket :
  NFTConfig.s3Endpoint config = Some endpoint -> endpoint <> "" ->
  NFTConfig.s3BucketName config = Some bucket -> bucket <> "" ->
  generateNFT png tokenId config w = (Return g, w1) ->
  quiet w1 w2 ->
  upload_step configValid announce minioConfig (Generated.imagePath g)
    (Generated.metadataPath g) w2 = (r, w3) ->
  disk w3 = disk w1
  /\ stored_image w3 (metadata_path tokenId config)
     = Some (JString (absolute_url endpoint bucket tokenId)).
Proof.
  intros Hep Hepne Hb Hbne Hgen Hq Hup.
  pose proof Hgen as Hinv.
  apply generateNFT_Return_inv in Hinv
    as (d & attributes & w0 & Hout & _ & _ & Hg & Hdisk & Hcwd).
  set (m := metadata_of tokenId config attributes (clock w)) in *.
  assert (Himage : NFTMetadata.image m = absolute_url endpoint bucket tokenId).
  { unfold m, metadata_of, image_reference, absolute_url, truthy.
    cbn [NFTMetadata.image]. rewrite Hep, Hb.
    destruct (String.eqb_spec endpoint ""); [contradiction |].
    destruct (String.eqb_spec bucket ""); [contradiction |]. reflexivity. }
  destruct (generated_files_present tokenId config w w1 d _ _ Hcwd Hdisk) as [_ Hread1].
  assert (Hparse : JSON_parse (stripBom (JSON_stringify (metadata_json m)))
                   = Some (metadata_json m)).
  { rewrite <- (append_nil_r (JSON_stringify _)). now apply metadata_round_trip. }
  assert (Hread2 : read_back w2 (metadata_path tokenId config)
                   = Some (JSON_stringify (metadata_json m))).
  { unfold read_back. destruct Hq as (-> & -> & _). exact Hread1. }
  assert (Hkeep : disk w3 = disk w2 /\ cwd w3 = cwd w2).
  { subst g. cbn [Generated.imagePath Generated.metadataPath] in Hup.
    destruct (upload_step_run configValid announce minioConfig (image_path tokenId config)
                (metadata_path tokenId config) w2) as (w3' & Hrun & Hc3 & _ & Hd3).
    rewrite Hup in Hrun. inversion Hrun; subst w3'. clear Hrun. split; [| exact Hc3].
    destruct Hd3 as [Hd3 | (text & members & image & Hread & Hp & Hi & _ & Hh & _)];
      [exact Hd3 |].
    exfalso. rewrite Hread2 in Hread. inversion Hread; subst text. clear Hread.
    rewrite Hparse in Hp.
    assert (Hobj : obj_get "image" members = Some (JString (NFTMetadata.image m))).
    { unfold metadata_json in Hp. inversion Hp. reflexivity. }
    assert (Eimage : image = absolute_url endpoint bucket tokenId).
    { rewrite <- Himage. congruence. }
    rewrite Eimage in Hh. discriminate. }
  destruct Hkeep as [Hd3 Hc3]. split; [destruct Hq as (E & _); congruence |].
  unfold stored_image.
  replace (read_back w3 (metadata_path tokenId config))
    with (read_back w2 (metadata_path tokenId config))
    by (unfold read_back; now rewrite Hd3, Hc3).
  rewrite Hread2, Hparse, <- Himage. reflexivity.
Qed.

Section Actions.

Variable png : codec.

(** The part of [generateAndUploadNFT] that follows the token identifier. *)
Lemma generate_and_upload_from_run configValid minioConfig nextTokenId fromBlockchain w :
  match generateNFT png nextTokenId (upload_config configValid minioConfig (cwd w)) w with
  | (Throw e, w1) =>
      generate_and_upload_from png configValid minioConfig nextTokenId fromBlockchain w
      = (Throw e, w1)
  | (Return g, w1) =>
      exists w2 w',
        quiet w1 w2 /\ drawn w2 = drawn w1
        /\ upload_step configValid "Attempting to upload to MinIO..." minioConfig
             (Generated.imagePath g) (Generated.metadataPath g) w2
           = (Return (upload_status configValid minioConfig (store w1)), w')
        /\ generate_and_upload_from png configValid minioConfig nextTokenId fromBlockchain w
           = (Return
                (let status := upload_status configValid minioConfig (store w1) in
                 let urls :=
                   match fst status with
                   | success_status => Some (getMinioUrls minioConfig nextTokenId)
                   | _ => None
                   end in
                 GenerationResult.mk true
                   ("NFT #" +:+ number_to_string nextTokenId +:+ " generated "
                    +:+ local_message (fst status) +:+ "!")
                   (Some nextTokenId)
                   (Some ("/output/images/" +:+ number_to_string nextTokenId +:+ ".png"))
                   (Some (fst status)) (Some (snd status)) None
                   (option_map fst urls) (option_map snd urls) (Some fromBlockchain)),
              w')
  end.
Proof.
  assert (Hstart : forall r w1,
            generateNFT png nextTokenId (upload_config configValid minioConfig (cwd w)) w
            = (r, w1) ->
            generate_and_upload_from png configValid minioConfig nextTokenId fromBlockchain w
            = match r with
              | Return g =>
                  (log_metadata "=== NEW NFT METADATA ===" "========================"
                     (Generated.metadataPath g) ;;
                   let* upload :=
                     upload_step configValid "Attempting to upload to MinIO..." minioConfig
                       (Generated.imagePath g) (Generated.metadataPath g) in
                   let urls :=
                     match fst upload with
                     | success_status => Some (getMinioUrls minioConfig nextTokenId)
                     | _ => None
                     end in
                   ret (GenerationResult.mk true
                          ("NFT #" +:+ number_to_string nextTokenId +:+ " generated "
                           +:+ local_message (fst upload) +:+ "!")
                          (Some nextTokenId)
                          (Some ("/output/images/" +:+ number_to_string nextTokenId +:+ ".png"))
                          (Some (fst upload)) (Some (snd upload)) None
                          (option_map fst urls) (option_map snd urls) (Some fromBlockchain)))
                    w1
              | Throw e => (Throw e, w1)
              end).
  { intros r w1 E. unfold generate_and_upload_from. unfold bind at 1. cbn [process_cwd].
    unfold bind at 1. fold (upload_config configValid minioConfig (cwd w)). rewrite E.
    destruct r; reflexivity. }
  destruct (generateNFT png nextTokenId (upload_config configValid minioConfig (cwd w)) w)
    as [[g | e] w1] eqn:Egen; rewrite (Hstart _ _ eq_refl); [| reflexivity].
  destruct (log_metadata_run "=== NEW NFT METADATA ===" "========================"
              (Generated.metadataPath g) w1) as (w2 & Hlog & Hq2 & Hd2).
  unfold bind at 1. rewrite Hlog.
  destruct (upload_step_run configValid "Attempting to upload to MinIO..." minioConfig
              (Generated.imagePath g) (Generated.metadataPath g) w2) as (w3 & Hup & _).
  assert (Hstore : store w2 = store w1) by apply Hq2. rewrite Hstore in Hup.
  unfold bind at 1. rewrite Hup. cbn [ret fst snd].
  exists w2, w3. split; [exact Hq2 |]. split; [exact Hd2 |]. split; [exact Hup |]. reflexivity.
Qed.

(** The run of [generateAndUploadNFT], by what the chain API replies and
    what [generateNFT] does. *)
Lemma generateAndUploadNFT_run w :
  exists minioConfig configValid w0,
    quiet w w0 /\ drawn w0 = drawn w
    /\ getMinioConfig w = (Return minioConfig, w)
    /\ fst (validateMinioConfig minioConfig w) = Return configValid
    /\ MinioConfig.bucketName minioConfig <> ""
    /\ (configValid = true -> MinioConfig.endPoint minioConfig <> "")
    /\ match supply_of (chain w) with
       | None =>
           exists w',
             generateAndUploadNFT png w
             = (Return (GenerationResult.mk false "Failed to get token ID from blockchain"
                          None None None (Some (fetch_error (chain w))) None None None
                          (Some false)), w')
             /\ quiet w w' /\ drawn w' = drawn w
       | Some supply =>
           generateAndUploadNFT png w
           = match generate_and_upload_from png configValid minioConfig (number_succ supply)
                     true w0 with
             | (Return res, w') => (Return res, w')
             | (Throw e, w') =>
                 (Return (GenerationResult.mk false
                            ("Error generating NFT: " +:+ exn_message e)
                            None None None (Some (exn_stack e)) None None None None),
                  with_console (console w' ++ [(ERROR, "Error generating NFT: "
                                                       +:+ exn_message e)]) w')
             end
       end.
Proof.
  assert (Hhead : exists minioConfig configValid w3,
            quiet w w3 /\ drawn w3 = drawn w
            /\ getMinioConfig w = (Return minioConfig, w)
            /\ fst (validateMinioConfig minioConfig w) = Return configValid
            /\ MinioConfig.bucketName minioConfig <> ""
            /\ (configValid = true -> MinioConfig.endPoint minioConfig <> "")
            /\ generateAndUploadNFT png w
               = match
                   match next_token_from_chain w3 with
                   | (Return nextTokenId, w4) =>
                       generate_and_upload_from png configValid minioConfig nextTokenId true w4
                   | (Throw error, w4) =>
                       (Return (GenerationResult.mk false
                                  "Failed to get token ID from blockchain"
                                  None None None (Some (exn_message error)) None None None
                                  (Some false)),
                        with_console
                          (console w4 ++ [(ERROR, "Failed to fetch total supply: "
                                                  +:+ exn_message error)]) w4)
                   end
                 with
                 | (Return res, w') => (Return res, w')
                 | (Throw e, w') =>
                     (Return (GenerationResult.mk false
                                ("Error generating NFT: " +:+ exn_message e)
                                None None None (Some (exn_stack e)) None None None None),
                      with_console (console w' ++ [(ERROR, "Error generating NFT: "
                                                           +:+ exn_message e)]) w')
                 end).
  { unfold generateAndUploadNFT, try_catch at 1.
    destruct (getMinioConfig_run w) as (minioConfig & Hcfg & Hbucket).
    unfold bind at 1. rewrite Hcfg.
    destruct (validateMinioConfig_run minioConfig w)
      as (configValid & w1 & Hval & Hq1 & Hd1 & He).
    unfold bind at 1. rewrite Hval.
    unfold bind at 1. cbn [console_log console_write].
    set (w2 := with_console _ w1).
    assert (Hq2 : quiet w w2 /\ drawn w2 = drawn w).
    { split; [eapply quiet_trans; [exact Hq1 | repeat split] | exact Hd1]. }
    unfold bind at 1.
    set (announce := if configValid then _ else ret tt).
    assert (Hann : exists w3, announce w2 = (Return tt, w3) /\ quiet w w3
                              /\ drawn w3 = drawn w).
    { unfold announce. destruct Hq2 as [Hq2 Hd2]. destruct configValid.
      - eexists. split; [reflexivity |]. split; [| exact Hd2].
        eapply quiet_trans; [exact Hq2 | repeat split].
      - eexists. split; [reflexivity |]. split; assumption. }
    destruct Hann as (w3 & Hann & Hq3 & Hd3). rewrite Hann.
    exists minioConfig, configValid, w3.
    split; [exact Hq3 |]. split; [exact Hd3 |]. split; [reflexivity |].
    split; [now rewrite Hval |]. split; [exact Hbucket |]. split; [exact He |].
    unfold bind at 1. unfold try_catch at 1. unfold bind at 1.
    destruct (next_token_from_chain w3) as [[nextTokenId | error] w4]; cbn [ret].
    - destruct (generate_and_upload_from png configValid minioConfig nextTokenId true w4)
        as [[res | e] w5]; reflexivity.
    - reflexivity. }
  destruct Hhead
    as (minioConfig & configValid & w3 & Hq3 & Hd3 & Hcfg & Hval & Hbucket & He & Hrun).
  pose proof (next_token_from_chain_run w3) as Htok.
  assert (Hchain : chain w3 = chain w) by apply Hq3. rewrite Hchain in Htok.
  destruct (supply_of (chain w)) as [supply |].
  - destruct Htok as (w4 & Htok & Hq4 & Hd4). rewrite Htok in Hrun.
    exists minioConfig, configValid, w4.
    split; [eapply quiet_trans; eauto |]. split; [congruence |].
    split; [exact Hcfg |]. split; [exact Hval |].
    split; [exact Hbucket |]. split; [exact He |]. exact Hrun.
  - destruct Htok as (w4 & Htok & Hq4 & Hd4). rewrite Htok in Hrun.
    exists minioConfig, configValid, w3.
    split; [exact Hq3 |]. split; [exact Hd3 |]. split; [exact Hcfg |]. split; [exact Hval |].
    split; [exact Hbucket |]. split; [exact He |].
    eexists. split; [exact Hrun |]. split.
    + eapply quiet_trans; [exact Hq3 |]. eapply quiet_trans; [exact Hq4 | repeat split].
    + cbn [with_console drawn]. congruence.
Qed.


Lemma next_token_from_chain_answer w w0 :
  chain w0 = chain w -> fst (next_token_from_chain w0) = fst (next_token_from_chain w).
Proof.
  intros Hchain. pose proof (next_token_from_chain_run w) as H.
  pose proof (next_token_from_chain_run w0) as H0. rewrite Hchain in H0.
  destruct (supply_of (chain w)); destruct H as (? & -> & _); destruct H0 as (? & -> & _);
    reflexivity.
Qed.



(** X14. When the total-supply request fails, or its reply holds none of the
    fields [totalSupply], [total], [supply], [count] and [value],
    [generateAndUploadNFT] returns a failure and has done nothing but print:
    no directory or file is made, no random value is taken, and the object
    store is not touched.  The result has [success: false], the message
    [Failed to get token ID from blockchain], the reason as [errorDetails]
    and [fromBlockchain: false], and no token, URL or upload status. *)
Theorem token_fetch_failure_changes_nothing w :
  supply_of (chain w) = None ->
  exists w',
    generateAndUploadNFT png w
    = (Return (GenerationResult.mk false "Failed to get token ID from blockchain"
                 None None None (Some (fetch_error (chain w))) None None None (Some false)),
       w')
    /\ quiet w w' /\ drawn w' = drawn w.
Proof.
  intros Hnone.
  destruct (generateAndUploadNFT_run w)
    as (minioConfig & configValid & w0 & _ & _ & _ & _ & _ & _ & H).
  rewrite Hnone in H. exact H.
Qed.

(** What a run of [generateAndUploadNFT] that did not fail went through. *)
Lemma generateAndUploadNFT_Return_inv w res w' :
  generateAndUploadNFT png w = (Return res, w') ->
  (GenerationResult.success res = false /\ GenerationResult.minioStatus res = None)
  \/ exists supply minioConfig configValid w0 g w1 w2,
       supply_of (chain w) = Some supply
       /\ getMinioConfig w = (Return minioConfig, w)
       /\ fst (validateMinioConfig minioConfig w) = Return configValid
       /\ MinioConfig.bucketName minioConfig <> ""
       /\ (configValid = true -> MinioConfig.endPoint minioConfig <> "")
       /\ quiet w w0
       /\ generateNFT png (number_succ supply)
            (upload_config configValid minioConfig (cwd w)) w0 = (Return g, w1)
       /\ quiet w1 w2
       /\ upload_step configValid "Attempting to upload to MinIO..." minioConfig
            (Generated.imagePath g) (Generated.metadataPath g) w2
          = (Return (upload_status configValid minioConfig (store w)), w')
       /\ res
          = (let status := upload_status configValid minioConfig (store w) in
             let urls :=
               match fst status with
               | success_status => Some (getMinioUrls minioConfig (number_succ supply))
               | _ => None
               end in
             GenerationResult.mk true
               ("NFT #" +:+ number_to_string (number_succ supply) +:+ " generated "
                +:+ local_message (fst status) +:+ "!")
               (Some (number_succ supply))
               (Some ("/output/images/" +:+ number_to_string (number_succ supply) +:+ ".png"))
               (Some (fst status)) (Some (snd status)) None
               (option_map fst urls) (option_map snd urls) (Some true)).
Proof.
  intros Hrun.
  destruct (generateAndUploadNFT_run w)
    as (minioConfig & configValid & w0 & Hq0 & _ & Hcfg & Hval & Hbucket & He & H).
  destruct (supply_of (chain w)) as [supply |] eqn:Esupply.
  2:{ destruct H as (w'' & H & _). rewrite H in Hrun. inversion Hrun. left. now split. }
  pose proof (generate_and_upload_from_run configValid minioConfig (number_succ supply) true w0)
    as Hfrom.
  assert (Hcwd : cwd w0 = cwd w) by apply Hq0. rewrite Hcwd in Hfrom.
  destruct (generateNFT png (number_succ supply)
              (upload_config configValid minioConfig (cwd w)) w0) as [[g | e] w1] eqn:Egen.
  2:{ rewrite Hfrom in H. rewrite H in Hrun. inversion Hrun. left. now split. }
  destruct Hfrom as (w2 & w3 & Hq2 & _ & Hup & Hfrom).
  rewrite Hfrom in H. rewrite H in Hrun. inversion Hrun; subst w3. clear Hrun.
  assert (Hstore : store w1 = store w).
  { apply generateNFT_surroundings in Egen. destruct Egen as (_ & _ & _ & _ & _ & E).
    destruct Hq0 as (_ & _ & _ & _ & _ & _ & E0). congruence. }
  rewrite Hstore in *.
  right. exists supply, minioConfig, configValid, w0, g, w1, w2.
  repeat (split; [first [reflexivity | assumption] |]). reflexivity.
Qed.

(** X15. A successful run of [generateAndUploadNFT] mints the token after
    the total supply, when the chain API answers with a total supply that
    is a safe integer [z] (a number, or a string that [parseInt] reads as
    [z], with [z] strictly between -2^53 and 2^53): the token identifier is
    [z + 1], [fromBlockchain] is [true], the image URL is
    [/output/images/<id>.png], and the image and the metadata file of that
    token are on the disk under [public/output] of the working directory.
    The status and the error details of the result are those of the upload
    for the configuration read from the environment: [skipped] when the
    configuration is not valid, [success] when the object store could be
    reached, [failed] otherwise. *)
Theorem minted_token_follows_the_total_supply w res w' z :
  generateAndUploadNFT png w = (Return res, w') ->
  GenerationResult.success res = true ->
  supply_of (chain w) = Some (Num z) ->
  safe_integer z ->
  exists minioConfig configValid,
    getMinioConfig w = (Return minioConfig, w)
    /\ fst (validateMinioConfig minioConfig w) = Return configValid
    /\ GenerationResult.tokenId res = Some (Num (z + 1))
    /\ GenerationResult.fromBlockchain res = Some true
    /\ GenerationResult.imageUrl res
       = Some ("/output/images/" +:+ number_to_string (Num (z + 1)) +:+ ".png")
    /\ GenerationResult.minioStatus res
       = Some (fst (upload_status configValid minioConfig (store w)))
    /\ GenerationResult.errorDetails res
       = Some (snd (upload_status configValid minioConfig (store w)))
    /\ cwd w' = cwd w
    /\ (exists bytes,
          read_back w'
            (path_join [path_join [cwd w; "public/output"]; "images";
                        number_to_string (Num (z + 1)) +:+ ".png"]) = Some bytes)
    /\ (exists text,
          read_back w'
            (path_join [path_join [cwd w; "public/output"]; "metadata";
                        number_to_string (Num (z + 1)) +:+ ".json"]) = Some text).
Proof.
  intros Hrun Hsuccess Hz _.
  apply generateAndUploadNFT_Return_inv in Hrun
    as [[E _] | (supply & minioConfig & configValid & w0 & g & w1 & w2 & Hsupply & Hcfg & Hval
                 & _ & _ & Hq0 & Hgen & Hq2 & Hup & ->)]; [congruence |].
  assert (supply = Num z) by congruence. subst supply. cbn [number_succ] in *.
  exists minioConfig, configValid.
  repeat (split; [first [reflexivity | assumption] |]).
  destruct (disk_after_upload_step _ _ _ _ _ _ _ _ _ _ _ _ Hgen Hq2 Hup)
    as (Hcwd & d & bytes & text & _ & _ & Hdisk).
  assert (Hc0 : cwd w0 = cwd w) by apply Hq0. rewrite Hc0 in Hcwd, Hdisk.
  destruct (generated_files_present (Num (z + 1))
              (upload_config configValid minioConfig (cwd w)) w w' d bytes text Hcwd Hdisk)
    as [Himg Hmeta].
  split; [exact Hcwd |]. split.
  - exists bytes. destruct configValid; exact Himg.
  - exists text. destruct configValid; exact Hmeta.
Qed.

(** X16. When [generateAndUploadNFT] reports the upload as a success, the
    image URL it returns as [minioImageUrl] is the one the metadata file of
    the token holds as its [image]: the file is generated with the absolute
    URL [https://<endPoint>/<bucketName>/images/<id>.png] and the upload
    does not write it again. *)
Theorem returned_image_url_is_the_one_in_the_metadata w res w' :
  generateAndUploadNFT png w = (Return res, w') ->
  GenerationResult.minioStatus res = Some success_status ->
  exists tokenId url,
    GenerationResult.tokenId res = Some tokenId
    /\ GenerationResult.minioImageUrl res = Some url
    /\ stored_image w'
         (path_join [path_join [cwd w; "public/output"]; "metadata";
                     number_to_string tokenId +:+ ".json"])
       = Some (JString url).
Proof.
  intros Hrun Hstatus.
  apply generateAndUploadNFT_Return_inv in Hrun
    as [[_ E] | (supply & minioConfig & configValid & w0 & g & w1 & w2 & Hsupply & Hcfg & Hval
                 & Hbucket & He & Hq0 & Hgen & Hq2 & Hup & ->)]; [congruence |].
  cbv zeta in Hstatus. cbn [GenerationResult.minioStatus] in Hstatus.
  destruct configValid; [| discriminate].
  destruct (upload_status true minioConfig (store w)) as [status details] eqn:Estatus.
  cbn [fst] in Hstatus. inversion Hstatus; subst status. clear Hstatus.
  exists (number_succ supply), (fst (getMinioUrls minioConfig (number_succ supply))).
  cbv zeta. cbn [fst snd option_map GenerationResult.tokenId GenerationResult.minioImageUrl].
  split; [reflexivity |]. split; [reflexivity |].
  destruct (upload_step_keeps_absolute_metadata png (number_succ supply)
              (upload_config true minioConfig (cwd w)) w0 g w1 w2 true _ minioConfig _ w'
              (MinioConfig.endPoint minioConfig) (MinioConfig.bucketName minioConfig)
              eq_refl (He eq_refl) eq_refl Hbucket Hgen Hq2 Hup) as [_ Hstored].
  assert (Hc0 : cwd w0 = cwd w) by apply Hq0.
  exact Hstored.
Qed.

End Actions.

Lemma token_fetch_failure_changes_nothing_witness :
  fst (generateAndUploadNFT demo_codec demo_world_offline)
  = Return (GenerationResult.mk false "Failed to get token ID from blockchain"
              None None None (Some "fetch failed") None None None (Some false))
  /\ disk (snd (generateAndUploadNFT demo_codec demo_world_offline)) = disk demo_world_offline.
Proof.
  destruct (token_fetch_failure_changes_nothing demo_codec demo_world_offline eq_refl)
    as (w' & Hrun & Hq & _).
  rewrite Hrun. cbn [fst snd]. split; [reflexivity | apply Hq].
Defined.

Lemma minted_token_follows_the_total_supply_witness :
  exists res,
    fst (generateAndUploadNFT demo_codec demo_world) = Return res
    /\ GenerationResult.tokenId res = Some (Num 7)
    /\ GenerationResult.minioStatus res = Some skipped_status
    /\ exists bytes,
         read_back (snd (generateAndUploadNFT demo_codec demo_world))
           "/app/public/output/images/7.png" = Some bytes.
Proof.
  pose (res := match fst (generateAndUploadNFT demo_codec demo_world) with
               | Return res => res
               | Throw _ => GenerationResult.mk false "" None None None None None None None None
               end).
  assert (H : fst (generateAndUploadNFT demo_codec demo_world) = Return res)
    by (vm_compute; reflexivity).
  assert (Hsuccess : GenerationResult.success res = true) by (vm_compute; reflexivity).
  assert (Hsafe : safe_integer 6) by (unfold safe_integer; lia).
  destruct (minted_token_follows_the_total_supply demo_codec demo_world res _ 6
              (run_eq (generateAndUploadNFT demo_codec) demo_world (Return res) H)
              Hsuccess eq_refl Hsafe)
    as (minioConfig & configValid & Hcfg & Hval & Hid & _ & _ & Hstatus & _ & _ & Himg & _).
  assert (configValid = false) by (inversion Hcfg; subst; vm_compute in Hval; congruence).
  subst configValid.
  exists res. split; [exact H |]. split; [exact Hid |]. split; [exact Hstatus |].
  exact Himg.
Defined.

Lemma returned_image_url_is_the_one_in_the_metadata_witness :
  exists res,
    fst (generateAndUploadNFT demo_codec demo_world_s3) = Return res
    /\ GenerationResult.minioImageUrl res
       = Some "https://minio.example.com/nft-collection/images/7.png"
    /\ stored_image (snd (generateAndUploadNFT demo_codec demo_world_s3))
         "/app/public/output/metadata/7.json"
       = Some (JString "https://minio.example.com/nft-collection/images/7.png").
Proof.
  pose (res := match fst (generateAndUploadNFT demo_codec demo_world_s3) with
               | Return res => res
               | Throw _ => GenerationResult.mk false "" None None None None None None None None
               end).
  assert (Hrun : generateAndUploadNFT demo_codec demo_world_s3
                 = (Return res, snd (generateAndUploadNFT demo_codec demo_world_s3))).
  { apply run_eq. vm_compute. reflexivity. }
  assert (Hstatus : GenerationResult.minioStatus res = Some success_status)
    by (vm_compute; reflexivity).
  destruct (returned_image_url_is_the_one_in_the_metadata demo_codec demo_world_s3 res _ Hrun
              Hstatus) as (tokenId & url & Hid & Hurl & Hstored).
  assert (tokenId = Num 7) by (vm_compute in Hid; congruence). subst tokenId.
  assert (url = "https://minio.example.com/nft-collection/images/7.png")
    by (vm_compute in Hurl; congruence).
  subst url.
  exists res. split; [now rewrite Hrun |]. split; [exact Hurl |]. exact Hstored.
Defined.


(** ** The folder name of a collection *)

Lemma folder_char_ascii c :
  is_folder_char c = true ->
  is_ws1 c = false /\ (forall c2, is_ws2 c c2 = false)
  /\ (forall c2 c3, is_ws3 c c2 c3 = false)
  /\ lower_char c = c
  /\ Ascii.eqb c "/"%char = false /\ Ascii.eqb c "."%char = false.
Proof.
  destruct c as [[] [] [] [] [] [] [] []]; intros H; vm_compute in H; try discriminate H;
    repeat split; intros; reflexivity.
Qed.

Lemma keep_chars_all p s : all_chars p (keep_chars p s) = true.
Proof.
  induction s as [| c s IH]; [reflexivity |]. cbn [keep_chars].
  destruct (p c) eqn:E; [| exact IH]. cbn [all_chars]. now rewrite E, IH.
Qed.

Lemma keep_chars_fixed p s : all_chars p s = true -> keep_chars p s = s.
Proof.
  induction s as [| c s IH]; [reflexivity |]. cbn [all_chars keep_chars].
  intros H. apply andb_prop in H as [Hc Hs]. now rewrite Hc, IH.
Qed.

Lemma toLowerCase_folder s : all_chars is_folder_char s = true -> toLowerCase s = s.
Proof.
  induction s as [| c s IH]; [reflexivity |]. cbn [all_chars toLowerCase].
  intros H. apply andb_prop in H as [Hc Hs].
  destruct (folder_char_ascii c Hc) as (_ & _ & _ & -> & _). now rewrite IH.
Qed.

Lemma trim_start_solid c s :
  is_ws1 c = false -> (forall c2, is_ws2 c c2 = false) ->
  (forall c2 c3, is_ws3 c c2 c3 = false) ->
  trim_start (String c s) = String c s.
Proof.
  intros H1 H2 H3. destruct s as [| c2 [| c3 s3]]; cbn [trim_start]; rewrite H1; try reflexivity;
    rewrite H2; try reflexivity. now rewrite H3.
Qed.

Lemma trim_start_folder s : all_chars is_folder_char s = true -> trim_start s = s.
Proof.
  destruct s as [| c s]; [reflexivity |]. cbn [all_chars]. intros H.
  apply andb_prop in H as [Hc _].
  destruct (folder_char_ascii c Hc) as (H1 & H2 & H3 & _). now apply trim_start_solid.
Qed.

Lemma trim_end_cons c s :
  trim_end (String c s)
  = if String.eqb (trim_start (String c s)) "" then "" else String c (trim_end s).
Proof. reflexivity. Qed.

Lemma trim_end_folder s : all_chars is_folder_char s = true -> trim_end s = s.
Proof.
  induction s as [| c s IH]; [reflexivity |]. intros H.
  rewrite trim_end_cons, (trim_start_folder _ H).
  cbn [all_chars] in H. apply andb_prop in H as [_ Hs]. rewrite (IH Hs). reflexivity.
Qed.

Lemma dash_white_space_solid in_run c s :
  is_ws1 c = false -> (forall c2, is_ws2 c c2 = false) ->
  (forall c2 c3, is_ws3 c c2 c3 = false) ->
  dash_white_space in_run (String c s) = String c (dash_white_space false s).
Proof.
  intros H1 H2 H3.
  change (dash_white_space in_run (String c s))
    with (let dash := if in_run then "" else "-" in
          if is_ws1 c then dash +:+ dash_white_space true s
          else match s with
               | String c2 s2 =>
                   if is_ws2 c c2 then dash +:+ dash_white_space true s2
                   else match s2 with
                        | String c3 s3 =>
                            if is_ws3 c c2 c3 then dash +:+ dash_white_space true s3
                            else String c (dash_white_space false s)
                        | EmptyString => String c (dash_white_space false s)
                        end
               | EmptyString => String c (dash_white_space false s)
               end).
  cbv zeta. rewrite H1. destruct s as [| c2 [| c3 s3]]; try reflexivity;
    rewrite H2; try reflexivity. now rewrite H3.
Qed.

Lemma dash_white_space_folder s :
  all_chars is_folder_char s = true -> dash_white_space false s = s.
Proof.
  induction s as [| c s IH]; [reflexivity |]. cbn [all_chars]. intros H.
  apply andb_prop in H as [Hc Hs].
  destruct (folder_char_ascii c Hc) as (H1 & H2 & H3 & _).
  rewrite dash_white_space_solid by assumption. now rewrite IH.
Qed.

Lemma folder_name_chars collectionName :
  all_chars is_folder_char (folder_name_of collectionName) = true.
Proof. apply keep_chars_all. Qed.

Lemma folder_chars_fixed s : all_chars is_folder_char s = true -> folder_name_of s = s.
Proof.
  intros H. unfold folder_name_of, trim.
  rewrite (trim_start_folder _ H), (trim_end_folder _ H), (toLowerCase_folder _ H),
    (dash_white_space_folder _ H).
  now apply keep_chars_fixed.
Qed.

Lemma folder_chars_plain s : all_chars is_folder_char s = true -> s <> "" -> plain_name s = true.
Proof.
  intros H Hne. unfold plain_name.
  assert (Hslash : all_chars (fun c => negb (Ascii.eqb c "/"%char)) s = true).
  { eapply all_chars_impl; [| exact H]. intros c Hc.
    destruct (folder_char_ascii c Hc) as (_ & _ & _ & _ & -> & _). reflexivity. }
  rewrite Hslash, andb_true_r.
  destruct s as [| c s]; [contradiction |]. cbn [all_chars] in H.
  apply andb_prop in H as [Hc _].
  destruct (folder_char_ascii c Hc) as (_ & _ & _ & _ & _ & Hdot).
  assert (Hc' : c <> "."%char) by (intros ->; discriminate).
  unfold is_noop_segment.
  destruct (String.eqb_spec (String c s) "") as [E | _]; [discriminate |].
  destruct (String.eqb_spec (String c s) ".") as [E | _]; [inversion E; contradiction |].
  destruct (String.eqb_spec (String c s) "..") as [E | _]; [inversion E; contradiction |].
  reflexivity.
Qed.

Lemma folder_name_plain collectionName :
  folder_name_of collectionName <> "" -> plain_name (folder_name_of collectionName) = true.
Proof. apply folder_chars_plain, folder_name_chars. Qed.

(** X17. The folder name [createNewCollection] makes of a collection name
    holds nothing but the lower-case letters [a] to [z], digits and dashes,
    whatever the name.  So when it is not empty it is a single path
    segment: not [.] or [..] and without a slash, it names an entry directly
    below [public/collections].  A name that is already of that form is
    its own folder name, so making the folder name of a folder name changes
    nothing. *)
Theorem folder_name_is_a_single_safe_segment collectionName :
  all_chars is_folder_char (folder_name_of collectionName) = true
  /\ (folder_name_of collectionName <> "" -> plain_name (folder_name_of collectionName) = true)
  /\ (all_chars is_folder_char collectionName = true ->
      folder_name_of collectionName = collectionName)
  /\ folder_name_of (folder_name_of collectionName) = folder_name_of collectionName.
Proof.
  split; [apply folder_name_chars |]. split; [apply folder_name_plain |].
  split; [apply folder_chars_fixed |]. apply folder_chars_fixed, folder_name_chars.
Qed.

(** ** What the actions may touch *)

Lemma touches_only_refl wd keys w : touches_only wd keys w w.
Proof. intros Hwd. split; [exact Hwd | intros; apply kept_entry_refl]. Qed.

Lemma touches_only_trans wd keys w1 w2 w3 :
  touches_only wd keys w1 w2 -> touches_only wd keys w2 w3 -> touches_only wd keys w1 w3.
Proof.
  intros H12 H23 Hwd. destruct (H12 Hwd) as [C12 K12]. destruct (H23 C12) as [C23 K23].
  split; [exact C23 |]. intros k Hk. eapply kept_entry_trans; eauto.
Qed.

Lemma touches_of_writes {A} wd keys (m : M A) :
  preserves (only_writes wd keys) m -> preserves (touches_only wd keys) m.
Proof.
  intros H w r w' Hrun Hwd. destruct (H w r w' Hrun Hwd) as [(Hc & _) Hk].
  split; [congruence | exact Hk].
Qed.

(** A computation that reads the working directory first. *)
Lemma touches_with_cwd {A} wd keys (k : string -> M A) :
  preserves (touches_only wd keys) (k wd) ->
  preserves (touches_only wd keys) (bind process_cwd k).
Proof.
  intros H w r w' Hrun Hwd. unfold bind, process_cwd in Hrun. rewrite Hwd in Hrun.
  exact (H w r w' Hrun Hwd).
Qed.

(** A step whose results all have a property the rest relies on. *)
Lemma preserves_bind_with {A B} (R : world -> world -> Prop) (P : A -> Prop)
    (m : M A) (k : A -> M B) :
  (forall w1 w2 w3, R w1 w2 -> R w2 w3 -> R w1 w3) ->
  (forall w a w', m w = (Return a, w') -> P a) ->
  preserves R m -> (forall a, P a -> preserves R (k a)) -> preserves R (bind m k).
Proof.
  intros R_trans HP Hm Hk w r w' H. unfold bind in H. destruct (m w) as [[a | e] w1] eqn:E.
  - eapply R_trans; [eapply Hm | eapply Hk]; eauto.
  - inversion H; subst. eapply Hm; eauto.
Qed.

Lemma touches_upload_step wd keys configValid announce minioConfig imagePath metadataPath :
  resolve wd metadataPath ∈ keys ->
  preserves (touches_only wd keys)
    (upload_step configValid announce minioConfig imagePath metadataPath).
Proof.
  intros Hkey w r w' Hrun Hwd.
  destruct (upload_step_run configValid announce minioConfig imagePath metadataPath w)
    as (w'' & Hrun' & Hcwd & _ & Hdisk).
  rewrite Hrun in Hrun'. inversion Hrun'; subst w''. clear Hrun'.
  split; [congruence |]. intros k Hk. left.
  destruct Hdisk as [-> | (text & members & image & _ & _ & _ & _ & _ & ->)]; [reflexivity |].
  apply lookup_insert_ne. rewrite Hwd. intros <-. contradiction.
Qed.

Lemma frame_getMinioConfig wd keys : preserves (only_writes wd keys) getMinioConfig.
Proof. unfold getMinioConfig. frame. Qed.

Lemma frame_validateMinioConfig wd keys minioConfig :
  preserves (only_writes wd keys) (validateMinioConfig minioConfig).
Proof. unfold validateMinioConfig, console_error. frame. Qed.

Lemma frame_log_metadata wd keys banner closing p :
  preserves (only_writes wd keys) (log_metadata banner closing p).
Proof. unfold log_metadata, console_log, console_error. frame. Qed.

Lemma frame_getLastNFTNumber wd keys outputDir :
  preserves (only_writes wd keys) (getLastNFTNumber outputDir).
Proof. unfold getLastNFTNumber, console_error. frame. Qed.

(** The paths of a generated pair. *)
Lemma generateNFT_paths png tokenId config w g w' :
  generateNFT png tokenId config w = (Return g, w') ->
  Generated.imagePath g = image_path tokenId config
  /\ Generated.metadataPath g = metadata_path tokenId config.
Proof.
  intros H. apply generateNFT_Return_inv in H as (d & attributes & w0 & _ & _ & _ & -> & _).
  split; reflexivity.
Qed.

(** An action that catches what is thrown and reports it answers. *)
Lemma caught_action_answers {A} (m : M A) (text : exn -> string) (answer : exn -> A) w :
  exists res w',
    try_catch m (fun error => console_error (text error) ;; ret (answer error)) w
    = (Return res, w').
Proof.
  unfold try_catch. destruct (m w) as [[a | e] w1]; [now eexists _, _ |].
  unfold bind, console_error, console_write, ret. now eexists _, _.
Qed.

Lemma try_catch_inv_Return {A} (m : M A) (h : exn -> M A) w res w' :
  try_catch m h w = (Return res, w') ->
  m w = (Return res, w') \/ exists e w1, m w = (Throw e, w1) /\ h e w1 = (Return res, w').
Proof.
  unfold try_catch. destruct (m w) as [[a | e] w1]; intros H; [now left | right; eauto].
Qed.

(** ** The paths of a collection *)

Lemma resolve_path_join_one wd p : resolve wd (path_join [p]) = resolve wd p.
Proof.
  rewrite resolve_path_join.
  destruct (String.eqb_spec p "") as [-> | Hp]; [reflexivity |].
  rewrite filter_cons_True; [reflexivity |].
  destruct (String.eqb_spec p ""); [contradiction | exact I].
Qed.

Lemma collection_paths wd folder tokenId config :
  NFTConfig.outputDir config = path_join [wd; "public/collections"; folder] ->
  plain_name folder = true ->
  resolve wd (image_path tokenId config)
  = collection_key wd folder ["images"; number_to_string tokenId +:+ ".png"]
  /\ resolve wd (metadata_path tokenId config)
     = collection_key wd folder ["metadata"; number_to_string tokenId +:+ ".json"].
Proof.
  intros Hout Hplain.
  destruct (images_and_metadata_dirs wd config tokenId) as (_ & _ & Himg & Hmeta).
  cbv zeta in Himg, Hmeta. rewrite Himg, Hmeta, Hout, resolve_path_join_one.
  change [wd; "public/collections"; folder] with ([wd; "public/collections"] ++ [folder]).
  rewrite (resolve_path_join_snoc wd [wd; "public/collections"] folder Hplain).
  unfold collection_key. rewrite <- !app_assoc. split; reflexivity.
Qed.

(** ** [createNewCollection] *)

Lemma getMinioConfig_environ w w0 :
  environ w0 = environ w -> fst (getMinioConfig w0) = fst (getMinioConfig w).
Proof. intros H. unfold getMinioConfig, bind, env_or, ret. cbn [fst]. now rewrite H. Qed.

Lemma validateMinioConfig_answer minioConfig w w0 :
  fst (validateMinioConfig minioConfig w0) = fst (validateMinioConfig minioConfig w).
Proof.
  unfold validateMinioConfig.
  repeat match goal with
         | |- context [if ?b then _ else _] => destruct b
         end; reflexivity.
Qed.

(** The configuration and its check, read in a world whose environment is
    that of [w]. *)
Lemma configuration_read w w0 :
  environ w0 = environ w ->
  exists minioConfig configValid w1,
    getMinioConfig w0 = (Return minioConfig, w0)
    /\ validateMinioConfig minioConfig w0 = (Return configValid, w1)
    /\ quiet w0 w1
    /\ getMinioConfig w = (Return minioConfig, w)
    /\ fst (validateMinioConfig minioConfig w) = Return configValid.
Proof.
  intros Henv. destruct (getMinioConfig_run w0) as (minioConfig & Hcfg & _).
  destruct (validateMinioConfig_run minioConfig w0) as (configValid & w1 & Hval & Hq & _).
  exists minioConfig, configValid, w1.
  split; [exact Hcfg |]. split; [exact Hval |]. split; [exact Hq |]. split.
  - destruct (getMinioConfig_run w) as (c & Hc & _).
    pose proof (getMinioConfig_environ w w0 Henv) as E. rewrite Hcfg, Hc in E. cbn in E.
    congruence.
  - rewrite (validateMinioConfig_answer minioConfig w0 w), Hval. reflexivity.
Qed.

Section Collections.

Variable png : codec.

Lemma touches_createNewCollection collectionName wd :
  preserves
    (touches_only wd
       [resolve wd (image_path (Num 1) (new_collection_config wd collectionName));
        resolve wd (metadata_path (Num 1) (new_collection_config wd collectionName))])
    (createNewCollection png collectionName).
Proof.
  unfold createNewCollection. apply preserves_try; [apply touches_only_trans | |].
  2:{ intros e. apply touches_of_writes. unfold console_error. frame. }
  destruct (String.eqb (folder_name_of collectionName) "");
    [apply preserves_ret; apply touches_only_refl |].
  apply touches_with_cwd.
  apply preserves_bind;
    [apply touches_only_trans | apply touches_of_writes, frame_ensureDirSync | intros _].
  apply preserves_bind;
    [apply touches_only_trans | apply touches_of_writes, frame_ensureDirSync | intros _].
  apply preserves_bind;
    [apply touches_only_trans | apply touches_of_writes, frame_console_write | intros _].
  apply (preserves_bind_with _
           (fun g => Generated.metadataPath g
                     = metadata_path (Num 1) (new_collection_config wd collectionName)));
    [apply touches_only_trans
    | intros w g w' H; now apply generateNFT_paths in H
    | apply touches_of_writes, frame_generateNFT; [left | right; left]
    | intros g Hmeta].
  apply preserves_bind;
    [apply touches_only_trans | apply touches_of_writes, frame_log_metadata | intros _].
  apply preserves_bind;
    [apply touches_only_trans | apply touches_of_writes, frame_getMinioConfig
    | intros minioConfig].
  apply preserves_bind;
    [apply touches_only_trans | apply touches_of_writes, frame_validateMinioConfig
    | intros configValid].
  apply preserves_bind;
    [apply touches_only_trans
    | apply touches_upload_step; rewrite Hmeta; right; left
    | intros upload].
  apply preserves_ret, touches_only_refl.
Qed.

Lemma createNewCollection_empty collectionName w :
  folder_name_of collectionName = "" ->
  createNewCollection png collectionName w
  = (Return (GenerationResult.mk false "Invalid collection name. Please provide a valid name."
               None None None
               (Some "Collection name resulted in an empty folder name after sanitization.")
               None None None None), w).
Proof. intros H. unfold createNewCollection, try_catch. rewrite H. reflexivity. Qed.

(** X18. [createNewCollection] always answers with a result, and whatever
    the result it writes at two paths only: the image and the metadata file
    of token 1 in the folder of the collection, below [public/collections]
    of the working directory.  Every other entry of the disk is as it was,
    the layer images and the files of other collections included, except
    that directories may have appeared where nothing was.  When the folder
    name comes out empty the action fails and nothing at all has changed,
    the console included. *)
Theorem createNewCollection_writes_only_its_first_token collectionName w :
  exists res w',
    createNewCollection png collectionName w = (Return res, w')
    /\ cwd w' = cwd w
    /\ (forall k,
          k <> collection_key (cwd w) (folder_name_of collectionName) ["images"; "1.png"] ->
          k <> collection_key (cwd w) (folder_name_of collectionName) ["metadata"; "1.json"] ->
          kept_entry (disk w) (disk w') k)
    /\ (folder_name_of collectionName = "" ->
        w' = w /\ GenerationResult.success res = false).
Proof.
  destruct (String.eqb_spec (folder_name_of collectionName) "") as [Hempty | Hfolder].
  { eexists _, _. split; [apply (createNewCollection_empty _ _ Hempty) |].
    split; [reflexivity |]. split; [intros; apply kept_entry_refl | now split]. }
  assert (Hanswers : exists res w',
            createNewCollection png collectionName w = (Return res, w')).
  { unfold createNewCollection. apply caught_action_answers. }
  destruct Hanswers as (res & w' & Hrun).
  exists res, w'. split; [exact Hrun |].
  destruct (touches_createNewCollection collectionName (cwd w) w _ w' Hrun eq_refl)
    as [Hcwd Hkept].
  split; [exact Hcwd |]. split; [| contradiction].
  destruct (collection_paths (cwd w) (folder_name_of collectionName) (Num 1)
              (new_collection_config (cwd w) collectionName) eq_refl
              (folder_name_plain _ Hfolder)) as [Himg Hmeta].
  intros k H1 H2. apply Hkept. rewrite Himg, Hmeta.
  intros Hin. apply elem_of_cons in Hin as [-> | Hin]; [now apply H1 |].
  apply list_elem_of_singleton in Hin. subst k. now apply H2.
Qed.

(** What a run of [createNewCollection] that succeeded went through. *)
Lemma createNewCollection_Return_inv collectionName w res w' :
  createNewCollection png collectionName w = (Return res, w') ->
  GenerationResult.success res = true ->
  let folderName := folder_name_of collectionName in
  let config := new_collection_config (cwd w) collectionName in
  exists d wa g w1 w2 minioConfig configValid,
    folderName <> ""
    /\ output_dirs config w = Some d
    /\ quiet (with_disk d w) wa
    /\ generateNFT png (Num 1) config wa = (Return g, w1)
    /\ quiet w1 w2
    /\ getMinioConfig w = (Return minioConfig, w)
    /\ fst (validateMinioConfig minioConfig w) = Return configValid
    /\ upload_step configValid
         ("Attempting to upload to MinIO in collection: " +:+ folderName +:+ "...")
         (collection_minio_config minioConfig folderName)
         (Generated.imagePath g) (Generated.metadataPath g) w2
       = (Return (upload_status configValid (collection_minio_config minioConfig folderName)
                    (store w)), w')
    /\ res
       = (let status :=
            upload_status configValid (collection_minio_config minioConfig folderName)
              (store w) in
          GenerationResult.mk true
            ("New collection " +:+ DQ +:+ collectionName +:+ DQ +:+ " created with NFT #"
             +:+ number_to_string (Num 1) +:+ " " +:+ local_message (fst status) +:+ "!")
            (Some (Num 1))
            (Some ("/collections/" +:+ folderName +:+ "/images/"
                   +:+ number_to_string (Num 1) +:+ ".png"))
            (Some (fst status)) (Some (snd status)) (Some folderName) None None None).
Proof.
  intros Hrun Hsuccess folderName config. unfold createNewCollection in Hrun.
  apply try_catch_inv_Return in Hrun as [Hrun | (e & w1 & _ & Hh)].
  2:{ unfold bind, console_error, console_write, ret in Hh. inversion Hh; subst res.
      discriminate Hsuccess. }
  cbv zeta in Hrun. fold folderName in Hrun.
  destruct (String.eqb_spec folderName "") as [E | Hfolder].
  { inversion Hrun; subst res. discriminate Hsuccess. }
  apply bind_inv_Return in Hrun as (wd & w0 & Hwd & Hrun). inversion Hwd; subst wd w0. clear Hwd.
  fold folderName in Hrun.
  apply bind_inv_Return in Hrun as ([] & wA & Hdir1 & Hrun).
  apply bind_inv_Return in Hrun as ([] & wB & Hdir2 & Hrun).
  unfold ensureDirSync in Hdir1.
  destruct (make_dirs [] _ (disk w)) as [d1 |] eqn:E1;
    [| destruct (disk w !! _) as [[? |] |]; discriminate].
  inversion Hdir1; subst wA. clear Hdir1.
  unfold ensureDirSync in Hdir2. cbn [with_disk cwd disk] in Hdir2.
  destruct (make_dirs [] _ d1) as [d2 |] eqn:E2;
    [| destruct (d1 !! _) as [[? |] |]; discriminate].
  inversion Hdir2; subst wB. clear Hdir2.
  assert (Hout : output_dirs config w = Some d2).
  { unfold output_dirs, config, new_collection_config. cbn [NFTConfig.outputDir with_outputDir].
    fold folderName. rewrite E1. exact E2. }
  apply bind_inv_Return in Hrun as ([] & wa & Hlog & Hrun).
  inversion Hlog; subst wa. clear Hlog.
  set (wa := with_console _ _) in Hrun.
  assert (Hqa : quiet (with_disk d2 w) wa) by (repeat split).
  apply bind_inv_Return in Hrun as (g & w1 & Hgen & Hrun).
  change (generateNFT png (Num 1) config wa = (Return g, w1)) in Hgen.
  apply bind_inv_Return in Hrun as ([] & w2 & Hlogm & Hrun).
  destruct (log_metadata_run "=== NEW COLLECTION NFT METADATA ==="
              "==================================" (Generated.metadataPath g) w1)
    as (w2' & H & Hq2 & _).
  rewrite Hlogm in H. inversion H; subst w2'. clear H Hlogm.
  pose proof (generateNFT_surroundings _ _ _ _ _ _ Hgen) as (_ & _ & _ & Henv1 & _ & Hstore1).
  assert (Henv2 : environ w2 = environ w).
  { destruct Hq2 as (_ & _ & _ & _ & -> & _). rewrite Henv1. reflexivity. }
  assert (Hstore2 : store w2 = store w).
  { destruct Hq2 as (_ & _ & _ & _ & _ & _ & ->). rewrite Hstore1. reflexivity. }
  destruct (configuration_read w w2 Henv2)
    as (minioConfig & configValid & w3 & Hcfg & Hval & Hq3 & Hcfg0 & Hval0).
  apply bind_inv_Return in Hrun as (minioConfig' & w2' & Hcfg' & Hrun).
  rewrite Hcfg in Hcfg'. inversion Hcfg'; subst minioConfig' w2'. clear Hcfg'.
  apply bind_inv_Return in Hrun as (configValid' & w3' & Hval' & Hrun).
  rewrite Hval in Hval'. inversion Hval'; subst configValid' w3'. clear Hval'.
  apply bind_inv_Return in Hrun as (upload & w4 & Hup & Hrun).
  fold (collection_minio_config minioConfig folderName) in Hup.
  destruct (upload_step_run configValid
              ("Attempting to upload to MinIO in collection: " +:+ folderName +:+ "...")
              (collection_minio_config minioConfig folderName)
              (Generated.imagePath g) (Generated.metadataPath g) w3) as (w4' & Hup' & _).
  rewrite Hup in Hup'. inversion Hup'; subst upload w4'. clear Hup'.
  assert (Hstore3 : store w3 = store w).
  { destruct Hq3 as (_ & _ & _ & _ & _ & _ & ->). exact Hstore2. }
  rewrite Hstore3 in *.
  inversion Hrun; subst res w4. clear Hrun.
  exists d2, wa, g, w1, w3, minioConfig, configValid.
  split; [exact Hfolder |]. split; [exact Hout |]. split; [exact Hqa |]. split; [exact Hgen |].
  split; [eapply quiet_trans; eauto |]. split; [exact Hcfg0 |]. split; [exact Hval0 |].
  split; [exact Hup |]. reflexivity.
Qed.

(** X19. A successful [createNewCollection] starts the collection at token
    1: the folder name is not empty and is returned as [folderName], the
    token identifier is 1, the image URL is
    [/collections/<folder>/images/1.png], and the image and the metadata
    file of token 1 are on the disk in the folder of the collection.  The
    upload status is that of the upload with the configuration read from
    the environment, its bucket name extended by [/collections/<folder>]. *)
Theorem createNewCollection_starts_at_token_one collectionName w res w' :
  createNewCollection png collectionName w = (Return res, w') ->
  GenerationResult.success res = true ->
  let folderName := folder_name_of collectionName in
  folderName <> ""
  /\ GenerationResult.folderName res = Some folderName
  /\ GenerationResult.tokenId res = Some (Num 1)
  /\ GenerationResult.imageUrl res = Some ("/collections/" +:+ folderName +:+ "/images/1.png")
  /\ (exists bytes,
        file_at (disk w') (collection_key (cwd w) folderName ["images"; "1.png"]) = Some bytes)
  /\ (exists text,
        file_at (disk w') (collection_key (cwd w) folderName ["metadata"; "1.json"])
        = Some text)
  /\ exists minioConfig configValid,
       getMinioConfig w = (Return minioConfig, w)
       /\ fst (validateMinioConfig minioConfig w) = Return configValid
       /\ GenerationResult.minioStatus res
          = Some (fst (upload_status configValid
                         (collection_minio_config minioConfig folderName) (store w))).
Proof.
  intros Hrun Hsuccess folderName.
  destruct (createNewCollection_Return_inv collectionName w res w' Hrun Hsuccess)
    as (d & wa & g & w1 & w2 & minioConfig & configValid & Hfolder & Hout & Hqa & Hgen & Hq2
        & Hcfg & Hval & Hup & ->).
  fold folderName in Hfolder, Hup.
  split; [exact Hfolder |]. split; [reflexivity |]. split; [reflexivity |].
  split; [reflexivity |].
  destruct (disk_after_upload_step _ _ _ _ _ _ _ _ _ _ _ _ Hgen Hq2 Hup)
    as (Hcwd & d' & bytes & text & _ & _ & Hdisk).
  assert (Hca : cwd wa = cwd w) by apply Hqa. rewrite Hca in Hcwd, Hdisk.
  destruct (collection_paths (cwd w) folderName (Num 1)
              (new_collection_config (cwd w) collectionName) eq_refl
              (folder_name_plain _ Hfolder)) as [Himg Hmeta].
  change (number_to_string (Num 1) +:+ ".png") with "1.png" in Himg.
  change (number_to_string (Num 1) +:+ ".json") with "1.json" in Hmeta.
  rewrite Himg, Hmeta in Hdisk.
  split; [| split].
  - exists bytes. unfold file_at. rewrite Hdisk.
    rewrite lookup_insert_ne by (unfold collection_key; intros E; apply app_inv_head in E;
                                 discriminate).
    now rewrite lookup_insert_eq.
  - exists text. unfold file_at. rewrite Hdisk. now rewrite lookup_insert_eq.
  - exists minioConfig, configValid. split; [exact Hcfg |]. split; [exact Hval |]. reflexivity.
Qed.

End Collections.

Lemma createNewCollection_starts_at_token_one_witness :
  exists res,
    fst (createNewCollection demo_codec "My Dogs!" demo_world_s3) = Return res
    /\ GenerationResult.folderName res = Some "my-dogs"
    /\ GenerationResult.tokenId res = Some (Num 1)
    /\ exists bytes,
         file_at (disk (snd (createNewCollection demo_codec "My Dogs!" demo_world_s3)))
           ["app"; "public"; "collections"; "my-dogs"; "images"; "1.png"] = Some bytes.
Proof.
  pose (res := match fst (createNewCollection demo_codec "My Dogs!" demo_world_s3) with
               | Return res => res
               | Throw _ => GenerationResult.mk false "" None None None None None None None None
               end).
  assert (Hrun : createNewCollection demo_codec "My Dogs!" demo_world_s3
                 = (Return res, snd (createNewCollection demo_codec "My Dogs!" demo_world_s3))).
  { apply run_eq. vm_compute. reflexivity. }
  assert (Hsuccess : GenerationResult.success res = true) by (vm_compute; reflexivity).
  destruct (createNewCollection_starts_at_token_one demo_codec "My Dogs!" demo_world_s3 res _
              Hrun Hsuccess) as (_ & Hfolder & Hid & _ & Himg & _).
  exists res. split; [now rewrite Hrun |]. split; [exact Hfolder |]. split; [exact Hid |].
  exact Himg.
Defined.


(** ** [generateNFTForCollection] *)

(** The number [getLastNFTNumber] answers before a generation that
    succeeds in the same output directory: the image directory could be
    made, and the number is the largest read off its listing, or 0. *)
Lemma last_number_before_generation png outputDir w last wl w0 tokenId config g w1 :
  NFTConfig.outputDir config = outputDir ->
  getLastNFTNumber outputDir w = (Return last, wl) ->
  quiet wl w0 ->
  generateNFT png tokenId config w0 = (Return g, w1) ->
  let k := resolve (cwd w) (path_join [outputDir; "images"]) in
  let numbers := token_numbers (children (disk w) k) in
  exists n,
    last = Num n
    /\ cwd wl = cwd w
    /\ (forall key, kept_entry (disk w) (disk wl) key)
    /\ (forall key, (length k < length key)%nat -> disk wl !! key = disk w !! key)
    /\ (numbers = [] -> n = 0)
    /\ (numbers <> [] -> n ∈ numbers)
    /\ (forall m, m ∈ numbers -> m <= n).
Proof.
  intros Hout Hlast Hq Hgen k numbers.
  destruct (make_dirs [] k (disk w)) as [d |] eqn:Edirs.
  - destruct (getLastNFTNumber_run outputDir w d Edirs) as (n & Hrun & Hnone & Hsome).
    rewrite Hlast in Hrun. inversion Hrun; subst last wl. clear Hrun.
    assert (Hdeep : forall key, (length k < length key)%nat -> d !! key = disk w !! key).
    { intros key Hlen. apply (make_dirs_deep _ _ _ _ Edirs). cbn [length]. lia. }
    assert (Hsame : forall m,
              m ∈ token_numbers
                    (children d (resolve (cwd w) (path_join [outputDir; "images"])))
              <-> m ∈ numbers).
    { intros m. unfold numbers. fold k. rewrite !elem_of_token_numbers.
      split; intros (file & Hfile & Hrest); exists file; (split; [| exact Hrest]);
        apply elem_of_children; apply elem_of_children in Hfile;
        rewrite Hdeep in * by (rewrite length_app; cbn; lia); exact Hfile. }
    assert (Hnil : forall l : list Z, l = [] <-> forall m, m ∉ l).
    { intros l. split; [intros -> m Hm; now apply elem_of_nil in Hm |].
      destruct l as [| x l]; [reflexivity |]. intros H. exfalso. apply (H x). now left. }
    exists n. split; [reflexivity |]. split; [reflexivity |]. split.
    { intros key. cbn [with_disk disk]. eapply make_dirs_kept; eauto. }
    split; [exact Hdeep |].
    cbv zeta in Hnone, Hsome.
    assert (Hempty : token_numbers
                       (children d (resolve (cwd w) (path_join [outputDir; "images"]))) = []
                     <-> numbers = []).
    { rewrite !Hnil. split; intros H m Hm; apply (H m); now apply Hsame. }
    split; [intros H; now apply Hnone, Hempty |]. split.
    + intros H. apply Hsame, Hsome. intros E. now apply H, Hempty.
    + intros m Hm. apply Hsome; [| now apply Hsame].
      intros E. apply Hempty in E. rewrite E in Hm. now apply elem_of_nil in Hm.
  - exfalso.
    assert (Hd : disk wl = disk w /\ cwd wl = cwd w).
    { unfold getLastNFTNumber, try_catch in Hlast. unfold bind at 1 in Hlast.
      unfold ensureDirSync in Hlast. fold k in Hlast. rewrite Edirs in Hlast.
      destruct (disk w !! k) as [[? |] |];
        cbn [bind console_error console_write ret] in Hlast; inversion Hlast; now split. }
    apply generateNFT_Return_inv in Hgen as (d & _ & _ & Hdirs & _).
    unfold output_dirs in Hdirs. rewrite Hout in Hdirs.
    destruct Hq as (Hd0 & Hc0 & _). destruct Hd as [Hd Hc].
    rewrite Hd0, Hc0, Hd, Hc in Hdirs. fold k in Hdirs. rewrite Edirs in Hdirs. discriminate.
Qed.

Lemma collection_config_outputDir configValid minioConfig wd folderName :
  NFTConfig.outputDir (collection_config configValid minioConfig wd folderName)
  = path_join [wd; "public/collections"; folderName].
Proof. destruct configValid; reflexivity. Qed.

Section CollectionTokens.

Variable png : codec.

Lemma generateNFTForCollection_answers folderName w :
  exists res w', generateNFTForCollection png folderName w = (Return res, w').
Proof. unfold generateNFTForCollection. apply caught_action_answers. Qed.

Lemma generateNFTForCollection_missing folderName w :
  lookup_node (disk w)
    (resolve (cwd w) (path_join [cwd w; "public/collections"; folderName])) = None ->
  generateNFTForCollection png folderName w
  = (Return (GenerationResult.mk false
               ("Collection " +:+ DQ +:+ folderName +:+ DQ +:+ " does not exist.")
               None None None
               (Some ("Directory not found: "
                      +:+ path_join [cwd w; "public/collections"; folderName]))
               None None None None), w).
Proof.
  intros H. unfold generateNFTForCollection, try_catch. unfold bind at 1. cbn [process_cwd].
  unfold bind at 1, existsSync. rewrite H.
  rewrite bool_decide_eq_false_2 by (intros [x Hx]; discriminate). reflexivity.
Qed.

(** What a run of [generateNFTForCollection] that succeeded went through. *)
Lemma generateNFTForCollection_Return_inv folderName w res w' :
  generateNFTForCollection png folderName w = (Return res, w') ->
  GenerationResult.success res = true ->
  let baseOutputDir := path_join [cwd w; "public/collections"; folderName] in
  exists last wl minioConfig configValid w0 g w1 w2,
    is_Some (lookup_node (disk w) (resolve (cwd w) baseOutputDir))
    /\ getLastNFTNumber baseOutputDir w = (Return last, wl)
    /\ getMinioConfig w = (Return minioConfig, w)
    /\ fst (validateMinioConfig minioConfig w) = Return configValid
    /\ quiet wl w0
    /\ generateNFT png (number_succ last)
         (collection_config configValid minioConfig (cwd w) folderName) w0 = (Return g, w1)
    /\ quiet w1 w2
    /\ upload_step configValid
         ("Attempting to upload to MinIO in collection: " +:+ folderName +:+ "...")
         (collection_minio_config minioConfig folderName)
         (Generated.imagePath g) (Generated.metadataPath g) w2
       = (Return (upload_status configValid (collection_minio_config minioConfig folderName)
                    (store w)), w')
    /\ res
       = (let status :=
            upload_status configValid (collection_minio_config minioConfig folderName)
              (store w) in
          GenerationResult.mk true
            ("NFT #" +:+ number_to_string (number_succ last) +:+ " for collection " +:+ DQ
             +:+ folderName +:+ DQ +:+ " generated " +:+ local_message (fst status) +:+ "!")
            (Some (number_succ last))
            (Some ("/collections/" +:+ folderName +:+ "/images/"
                   +:+ number_to_string (number_succ last) +:+ ".png"))
            (Some (fst status)) (Some (snd status)) (Some folderName) None None None).
Proof.
  intros Hrun Hsuccess baseOutputDir. unfold generateNFTForCollection in Hrun.
  apply try_catch_inv_Return in Hrun as [Hrun | (e & w1 & _ & Hh)].
  2:{ unfold bind, console_error, console_write, ret in Hh. inversion Hh; subst res.
      discriminate Hsuccess. }
  apply bind_inv_Return in Hrun as (wd & w0 & Hwd & Hrun). inversion Hwd; subst wd w0. clear Hwd.
  cbv zeta in Hrun. fold baseOutputDir in Hrun.
  apply bind_inv_Return in Hrun as (present & w0 & Hpresent & Hrun).
  unfold existsSync in Hpresent. inversion Hpresent; subst present w0. clear Hpresent.
  destruct (decide (is_Some (lookup_node (disk w) (resolve (cwd w) baseOutputDir))))
    as [Hdir | Hnone].
  2:{ rewrite bool_decide_eq_false_2 in Hrun by exact Hnone. cbn [negb] in Hrun.
      inversion Hrun; subst res. discriminate Hsuccess. }
  rewrite bool_decide_eq_true_2 in Hrun by exact Hdir. cbn [negb] in Hrun.
  apply bind_inv_Return in Hrun as (last & wl & Hlast & Hrun).
  pose proof (frame_getLastNFTNumber (cwd w) [] baseOutputDir w _ wl Hlast eq_refl)
    as [(_ & _ & _ & Henvl & _ & Hstorel) _].
  destruct (configuration_read w wl Henvl)
    as (minioConfig & configValid & w0 & Hcfg & Hval & Hq0 & Hcfg0 & Hval0).
  apply bind_inv_Return in Hrun as (minioConfig' & wl' & Hcfg' & Hrun).
  rewrite Hcfg in Hcfg'. inversion Hcfg'; subst minioConfig' wl'. clear Hcfg'.
  apply bind_inv_Return in Hrun as (configValid' & w0' & Hval' & Hrun).
  rewrite Hval in Hval'. inversion Hval'; subst configValid' w0'. clear Hval'.
  apply bind_inv_Return in Hrun as (g & w1 & Hgen & Hrun).
  change (generateNFT png (number_succ last)
            (collection_config configValid minioConfig (cwd w) folderName) w0
          = (Return g, w1)) in Hgen.
  apply bind_inv_Return in Hrun as ([] & w2 & Hlogm & Hrun).
  destruct (log_metadata_run "=== NEW COLLECTION NFT METADATA ==="
              "==================================" (Generated.metadataPath g) w1)
    as (w2' & H & Hq2 & _).
  rewrite Hlogm in H. inversion H; subst w2'. clear H Hlogm.
  apply bind_inv_Return in Hrun as (upload & w3 & Hup & Hrun).
  fold (collection_minio_config minioConfig folderName) in Hup.
  destruct (upload_step_run configValid
              ("Attempting to upload to MinIO in collection: " +:+ folderName +:+ "...")
              (collection_minio_config minioConfig folderName)
              (Generated.imagePath g) (Generated.metadataPath g) w2) as (w3' & Hup' & _).
  rewrite Hup in Hup'. inversion Hup'; subst upload w3'. clear Hup'.
  assert (Hstore2 : store w2 = store w).
  { pose proof (generateNFT_surroundings _ _ _ _ _ _ Hgen) as (_ & _ & _ & _ & _ & Hs1).
    destruct Hq2 as (_ & _ & _ & _ & _ & _ & ->). rewrite Hs1.
    destruct Hq0 as (_ & _ & _ & _ & _ & _ & ->). exact Hstorel. }
  rewrite Hstore2 in *.
  inversion Hrun; subst res w3. clear Hrun.
  exists last, wl, minioConfig, configValid, w0, g, w1, w2.
  split; [exact Hdir |]. split; [exact Hlast |]. split; [exact Hcfg0 |]. split; [exact Hval0 |].
  split; [exact Hq0 |]. split; [exact Hgen |]. split; [exact Hq2 |]. split; [exact Hup |].
  reflexivity.
Qed.

(** X20. [generateNFTForCollection] always answers with a result.  It
    makes nothing when the folder of the collection is missing from
    [public/collections]: the result is the failure [Collection "<folder>"
    does not exist.] and the world is as it was, the console included.  A
    success comes only from an existing folder, and names it as
    [folderName]. *)
Theorem generateNFTForCollection_needs_the_folder folderName w :
  exists res w',
    generateNFTForCollection png folderName w = (Return res, w')
    /\ (lookup_node (disk w)
          (resolve (cwd w) (path_join [cwd w; "public/collections"; folderName])) = None ->
        w' = w
        /\ res = GenerationResult.mk false
                   ("Collection " +:+ DQ +:+ folderName +:+ DQ +:+ " does not exist.")
                   None None None
                   (Some ("Directory not found: "
                          +:+ path_join [cwd w; "public/collections"; folderName]))
                   None None None None)
    /\ (GenerationResult.success res = true ->
        is_Some (lookup_node (disk w)
                   (resolve (cwd w) (path_join [cwd w; "public/collections"; folderName])))
        /\ GenerationResult.folderName res = Some folderName).
Proof.
  destruct (generateNFTForCollection_answers folderName w) as (res & w' & Hrun).
  exists res, w'. split; [exact Hrun |]. split.
  - intros Hnone. rewrite (generateNFTForCollection_missing _ _ Hnone) in Hrun.
    inversion Hrun. now split.
  - intros Hsuccess.
    destruct (generateNFTForCollection_Return_inv folderName w res w' Hrun Hsuccess)
      as (last & wl & minioConfig & configValid & w0 & g & w1 & w2 & Hdir & _ & _ & _ & _ & _
          & _ & _ & ->).
    split; [exact Hdir | reflexivity].
Qed.

(** X21. The token a successful [generateNFTForCollection] makes takes a
    number that is free, as long as that number is a safe integer (strictly
    between -2^53 and 2^53): it is one more than the largest number read
    off the PNG names of the image directory of the collection, or 1 when
    none gives a number.  No entry of that name was in the image directory
    before the call, so no image of the collection is written over; after
    the call the image is there. *)
Theorem collection_token_takes_a_free_number folderName w res w' n :
  generateNFTForCollection png folderName w = (Return res, w') ->
  GenerationResult.success res = true ->
  GenerationResult.tokenId res = Some (Num n) ->
  safe_integer n ->
  let images :=
    resolve (cwd w)
      (path_join [path_join [cwd w; "public/collections"; folderName]; "images"]) in
  let numbers := token_numbers (children (disk w) images) in
  (forall m, m ∈ numbers -> m < n)
  /\ (numbers = [] -> n = 1)
  /\ (numbers <> [] -> n - 1 ∈ numbers)
  /\ disk w !! (images ++ [number_to_string (Num n) +:+ ".png"]) = None
  /\ exists bytes,
       file_at (disk w') (images ++ [number_to_string (Num n) +:+ ".png"]) = Some bytes.
Proof.
  intros Hrun Hsuccess Hid _ images numbers.
  destruct (generateNFTForCollection_Return_inv folderName w res w' Hrun Hsuccess)
    as (last & wl & minioConfig & configValid & w0 & g & w1 & w2 & _ & Hlast & _ & _ & Hq0
        & Hgen & Hq2 & Hup & ->).
  set (config := collection_config configValid minioConfig (cwd w) folderName) in *.
  pose proof (collection_config_outputDir configValid minioConfig (cwd w) folderName) as Hout.
  fold config in Hout.
  destruct (last_number_before_generation png _ w last wl w0 _ config g w1 Hout Hlast Hq0 Hgen)
    as (n0 & -> & Hcl & _ & _ & Hnone & Hsome & Hmax).
  fold images in Hnone, Hsome, Hmax. fold numbers in Hnone, Hsome, Hmax.
  cbn [number_succ] in *.
  assert (n = n0 + 1) by (cbv zeta in Hid; cbn [GenerationResult.tokenId] in Hid; congruence).
  subst n. clear Hid.
  split; [intros m Hm; apply Hmax in Hm; lia |].
  split; [intros H; rewrite (Hnone H); reflexivity |].
  split; [intros H; replace (n0 + 1 - 1) with n0 by lia; now apply Hsome |].
  destruct (images_and_metadata_dirs (cwd w) config (Num (n0 + 1))) as (Hi & _ & Himg & _).
  cbv zeta in Hi, Himg. rewrite Hout in Hi. fold images in Hi.
  assert (Hkey : resolve (cwd w) (image_path (Num (n0 + 1)) config)
                 = images ++ [number_to_string (Num (n0 + 1)) +:+ ".png"]).
  { rewrite Himg, Hout, Hi, <- app_assoc. reflexivity. }
  split.
  - destruct (disk w !! (images ++ [number_to_string (Num (n0 + 1)) +:+ ".png"]))
      as [entry |] eqn:Eentry; [exfalso | reflexivity].
    destruct (token_file_parses (n0 + 1)) as [Hends Hparse].
    assert (Hin : n0 + 1 ∈ numbers).
    { apply elem_of_token_numbers. exists (number_to_string (Num (n0 + 1)) +:+ ".png").
      split; [apply elem_of_children; rewrite Eentry; eauto |]. split; assumption. }
    apply Hmax in Hin. lia.
  - destruct (disk_after_upload_step _ _ _ _ _ _ _ _ _ _ _ _ Hgen Hq2 Hup)
      as (Hcwd & d & bytes & text & _ & _ & Hdisk).
    assert (Hc0 : cwd w0 = cwd w) by (destruct Hq0 as (_ & -> & _); exact Hcl).
    rewrite Hc0 in Hcwd, Hdisk.
    destruct (generated_files_present (Num (n0 + 1)) config w w' d bytes text Hcwd Hdisk)
      as [Hread _].
    exists bytes. unfold read_back in Hread. rewrite Hcwd, Hkey in Hread. exact Hread.
Qed.

(** The number of the token [generateNFTForCollection] makes in a folder
    where a token has just been generated and uploaded. *)
Lemma next_collection_token folderName config z w0 g wg wq configValid announce minioConfig
    r w1 res2 w2 :
  NFTConfig.outputDir config = path_join [cwd w0; "public/collections"; folderName] ->
  generateNFT png (Num z) config w0 = (Return g, wg) ->
  quiet wg wq ->
  upload_step configValid announce minioConfig (Generated.imagePath g)
    (Generated.metadataPath g) wq = (r, w1) ->
  generateNFTForCollection png folderName w1 = (Return res2, w2) ->
  GenerationResult.success res2 = true ->
  exists n,
    GenerationResult.tokenId res2 = Some (Num (n + 1))
    /\ z <= n
    /\ ((forall m,
           m ∈ token_numbers
                 (children (disk w0)
                    (resolve (cwd w0) (path_join [NFTConfig.outputDir config; "images"]))) ->
           m <= z) ->
        n = z).
Proof.
  intros Hout Hgen Hq Hup Hrun2 Hsuccess2.
  destruct (disk_after_upload_step _ _ _ _ _ _ _ _ _ _ _ _ Hgen Hq Hup)
    as (Hcwd & d & bytes & text & Hdirs & _ & Hdisk).
  destruct (last_number_after_write z config w0 d bytes text w1 Hdirs Hcwd Hdisk)
    as (n & Hlast & Hle & Hexact).
  destruct (generateNFTForCollection_Return_inv folderName w1 res2 w2 Hrun2 Hsuccess2)
    as (last & wl & minioConfig2 & configValid2 & w3 & g2 & w4 & w5 & _ & Hlast2 & _ & _ & _
        & _ & _ & _ & ->).
  rewrite Hcwd, <- Hout, Hlast in Hlast2. inversion Hlast2; subst last wl. clear Hlast2.
  exists n. split; [reflexivity |]. split; [exact Hle | exact Hexact].
Qed.

(** X22. Two successful calls of [generateNFTForCollection] in a row for the
    same folder make consecutive tokens, as long as the first number is a
    safe integer (strictly between -2^53 and 2^53): the second call finds
    the image the first one wrote and takes the next number. *)
Theorem collection_tokens_are_consecutive folderName w res1 w1 res2 w2 n :
  generateNFTForCollection png folderName w = (Return res1, w1) ->
  GenerationResult.success res1 = true ->
  GenerationResult.tokenId res1 = Some (Num n) ->
  safe_integer n ->
  generateNFTForCollection png folderName w1 = (Return res2, w2) ->
  GenerationResult.success res2 = true ->
  GenerationResult.tokenId res2 = Some (Num (n + 1)).
Proof.
  intros Hrun1 Hsuccess1 Hid1 _ Hrun2 Hsuccess2.
  destruct (generateNFTForCollection_Return_inv folderName w res1 w1 Hrun1 Hsuccess1)
    as (last & wl & minioConfig & configValid & w0 & g & wg & wq & _ & Hlast & _ & _ & Hq0
        & Hgen & Hq & Hup & ->).
  set (config := collection_config configValid minioConfig (cwd w) folderName) in *.
  pose proof (collection_config_outputDir configValid minioConfig (cwd w) folderName) as Hout.
  fold config in Hout.
  destruct (last_number_before_generation png _ w last wl w0 _ config g wg Hout Hlast Hq0 Hgen)
    as (n0 & -> & Hcl & _ & Hdeep & _ & _ & Hmax).
  cbn [number_succ] in *.
  assert (n = n0 + 1) by (cbv zeta in Hid1; cbn [GenerationResult.tokenId] in Hid1; congruence).
  subst n. clear Hid1.
  assert (Hc0 : cwd w0 = cwd w) by (destruct Hq0 as (_ & -> & _); exact Hcl).
  assert (Hout0 : NFTConfig.outputDir config
                  = path_join [cwd w0; "public/collections"; folderName])
    by (rewrite Hc0; exact Hout).
  destruct (next_collection_token folderName config (n0 + 1) w0 g wg wq configValid _ _ _ w1
              res2 w2 Hout0 Hgen Hq Hup Hrun2 Hsuccess2) as (n2 & Hid2 & _ & Hexact).
  rewrite Hid2, Hexact; [reflexivity |].
  intros m Hm. rewrite Hc0, Hout in Hm.
  assert (Hin : m ∈ token_numbers
                      (children (disk w)
                         (resolve (cwd w)
                            (path_join [path_join [cwd w; "public/collections"; folderName];
                                        "images"])))).
  { apply elem_of_token_numbers in Hm as (file & Hfile & Hrest).
    apply elem_of_token_numbers. exists file. split; [| exact Hrest].
    apply elem_of_children. apply elem_of_children in Hfile.
    destruct Hq0 as (Hd0 & _). rewrite Hd0, Hdeep in Hfile by (rewrite length_app; cbn; lia).
    exact Hfile. }
  apply Hmax in Hin. lia.
Qed.

End CollectionTokens.

Lemma collection_token_takes_a_free_number_witness :
  exists res,
    fst (generateNFTForCollection demo_codec "my-dogs" demo_world_collection) = Return res
    /\ GenerationResult.tokenId res = Some (Num 2)
    /\ disk demo_world_collection
       !! ["app"; "public"; "collections"; "my-dogs"; "images"; "2.png"] = None
    /\ exists bytes,
         file_at (disk (snd (generateNFTForCollection demo_codec "my-dogs"
                               demo_world_collection)))
           ["app"; "public"; "collections"; "my-dogs"; "images"; "2.png"] = Some bytes.
Proof.
  pose (res := match fst (generateNFTForCollection demo_codec "my-dogs"
                            demo_world_collection) with
               | Return res => res
               | Throw _ => GenerationResult.mk false "" None None None None None None None None
               end).
  assert (H : fst (generateNFTForCollection demo_codec "my-dogs" demo_world_collection)
              = Return res) by (vm_compute; reflexivity).
  assert (Hsuccess : GenerationResult.success res = true) by (vm_compute; reflexivity).
  assert (Hid : GenerationResult.tokenId res = Some (Num 2)) by (vm_compute; reflexivity).
  assert (Hsafe : safe_integer 2) by (unfold safe_integer; lia).
  destruct (collection_token_takes_a_free_number demo_codec "my-dogs" demo_world_collection
              res _ 2
              (run_eq (generateNFTForCollection demo_codec "my-dogs") demo_world_collection
                 (Return res) H)
              Hsuccess Hid Hsafe) as (_ & _ & _ & Hfree & Hthere).
  exists res. split; [exact H |]. split; [exact Hid |]. split; [exact Hfree |].
  exact Hthere.
Defined.

Lemma collection_tokens_are_consecutive_witness :
  exists res1 res2,
    fst (generateNFTForCollection demo_codec "my-dogs" demo_world_collection) = Return res1
    /\ fst (generateNFTForCollection demo_codec "my-dogs"
              (snd (generateNFTForCollection demo_codec "my-dogs" demo_world_collection)))
       = Return res2
    /\ GenerationResult.tokenId res1 = Some (Num 2)
    /\ GenerationResult.tokenId res2 = Some (Num 3).
Proof.
  pose (blank := GenerationResult.mk false "" None None None None None None None None).
  pose (res1 := match fst (generateNFTForCollection demo_codec "my-dogs"
                             demo_world_collection) with
                | Return res => res
                | Throw _ => blank
                end).
  pose (res2 := match fst (generateNFTForCollection demo_codec "my-dogs"
                             (snd (generateNFTForCollection demo_codec "my-dogs"
                                     demo_world_collection))) with
                | Return res => res
                | Throw _ => blank
                end).
  assert (H1 : fst (generateNFTForCollection demo_codec "my-dogs" demo_world_collection)
               = Return res1) by (vm_compute; reflexivity).
  assert (H2 : fst (generateNFTForCollection demo_codec "my-dogs"
                      (snd (generateNFTForCollection demo_codec "my-dogs"
                              demo_world_collection)))
               = Return res2) by (vm_compute; reflexivity).
  assert (Hsuccess1 : GenerationResult.success res1 = true) by (vm_compute; reflexivity).
  assert (Hsuccess2 : GenerationResult.success res2 = true) by (vm_compute; reflexivity).
  assert (Hid1 : GenerationResult.tokenId res1 = Some (Num 2)) by (vm_compute; reflexivity).
  assert (Hsafe : safe_integer 2) by (unfold safe_integer; lia).
  pose proof (collection_tokens_are_consecutive demo_codec "my-dogs" demo_world_collection
                res1 _ res2 _ 2
                (run_eq (generateNFTForCollection demo_codec "my-dogs") demo_world_collection
                   (Return res1) H1)
                Hsuccess1 Hid1 Hsafe
                (run_eq (generateNFTForCollection demo_codec "my-dogs")
                   (snd (generateNFTForCollection demo_codec "my-dogs"
                           demo_world_collection))
                   (Return res2) H2)
                Hsuccess2) as Hid2.
  exists res1, res2. split; [exact H1 |]. split; [exact H2 |].
  split; [exact Hid1 | exact Hid2].
Defined.

(** ** A collection from its creation on *)

Lemma output_dirs_deep config w d :
  output_dirs config w = Some d ->
  forall key,
    (length (resolve (cwd w) (path_join [NFTConfig.outputDir config; "images"]))
     < length key)%nat ->
    d !! key = disk w !! key.
Proof.
  intros Hdirs key Hlen. unfold output_dirs in Hdirs.
  destruct (images_and_metadata_dirs (cwd w) config (Num 0)) as (Hi & Hm & _).
  cbv zeta in Hi, Hm. rewrite Hi in *. rewrite Hm in Hdirs.
  destruct (make_dirs [] _ (disk w)) as [d1 |] eqn:E1; [| discriminate].
  rewrite (make_dirs_deep _ _ _ _ Hdirs) by (rewrite length_app in *; cbn in *; lia).
  apply (make_dirs_deep _ _ _ _ E1). cbn [length]. lia.
Qed.

Section CollectionFromCreation.

Variable png : codec.

(** X23. A collection that [createNewCollection] has just started continues
    after its first token: a successful [generateNFTForCollection] for the
    folder name the creation returned makes a token numbered 2 or more, and
    exactly 2 when the image directory of the folder held no PNG name read
    as a number above 1 before the creation. *)
Theorem created_collection_continues_after_its_first_token collectionName w res1 w1 res2 w2 :
  createNewCollection png collectionName w = (Return res1, w1) ->
  GenerationResult.success res1 = true ->
  generateNFTForCollection png (folder_name_of collectionName) w1 = (Return res2, w2) ->
  GenerationResult.success res2 = true ->
  exists n,
    GenerationResult.folderName res1 = Some (folder_name_of collectionName)
    /\ GenerationResult.tokenId res2 = Some (Num n)
    /\ 2 <= n
    /\ ((forall m,
           m ∈ token_numbers
                 (children (disk w)
                    (collection_key (cwd w) (folder_name_of collectionName) ["images"])) ->
           m <= 1) ->
        n = 2).
Proof.
  intros Hrun1 Hsuccess1 Hrun2 Hsuccess2.
  destruct (createNewCollection_Return_inv png collectionName w res1 w1 Hrun1 Hsuccess1)
    as (d & wa & g & wg & wq & minioConfig & configValid & Hfolder & Hout & Hqa & Hgen & Hq
        & _ & _ & Hup & ->).
  set (config := new_collection_config (cwd w) collectionName) in *.
  set (folderName := folder_name_of collectionName) in *.
  assert (Hca : cwd wa = cwd w) by apply Hqa.
  assert (Hda : disk wa = d) by apply Hqa.
  assert (Hdir : NFTConfig.outputDir config
                 = path_join [cwd wa; "public/collections"; folderName])
    by (rewrite Hca; reflexivity).
  destruct (next_collection_token png folderName config 1 wa g wg wq configValid _ _ _ w1
              res2 w2 Hdir Hgen Hq Hup Hrun2 Hsuccess2) as (n & Hid2 & Hle & Hexact).
  exists (n + 1). split; [reflexivity |]. split; [exact Hid2 |]. split; [lia |].
  intros Hbefore. rewrite Hexact; [reflexivity |].
  intros m Hm. apply Hbefore. rewrite Hca, Hda in Hm.
  destruct (images_and_metadata_dirs (cwd w) config (Num 0)) as (Hi & _).
  cbv zeta in Hi.
  assert (Hkey : resolve (cwd w) (path_join [NFTConfig.outputDir config; "images"])
                 = collection_key (cwd w) folderName ["images"]).
  { rewrite Hi. unfold config, new_collection_config.
    cbn [NFTConfig.outputDir with_outputDir]. fold folderName.
    rewrite resolve_path_join_one.
    change [cwd w; "public/collections"; folderName]
      with ([cwd w; "public/collections"] ++ [folderName]).
    rewrite (resolve_path_join_snoc (cwd w) [cwd w; "public/collections"] folderName
               (folder_name_plain _ Hfolder)).
    unfold collection_key. now rewrite <- app_assoc. }
  apply elem_of_token_numbers in Hm as (file & Hfile & Hrest).
  apply elem_of_token_numbers. exists file. split; [| exact Hrest].
  apply elem_of_children. apply elem_of_children in Hfile.
  rewrite (output_dirs_deep config w d Hout) in Hfile by (rewrite length_app; cbn; lia).
  rewrite <- Hkey. exact Hfile.
Qed.

End CollectionFromCreation.

Lemma created_collection_continues_after_its_first_token_witness :
  exists res2,
    fst (generateNFTForCollection demo_codec "my-dogs" demo_world_collection) = Return res2
    /\ GenerationResult.tokenId res2 = Some (Num 2).
Proof.
  pose (blank := GenerationResult.mk false "" None None None None None None None None).
  pose (res1 := match fst (createNewCollection demo_codec "My Dogs!" demo_world) with
                | Return res => res
                | Throw _ => blank
                end).
  pose (res2 := match fst (generateNFTForCollection demo_codec "my-dogs"
                             demo_world_collection) with
                | Return res => res
                | Throw _ => blank
                end).
  assert (H1 : fst (createNewCollection demo_codec "My Dogs!" demo_world) = Return res1)
    by (vm_compute; reflexivity).
  assert (H2 : fst (generateNFTForCollection demo_codec (folder_name_of "My Dogs!")
                      demo_world_collection) = Return res2)
    by (vm_compute; reflexivity).
  assert (Hsuccess1 : GenerationResult.success res1 = true) by (vm_compute; reflexivity).
  assert (Hsuccess2 : GenerationResult.success res2 = true) by (vm_compute; reflexivity).
  destruct (created_collection_continues_after_its_first_token demo_codec "My Dogs!"
              demo_world res1 _ res2 _
              (run_eq (createNewCollection demo_codec "My Dogs!") demo_world (Return res1) H1)
              Hsuccess1
              (run_eq (generateNFTForCollection demo_codec (folder_name_of "My Dogs!"))
                 demo_world_collection (Return res2) H2)
              Hsuccess2)
    as (n & _ & Hid & _ & Hexact).
  exists res2. split; [vm_compute; reflexivity |]. rewrite Hid, Hexact; [reflexivity |].
  intros m Hm. exfalso.
  assert (E : token_numbers
                (children (disk demo_world)
                   (collection_key (cwd demo_world) (folder_name_of "My Dogs!") ["images"]))
              = []) by (vm_compute; reflexivity).
  rewrite E in Hm. now apply elem_of_nil in Hm.
Defined.


(** ** The image reference after an upload *)

Lemma writable_snoc d k x :
  writable d (k ++ [x])
  = match lookup_node d k, lookup_node d (k ++ [x]) with
    | Some Dir, Some Dir => false
    | Some Dir, _ => true
    | _, _ => false
    end.
Proof.
  unfold writable. rewrite parent_snoc.
  destruct (k ++ [x]) as [| seg rest] eqn:E; [| reflexivity].
  symmetry in E. now apply app_cons_not_nil in E.
Qed.

(** The metadata file of a generated token can be written again. *)
Lemma metadata_file_writable tokenId config w d bytes text :
  output_dirs config w = Some d ->
  writable
    (<[resolve (cwd w) (metadata_path tokenId config) := File text]>
       (<[resolve (cwd w) (image_path tokenId config) := File bytes]> d))
    (resolve (cwd w) (metadata_path tokenId config)) = true.
Proof.
  intros Hdirs.
  destruct (images_and_metadata_dirs (cwd w) config tokenId) as (_ & Hm & Himg & Hmeta).
  cbv zeta in Hm, Himg, Hmeta.
  set (base := resolve (cwd w) (path_join [NFTConfig.outputDir config])) in *.
  rewrite Himg, Hmeta.
  assert (Hdir : d !! (base ++ ["metadata"]) = Some Dir).
  { unfold output_dirs in Hdirs. rewrite Hm in Hdirs.
    destruct (make_dirs [] _ (disk w)) as [d1 |]; [| discriminate].
    apply make_dirs_lookup_node in Hdirs. now rewrite lookup_node_snoc in Hdirs. }
  change (base ++ ["metadata"; number_to_string tokenId +:+ ".json"])
    with (base ++ ["metadata"] ++ [number_to_string tokenId +:+ ".json"]).
  rewrite app_assoc, writable_snoc.
  rewrite lookup_node_snoc, lookup_node_snoc, lookup_insert_eq.
  rewrite !lookup_insert_ne, Hdir; [reflexivity | |];
    intros E; apply (f_equal (@length string)) in E; rewrite !length_app in E; cbn in E; lia.
Qed.

(** What [absolutize_image] does to a metadata file that holds the text of
    a metadata object and can be written. *)
Lemma absolutize_image_run config metadataPath imageFilename w m :
  read_back w metadataPath = Some (JSON_stringify (metadata_json m)) ->
  writable (disk w) (resolve (cwd w) metadataPath) = true ->
  NFTMetadata.image m <> "" ->
  exists w',
    absolutize_image config metadataPath imageFilename w = (Return tt, w')
    /\ cwd w' = cwd w
    /\ disk w'
       = if startsWith (NFTMetadata.image m) "http" then disk w
         else <[resolve (cwd w) metadataPath :=
                  File (JSON_stringify
                          (metadata_json (with_image (upload_url config imageFilename) m))
                        +:+ LF)]> (disk w).
Proof.
  intros Hread Hwritable Himage.
  assert (Hfile : lookup_node (disk w) (resolve (cwd w) metadataPath)
                  = Some (File (JSON_stringify (metadata_json m)))).
  { unfold read_back, file_at in Hread. unfold writable in Hwritable.
    destruct (resolve (cwd w) metadataPath) as [| seg rest]; [discriminate |].
    cbn [lookup_node]. destruct (disk w !! (seg :: rest)) as [[data |] |]; congruence. }
  assert (Hparse : JSON_parse (stripBom (JSON_stringify (metadata_json m)))
                   = Some (metadata_json m)).
  { rewrite <- (append_nil_r (JSON_stringify _)). now apply metadata_round_trip. }
  set (after := if startsWith (NFTMetadata.image m) "http" then _ else _).
  unfold absolutize_image, try_catch, readJson. unfold bind at 1. unfold bind at 1.
  unfold readFileSync. rewrite Hfile, Hparse. cbn [ret]. unfold metadata_json. cbv iota beta.
  change (obj_get "image" _) with (Some (JString (NFTMetadata.image m))).
  cbv iota beta. unfold after. clear after.
  destruct (String.eqb_spec (NFTMetadata.image m) "") as [E | _]; [contradiction |].
  cbn [negb andb].
  destruct (startsWith (NFTMetadata.image m) "http"); cbn [negb].
  - exists w. repeat split.
  - unfold bind at 1, writeJson.
    destruct (writeFileSync_spec metadataPath
                (JSON_stringify
                   (JObject (obj_set "image"
                               (JString ("https://" +:+ MinioConfig.endPoint config +:+ "/"
                                         +:+ MinioConfig.bucketName config +:+ "/images/"
                                         +:+ imageFilename))
                               [("name", JString (NFTMetadata.name m));
                                ("description", JString (NFTMetadata.description m));
                                ("image", JString (NFTMetadata.image m));
                                ("attributes",
                                 JArray (map attribute_json (NFTMetadata.attributes m)));
                                ("timestamp", JString (NFTMetadata.timestamp m))]))
                 +:+ LF) w) as [[_ Hrun] | [Hno _]]; [| congruence].
    rewrite Hrun. cbn [console_log console_write]. eexists. split; [reflexivity |].
    split; reflexivity.
Qed.

Lemma image_reference_nonempty tokenId config : image_reference tokenId config <> "".
Proof.
  unfold image_reference.
  destruct (truthy (NFTConfig.s3Endpoint config) && truthy (NFTConfig.s3BucketName config)).
  - change ("https://" +:+ ?rest) with (String "h"%char ("ttps://" +:+ rest)). discriminate.
  - apply append_nonempty. discriminate.
Qed.

Section ImageAfterUpload.

Variable png : codec.

(** X24. The upload settles which image reference the metadata file of a
    generated pair holds.  When [uploadNFTToMinio] gets its connection to
    the object store and the reference [generateNFT] wrote does not start
    with [http], the file holds afterwards the URL
    [https://<endPoint>/<bucketName>/images/<tokenId>.png] of the upload
    configuration, whether or not the two objects were then stored.  In
    every other case, without a connection or with a reference that was
    absolute already, it holds the reference as [generateNFT] wrote it. *)
Theorem upload_settles_the_image_reference tokenId config w g w1 minioConfig r w2 :
  generateNFT png tokenId config w = (Return g, w1) ->
  uploadNFTToMinio minioConfig (Generated.imagePath g) (Generated.metadataPath g) w1
  = (r, w2) ->
  stored_image w2 (Generated.metadataPath g)
  = Some (JString
            (if connects minioConfig (store w1)
                && negb (startsWith (NFTMetadata.image (Generated.metadata g)) "http")
             then upload_url minioConfig (number_to_string tokenId +:+ ".png")
             else NFTMetadata.image (Generated.metadata g))).
Proof.
  intros Hgen Hup.
  apply generateNFT_Return_inv in Hgen
    as (d & attributes & w0 & Hout & _ & _ & -> & Hdisk & Hcwd).
  cbn [Generated.imagePath Generated.metadataPath Generated.metadata] in *.
  set (m := metadata_of tokenId config attributes (clock w)) in *.
  destruct (generated_files_present tokenId config w w1 d _ _ Hcwd Hdisk) as [_ Hread1].
  assert (Hparse : JSON_parse (stripBom (JSON_stringify (metadata_json m)))
                   = Some (metadata_json m)).
  { rewrite <- (append_nil_r (JSON_stringify _)). now apply metadata_round_trip. }
  assert (Hsame : forall w', disk w' = disk w1 -> cwd w' = cwd w1 ->
            stored_image w' (metadata_path tokenId config)
            = Some (JString (NFTMetadata.image m))).
  { intros w' Hd Hc. unfold stored_image.
    replace (read_back w' (metadata_path tokenId config))
      with (read_back w1 (metadata_path tokenId config))
      by (unfold read_back; now rewrite Hd, Hc).
    rewrite Hread1, Hparse. reflexivity. }
  destruct (uploadNFTToMinio_run minioConfig (image_path tokenId config)
              (metadata_path tokenId config) w1) as [Hyes Hno].
  destruct (connects minioConfig (store w1)).
  2:{ destruct (Hno eq_refl) as (w' & Hrun & Hq & _). rewrite Hup in Hrun.
      inversion Hrun; subst w'. cbn [andb]. apply Hsame; apply Hq. }
  clear Hno.
  destruct (Hyes eq_refl)
    as (client & wa & url1 & wb & wc & url2 & wd & w' & Hqa & _ & Hup1 & Habs & Hup2 & Hrun
        & Hq & _).
  rewrite Hup in Hrun. inversion Hrun; subst w'. clear Hrun Hyes.
  apply keeps_uploadToMinio in Hup1 as [Hdb Hcb].
  apply keeps_uploadToMinio in Hup2 as [Hdd Hcd].
  destruct Hqa as (Hda & Hca & _). destruct Hq as (Hd2 & Hc2 & _).
  assert (Hdisk_b : disk wb = disk w1) by congruence.
  assert (Hcwd_b : cwd wb = cwd w1) by congruence.
  destruct (absolutize_image_run minioConfig (metadata_path tokenId config)
              (path_basename (image_path tokenId config)) wb m)
    as (wc' & Habs' & Hcc & Hdc).
  { unfold read_back. rewrite Hdisk_b, Hcwd_b. exact Hread1. }
  { rewrite Hdisk_b, Hcwd_b, Hcwd, Hdisk. now apply metadata_file_writable. }
  { apply image_reference_nonempty. }
  rewrite Habs in Habs'. inversion Habs'; subst wc'. clear Habs'.
  cbn [andb]. destruct (startsWith (NFTMetadata.image m) "http"); cbn [negb].
  - apply Hsame; congruence.
  - destruct (generated_paths tokenId config) as (Hbase & _). rewrite Hbase in Hdc.
    unfold stored_image, read_back, file_at.
    replace (disk w2) with (disk wc) by congruence.
    replace (cwd w2) with (cwd wb) by congruence.
    rewrite Hdc, lookup_insert_eq.
    rewrite (metadata_round_trip
               (with_image (upload_url minioConfig (number_to_string tokenId +:+ ".png")) m)
               LF eq_refl).
    reflexivity.
Qed.

End ImageAfterUpload.

Lemma upload_settles_the_image_reference_witness :
  stored_image (snd demo_collection_upload) (snd demo_collection_files)
  = Some (JString "https://minio.example.com/nft-collection/collections/dogs/images/1.png").
Proof.
  pose (g := match fst demo_collection_run with
             | Return g => g
             | Throw _ => Generated.mk "" "" (NFTMetadata.mk "" "" "" [] "")
             end).
  assert (Hrun : generateNFT demo_codec (Num 1) demo_collection_config demo_world_s3
                 = (Return g, snd demo_collection_run)).
  { apply (run_eq (generateNFT demo_codec (Num 1) demo_collection_config) demo_world_s3).
    vm_compute. reflexivity. }
  assert (Hfiles : demo_collection_files = (Generated.imagePath g, Generated.metadataPath g)).
  { vm_compute. reflexivity. }
  assert (Hup : uploadNFTToMinio demo_minio_config (Generated.imagePath g)
                  (Generated.metadataPath g) (snd demo_collection_run)
                = (fst demo_collection_upload, snd demo_collection_upload)).
  { unfold demo_collection_upload. rewrite Hfiles. cbn [fst snd].
    now destruct (uploadNFTToMinio _ _ _ _). }
  pose proof (upload_settles_the_image_reference demo_codec (Num 1) demo_collection_config
                demo_world_s3 g (snd demo_collection_run) demo_minio_config
                (fst demo_collection_upload) (snd demo_collection_upload) Hrun Hup) as H.
  assert (Hconnects : connects demo_minio_config (store (snd demo_collection_run)) = true)
    by (vm_compute; reflexivity).
  assert (Himage : NFTMetadata.image (Generated.metadata g) = "1.png")
    by (vm_compute; reflexivity).
  rewrite Hfiles. cbn [snd]. rewrite H, Hconnects, Himage. reflexivity.
Defined.
